(** * Browser chess engine: rules, game state, evaluator and search

    A shallow embedding of the engine's JavaScript sources (Board.js, Move.js,
    Rules.js, GameState.js, Evaluator.js, AI.js, Game.js) and the properties
    established about them.

    Conventions of the embedding.
    - A piece code such as "wP" is a [Piece]: a colour and a piece type.
    - The board is a JavaScript array read by index; a cell holding [null]
      or [undefined] is [None].
    - A square is the two-character string the sources pass around.
    - A JavaScript exception is [Err]; see [exn] for the three cases in
      which the embedding itself stops instead.
    - [Date.now()] and [Math.random()] are oracles threaded through the
      search as explicit state. *)

From Stdlib Require Import ZArith List String Ascii Lia Bool DecimalString.
From Stdlib Require Import Permutation.
Import ListNotations.
Open Scope string_scope.
Open Scope list_scope.
Open Scope Z_scope.

Set Implicit Arguments.

(* ================================================================== *)
(** ** Results of fallible code *)

Inductive exn : Type :=
| InvalidSquare (sq : string)  (* Board.js: throw new Error(`Invalid square: ...`) *)
| TypeError                    (* property access on null / undefined *)
| NaNIndex                     (* not an exception: the script computes NaN as a
                                  board index; the embedding stops there *)
| WideChar                     (* not an exception: a character code outside
                                  0..255; strings here are byte strings *)
| OutOfFuel.                   (* not an exception: the recursion bound of the
                                  embedding was reached *)

Inductive Res (A : Type) : Type :=
| Ok (a : A)
| Err (e : exn).

Arguments Ok {A} a.
Arguments Err {A} e.

Definition rbind {A B} (r : Res A) (k : A -> Res B) : Res B :=
  match r with
  | Ok a => k a
  | Err e => Err e
  end.

Declare Scope result_scope.
Delimit Scope result_scope with res.
Notation "x <- c ;; k" := (rbind c (fun x => k))
  (at level 61, c at next level, right associativity) : result_scope.
Notation "' pat <- c ;; k" := (rbind c (fun x => match x with pat => k end))
  (at level 61, pat pattern, c at next level, right associativity) : result_scope.

(* ================================================================== *)
(** ** Pieces, colours, boards *)

Inductive Color : Type := white | black.

Inductive PieceType : Type := P | N | B | R | Q | K.

Record Piece : Type := mkPiece { pcolor : Color; ptype : PieceType }.

Definition Color_eqb (a b : Color) : bool :=
  match a, b with
  | white, white | black, black => true
  | _, _ => false
  end.

Definition PieceType_eqb (a b : PieceType) : bool :=
  match a, b with
  | P, P | N, N | B, B | R, R | Q, Q | K, K => true
  | _, _ => false
  end.

Definition Piece_eqb (a b : Piece) : bool :=
  Color_eqb (pcolor a) (pcolor b) && PieceType_eqb (ptype a) (ptype b).

Definition wP := mkPiece white P.
Definition wN := mkPiece white N.
Definition wB := mkPiece white B.
Definition wR := mkPiece white R.
Definition wQ := mkPiece white Q.
Definition wK := mkPiece white K.
Definition bP := mkPiece black P.
Definition bN := mkPiece black N.
Definition bB := mkPiece black B.
Definition bR := mkPiece black R.
Definition bQ := mkPiece black Q.
Definition bK := mkPiece black K.

(** A JavaScript array of piece codes.  Reading outside the array, or at
    a negative index, yields [undefined]; writing at a negative index sets
    a property and no element; writing past the end extends the array. *)
Definition Board : Type := list (option Piece).

Definition getB (b : Board) (i : Z) : option Piece :=
  if i <? 0 then None else nth (Z.to_nat i) b None.

Fixpoint setNth (b : Board) (n : nat) (v : option Piece) : Board :=
  match n, b with
  | O, [] => [v]
  | O, _ :: t => v :: t
  | S n', [] => None :: setNth [] n' v
  | S n', x :: t => x :: setNth t n' v
  end.

Definition setB (b : Board) (i : Z) (v : option Piece) : Board :=
  if i <? 0 then b else setNth b (Z.to_nat i) v.

(** The letter of a piece type, as the second character of a piece code. *)
Definition typeLetter (t : PieceType) : string :=
  match t with
  | P => "P" | N => "N" | B => "B" | R => "R" | Q => "Q" | K => "K"
  end.

Definition pieceCode (p : Piece) : string :=
  ((match pcolor p with white => "w" | black => "b" end) ++ typeLetter (ptype p))%string.

Definition Z_to_string (z : Z) : string := NilZero.string_of_int (Z.to_int z).

(* ================================================================== *)
(** ** Board.js *)

Definition FILES : list ascii :=
  ["a"; "b"; "c"; "d"; "e"; "f"; "g"; "h"]%char.

Definition frToIndex (file rank : Z) : Z := rank * 8 + file.

(** [index % 8] is the truncating remainder, [Math.floor(index / 8)] the
    floor quotient. *)
Definition indexToFR (index : Z) : Z * Z := (Z.rem index 8, index / 8).

Definition fileName (file : Z) : string :=
  if (file <? 0) then "undefined"
  else match nth_error FILES (Z.to_nat file) with
       | Some c => String c EmptyString
       | None => "undefined"
       end.

Definition indexToAlgebraic (index : Z) : string :=
  let '(file, rank) := indexToFR index in
  (fileName file ++ Z_to_string (rank + 1))%string.

Fixpoint indexOfFrom (l : list ascii) (c : ascii) (i : Z) : Z :=
  match l with
  | [] => -1
  | x :: t => if Ascii.eqb x c then i else indexOfFrom t c (i + 1)
  end.

(** [Number(ch)] for a one-character string: a digit is its value, a
    white-space character is 0, anything else is NaN ([None]). *)
Definition NumberOfChar (c : ascii) : option Z :=
  let n := Z.of_nat (nat_of_ascii c) in
  if (48 <=? n) && (n <=? 57) then Some (n - 48)
  else if (n =? 9) || (n =? 10) || (n =? 11) || (n =? 12) || (n =? 13)
          || (n =? 32) || (n =? 160) then Some 0
  else None.

Definition algebraicToIndex (sq : string) : Res Z :=
  match sq with
  | String fileChar (String rankChar EmptyString) =>
      let file := indexOfFrom FILES fileChar 0 in
      match NumberOfChar rankChar with
      | Some n =>
          let rank := n - 1 in
          if (file <? 0) || (rank <? 0) || (rank >? 7)
          then Err (InvalidSquare sq)
          else Ok (frToIndex file rank)
      | None =>
          (* rank is NaN: both rank comparisons are false *)
          if file <? 0 then Err (InvalidSquare sq) else Err NaNIndex
      end
  | _ => Err (InvalidSquare sq)
  end.

Definition getColorOf (piece : option Piece) : option Color :=
  match piece with
  | None => None
  | Some p => Some (pcolor p)
  end.

Definition oppositeColor (color : Color) : Color :=
  match color with
  | white => black
  | black => white
  end.

Definition cloneBoard (board : Board) : Board := board.

Definition place (b : Board) (square : string) (piece : Piece) : Res Board :=
  (i <- algebraicToIndex square ;; Ok (setB b i (Some piece)))%res.

Fixpoint placeAll (b : Board) (l : list (string * Piece)) : Res Board :=
  match l with
  | [] => Ok b
  | (sq, p) :: t => (b' <- place b sq p ;; placeAll b' t)%res
  end.

Definition createStartingBoard : Res Board :=
  placeAll (repeat None 64)
    ([("a1", wR); ("h1", wR); ("b1", wN); ("g1", wN); ("c1", wB); ("f1", wB);
      ("d1", wQ); ("e1", wK)]
     ++ map (fun f => (String f "2", wP)) FILES
     ++ [("a8", bR); ("h8", bR); ("b8", bN); ("g8", bN); ("c8", bB); ("f8", bB);
         ("d8", bQ); ("e8", bK)]
     ++ map (fun f => (String f "7", bP)) FILES).

(** A plain object used as a record from strings to values: its own
    properties in insertion order. *)
Definition JsObject (V : Type) : Type := list (string * V).

Fixpoint objGet {V} (o : JsObject V) (k : string) : option V :=
  match o with
  | [] => None
  | (k', v) :: t => if String.eqb k' k then Some v else objGet t k
  end.

Fixpoint objSet {V} (o : JsObject V) (k : string) (v : V) : JsObject V :=
  match o with
  | [] => [(k, v)]
  | (k', v') :: t =>
      if String.eqb k' k then (k', v) :: t else (k', v') :: objSet t k v
  end.

Fixpoint boardToMapLoop (board : Board) (i : Z) (n : nat)
  (map : JsObject (option Piece)) : JsObject (option Piece) :=
  match n with
  | O => map
  | S n' =>
      boardToMapLoop board (i + 1) n'
        (objSet map (indexToAlgebraic i) (getB board i))
  end.

Definition boardToMap (board : Board) : JsObject (option Piece) :=
  boardToMapLoop board 0 64 [].

(* ================================================================== *)
(** ** Evaluator.js *)

Module Evaluator.

Definition PIECE_VALUES (t : PieceType) : Z :=
  match t with
  | P => 100 | N => 320 | B => 330 | R => 500 | Q => 900 | K => 0
  end.

Definition PST_PAWN : list Z :=
  [  0;  0;  0;  0;  0;  0;  0;  0;
    40; 50; 50; 60; 60; 50; 50; 40;
    10; 10; 20; 35; 35; 20; 10; 10;
     5;  5; 10; 25; 25; 10;  5;  5;
     0;  0;  5; 20; 20;  5;  0;  0;
     5; -5;-10;  0;  0;-10; -5;  5;
     5; 10; 10;-20;-20; 10; 10;  5;
     0;  0;  0;  0;  0;  0;  0;  0 ].

Definition PST_KNIGHT : list Z :=
  [ -50;-40;-30;-30;-30;-30;-40;-50;
    -40;-20;  0;  0;  0;  0;-20;-40;
    -30;  0; 10; 15; 15; 10;  0;-30;
    -30;  5; 15; 20; 20; 15;  5;-30;
    -30;  0; 15; 20; 20; 15;  0;-30;
    -30;  5; 10; 15; 15; 10;  5;-30;
    -40;-20;  0;  5;  5;  0;-20;-40;
    -50;-40;-30;-30;-30;-30;-40;-50 ].

Definition PST_BISHOP : list Z :=
  [ -20;-10;-10;-10;-10;-10;-10;-20;
    -10;  5;  0;  0;  0;  0;  5;-10;
    -10; 10; 10; 10; 10; 10; 10;-10;
    -10;  0; 10; 10; 10; 10;  0;-10;
    -10;  5;  5; 10; 10;  5;  5;-10;
    -10;  0;  5; 10; 10;  5;  0;-10;
    -10;  0;  0;  0;  0;  0;  0;-10;
    -20;-10;-10;-10;-10;-10;-10;-20 ].

Definition PST_ROOK : list Z :=
  [  0;  0;  5; 10; 10;  5;  0;  0;
    -5;  0;  0;  0;  0;  0;  0; -5;
    -5;  0;  0;  0;  0;  0;  0; -5;
    -5;  0;  0;  0;  0;  0;  0; -5;
    -5;  0;  0;  0;  0;  0;  0; -5;
    -5;  0;  0;  0;  0;  0;  0; -5;
     5; 10; 10; 10; 10; 10; 10;  5;
     0;  0;  0;  0;  0;  0;  0;  0 ].

Definition PST_QUEEN : list Z :=
  [ -20;-10;-10; -5; -5;-10;-10;-20;
    -10;  0;  5;  0;  0;  0;  0;-10;
    -10;  5;  5;  5;  5;  5;  0;-10;
     -5;  0;  5;  5;  5;  5;  0; -5;
      0;  0;  5;  5;  5;  5;  0; -5;
    -10;  5;  5;  5;  5;  5;  0;-10;
    -10;  0;  5;  0;  0;  0;  0;-10;
    -20;-10;-10; -5; -5;-10;-10;-20 ].

Definition PST_KING : list Z :=
  [ -30;-40;-40;-50;-50;-40;-40;-30;
    -30;-40;-40;-50;-50;-40;-40;-30;
    -30;-40;-40;-50;-50;-40;-40;-30;
    -30;-40;-40;-50;-50;-40;-40;-30;
    -20;-30;-30;-40;-40;-30;-30;-20;
    -10;-20;-20;-20;-20;-20;-20;-10;
     20; 20;  0;  0;  0;  0; 20; 20;
     20; 30; 10;  0;  0; 10; 30; 20 ].

Definition pstIndex (index : Z) (color : Color) : Z :=
  match color with
  | white => index
  | black =>
      let file := Z.rem index 8 in
      let rank := index / 8 in
      let mirroredRank := 7 - rank in
      mirroredRank * 8 + file
  end.

Definition pstOf (t : PieceType) : list Z :=
  match t with
  | P => PST_PAWN | N => PST_KNIGHT | B => PST_BISHOP
  | R => PST_ROOK | Q => PST_QUEEN | K => PST_KING
  end.

(** One iteration of the loop of [evaluate]: the contribution of cell [i]. *)
Definition pieceScoreAt (board : Board) (color : Color) (i : Z) : Z :=
  match getB board i with
  | None => 0
  | Some piece =>
      let pc := pcolor piece in
      let type := ptype piece in
      let base := PIECE_VALUES type in
      let pst := nth (Z.to_nat (pstIndex i pc)) (pstOf type) 0 in
      let pieceScore := base + pst in
      if Color_eqb pc color then pieceScore else - pieceScore
  end.

Fixpoint evaluateLoop (board : Board) (color : Color) (i : Z) (n : nat)
  (score : Z) : Z :=
  match n with
  | O => score
  | S n' => evaluateLoop board color (i + 1) n' (score + pieceScoreAt board color i)
  end.

(** [evaluate(state, color)]: only [state.board] is read. *)
Definition evaluate (board : Board) (color : Color) : Z :=
  evaluateLoop board color 0 64 0.

End Evaluator.

(* ================================================================== *)
(** ** Move.js *)

Record Move : Type := mkMove {
  from : string;
  to : string;
  piece : option Piece;
  captured : option Piece;
  promotion : option PieceType;
  isEnPassant : bool;
  isCastleKingSide : bool;
  isCastleQueenSide : bool
}.

Definition createMove (from to : string) (piece captured : option Piece) : Move :=
  mkMove from to piece captured None false false false.

Definition createPromotionMove (from to : string) (piece : option Piece)
  (promotion : PieceType) (captured : option Piece) : Move :=
  mkMove from to piece captured (Some promotion) false false false.

Definition createEnPassantMove (from to : string) (piece captured : option Piece)
  : Move :=
  mkMove from to piece captured None true false false.

Definition createCastleMove (from to : string) (piece : option Piece)
  (kingSide : bool) : Move :=
  mkMove from to piece None None false kingSide (negb kingSide).

(* ================================================================== *)
(** ** Rules.js *)

Module Rules.

Record SideRights : Type := mkSideRights { kingSide : bool; queenSide : bool }.

Record CastlingRights : Type := mkCastlingRights {
  whiteRights : SideRights;
  blackRights : SideRights
}.

(** [castlingRights[color]] *)
Definition rightsOf (cr : CastlingRights) (color : Color) : SideRights :=
  match color with
  | white => whiteRights cr
  | black => blackRights cr
  end.

(** The state object the rules read: board, side to move, castling rights
    and en-passant target. *)
Record RulesState : Type := mkRulesState {
  board : Board;
  activeColor : Color;
  castlingRights : CastlingRights;
  enPassantTarget : option string
}.

Definition isSome {A} (o : option A) : bool :=
  match o with Some _ => true | None => false end.

Definition optColor_eqb (a : option Color) (b : Color) : bool :=
  match a with
  | Some c => Color_eqb c b
  | None => false
  end.

Definition inBoard (x : Z) : bool := (0 <=? x) && (x <=? 7).

Definition PROMOTIONS : list PieceType := [Q; R; B; N].

(* ----- Attack / check helpers ----- *)

Fixpoint findKingLoop (board : Board) (kingCode : Piece) (i : Z) (n : nat)
  : option string :=
  match n with
  | O => None
  | S n' =>
      match getB board i with
      | Some p =>
          if Piece_eqb p kingCode then Some (indexToAlgebraic i)
          else findKingLoop board kingCode (i + 1) n'
      | None => findKingLoop board kingCode (i + 1) n'
      end
  end.

Definition findKingSquare (board : Board) (color : Color) : option string :=
  let kingCode := match color with white => wK | black => bK end in
  findKingLoop board kingCode 0 64.

Definition stepSign (d : Z) : Z := if d >? 0 then 1 else -1.

(** The [while] loop of the sliding case: walk from (f, r) towards the
    target; [true] when the target is reached with no blocker.  Starting
    one step away from a board cell, the ninth cell of any ray is off the
    board, so eight iterations exhaust the loop. *)
Fixpoint rayReaches (board : Board) (stepF stepR tf tr f r : Z) (n : nat) : bool :=
  match n with
  | O => false
  | S n' =>
      if negb ((f =? tf) && (r =? tr)) then
        if (f <? 0) || (f >? 7) || (r <? 0) || (r >? 7) then false
        else if isSome (getB board (r * 8 + f)) then false
        else rayReaches board stepF stepR tf tr (f + stepF) (r + stepR) n'
      else true
  end.

(** The body of the [switch] for the attacker on cell [i]: [true] where
    the script executes [return true]. *)
Definition attacksFrom (board : Board) (attackerColor : Color) (type : PieceType)
  (file rank tf tr : Z) : bool :=
  match type with
  | P =>
      let dir := match attackerColor with white => 1 | black => -1 end in
      let captureRanks := rank + dir in
      (captureRanks =? tr) && (Z.abs (file - tf) =? 1)
  | N =>
      let df := Z.abs (file - tf) in
      let dr := Z.abs (rank - tr) in
      ((df =? 1) && (dr =? 2)) || ((df =? 2) && (dr =? 1))
  | B | R | Q =>
      let df := tf - file in
      let dr := tr - rank in
      let adf := Z.abs df in
      let adr := Z.abs dr in
      let step0 := (0, 0) in
      let step1 :=
        if (PieceType_eqb type B || PieceType_eqb type Q)
           && ((adf =? adr) && (adf >? 0))
        then (stepSign df, stepSign dr) else step0 in
      let step2 :=
        if PieceType_eqb type R || PieceType_eqb type Q then
          if (df =? 0) && (adr >? 0) then (0, stepSign dr)
          else if (dr =? 0) && (adf >? 0) then (stepSign df, 0)
          else step1
        else step1 in
      let '(stepF, stepR) := step2 in
      if negb (stepF =? 0) || negb (stepR =? 0) then
        rayReaches board stepF stepR tf tr (file + stepF) (rank + stepR) 8
      else false
  | K =>
      Z.max (Z.abs (file - tf)) (Z.abs (rank - tr)) =? 1
  end.

Fixpoint squareAttackedLoop (board : Board) (attackerColor : Color) (tf tr : Z)
  (i : Z) (n : nat) : bool :=
  match n with
  | O => false
  | S n' =>
      match getB board i with
      | Some piece =>
          if optColor_eqb (getColorOf (Some piece)) attackerColor then
            let '(file, rank) := indexToFR i in
            if attacksFrom board attackerColor (ptype piece) file rank tf tr
            then true
            else squareAttackedLoop board attackerColor tf tr (i + 1) n'
          else squareAttackedLoop board attackerColor tf tr (i + 1) n'
      | None => squareAttackedLoop board attackerColor tf tr (i + 1) n'
      end
  end.

(** [squareAttackedBy] once the target square is an index. *)
Definition squareAttackedAt (board : Board) (targetIndex : Z)
  (attackerColor : Color) : bool :=
  let '(tf, tr) := indexToFR targetIndex in
  squareAttackedLoop board attackerColor tf tr 0 64.

Definition squareAttackedBy (state : RulesState) (targetSq : string)
  (attackerColor : Color) : Res bool :=
  (targetIndex <- algebraicToIndex targetSq ;;
   Ok (squareAttackedAt (board state) targetIndex attackerColor))%res.

(* ----- Piece-specific generators ----- *)

Definition pawnCode (color : Color) : option Piece :=
  Some (match color with white => wP | black => bP end).

Definition addPawnAdvance (fromSq : string) (fromIndex toIndex : Z) (color : Color)
  (promotionRank lastRank : Z) : list Move :=
  let piece := pawnCode color in
  let toSq := indexToAlgebraic toIndex in
  let '(_, rank) := indexToFR fromIndex in
  if rank =? promotionRank then
    map (fun promo => createPromotionMove fromSq toSq piece promo None) PROMOTIONS
  else [createMove fromSq toSq piece None].

Definition addPawnCapture (fromSq : string) (fromIndex toIndex : Z) (color : Color)
  (capturedPiece : option Piece) (promotionRank lastRank : Z) : list Move :=
  let piece := pawnCode color in
  let toSq := indexToAlgebraic toIndex in
  let '(_, rank) := indexToFR fromIndex in
  if rank =? promotionRank then
    map (fun promo => createPromotionMove fromSq toSq piece promo capturedPiece)
        PROMOTIONS
  else [createMove fromSq toSq piece capturedPiece].

(** One iteration of the capture loop of [generatePawnMoves], for the
    capture file [cf]. *)
Definition pawnCaptureStep (board : Board) (fromIndex : Z) (fromSq : string)
  (rank : Z) (color enemy : Color) (epIndex : Z) (dir promotionRank lastRank : Z)
  (cf : Z) : list Move :=
  if (cf <? 0) || (cf >? 7) then []
  else
    let targetRank := rank + dir in
    if (targetRank <? 0) || (targetRank >? 7) then []
    else
      let targetIndex := targetRank * 8 + cf in
      let targetPiece := getB board targetIndex in
      (if isSome targetPiece && optColor_eqb (getColorOf targetPiece) enemy
       then addPawnCapture fromSq fromIndex targetIndex color targetPiece
              promotionRank lastRank
       else [])
      ++
      (if (epIndex =? targetIndex) && negb (isSome targetPiece) then
         let epPawnRank := rank in
         let epPawnIndex := epPawnRank * 8 + cf in
         let captured := getB board epPawnIndex in
         if isSome captured && optColor_eqb (getColorOf captured) enemy
         then [createEnPassantMove fromSq (indexToAlgebraic targetIndex)
                 (getB board fromIndex) captured]
         else []
       else []).

Definition generatePawnMoves (state : RulesState) (fromIndex : Z) (fromSq : string)
  (file rank : Z) (color enemy : Color) (epIndex : Z) : list Move :=
  let board := board state in
  let dir := match color with white => 1 | black => -1 end in
  let startRank := match color with white => 1 | black => 6 end in
  let promotionRank := match color with white => 6 | black => 1 end in
  let lastRank := match color with white => 7 | black => 0 end in
  let oneStepRank := rank + dir in
  (if (oneStepRank >=? 0) && (oneStepRank <=? 7) then
     let oneStepIndex := oneStepRank * 8 + file in
     if negb (isSome (getB board oneStepIndex)) then
       addPawnAdvance fromSq fromIndex oneStepIndex color promotionRank lastRank
       ++
       (if rank =? startRank then
          let twoStepRank := rank + 2 * dir in
          let twoStepIndex := twoStepRank * 8 + file in
          if negb (isSome (getB board twoStepIndex)) then
            [createMove fromSq (indexToAlgebraic twoStepIndex)
               (getB board fromIndex) None]
          else []
        else [])
     else []
   else [])
  ++
  flat_map (pawnCaptureStep board fromIndex fromSq rank color enemy epIndex
              dir promotionRank lastRank)
           [file - 1; file + 1].

(** One iteration of a jump loop (knight jumps, king steps): the move to
    (file + df, rank + dr), if it is on the board and not on an own piece. *)
Definition jumpStep (board : Board) (fromIndex : Z) (fromSq : string)
  (color : Color) (file rank : Z) (d : Z * Z) : list Move :=
  let '(df, dr) := d in
  let nf := file + df in
  let nr := rank + dr in
  if (nf <? 0) || (nf >? 7) || (nr <? 0) || (nr >? 7) then []
  else
    let toIndex := nr * 8 + nf in
    let target := getB board toIndex in
    if negb (isSome target) || negb (optColor_eqb (getColorOf target) color)
    then [createMove fromSq (indexToAlgebraic toIndex) (getB board fromIndex) target]
    else [].

Definition KNIGHT_JUMPS : list (Z * Z) :=
  [(1, 2); (2, 1); (2, -1); (1, -2); (-1, -2); (-2, -1); (-2, 1); (-1, 2)].

Definition generateKnightMoves (board : Board) (fromIndex : Z) (fromSq : string)
  (color : Color) : list Move :=
  let '(file, rank) := indexToFR fromIndex in
  flat_map (jumpStep board fromIndex fromSq color file rank) KNIGHT_JUMPS.

(** The [while (true)] loop of [generateSlidingMoves] along one direction,
    entered at (file, rank) before the first step.  A ray leaves the board
    within eight steps. *)
Fixpoint slideRay (board : Board) (fromIndex : Z) (fromSq : string) (color : Color)
  (df dr file rank : Z) (n : nat) : list Move :=
  match n with
  | O => []
  | S n' =>
      let file := file + df in
      let rank := rank + dr in
      if (file <? 0) || (file >? 7) || (rank <? 0) || (rank >? 7) then []
      else
        let toIndex := rank * 8 + file in
        let target := getB board toIndex in
        if negb (isSome target) then
          createMove fromSq (indexToAlgebraic toIndex) (getB board fromIndex) None
          :: slideRay board fromIndex fromSq color df dr file rank n'
        else if negb (optColor_eqb (getColorOf target) color) then
          [createMove fromSq (indexToAlgebraic toIndex) (getB board fromIndex) target]
        else []
  end.

Definition generateSlidingMoves (board : Board) (fromIndex : Z) (fromSq : string)
  (color : Color) (dirs : list (Z * Z)) : list Move :=
  flat_map (fun d : Z * Z =>
              let '(df, dr) := d in
              let '(file, rank) := indexToFR fromIndex in
              slideRay board fromIndex fromSq color df dr file rank 8)
           dirs.

Definition BISHOP_DIRS : list (Z * Z) := [(1, 1); (1, -1); (-1, 1); (-1, -1)].
Definition ROOK_DIRS : list (Z * Z) := [(1, 0); (-1, 0); (0, 1); (0, -1)].
Definition QUEEN_DIRS : list (Z * Z) :=
  [(1, 0); (-1, 0); (0, 1); (0, -1); (1, 1); (1, -1); (-1, 1); (-1, -1)].

(** The nested [df], [dr] loops of [generateKingMoves], in iteration order. *)
Definition KING_STEPS : list (Z * Z) :=
  [(-1, -1); (-1, 0); (-1, 1); (0, -1); (0, 1); (1, -1); (1, 0); (1, 1)].

Definition generateKingMoves (board : Board) (fromIndex : Z) (fromSq : string)
  (color : Color) : list Move :=
  let '(file, rank) := indexToFR fromIndex in
  flat_map (jumpStep board fromIndex fromSq color file rank) KING_STEPS.

Definition generateCastlingMoves (state : RulesState) (kingIndex : Z)
  (kingSq : string) (color : Color) (castlingRights : CastlingRights)
  : Res (list Move) :=
  let board := board state in
  let rights := rightsOf castlingRights color in
  let rank := match color with white => 0 | black => 7 end in
  let kingStartIndex := rank * 8 + 4 in
  if negb (kingIndex =? kingStartIndex) then Ok []
  else
    let enemy := oppositeColor color in
    (inCheck <- squareAttackedBy state kingSq enemy ;;
     if inCheck then Ok []
     else
       ks <-
         (if kingSide rights then
            let fIndex := rank * 8 + 5 in
            let gIndex := rank * 8 + 6 in
            if negb (isSome (getB board fIndex)) && negb (isSome (getB board gIndex))
            then
              let fSq := indexToAlgebraic fIndex in
              let gSq := indexToAlgebraic gIndex in
              fAtt <- squareAttackedBy state fSq enemy ;;
              if negb fAtt then
                gAtt <- squareAttackedBy state gSq enemy ;;
                if negb gAtt
                then Ok [createCastleMove kingSq gSq (getB board kingIndex) true]
                else Ok []
              else Ok []
            else Ok []
          else Ok []) ;;
       qs <-
         (if queenSide rights then
            let dIndex := rank * 8 + 3 in
            let cIndex := rank * 8 + 2 in
            let bIndex := rank * 8 + 1 in
            if negb (isSome (getB board dIndex)) && negb (isSome (getB board cIndex))
               && negb (isSome (getB board bIndex))
            then
              let dSq := indexToAlgebraic dIndex in
              let cSq := indexToAlgebraic cIndex in
              dAtt <- squareAttackedBy state dSq enemy ;;
              if negb dAtt then
                cAtt <- squareAttackedBy state cSq enemy ;;
                if negb cAtt
                then Ok [createCastleMove kingSq cSq (getB board kingIndex) false]
                else Ok []
              else Ok []
            else Ok []
          else Ok []) ;;
       Ok (ks ++ qs))%res.

(** The moves pushed for the piece on cell [fromIndex]: the body of the
    main loop of [generatePseudoLegalMoves]. *)
Definition movesFrom (state : RulesState) (enemy : Color) (epIndex : Z)
  (fromIndex : Z) : Res (list Move) :=
  match getB (board state) fromIndex with
  | None => Ok []
  | Some piece =>
      let color := pcolor piece in
      if negb (Color_eqb color (activeColor state)) then Ok []
      else
        let fromSq := indexToAlgebraic fromIndex in
        let '(file, rank) := indexToFR fromIndex in
        match ptype piece with
        | P => Ok (generatePawnMoves state fromIndex fromSq file rank color enemy
                     epIndex)
        | N => Ok (generateKnightMoves (board state) fromIndex fromSq color)
        | B => Ok (generateSlidingMoves (board state) fromIndex fromSq color
                     BISHOP_DIRS)
        | R => Ok (generateSlidingMoves (board state) fromIndex fromSq color
                     ROOK_DIRS)
        | Q => Ok (generateSlidingMoves (board state) fromIndex fromSq color
                     QUEEN_DIRS)
        | K =>
            (castles <- generateCastlingMoves state fromIndex fromSq color
                          (castlingRights state) ;;
             Ok (generateKingMoves (board state) fromIndex fromSq color
                 ++ castles))%res
        end
  end.

Fixpoint pseudoLoop (state : RulesState) (enemy : Color) (epIndex : Z)
  (fromIndex : Z) (n : nat) : Res (list Move) :=
  match n with
  | O => Ok []
  | S n' =>
      (here <- movesFrom state enemy epIndex fromIndex ;;
       rest <- pseudoLoop state enemy epIndex (fromIndex + 1) n' ;;
       Ok (here ++ rest))%res
  end.

Definition generatePseudoLegalMoves (state : RulesState) : Res (list Move) :=
  let enemy := oppositeColor (activeColor state) in
  (epIndex <-
     match enPassantTarget state with
     | Some sq => algebraicToIndex sq
     | None => Ok (-1)
     end ;;
   pseudoLoop state enemy epIndex 0 64)%res.

(** The placement [leavesKingInCheck] performs on its copy of the board. *)
Definition scratchBoard (board : Board) (move : Move) (fromIndex toIndex : Z)
  : Board :=
  let b := setB board fromIndex None in
  let b :=
    if isEnPassant move then
      let dir := if optColor_eqb (getColorOf (piece move)) white then -1 else 1 in
      let '(tf, tr) := indexToFR toIndex in
      let capIndex := (tr + dir) * 8 + tf in
      setB b capIndex None
    else b in
  let b :=
    match promotion move with
    | Some promo =>
        let color :=
          if optColor_eqb (getColorOf (piece move)) white then white else black in
        setB b toIndex (Some (mkPiece color promo))
    | None => setB b toIndex (piece move)
    end in
  if isCastleKingSide move || isCastleQueenSide move then
    let rank := if optColor_eqb (getColorOf (piece move)) white then 0 else 7 in
    if isCastleKingSide move then
      let rookFrom := rank * 8 + 7 in
      let rookTo := rank * 8 + 5 in
      setB (setB b rookTo (getB b rookFrom)) rookFrom None
    else
      let rookFrom := rank * 8 + 0 in
      let rookTo := rank * 8 + 3 in
      setB (setB b rookTo (getB b rookFrom)) rookFrom None
  else b.

Definition leavesKingInCheck (state : RulesState) (move : Move) : Res bool :=
  (fromIndex <- algebraicToIndex (from move) ;;
   toIndex <- algebraicToIndex (to move) ;;
   let cloneBoard := scratchBoard (board state) move fromIndex toIndex in
   let moverColor := activeColor state in
   let enemy := oppositeColor moverColor in
   match findKingSquare cloneBoard moverColor with
   | None => Ok true
   | Some kingSq =>
       squareAttackedBy
         (mkRulesState cloneBoard enemy (castlingRights state)
            (enPassantTarget state))
         kingSq enemy
   end)%res.

Fixpoint filterLegal (state : RulesState) (pseudoMoves : list Move)
  : Res (list Move) :=
  match pseudoMoves with
  | [] => Ok []
  | move :: rest =>
      (bad <- leavesKingInCheck state move ;;
       legal <- filterLegal state rest ;;
       Ok (if negb bad then move :: legal else legal))%res
  end.

Definition generateLegalMoves (state : RulesState) : Res (list Move) :=
  (pseudoMoves <- generatePseudoLegalMoves state ;;
   filterLegal state pseudoMoves)%res.

Definition isInCheck (state : RulesState) (colorOverride : option Color)
  : Res bool :=
  let color := match colorOverride with
               | Some c => c
               | None => activeColor state
               end in
  let enemy := oppositeColor color in
  match findKingSquare (board state) color with
  | None => Ok false
  | Some kingSquare => squareAttackedBy state kingSquare enemy
  end.

Record Analysis : Type := mkAnalysis { hasLegalMoves : bool; isCheck : bool }.

Definition analyzePosition (state : RulesState) : Res Analysis :=
  (legalMoves <- generateLegalMoves state ;;
   isCheckFlag <- isInCheck state None ;;
   Ok (mkAnalysis (0 <? Z.of_nat (List.length legalMoves)) isCheckFlag))%res.

End Rules.

Import Rules.

(* ================================================================== *)
(** ** GameState.js *)

Inductive Outcome : Type := ongoing | checkmate | stalemate | draw.

Definition Outcome_eqb (a b : Outcome) : bool :=
  match a, b with
  | ongoing, ongoing | checkmate, checkmate
  | stalemate, stalemate | draw, draw => true
  | _, _ => false
  end.

(** [{ outcome, winner, reason }]; an absent or [null] member is [None]. *)
Record GameResult : Type := mkResult {
  outcome : Outcome;
  winner : option Color;
  reason : option string
}.

(** A [Map] from strings to numbers, in insertion order. *)
Definition JsMap : Type := list (string * Z).

Fixpoint mapGet (m : JsMap) (k : string) : option Z :=
  match m with
  | [] => None
  | (k', v) :: t => if String.eqb k' k then Some v else mapGet t k
  end.

Fixpoint mapSet (m : JsMap) (k : string) (v : Z) : JsMap :=
  match m with
  | [] => [(k, v)]
  | (k', v') :: t =>
      if String.eqb k' k then (k', v) :: t else (k', v') :: mapSet t k v
  end.

Fixpoint joinWith (sep : string) (l : list string) : string :=
  match l with
  | [] => ""
  | [x] => x
  | x :: t => (x ++ sep ++ joinWith sep t)%string
  end.

Definition colorName (c : Color) : string :=
  match c with white => "white" | black => "black" end.

(** [color === "white" ? ... : ...] for a colour that may be [null]. *)
Definition isWhite (c : option Color) : bool := optColor_eqb c white.

(** [oppositeColor] applied to a colour that may be [null]. *)
Definition oppositeColorOf (c : option Color) : Color :=
  if isWhite c then black else white.

(** A non-empty string is truthy. *)
Definition truthyStr (o : option string) : bool :=
  match o with
  | Some s => negb (String.eqb s "")
  | None => false
  end.

Module GameState.

Record t : Type := mk {
  board : Board;
  activeColor : Color;
  playerColor : Color;
  castlingRights : CastlingRights;
  enPassantTarget : option string;
  halfmoveClock : Z;
  fullmoveNumber : Z;
  moveHistory : list string;
  result : option GameResult;
  lastMove : option (string * string);
  repetitionMap : JsMap;
  selectedSquare : option string;
  cachedLegalTargets : list string;
  statusText : option string;
  lastMoveText : option string
}.

Definition set_board (s : t) (v : Board) : t :=
  mk v (activeColor s) (playerColor s) (castlingRights s) (enPassantTarget s)
    (halfmoveClock s) (fullmoveNumber s) (moveHistory s) (result s)
    (lastMove s) (repetitionMap s) (selectedSquare s) (cachedLegalTargets s)
    (statusText s) (lastMoveText s).

Definition set_activeColor (s : t) (v : Color) : t :=
  mk (board s) v (playerColor s) (castlingRights s) (enPassantTarget s)
    (halfmoveClock s) (fullmoveNumber s) (moveHistory s) (result s)
    (lastMove s) (repetitionMap s) (selectedSquare s) (cachedLegalTargets s)
    (statusText s) (lastMoveText s).

Definition set_playerColor (s : t) (v : Color) : t :=
  mk (board s) (activeColor s) v (castlingRights s) (enPassantTarget s)
    (halfmoveClock s) (fullmoveNumber s) (moveHistory s) (result s)
    (lastMove s) (repetitionMap s) (selectedSquare s) (cachedLegalTargets s)
    (statusText s) (lastMoveText s).

Definition set_castlingRights (s : t) (v : CastlingRights) : t :=
  mk (board s) (activeColor s) (playerColor s) v (enPassantTarget s)
    (halfmoveClock s) (fullmoveNumber s) (moveHistory s) (result s)
    (lastMove s) (repetitionMap s) (selectedSquare s) (cachedLegalTargets s)
    (statusText s) (lastMoveText s).

Definition set_enPassantTarget (s : t) (v : option string) : t :=
  mk (board s) (activeColor s) (playerColor s) (castlingRights s) v
    (halfmoveClock s) (fullmoveNumber s) (moveHistory s) (result s)
    (lastMove s) (repetitionMap s) (selectedSquare s) (cachedLegalTargets s)
    (statusText s) (lastMoveText s).

Definition set_halfmoveClock (s : t) (v : Z) : t :=
  mk (board s) (activeColor s) (playerColor s) (castlingRights s)
    (enPassantTarget s) v (fullmoveNumber s) (moveHistory s) (result s)
    (lastMove s) (repetitionMap s) (selectedSquare s) (cachedLegalTargets s)
    (statusText s) (lastMoveText s).

Definition set_fullmoveNumber (s : t) (v : Z) : t :=
  mk (board s) (activeColor s) (playerColor s) (castlingRights s)
    (enPassantTarget s) (halfmoveClock s) v (moveHistory s) (result s)
    (lastMove s) (repetitionMap s) (selectedSquare s) (cachedLegalTargets s)
    (statusText s) (lastMoveText s).

Definition set_moveHistory (s : t) (v : list string) : t :=
  mk (board s) (activeColor s) (playerColor s) (castlingRights s)
    (enPassantTarget s) (halfmoveClock s) (fullmoveNumber s) v (result s)
    (lastMove s) (repetitionMap s) (selectedSquare s) (cachedLegalTargets s)
    (statusText s) (lastMoveText s).

Definition set_result (s : t) (v : option GameResult) : t :=
  mk (board s) (activeColor s) (playerColor s) (castlingRights s)
    (enPassantTarget s) (halfmoveClock s) (fullmoveNumber s) (moveHistory s)
    v (lastMove s) (repetitionMap s) (selectedSquare s) (cachedLegalTargets
    s) (statusText s) (lastMoveText s).

Definition set_lastMove (s : t) (v : option (string * string)) : t :=
  mk (board s) (activeColor s) (playerColor s) (castlingRights s)
    (enPassantTarget s) (halfmoveClock s) (fullmoveNumber s) (moveHistory s)
    (result s) v (repetitionMap s) (selectedSquare s) (cachedLegalTargets s)
    (statusText s) (lastMoveText s).

Definition set_repetitionMap (s : t) (v : JsMap) : t :=
  mk (board s) (activeColor s) (playerColor s) (castlingRights s)
    (enPassantTarget s) (halfmoveClock s) (fullmoveNumber s) (moveHistory s)
    (result s) (lastMove s) v (selectedSquare s) (cachedLegalTargets s)
    (statusText s) (lastMoveText s).

Definition set_selectedSquare (s : t) (v : option string) : t :=
  mk (board s) (activeColor s) (playerColor s) (castlingRights s)
    (enPassantTarget s) (halfmoveClock s) (fullmoveNumber s) (moveHistory s)
    (result s) (lastMove s) (repetitionMap s) v (cachedLegalTargets s)
    (statusText s) (lastMoveText s).

Definition set_cachedLegalTargets (s : t) (v : list string) : t :=
  mk (board s) (activeColor s) (playerColor s) (castlingRights s)
    (enPassantTarget s) (halfmoveClock s) (fullmoveNumber s) (moveHistory s)
    (result s) (lastMove s) (repetitionMap s) (selectedSquare s) v
    (statusText s) (lastMoveText s).

Definition set_statusText (s : t) (v : option string) : t :=
  mk (board s) (activeColor s) (playerColor s) (castlingRights s)
    (enPassantTarget s) (halfmoveClock s) (fullmoveNumber s) (moveHistory s)
    (result s) (lastMove s) (repetitionMap s) (selectedSquare s)
    (cachedLegalTargets s) v (lastMoveText s).

Definition set_lastMoveText (s : t) (v : option string) : t :=
  mk (board s) (activeColor s) (playerColor s) (castlingRights s)
    (enPassantTarget s) (halfmoveClock s) (fullmoveNumber s) (moveHistory s)
    (result s) (lastMove s) (repetitionMap s) (selectedSquare s)
    (cachedLegalTargets s) (statusText s) v.

(** The object [serialize] produces and the constructor consumes; an
    absent member is [None].  The board and the repetition map are given
    in their array forms. *)
Record Data : Type := mkData {
  data_board : option Board;
  data_activeColor : option Color;
  data_playerColor : option Color;
  data_castlingRights : option CastlingRights;
  data_enPassantTarget : option string;
  data_halfmoveClock : option Z;
  data_fullmoveNumber : option Z;
  data_moveHistory : option (list string);
  data_result : option GameResult;
  data_lastMove : option (string * string);
  data_repetitionMap : option (list (string * Z))
}.

Definition allRights : CastlingRights :=
  mkCastlingRights (mkSideRights true true) (mkSideRights true true).

Definition orElse {A} (o : option A) (d : A) : A :=
  match o with Some a => a | None => d end.

(** [n || d] for a number that may be absent: 0 is falsy. *)
Definition numOr (o : option Z) (d : Z) : Z :=
  match o with
  | Some n => if n =? 0 then d else n
  | None => d
  end.

Definition constructor (data : option Data) : t :=
  match data with
  | Some data =>
      mk (orElse (data_board data) (repeat None 64))
         (orElse (data_activeColor data) white)
         (orElse (data_playerColor data) white)
         (orElse (data_castlingRights data) allRights)
         (if truthyStr (data_enPassantTarget data)
          then data_enPassantTarget data else None)
         (numOr (data_halfmoveClock data) 0)
         (numOr (data_fullmoveNumber data) 1)
         (orElse (data_moveHistory data) [])
         (data_result data)
         (data_lastMove data)
         (match data_repetitionMap data with
          | Some pairs =>
              fold_left (fun m kv => mapSet m (fst kv) (snd kv)) pairs []
          | None => []
          end)
         None [] None None
  | None =>
      mk (repeat None 64) white white allRights None 0 1 [] None None []
         None [] None None
  end.

Definition serialize (s : t) : Data :=
  mkData (Some (board s)) (Some (activeColor s)) (Some (playerColor s))
    (Some (castlingRights s)) (enPassantTarget s) (Some (halfmoveClock s))
    (Some (fullmoveNumber s)) (Some (moveHistory s)) (result s) (lastMove s)
    (Some (repetitionMap s)).

Definition getBoardMap (s : t) : JsObject (option Piece) :=
  boardToMap (board s).

Definition isGameOver (s : t) : bool :=
  match result s with
  | Some r => negb (Outcome_eqb (outcome r) ongoing)
  | None => false
  end.

Definition indexFR (index : Z) : Z * Z := (Z.rem index 8, index / 8).

Definition getPiece (s : t) (sq : string) : Res (option Piece) :=
  (i <- algebraicToIndex sq ;; Ok (getB (board s) i))%res.

Definition asRulesState (s : t) : RulesState :=
  mkRulesState (board s) (activeColor s) (castlingRights s) (enPassantTarget s).

Definition buildRepetitionKey (s : t) : string :=
  let boardPart :=
    joinWith "," (map (fun c => match c with
                                | Some p => pieceCode p
                                | None => ""
                                end) (board s)) in
  let active := colorName (activeColor s) in
  let cr := castlingRights s in
  let crPart :=
    ((if kingSide (whiteRights cr) then "K" else "")
     ++ (if queenSide (whiteRights cr) then "Q" else "")
     ++ (if kingSide (blackRights cr) then "k" else "")
     ++ (if queenSide (blackRights cr) then "q" else ""))%string in
  let ep := if truthyStr (enPassantTarget s)
            then orElse (enPassantTarget s) "-" else "-" in
  (boardPart ++ "|" ++ active ++ "|" ++ crPart ++ "|" ++ ep)%string.

Definition recordRepetitionKey (s : t) : t :=
  let key := buildRepetitionKey s in
  let prev := numOr (mapGet (repetitionMap s) key) 0 in
  set_repetitionMap s (mapSet (repetitionMap s) key (prev + 1)).

Definition hasThreefoldRepetition (s : t) : bool :=
  existsb (fun kv : string * Z => snd kv >=? 3) (repetitionMap s).

(** The non-king pieces collected by the first loop of
    [isInsufficientMaterial]. *)
Fixpoint nonKingPieces (b : Board) : list Piece :=
  match b with
  | [] => []
  | None :: rest => nonKingPieces rest
  | Some p :: rest =>
      if PieceType_eqb (ptype p) K then nonKingPieces rest
      else p :: nonKingPieces rest
  end.

Definition isInsufficientMaterial (s : t) : bool :=
  let pieces := nonKingPieces (board s) in
  match pieces with
  | [] => true
  | [p] => PieceType_eqb (ptype p) B || PieceType_eqb (ptype p) N
  | [a; b] => PieceType_eqb (ptype a) B && PieceType_eqb (ptype b) B
  | _ => false
  end.

Definition updateStatusText (s : t) : t :=
  let isOngoing :=
    match result s with
    | None => true
    | Some r => Outcome_eqb (outcome r) ongoing
    end in
  if isOngoing then
    let colorText := match activeColor s with
                     | white => "White" | black => "Black"
                     end in
    let perspective :=
      if Color_eqb (activeColor s) (playerColor s)
      then "Your move" else "Computer's move" in
    set_statusText s (Some (colorText ++ " to move. " ++ perspective ++ "."))%string
  else
    match result s with
    | None => s
    | Some r =>
        match outcome r with
        | checkmate =>
            let winnerText := if isWhite (winner r) then "White" else "Black" in
            let youWin :=
              match winner r with
              | Some w => if Color_eqb w (playerColor s)
                          then "You win." else "Computer wins."
              | None => "Computer wins."
              end in
            set_statusText s
              (Some ("Checkmate. " ++ winnerText ++ " wins. " ++ youWin))%string
        | stalemate => set_statusText s (Some "Draw by stalemate.")
        | draw =>
            let why := if truthyStr (reason r)
                       then orElse (reason r) "by agreement"
                       else "by agreement" in
            set_statusText s (Some ("Draw: " ++ why ++ "."))%string
        | ongoing => set_statusText s (Some "")
        end
    end.

Definition updateResult (s : t) : Res t :=
  if isGameOver s then Ok s
  else
    let rulesState := asRulesState s in
    (a <- analyzePosition rulesState ;;
     if negb (hasLegalMoves a) then
       if isCheck a then
         Ok (set_result s
               (Some (mkResult checkmate (Some (oppositeColor (activeColor s)))
                        (Some "Checkmate"))))
       else
         Ok (set_result s (Some (mkResult stalemate None (Some "Stalemate"))))
     else if halfmoveClock s >=? 100 then
       Ok (set_result s (Some (mkResult draw None (Some "50-move rule"))))
     else if hasThreefoldRepetition s then
       Ok (set_result s (Some (mkResult draw None (Some "Threefold repetition"))))
     else if isInsufficientMaterial s then
       Ok (set_result s (Some (mkResult draw None (Some "Insufficient material"))))
     else
       Ok (set_result s (Some (mkResult ongoing None None))))%res.

(** The cell written by an en-passant capture, a castle or a promotion in
    [applyMove] and [applyMoveInternalForSAN]: the same statements, with
    [color] the colour of the piece found on the origin cell. *)
Definition removePassedPawn (b : Board) (move : Move) (color : option Color)
  (toIndex : Z) : Board :=
  if isEnPassant move then
    let dir := if isWhite color then -1 else 1 in
    let '(file, rank) := indexFR toIndex in
    let capIndex := (rank + dir) * 8 + file in
    setB b capIndex None
  else b.

Definition relocateRook (b : Board) (move : Move) (color : option Color) : Board :=
  if isCastleKingSide move || isCastleQueenSide move then
    let rank := if isWhite color then 0 else 7 in
    if isCastleKingSide move then
      let rookFrom := rank * 8 + 7 in
      let rookTo := rank * 8 + 5 in
      setB (setB b rookTo (getB b rookFrom)) rookFrom None
    else
      let rookFrom := rank * 8 + 0 in
      let rookTo := rank * 8 + 3 in
      setB (setB b rookTo (getB b rookFrom)) rookFrom None
  else b.

Definition placeMoved (b : Board) (move : Move) (color : option Color)
  (toIndex : Z) (movingPiece : option Piece) : Board :=
  match promotion move with
  | Some promo =>
      let prefix := if isWhite color then white else black in
      setB b toIndex (Some (mkPiece prefix promo))
  | None => setB b toIndex movingPiece
  end.

Definition optPiece_eqb (c : option Piece) (p : Piece) : bool :=
  match c with
  | Some q => Piece_eqb q p
  | None => false
  end.

Definition updateCastlingRights (s : t) (move : Move) (fromIndex toIndex : Z)
  (movingPiece : option Piece) (color : option Color) : Res t :=
  let cr := castlingRights s in
  let board := board s in
  let fromSq := from move in
  let toSq := to move in
  let wk := kingSide (whiteRights cr) in
  let wq := queenSide (whiteRights cr) in
  let bk := kingSide (blackRights cr) in
  let bq := queenSide (blackRights cr) in
  let '(wk, wq) := if optPiece_eqb movingPiece wK then (false, false) else (wk, wq) in
  let '(bk, bq) := if optPiece_eqb movingPiece bK then (false, false) else (bk, bq) in
  let wk := if String.eqb fromSq "h1" || String.eqb toSq "h1" then false else wk in
  let wq := if String.eqb fromSq "a1" || String.eqb toSq "a1" then false else wq in
  let bk := if String.eqb fromSq "h8" || String.eqb toSq "h8" then false else bk in
  let bq := if String.eqb fromSq "a8" || String.eqb toSq "a8" then false else bq in
  (h1 <- algebraicToIndex "h1" ;;
   let wk := if negb (optPiece_eqb (getB board h1) wR) then false else wk in
   a1 <- algebraicToIndex "a1" ;;
   let wq := if negb (optPiece_eqb (getB board a1) wR) then false else wq in
   h8 <- algebraicToIndex "h8" ;;
   let bk := if negb (optPiece_eqb (getB board h8) bR) then false else bk in
   a8 <- algebraicToIndex "a8" ;;
   let bq := if negb (optPiece_eqb (getB board a8) bR) then false else bq in
   Ok (set_castlingRights s
         (mkCastlingRights (mkSideRights wk wq) (mkSideRights bk bq))))%res.

(** [clone]: a fresh [GameState] (no selection, no status text) with the
    other members copied. *)
Definition clone (s : t) : t :=
  mk (cloneBoard (board s)) (activeColor s) (playerColor s) (castlingRights s)
     (enPassantTarget s) (halfmoveClock s) (fullmoveNumber s) (moveHistory s)
     (result s) (lastMove s) (repetitionMap s) None [] None
     (if truthyStr (lastMoveText s) then lastMoveText s else None).

Definition applyMoveInternalForSAN (s : t) (move : Move) : Res t :=
  (fromIndex <- algebraicToIndex (from move) ;;
   toIndex <- algebraicToIndex (to move) ;;
   let movingPiece := getB (board s) fromIndex in
   let color := getColorOf movingPiece in
   let b := setB (board s) fromIndex None in
   let b := removePassedPawn b move color toIndex in
   let b := relocateRook b move color in
   let b := placeMoved b move color toIndex movingPiece in
   Ok (set_activeColor (set_board s b) (oppositeColorOf color)))%res.

Definition firstChar (s : string) : string :=
  match s with
  | String c _ => String c EmptyString
  | EmptyString => "undefined"
  end.

(** [toSimpleSAN] runs on the state as [applyMove] has already changed it. *)
Definition toSimpleSAN (s : t) (move : Move) (movingPiece : option Piece)
  (isCapture : bool) : Res string :=
  match movingPiece with
  | None => Err TypeError
  | Some mp =>
      let pieceType := ptype mp in
      let san :=
        if isCastleKingSide move then "O-O"
        else if isCastleQueenSide move then "O-O-O"
        else
          ((if negb (PieceType_eqb pieceType P) then typeLetter pieceType
            else if isCapture then firstChar (from move) else "")
           ++ (if isCapture then "x" else "")
           ++ to move
           ++ (match promotion move with
               | Some promo => "=" ++ typeLetter promo
               | None => ""
               end))%string in
      (tmp <- applyMoveInternalForSAN (clone s) move ;;
       a <- analyzePosition (asRulesState tmp) ;;
       Ok (if isCheck a && negb (hasLegalMoves a) then san ++ "#"
           else if isCheck a then san ++ "+"
           else san)%string)%res
  end.

(** [applyMove] up to and including [recordRepetitionKey]. *)
Definition applyMoveCore (s : t) (move : Move) : Res t :=
  (fromIndex <- algebraicToIndex (from move) ;;
   toIndex <- algebraicToIndex (to move) ;;
   let movingPiece := getB (board s) fromIndex in
   let color := getColorOf movingPiece in
   let enemy := oppositeColorOf color in
   let isPawn := match movingPiece with
                 | Some mp => PieceType_eqb (ptype mp) P
                 | None => false
                 end in
   let isCapture := isSome (captured move) || isEnPassant move in
   let s := if isPawn || isCapture then set_halfmoveClock s 0
            else set_halfmoveClock s (halfmoveClock s + 1) in
   let s := set_enPassantTarget s None in
   let b := setB (board s) fromIndex None in
   let b := removePassedPawn b move color toIndex in
   let b := relocateRook b move color in
   let b := placeMoved b move color toIndex movingPiece in
   let s := set_board s b in
   let s :=
     if isPawn then
       let '(_, fromRank) := indexFR fromIndex in
       let '(_, toRank) := indexFR toIndex in
       if Z.abs (toRank - fromRank) =? 2 then
         let epRank := (fromRank + toRank) / 2 in
         let '(file, _) := indexFR toIndex in
         let epIndex := epRank * 8 + file in
         set_enPassantTarget s (Some (indexToAlgebraic epIndex))
       else s
     else s in
   s <- updateCastlingRights s move fromIndex toIndex movingPiece color ;;
   let s := set_activeColor s enemy in
   let s := if optColor_eqb color black
            then set_fullmoveNumber s (fullmoveNumber s + 1) else s in
   let s := set_lastMove s (Some (from move, to move)) in
   san <- toSimpleSAN s move movingPiece isCapture ;;
   let s := set_moveHistory s (moveHistory s ++ [san]) in
   let s := set_lastMoveText s
              (Some (Z_to_string (fullmoveNumber s) ++ ". " ++ san))%string in
   Ok (recordRepetitionKey s))%res.

Definition applyMove (s : t) (move : Move) : Res t :=
  if isGameOver s then Ok s
  else
    (s <- applyMoveCore s move ;;
     s <- updateResult s ;;
     Ok (updateStatusText s))%res.

(** The reply of [handleSelection]. *)
Record Selection : Type := mkSelection {
  moved : bool;
  sel_selectedSquare : option string;
  legalTargets : list string
}.

Definition handleSelection (s : t) (square : string) (side : Color)
  : Res (t * Selection) :=
  if isGameOver s then Ok (s, mkSelection false None [])
  else if negb (Color_eqb side (activeColor s)) then
    Ok (s, mkSelection false (selectedSquare s) (cachedLegalTargets s))
  else
    (piece <- getPiece s square ;;
     let pieceColor := getColorOf piece in
     if isSome piece && optColor_eqb pieceColor side then
       let s := set_selectedSquare s (Some square) in
       allLegal <- generateLegalMoves (asRulesState s) ;;
       let targets :=
         map to (filter (fun m => String.eqb (from m) square) allLegal) in
       let s := set_cachedLegalTargets s targets in
       Ok (s, mkSelection false (Some square) targets)
     else if truthyStr (selectedSquare s) then
       let from_ := orElse (selectedSquare s) "" in
       let to_ := square in
       allLegal <- generateLegalMoves (asRulesState s) ;;
       match find (fun m => String.eqb (from m) from_ && String.eqb (to m) to_)
                  allLegal with
       | Some move =>
           s <- applyMove s move ;;
           let s := set_selectedSquare s None in
           let s := set_cachedLegalTargets s [] in
           Ok (s, mkSelection true None [])
       | None =>
           let s := set_selectedSquare s None in
           let s := set_cachedLegalTargets s [] in
           Ok (s, mkSelection false None [])
       end
     else
       Ok (s, mkSelection false (selectedSquare s) (cachedLegalTargets s)))%res.

Definition createStarting (playerColor : Color) : Res t :=
  (b <- createStartingBoard ;;
   let state := constructor None in
   let state := set_board state b in
   let state := set_activeColor state white in
   let state := set_playerColor state playerColor in
   let state := set_castlingRights state allRights in
   let state := set_enPassantTarget state None in
   let state := set_halfmoveClock state 0 in
   let state := set_fullmoveNumber state 1 in
   let state := set_moveHistory state [] in
   let state := set_result state None in
   let state := set_lastMove state None in
   let state := set_repetitionMap state [] in
   let state := recordRepetitionKey state in
   Ok (updateStatusText state))%res.

End GameState.

(* ================================================================== *)
(** ** AI.js *)

(** JavaScript numbers as the search uses them: integers and the two
    infinities. *)
Inductive Num : Type := NegInf | Fin (z : Z) | PosInf.

Definition num_ltb (a b : Num) : bool :=
  match a, b with
  | NegInf, NegInf => false
  | NegInf, _ => true
  | Fin _, NegInf => false
  | Fin x, Fin y => x <? y
  | Fin _, PosInf => true
  | PosInf, _ => false
  end.

Definition num_gtb (a b : Num) : bool := num_ltb b a.
Definition num_leb (a b : Num) : bool := negb (num_ltb b a).
Definition num_geb (a b : Num) : bool := negb (num_ltb a b).

Definition num_neg (a : Num) : Num :=
  match a with
  | NegInf => PosInf
  | Fin z => Fin (- z)
  | PosInf => NegInf
  end.

(** [Math.abs(score - bestScore)] for an integer [score]. *)
Definition absDiff (score : Z) (bestScore : Num) : Num :=
  match bestScore with
  | Fin b => Fin (Z.abs (score - b))
  | _ => PosInf
  end.

(** [Array.prototype.sort] with the comparator [(a, b) => key(b) - key(a)]:
    the stable sort by descending key. *)
Section Sort.
Variable A : Type.
Variable key : A -> Z.

Fixpoint insertDesc (x : A) (l : list A) : list A :=
  match l with
  | [] => [x]
  | y :: t => if key y >? key x then y :: insertDesc x t else x :: y :: t
  end.

Fixpoint sortDesc (l : list A) : list A :=
  match l with
  | [] => []
  | x :: t => insertDesc x (sortDesc t)
  end.
End Sort.

Module AI.

Definition PIECE_VALUES (t : PieceType) : Z :=
  match t with
  | P => 100 | N => 320 | B => 330 | R => 500 | Q => 900 | K => 0
  end.

(** The members of [SearchState] that are read; the mobility callback is
    only referred to by code that is commented out in the evaluator. *)
Record SearchState : Type := mkSearchState {
  board : Board;
  activeColor : Color;
  castlingRights : CastlingRights;
  enPassantTarget : option string;
  halfmoveClock : Z;
  fullmoveNumber : Z
}.

(** [new SearchState(gameState)] *)
Definition ofGameState (g : GameState.t) : SearchState :=
  mkSearchState (cloneBoard (GameState.board g)) (GameState.activeColor g)
    (GameState.castlingRights g) (GameState.enPassantTarget g)
    (GameState.halfmoveClock g) (GameState.fullmoveNumber g).

Definition clone (s : SearchState) : SearchState :=
  mkSearchState (cloneBoard (board s)) (activeColor s) (castlingRights s)
    (enPassantTarget s) (halfmoveClock s) (fullmoveNumber s).

(** The search state as the rules read it. *)
Definition asRules (s : SearchState) : RulesState :=
  mkRulesState (board s) (activeColor s) (castlingRights s) (enPassantTarget s).

(* ----- Fast algebraic helpers ----- *)

Definition charCode (c : ascii) : Z := Z.of_nat (nat_of_ascii c).

(** [charCodeAt] past the end of the string is NaN. *)
Definition algebraicToIndexFast (sq : string) : Res Z :=
  match sq with
  | String c0 (String c1 _) =>
      let file := charCode c0 - 97 in
      let rank := charCode c1 - 49 in
      Ok (rank * 8 + file)
  | _ => Err NaNIndex
  end.

Definition fromCharCode (n : Z) : Res string :=
  if (0 <=? n) && (n <? 256)
  then Ok (String (ascii_of_nat (Z.to_nat n)) EmptyString)
  else Err WideChar.

Definition indexToAlgebraicFast (index : Z) : Res string :=
  (file <- fromCharCode (97 + Z.rem index 8) ;;
   rank <- fromCharCode (49 + index / 8) ;;
   Ok (file ++ rank)%string)%res.

Definition updateCastlingRightsSearch (state : SearchState) (move : Move)
  (fromIndex toIndex : Z) (movingPiece : option Piece) : Res SearchState :=
  let cr := castlingRights state in
  (fromSq <- indexToAlgebraicFast fromIndex ;;
   toSq <- indexToAlgebraicFast toIndex ;;
   let wk := kingSide (whiteRights cr) in
   let wq := queenSide (whiteRights cr) in
   let bk := kingSide (blackRights cr) in
   let bq := queenSide (blackRights cr) in
   let '(wk, wq, bk, bq) :=
     if GameState.optPiece_eqb movingPiece wK then (false, false, bk, bq)
     else if GameState.optPiece_eqb movingPiece bK then (wk, wq, false, false)
     else (wk, wq, bk, bq) in
   let wk := if String.eqb fromSq "h1" || String.eqb toSq "h1" then false else wk in
   let wq := if String.eqb fromSq "a1" || String.eqb toSq "a1" then false else wq in
   let bk := if String.eqb fromSq "h8" || String.eqb toSq "h8" then false else bk in
   let bq := if String.eqb fromSq "a8" || String.eqb toSq "a8" then false else bq in
   Ok (mkSearchState (board state) (activeColor state)
         (mkCastlingRights (mkSideRights wk wq) (mkSideRights bk bq))
         (enPassantTarget state) (halfmoveClock state) (fullmoveNumber state)))%res.

(** The board after [applyMoveSearch], given the two indices. *)
Definition movedBoard (b : Board) (move : Move) (mover : Color)
  (fromIndex toIndex : Z) : Board :=
  let movingPiece := getB b fromIndex in
  let b := setB b fromIndex None in
  let b :=
    if isEnPassant move then
      let dir := match mover with white => -1 | black => 1 end in
      let tf := Z.rem toIndex 8 in
      let tr := toIndex / 8 in
      let capIndex := (tr + dir) * 8 + tf in
      setB b capIndex None
    else b in
  let b :=
    if isCastleKingSide move || isCastleQueenSide move then
      let rank := match mover with white => 0 | black => 7 end in
      if isCastleKingSide move then
        let rookFrom := rank * 8 + 7 in
        let rookTo := rank * 8 + 5 in
        setB (setB b rookTo (getB b rookFrom)) rookFrom None
      else
        let rookFrom := rank * 8 + 0 in
        let rookTo := rank * 8 + 3 in
        setB (setB b rookTo (getB b rookFrom)) rookFrom None
    else b in
  match promotion move with
  | Some promo => setB b toIndex (Some (mkPiece mover promo))
  | None => setB b toIndex movingPiece
  end.

Definition applyMoveSearch (state : SearchState) (move : Move) (mover : Color)
  : Res SearchState :=
  (fromIndex <- algebraicToIndexFast (from move) ;;
   toIndex <- algebraicToIndexFast (to move) ;;
   let movingPiece := getB (board state) fromIndex in
   let enemy := oppositeColor mover in
   let isPawn := match movingPiece with
                 | Some mp => PieceType_eqb (ptype mp) P
                 | None => false
                 end in
   let isCapture := isSome (captured move) || isEnPassant move in
   let hmc := if isPawn || isCapture then 0 else halfmoveClock state + 1 in
   let b := movedBoard (board state) move mover fromIndex toIndex in
   ep <-
     (if isPawn then
        let fromRank := fromIndex / 8 in
        let toRank := toIndex / 8 in
        if Z.abs (toRank - fromRank) =? 2 then
          let midRank := (fromRank + toRank) / 2 in
          let file := Z.rem toIndex 8 in
          let epIndex := midRank * 8 + file in
          sq <- indexToAlgebraicFast epIndex ;; Ok (Some sq)
        else Ok None
      else Ok None) ;;
   let state := mkSearchState b (activeColor state) (castlingRights state) ep hmc
                  (fullmoveNumber state) in
   state <- updateCastlingRightsSearch state move fromIndex toIndex movingPiece ;;
   Ok (mkSearchState (board state) enemy (castlingRights state)
         (enPassantTarget state) (halfmoveClock state)
         (if Color_eqb mover black then fullmoveNumber state + 1
          else fullmoveNumber state)))%res.

(** [pieceValueApprox]: the value of the last letter of the code. *)
Definition pieceValueApprox (t : option PieceType) : Z :=
  match t with
  | None => 0
  | Some ty => PIECE_VALUES ty
  end.

Definition capturedValue (m : Move) : Z :=
  pieceValueApprox (option_map ptype (captured m)).

Definition capturePromotionValue (m : Move) : Z :=
  capturedValue m + pieceValueApprox (promotion m).

(** [this.depthForLevel[level]] *)
Definition depthForLevel (level : Z) : nat :=
  if level =? 1 then 1
  else if level =? 2 then 2
  else if level =? 3 then 3
  else if level =? 4 then 3
  else if level =? 5 then 4
  else 0%nat.

(** [PIECE_VALUES.P * jitter * 2] with [jitter = this.randomness[level] || 0],
    [None] when the jitter is 0.  The products 100 * 0.4, 100 * 0.25,
    100 * 0.15, 100 * 0.08 and 100 * 0.05 round to 40, 25, 15, 8 and 5 in
    double precision. *)
Definition jitterBand (level : Z) : option Z :=
  if level =? 1 then Some 80
  else if level =? 2 then Some 50
  else if level =? 3 then Some 30
  else if level =? 4 then Some 16
  else if level =? 5 then Some 10
  else None.

(* ----- The clock and the random source ----- *)

(** How many times [Date.now()] and [Math.random()] have been called. *)
Record World : Type := mkWorld { clockReads : nat; randomDraws : nat }.

Definition Search (A : Type) : Type := World -> Res (A * World).

Definition ret {A} (a : A) : Search A := fun w => Ok (a, w).

Definition bind {A B} (c : Search A) (k : A -> Search B) : Search B :=
  fun w => match c w with
           | Ok (a, w') => k a w'
           | Err e => Err e
           end.

Definition lift {A} (r : Res A) : Search A :=
  fun w => match r with
           | Ok a => Ok (a, w)
           | Err e => Err e
           end.

Declare Scope search_scope.
Delimit Scope search_scope with search.
Notation "x <- c ;; k" := (bind c (fun x => k))
  (at level 61, c at next level, right associativity) : search_scope.

Section Engine.

(** [clock n] is what the n-th call of [Date.now()] returns; the n-th
    call of [Math.random()] selects index [random n mod len] where the
    script computes [Math.floor(Math.random() * len)]: any index below
    [len] can be selected. *)
Variable clock : nat -> Z.
Variable random : nat -> nat.

Definition now : Search Z :=
  fun w => Ok (clock (clockReads w), mkWorld (S (clockReads w)) (randomDraws w)).

Definition randomBelow (len : nat) : Search nat :=
  fun w => Ok (match len with
               | O => O
               | _ => Nat.modulo (random (randomDraws w)) len
               end,
               mkWorld (clockReads w) (S (randomDraws w))).

Definition truthyNum (o : option Z) : bool :=
  match o with
  | Some n => negb (n =? 0)
  | None => false
  end.

(** [timeout && startTime && Date.now() - startTime >= timeout]: the
    clock is read only when both numbers are truthy. *)
Definition budgetExceeded (timeout startTime : option Z) : Search bool :=
  match timeout, startTime with
  | Some t, Some s0 =>
      if truthyNum timeout && truthyNum startTime
      then (n <- now ;; ret (n - s0 >=? t))%search
      else ret false
  | _, _ => ret false
  end.

(** [timeout && startTime && i % k === 0 && Date.now() - startTime >= timeout] *)
Definition budgetExceededEvery (k i : Z) (timeout startTime : option Z)
  : Search bool :=
  if Z.rem i k =? 0 then budgetExceeded timeout startTime else ret false.

(* ----- quiescence ----- *)

Section QuiescenceLoop.
Variable rec : SearchState -> Num -> Num -> Z -> Search (option Num).
Variable state : SearchState.
Variable rootColor : Color.
Variables timeout startTime : option Z.
Variable beta : Num.

Fixpoint quiescenceLoop (limited : list Move) (i : Z) (value alpha : Num)
  : Search Num :=
  match limited with
  | [] => ret value
  | move :: rest =>
      (stop <- budgetExceededEvery 5 i timeout startTime ;;
       if stop then ret value
       else
         next <- lift (applyMoveSearch (clone state) move (activeColor state)) ;;
         r <- rec next (num_neg beta) (num_neg alpha)
                  (Evaluator.evaluate (board next) rootColor) ;;
         (* unary minus: -null is 0, so [score] is always a number *)
         let score : option Num :=
           Some (match r with
                 | None => Fin 0
                 | Some x => num_neg x
                 end) in
         match score with
         | None => ret value
         | Some score =>
             let value := if num_gtb score value then score else value in
             let alpha := if num_gtb value alpha then value else alpha in
             if num_geb alpha beta then ret value
             else quiescenceLoop rest (i + 1) value alpha
         end)%search
  end.
End QuiescenceLoop.

(** [fuel] bounds the depth of the recursion, which the script leaves to
    the captures running out. *)
Fixpoint quiescence (fuel : nat) (state : SearchState) (alpha beta : Num)
  (rootColor : Color) (standPat : Z) (timeout startTime : option Z)
  : Search (option Num) :=
  match fuel with
  | O => lift (Err OutOfFuel)
  | S fuel' =>
      (stop <- budgetExceeded timeout startTime ;;
       if stop then ret None
       else
         let value := Fin standPat in
         let cut := num_gtb value alpha && num_geb value beta in
         let alpha := if num_gtb value alpha then value else alpha in
         if cut then ret (Some alpha)
         else
           allMoves <- lift (generateLegalMoves (asRules state)) ;;
           let captureMoves := filter (fun m => isSome (captured m)) allMoves in
           let limited := firstn 16 captureMoves in
           v <- quiescenceLoop
                  (fun next a b sp =>
                     quiescence fuel' next a b rootColor sp timeout startTime)
                  state rootColor timeout startTime beta limited 0 value alpha ;;
           ret (Some v))%search
  end.

(* ----- minimax ----- *)

Section MinimaxLoops.
Variable rec : SearchState -> Num -> Num -> bool -> Search (option Num).
Variable state : SearchState.
Variables timeout startTime : option Z.

Fixpoint maxLoop (ordered : list Move) (i : Z) (value alpha beta : Num)
  : Search (option Num) :=
  match ordered with
  | [] => ret (Some value)
  | move :: rest =>
      (stop <- budgetExceededEvery 10 i timeout startTime ;;
       if stop then ret None
       else
         next <- lift (applyMoveSearch (clone state) move (activeColor state)) ;;
         child <- rec next alpha beta false ;;
         match child with
         | None => ret None
         | Some child =>
             let value := if num_gtb child value then child else value in
             let alpha := if num_gtb value alpha then value else alpha in
             if num_geb alpha beta then ret (Some value)
             else maxLoop rest (i + 1) value alpha beta
         end)%search
  end.

Fixpoint minLoop (ordered : list Move) (i : Z) (value alpha beta : Num)
  : Search (option Num) :=
  match ordered with
  | [] => ret (Some value)
  | move :: rest =>
      (stop <- budgetExceededEvery 10 i timeout startTime ;;
       if stop then ret None
       else
         next <- lift (applyMoveSearch (clone state) move (activeColor state)) ;;
         child <- rec next alpha beta true ;;
         match child with
         | None => ret None
         | Some child =>
             let value := if num_ltb child value then child else value in
             let beta := if num_ltb value beta then value else beta in
             if num_geb alpha beta then ret (Some value)
             else minLoop rest (i + 1) value alpha beta
         end)%search
  end.
End MinimaxLoops.

(** The block of [minimax] entered at depth 0 or without legal moves. *)
Definition minimaxLeaf (fuel : nat) (state : SearchState) (depth : nat)
  (legalMoves : list Move) (alpha beta : Num) (rootColor : Color) (level : Z)
  (timeout startTime : option Z) : Search (option Num) :=
  (let baseScore := Evaluator.evaluate (board state) rootColor in
   baseScore <-
     (if (List.length legalMoves =? 0)%nat then
        inCheck <- lift (isInCheck (asRules state) None) ;;
        if inCheck then
          ret (if Color_eqb (activeColor state) rootColor
               then -100000 else 100000)
        else ret 0
      else ret baseScore) ;;
   if (Z.of_nat depth <=? 0) && (level >=? 4) then
     qScore <- quiescence fuel state alpha beta rootColor baseScore
                 timeout startTime ;;
     match qScore with
     | None => ret (Some (Fin baseScore))
     | Some q => ret (Some q)
     end
   else ret (Some (Fin baseScore)))%search.

(** [depth] is a natural number: the script calls [minimax] with
    [depth - 1] for a [depth] of at least 1. *)
Fixpoint minimax (fuel : nat) (depth : nat) (state : SearchState)
  (alpha beta : Num) (rootColor : Color) (isMaximizing : bool) (level : Z)
  (timeout startTime : option Z) {struct depth} : Search (option Num) :=
  (stop <- budgetExceeded timeout startTime ;;
   if stop then ret None
   else
     legalMoves <- lift (generateLegalMoves (asRules state)) ;;
     match depth with
     | O =>
         minimaxLeaf fuel state depth legalMoves alpha beta rootColor level
           timeout startTime
     | S depth' =>
         if (List.length legalMoves =? 0)%nat then
           minimaxLeaf fuel state depth legalMoves alpha beta rootColor level
             timeout startTime
         else
           let ordered := sortDesc capturePromotionValue legalMoves in
           let rec := fun next a b isMax =>
                        minimax fuel depth' next a b rootColor isMax level
                          timeout startTime in
           if isMaximizing
           then maxLoop rec state timeout startTime ordered 0 NegInf alpha beta
           else minLoop rec state timeout startTime ordered 0 PosInf alpha beta
     end)%search.

(* ----- root search ----- *)

(** The variables of the first loop of [searchRoot]. *)
Record RootAcc : Type := mkRootAcc {
  bestMove : option Move;
  bestScore : Num;
  rootAlpha : Num;
  rootBeta : Num
}.

Fixpoint rootLoop (fuel : nat) (state : SearchState) (depth : nat)
  (color : Color) (isMaximizing : bool) (level : Z)
  (timeout startTime : option Z) (ordered : list Move) (acc : RootAcc)
  : Search RootAcc :=
  match ordered with
  | [] => ret acc
  | move :: rest =>
      (stop <- budgetExceeded timeout startTime ;;
       if stop then ret acc
       else
         next <- lift (applyMoveSearch (clone state) move (activeColor state)) ;;
         score <- minimax fuel (Nat.pred depth) next (rootAlpha acc)
                    (rootBeta acc) color (negb isMaximizing) level
                    timeout startTime ;;
         match score with
         | None => ret acc
         | Some score =>
             let acc :=
               if isMaximizing then
                 let better := num_gtb score (bestScore acc) in
                 mkRootAcc (if better then Some move else bestMove acc)
                   (if better then score else bestScore acc)
                   (if num_gtb score (rootAlpha acc) then score
                    else rootAlpha acc)
                   (rootBeta acc)
               else
                 let better := num_ltb score (bestScore acc) in
                 mkRootAcc (if better then Some move else bestMove acc)
                   (if better then score else bestScore acc)
                   (rootAlpha acc)
                   (if num_ltb score (rootBeta acc) then score
                    else rootBeta acc) in
             if num_leb (rootBeta acc) (rootAlpha acc) then ret acc
             else rootLoop fuel state depth color isMaximizing level
                    timeout startTime rest acc
         end)%search
  end.

(** The second loop of [searchRoot]: the moves whose static score is
    within the band of the best score. *)
Fixpoint candidateLoop (state : SearchState) (color : Color) (band : Z)
  (bestScore : Num) (timeout startTime : option Z) (ordered : list Move)
  (candidates : list Move) : Search (list Move) :=
  match ordered with
  | [] => ret candidates
  | move :: rest =>
      (stop <- budgetExceeded timeout startTime ;;
       if stop then ret candidates
       else
         next <- lift (applyMoveSearch (clone state) move (activeColor state)) ;;
         let score := Evaluator.evaluate (board next) color in
         let delta := absDiff score bestScore in
         let candidates :=
           if num_leb delta (Fin band) then candidates ++ [move]
           else candidates in
         candidateLoop state color band bestScore timeout startTime rest
           candidates)%search
  end.

Definition searchRoot (fuel : nat) (state : SearchState) (legalMoves : list Move)
  (depth : nat) (color : Color) (level : Z) (timeout startTime : option Z)
  : Search (option Move) :=
  (let isMaximizing := Color_eqb (activeColor state) color in
   let ordered := sortDesc capturedValue legalMoves in
   acc <- rootLoop fuel state depth color isMaximizing level timeout startTime
            ordered
            (mkRootAcc (hd_error ordered)
               (if isMaximizing then NegInf else PosInf) NegInf PosInf) ;;
   stop <- budgetExceeded timeout startTime ;;
   if negb stop then
     match jitterBand level with
     | Some band =>
         if (1 <? List.length ordered)%nat then
           candidates <- candidateLoop state color band (bestScore acc)
                           timeout startTime ordered [] ;;
           if (0 <? List.length candidates)%nat then
             k <- randomBelow (List.length candidates) ;;
             ret (nth_error candidates k)
           else ret (bestMove acc)
         else ret (bestMove acc)
     | None => ret (bestMove acc)
     end
   else ret (bestMove acc))%search.

(* ----- level 1 ----- *)

Fixpoint scoreMoves (state : SearchState) (color : Color) (moves : list Move)
  : Res (list (Move * Z)) :=
  match moves with
  | [] => Ok []
  | m :: rest =>
      (next <- applyMoveSearch (clone state) m (activeColor state) ;;
       let score := Evaluator.evaluate (board next) color in
       scored <- scoreMoves state color rest ;;
       Ok ((m, score) :: scored))%res
  end.

(** [Math.floor(scored.length * 0.4)] is the integer quotient of
    [2 * length] by 5. *)
Definition pickLevel1Move (state : SearchState) (moves : list Move)
  (color : Color) : Search Move :=
  (scored <- lift (scoreMoves state color moves) ;;
   let scored := sortDesc (fun ms : Move * Z => snd ms) scored in
   let keepCount := Nat.max 1 (2 * List.length scored / 5) in
   let top := firstn keepCount scored in
   k <- randomBelow (List.length top) ;;
   match nth_error top k with
   | Some ms => ret (fst ms)
   | None => lift (Err TypeError)
   end)%search.

(* ----- progressive deepening ----- *)

(** The [while (currentDepth <= maxDepth)] loop; [remaining] counts the
    depths from [currentDepth] to [maxDepth]. *)
Fixpoint deepeningLoop (fuel : nat) (state : SearchState)
  (legalMoves : list Move) (color : Color) (level : Z) (timeout startTime : Z)
  (remaining : nat) (currentDepth : nat) (bestMove : option Move)
  : Search (option Move) :=
  match remaining with
  | O => ret bestMove
  | S remaining' =>
      (n <- now ;;
       if n - startTime >=? timeout then ret bestMove
       else
         move <- searchRoot fuel state legalMoves currentDepth color level
                   (Some timeout) (Some startTime) ;;
         let bestMove := match move with
                         | Some m => Some m
                         | None => bestMove
                         end in
         n <- now ;;
         if n - startTime >=? timeout then ret bestMove
         else deepeningLoop fuel state legalMoves color level timeout startTime
                remaining' (S currentDepth) bestMove)%search
  end.

Definition progressiveDeepeningSearch (fuel : nat) (state : SearchState)
  (legalMoves : list Move) (maxDepth : nat) (color : Color) (level : Z)
  (timeout : option Z) : Search (option Move) :=
  (let timeout := GameState.orElse timeout 10000 in
   startTime <- now ;;
   let bestMove := hd_error legalMoves in
   deepeningLoop fuel state legalMoves color level timeout startTime
     maxDepth 1%nat bestMove)%search.

(** [findBestMove(gameState, { level, forColor, timeout = 10000 })];
    [None] is [null]. *)
Definition findBestMove (fuel : nat) (gameState : GameState.t) (level : Z)
  (forColor : Color) (timeout : option Z) : Search (option Move) :=
  (let timeout := GameState.orElse timeout 10000 in
   let clampedLevel := Z.max 1 (Z.min 5 (if level =? 0 then 1 else level)) in
   let depth := depthForLevel clampedLevel in
   let baseState := ofGameState gameState in
   legalMoves <- lift (generateLegalMoves (asRules baseState)) ;;
   if (List.length legalMoves =? 0)%nat then ret None
   else if clampedLevel =? 1 then
     m <- pickLevel1Move baseState legalMoves forColor ;; ret (Some m)
   else if clampedLevel >=? 2 then
     progressiveDeepeningSearch fuel baseState legalMoves depth forColor
       clampedLevel (Some timeout)
   else
     searchRoot fuel baseState legalMoves depth forColor clampedLevel None None
  )%search.

End Engine.

End AI.

(* ================================================================== *)
(** ** Game.js *)

Module Game.

(** The members of [Game] that the move handlers touch.  The [onUpdate]
    callback receives a snapshot and cannot reach the state. *)
Record t : Type := mk {
  state : GameState.t;
  difficulty : Z
}.

(** A move request: [{ from, to, promotion? }]. *)
Record MoveRequest : Type := mkRequest {
  req_from : string;
  req_to : string;
  req_promotion : option string
}.

Inductive Response : Type :=
| Success (move : Move)        (* { success: true, move } *)
| Failure (error : string).    (* { success: false, error } *)

Definition isGameOver (g : t) : bool := GameState.isGameOver (state g).
Definition getCurrentTurn (g : t) : Color := GameState.activeColor (state g).
Definition getPlayerColor (g : t) : Color := GameState.playerColor (state g).

Definition notify (g : t) : t :=
  mk (GameState.updateStatusText (state g)) (difficulty g).

(** [m.promotion === move.promotion] for a truthy requested promotion. *)
Definition promotionIs (m : Move) (wanted : string) : bool :=
  match promotion m with
  | Some ty => String.eqb (typeLetter ty) wanted
  | None => false
  end.

(** The predicate passed to [legalMoves.find]. *)
Definition matchesRequest (move : MoveRequest) (m : Move) : bool :=
  String.eqb (from m) (req_from move)
  && String.eqb (to m) (req_to move)
  && (negb (truthyStr (req_promotion move))
      || promotionIs m (GameState.orElse (req_promotion move) "")).

Definition handlePlayerMove (g : t) (move : MoveRequest) : Res (t * Response) :=
  if isGameOver g then Ok (g, Failure "Game is over")
  else if negb (Color_eqb (getCurrentTurn g) (getPlayerColor g)) then
    Ok (g, Failure "Not your turn")
  else
    (legalMoves <- generateLegalMoves (GameState.asRulesState (state g)) ;;
     match find (matchesRequest move) legalMoves with
     | None => Ok (g, Failure "Illegal move")
     | Some validMove =>
         s <- GameState.applyMove (state g) validMove ;;
         Ok (notify (mk s (difficulty g)), Success validMove)
     end)%res.

Definition applyAIMove (g : t) (move : option Move) : Res t :=
  match move with
  | None => Ok g
  | Some move =>
      (s <- GameState.applyMove (state g) move ;;
       Ok (notify (mk s (difficulty g))))%res
  end.


Definition getBoard (g : t) : JsObject (option Piece) :=
  GameState.getBoardMap (state g).

End Game.

(* ================================================================== *)
(** * Vocabulary of the properties, and example positions *)

(** The index of a board cell. *)
Definition onBoard (i : Z) : Prop := 0 <= i < 64.

(** For the cell [i]: its name converts back to [i] by both converters,
    the fast converter gives the same name, and the name is not empty. *)
Definition squareChecks (i : Z) : bool :=
  match algebraicToIndex (indexToAlgebraic i),
        AI.algebraicToIndexFast (indexToAlgebraic i),
        AI.indexToAlgebraicFast i with
  | Ok a, Ok b, Ok s =>
      (a =? i) && (b =? i) && String.eqb s (indexToAlgebraic i)
      && negb (String.eqb (indexToAlgebraic i) "")
  | _, _, _ => false
  end.

(** [color === "white" ? "wK" : "bK"] *)
Definition kingOf (color : Color) : Piece :=
  match color with white => wK | black => bK end.

(** An empty board, White to move. *)
Definition emptyRulesState : RulesState :=
  mkRulesState (repeat None 64) white GameState.allRights None.

(** The initial position as the rules read it. *)
Definition startingRules : RulesState :=
  match createStartingBoard with
  | Ok b => mkRulesState b white GameState.allRights None
  | Err _ => emptyRulesState
  end.

(** White king e1, white bishops c1 and f1, black king e8. *)
Definition twoWhiteBishops : Board :=
  [None; None; Some wB; None; Some wK; Some wB; None; None]
  ++ repeat None 52 ++ [Some bK; None; None; None].

(** A state whose result is a checkmate won by Black. *)
Definition matedState : GameState.t :=
  GameState.set_result (GameState.constructor None)
    (Some (mkResult checkmate (Some black) (Some "Checkmate"))).

(** [after] is [before] with one key set. *)
Definition repetitionRecorded (before after : JsMap) : Prop :=
  exists key n, after = mapSet before key n.


(** [GameState.createStarting("white")] *)
Definition startingState : GameState.t :=
  match GameState.createStarting white with
  | Ok s => s
  | Err _ => GameState.constructor None
  end.

(** [applyMove] for each move in turn. *)
Fixpoint applyMoves (s : GameState.t) (moves : list Move) : GameState.t :=
  match moves with
  | [] => s
  | m :: rest =>
      match GameState.applyMove s m with
      | Ok s' => applyMoves s' rest
      | Err _ => s
      end
  end.

(** 1. f3 e5 2. g4, with the queen about to give mate on h4. *)
Definition beforeFoolsMate : GameState.t :=
  applyMoves startingState
    [createMove "f2" "f3" (Some wP) None;
     createMove "e7" "e5" (Some bP) None;
     createMove "g2" "g4" (Some wP) None].

Definition queenToH4 : Move := createMove "d8" "h4" (Some bQ) None.

Definition afterFoolsMate : GameState.t := applyMoves beforeFoolsMate [queenToH4].

(** What holds of every state the class produces: the full-move number
    is at least 1, the en-passant target is not the empty string, and the
    repetition map has one entry per key. *)
Definition producedByClass (s : GameState.t) : Prop :=
  1 <= GameState.fullmoveNumber s
  /\ GameState.enPassantTarget s <> Some ""
  /\ NoDup (map fst (GameState.repetitionMap s)).

(** The legal moves of the initial position. *)
Definition startingLegal : list Move :=
  match generateLegalMoves startingRules with
  | Ok l => l
  | Err _ => []
  end.

Definition pawnToE4 : Move := createMove "e2" "e4" (Some wP) None.

(** The clock reads 1 at the first call and 100 at every later call. *)
Definition lateClock (n : nat) : Z :=
  match n with O => 1 | _ => 100 end.

(** The clock reads 1 at the first two calls and 100 afterwards. *)
Definition laterClock (n : nat) : Z :=
  match n with O | 1%nat => 1 | _ => 100 end.

(** Neither the clock nor the random source has been asked. *)
Definition world0 : AI.World := AI.mkWorld 0 0.

(** White king e1 and pawn e4 against black king e8, queen d8 and pawn d5;
    White to move can capture on d5. *)
Definition queenDown : AI.SearchState :=
  let b := setB (setB (setB (setB (setB (repeat None 64) 4 (Some wK))
                                 28 (Some wP)) 60 (Some bK)) 59 (Some bQ))
             35 (Some bP) in
  AI.mkSearchState b white
    (mkCastlingRights (mkSideRights false false) (mkSideRights false false))
    None 0 1.

(** The search state of the initial position, and of the position after
    1. e4. *)
Definition startingSearch : AI.SearchState := AI.ofGameState startingState.

Definition afterE4Search : AI.SearchState :=
  match AI.applyMoveSearch (AI.clone startingSearch) pawnToE4 white with
  | Ok s => s
  | Err _ => startingSearch
  end.

(** Recursive calls that return the sentinel at once. *)
Definition noAnswer : AI.SearchState -> Num -> Num -> bool -> AI.Search (option Num) :=
  fun _ _ _ _ => AI.ret None.

Definition noAnswerQ : AI.SearchState -> Num -> Num -> Z -> AI.Search (option Num) :=
  fun _ _ _ _ => AI.ret None.

(** The variables of [searchRoot] before its first iteration, for White
    in the initial position. *)
Definition rootStart : AI.RootAcc :=
  AI.mkRootAcc (hd_error (sortDesc AI.capturedValue startingLegal)) NegInf
    NegInf PosInf.

(** The number of occupied cells. *)
Fixpoint pieceCount (b : Board) : nat :=
  match b with
  | [] => O
  | Some _ :: t => S (pieceCount t)
  | None :: t => pieceCount t
  end.

(** 1 for an occupied cell, 0 for an empty one. *)
Definition occupied (c : option Piece) : nat :=
  match c with Some _ => 1 | None => 0 end.

(** The cell [applyMoveSearch] clears for an en-passant capture landing
    on [t]. *)
Definition captureCell (mover : Color) (t : Z) : Z :=
  (t / 8 + match mover with white => -1 | black => 1 end) * 8 + Z.rem t 8.

(** What every move of the generator satisfies on the board it was
    generated from: both squares name board cells, the origin is occupied,
    and a move with a captured piece either lands on an occupied cell or is
    an en-passant capture onto an empty cell that removes a piece from
    another cell. *)
(** The shape of a move the generators build on the board [b] for
    [mover]: it leaves an occupied cell of the board, and a capturing move
    is neither a castle nor a move in place and takes a piece that stands
    on the board (on the target cell, or, en passant, on the cell behind
    it). *)
Definition Generated (b : Board) (mover : Color) (m : Move) : Prop :=
  exists f t,
    onBoard f /\ onBoard t
    /\ from m = indexToAlgebraic f /\ to m = indexToAlgebraic t
    /\ isSome (getB b f) = true
    /\ (captured m <> None ->
        f <> t
        /\ isCastleKingSide m = false /\ isCastleQueenSide m = false
        /\ ((isEnPassant m = false /\ isSome (getB b t) = true)
            \/ (isEnPassant m = true /\ getB b t = None
                /\ 0 <= captureCell mover t
                /\ captureCell mover t <> f
                /\ isSome (getB b (captureCell mover t)) = true))).

(** [const dir = color === "white" ? 1 : -1;] *)
Definition pawnDir (color : Color) : Z :=
  match color with white => 1 | black => -1 end.

(** The en-passant target can be read as a square. *)
Definition epReadable (ep : option string) : Prop :=
  match ep with
  | Some sq => exists e, algebraicToIndex sq = Ok e
  | None => True
  end.

(** [c] returns, whatever the clock and the random source have been asked
    so far, and what it returns satisfies [P]. *)
Definition Returns {A} (c : AI.Search A) (P : A -> Prop) : Prop :=
  forall w, exists a w', c w = Ok (a, w') /\ P a.

(** The postcondition that asks nothing. *)
Definition anything {A} : A -> Prop := fun _ => True.

(** A search state the recursion can continue from: its en-passant target
    is readable and its board holds fewer pieces than [fuel]. *)
Definition searchable (fuel : nat) (st : AI.SearchState) : Prop :=
  epReadable (AI.enPassantTarget st)
  /\ (pieceCount (AI.board st) < fuel)%nat.


(** The promotion piece a request names, if it names one. *)
Definition requestedPromotion (req : Game.MoveRequest) : option string :=
  if truthyStr (Game.req_promotion req) then Game.req_promotion req else None.

(** What the script requires of a legal move to serve a request. *)
Definition agrees (req : Game.MoveRequest) (m : Move) : Prop :=
  from m = Game.req_from req
  /\ to m = Game.req_to req
  /\ (forall p, requestedPromotion req = Some p ->
                option_map typeLetter (promotion m) = Some p).

(** The exact match of the claim: same squares, and the promotion piece of
    the request whenever the legal move is a promotion. *)
Definition exactMatchb (req : Game.MoveRequest) (m : Move) : bool :=
  String.eqb (from m) (Game.req_from req)
  && String.eqb (to m) (Game.req_to req)
  && match promotion m with
     | Some ty =>
         match Game.req_promotion req with
         | Some p => String.eqb (typeLetter ty) p
         | None => false
         end
     | None => true
     end.

(** White king e1, white pawn a7, black king h8; White (the player) to
    move, no castling rights. *)
Definition promotionGame : Game.t :=
  let b := setB (setB (setB (repeat None 64) 4 (Some wK)) 48 (Some wP))
             63 (Some bK) in
  let s := GameState.constructor None in
  let s := GameState.set_board s b in
  let s := GameState.set_castlingRights s
             (mkCastlingRights (mkSideRights false false)
                (mkSideRights false false)) in
  Game.mk s 3.

(** The legal moves of the side to move in the game [g]. *)
Definition legalOf (g : Game.t) : list Move :=
  match generateLegalMoves (GameState.asRulesState (Game.state g)) with
  | Ok l => l
  | Err _ => []
  end.

(** The move a response reports as played, if it reports one. *)
Definition accepted (r : Res (Game.t * Game.Response)) : option Move :=
  match r with
  | Ok (_, Game.Success m) => Some m
  | _ => None
  end.

(** The test that ends a ray: [f < 0 || f > 7 || r < 0 || r > 7]. *)
Definition offBoard (x y : Z) : Prop := x < 0 \/ x > 7 \/ y < 0 \/ y > 7.

(** The piece code with the colours exchanged. *)
Definition flipPiece (c : option Piece) : option Piece :=
  option_map (fun p => mkPiece (oppositeColor (pcolor p)) (ptype p)) c.

(** The board seen from the other side: the ranks in reverse order and
    the colours exchanged. *)
Definition mirrorBoard (b : Board) : Board :=
  map (fun k => flipPiece (getB b (Evaluator.pstIndex (Z.of_nat k) black)))
      (seq 0 64).

(** The rank a pawn promotes on, and the rank the king and the rooks
    start on. *)
Definition lastRank (color : Color) : Z :=
  match color with white => 7 | black => 0 end.

Definition homeRank (color : Color) : Z :=
  match color with white => 0 | black => 7 end.

(** What a move of the generators says about the position [st] it was
    generated in.  It leads from a cell [f] to another cell [t]; the
    piece it names is the piece of the side to move that stands on [f].
    It is an ordinary move, an en-passant capture or a castle:
    - an ordinary move records as captured what stands on [t], which is
      nothing or a piece of the other side, and it carries a promotion
      piece, one of Q, R, B and N, exactly when a pawn reaches its last
      rank; a pawn goes to the next rank, or two ranks straight ahead;
    - an en-passant capture is a pawn move onto the empty en-passant
      target of the position, and records as captured the piece of the
      other side that stands beside the pawn, on the file of [t];
    - a castle is a king move from the e-file of the home rank to the
      g-file or the c-file, for which the position grants the right, with
      the cells between the king and the corner empty, and with neither
      the king's cell nor the two cells it crosses attacked. *)
Definition WellFormed (st : RulesState) (m : Move) : Prop :=
  let b := board st in
  let mover := activeColor st in
  let enemy := oppositeColor mover in
  exists f t p,
    onBoard f /\ onBoard t /\ f <> t
    /\ from m = indexToAlgebraic f /\ to m = indexToAlgebraic t
    /\ getB b f = Some p /\ pcolor p = mover /\ piece m = Some p
    /\ ((isEnPassant m = false
         /\ isCastleKingSide m = false /\ isCastleQueenSide m = false
         /\ captured m = getB b t
         /\ (forall q, getB b t = Some q -> pcolor q = enemy)
         /\ (promotion m <> None <-> ptype p = P /\ t / 8 = lastRank mover)
         /\ (forall promo, promotion m = Some promo -> In promo PROMOTIONS)
         /\ (ptype p = P ->
             t / 8 = f / 8 + pawnDir mover \/ t = f + 16 * pawnDir mover))
        \/
        (isEnPassant m = true
         /\ isCastleKingSide m = false /\ isCastleQueenSide m = false
         /\ promotion m = None
         /\ ptype p = P
         /\ getB b t = None
         /\ enPassantTarget st = Some (indexToAlgebraic t)
         /\ onBoard (captureCell mover t)
         /\ captureCell mover t <> f
         /\ captureCell mover t = f / 8 * 8 + Z.rem t 8
         /\ exists q, captured m = Some q
                      /\ getB b (captureCell mover t) = Some q
                      /\ pcolor q = enemy)
        \/
        (isEnPassant m = false /\ captured m = None /\ promotion m = None
         /\ ptype p = K
         /\ f = homeRank mover * 8 + 4
         /\ squareAttackedAt b f enemy = false
         /\ ((isCastleKingSide m = true /\ isCastleQueenSide m = false
              /\ t = homeRank mover * 8 + 6
              /\ kingSide (rightsOf (castlingRights st) mover) = true
              /\ getB b (homeRank mover * 8 + 5) = None
              /\ getB b (homeRank mover * 8 + 6) = None
              /\ squareAttackedAt b (homeRank mover * 8 + 5) enemy = false
              /\ squareAttackedAt b (homeRank mover * 8 + 6) enemy = false)
             \/
             (isCastleKingSide m = false /\ isCastleQueenSide m = true
              /\ t = homeRank mover * 8 + 2
              /\ queenSide (rightsOf (castlingRights st) mover) = true
              /\ getB b (homeRank mover * 8 + 3) = None
              /\ getB b (homeRank mover * 8 + 2) = None
              /\ getB b (homeRank mover * 8 + 1) = None
              /\ squareAttackedAt b (homeRank mover * 8 + 3) enemy = false
              /\ squareAttackedAt b (homeRank mover * 8 + 2) enemy = false)))).

(** How the en-passant index of [generatePseudoLegalMoves] relates to the
    en-passant target of the position. *)
Definition epIndexOf (st : RulesState) (epIndex : Z) : Prop :=
  match enPassantTarget st with
  | Some sq => algebraicToIndex sq = Ok epIndex
  | None => epIndex = -1
  end.

(** The placement a move leaves, cell by cell, as the specification words
    it: the origin [f] is cleared; the target [t] receives the moving
    piece, or for a promotion the promotion piece in the mover's colour;
    an en-passant capture removes the pawn that stands behind the target;
    a castle takes the rook from the corner of the home rank to the cell
    the king has crossed; every other cell keeps its content. *)
Definition cellAfter (b : Board) (mover : Color) (m : Move) (f t j : Z)
  : option Piece :=
  let home := homeRank mover in
  if j =? f then None
  else if j =? t then
    match promotion m with
    | Some promo => Some (mkPiece mover promo)
    | None => getB b f
    end
  else if isEnPassant m && (j =? captureCell mover t) then None
  else if isCastleKingSide m && (j =? home * 8 + 7) then None
  else if isCastleKingSide m && (j =? home * 8 + 5) then getB b (home * 8 + 7)
  else if isCastleQueenSide m && (j =? home * 8 + 0) then None
  else if isCastleQueenSide m && (j =? home * 8 + 3) then getB b (home * 8 + 0)
  else getB b j.

(** White king e1 and pawn e5 against black king e8 and a pawn on d5 that
    has just advanced two squares: White may capture it en passant on d6. *)
Definition enPassantPosition : RulesState :=
  mkRulesState
    (setB (setB (setB (setB (repeat None 64) 4 (Some wK)) 36 (Some wP))
             35 (Some bP)) 60 (Some bK))
    white
    (mkCastlingRights (mkSideRights false false) (mkSideRights false false))
    (Some "d6").

Definition enPassantCapture : Move :=
  createEnPassantMove "e5" "d6" (Some wP) (Some bP).

Definition enPassantLegal : list Move :=
  match generateLegalMoves enPassantPosition with
  | Ok l => l
  | Err _ => []
  end.

(** White king a5 and pawn b5 against black king e8, rook h5 and a pawn on
    c5 that has just advanced two squares: the en-passant capture on c6
    would take both pawns off the fifth rank and open it to the rook. *)
Definition enPassantPin : RulesState :=
  mkRulesState
    (setB (setB (setB (setB (setB (repeat None 64) 32 (Some wK)) 33 (Some wP))
                   34 (Some bP)) 39 (Some bR)) 60 (Some bK))
    white
    (mkCastlingRights (mkSideRights false false) (mkSideRights false false))
    (Some "c6").

(** White king e1 and knight e2 against black king a8 and rook e8: the
    knight shields its king. *)
Definition pinnedKnight : RulesState :=
  mkRulesState
    (setB (setB (setB (setB (repeat None 64) 4 (Some wK)) 12 (Some wN))
             60 (Some bR)) 56 (Some bK))
    white
    (mkCastlingRights (mkSideRights false false) (mkSideRights false false))
    None.

(** White king e1 and rooks a1 and h1 against black king e8, with both
    castling rights for White. *)
Definition castlePosition : RulesState :=
  mkRulesState
    (setB (setB (setB (setB (repeat None 64) 4 (Some wK)) 0 (Some wR))
             7 (Some wR)) 60 (Some bK))
    white
    (mkCastlingRights (mkSideRights true true) (mkSideRights false false))
    None.

Definition castleKingSide : Move := createCastleMove "e1" "g1" (Some wK) true.

(** The legal moves of a position, none if they cannot be generated. *)
Definition legalMovesOf (st : RulesState) : list Move :=
  match generateLegalMoves st with
  | Ok l => l
  | Err _ => []
  end.

(** The pseudo-legal moves of a position, none if they cannot be
    generated. *)
Definition pseudoMovesOf (st : RulesState) : list Move :=
  match generatePseudoLegalMoves st with
  | Ok l => l
  | Err _ => []
  end.

(** The promotion of the a-pawn to a rook in [promotionGame]. *)
Definition rookPromotion : Move :=
  createPromotionMove "a7" "a8" (Some wP) R None.

(** The en-passant capture of [enPassantPin]. *)
Definition pinnedCapture : Move :=
  createEnPassantMove "b5" "c6" (Some wP) (Some bP).

(** Whether a castling right survives a move of the piece [mp]: it is
    lost when the piece is the king of that side, and when the move
    starts or ends on the corner of that right. *)
Definition keepsRight (flag : bool) (mp : option Piece) (m : Move) (king : Piece)
  (corner : string) : bool :=
  flag && negb (GameState.optPiece_eqb mp king)
  && negb (String.eqb (from m) corner || String.eqb (to m) corner).

(** A move of a pawn two ranks up or down the board. *)
Definition isDoubleStep (mp : Piece) (f t : Z) : bool :=
  PieceType_eqb (ptype mp) P && (Z.abs (t / 8 - f / 8) =? 2).

(** A move that restarts the fifty-move count: a pawn move or a capture. *)
Definition restartsCount (mp : Piece) (m : Move) : bool :=
  PieceType_eqb (ptype mp) P || (isSome (captured m) || isEnPassant m).

(** Every castling right of the position has its rook on its corner. *)
Definition RightsHaveRooks (b : Board) (cr : CastlingRights) : Prop :=
  (kingSide (whiteRights cr) = true -> getB b 7 = Some wR)
  /\ (queenSide (whiteRights cr) = true -> getB b 0 = Some wR)
  /\ (kingSide (blackRights cr) = true -> getB b 63 = Some bR)
  /\ (queenSide (blackRights cr) = true -> getB b 56 = Some bR).

(** White to move with the right to castle king-side but no rook on h1:
    kings on e1 and e8 and a white pawn on a2. *)
Definition rightWithoutRook : GameState.t :=
  GameState.set_castlingRights
    (GameState.set_board (GameState.constructor None)
       (setB (setB (setB (repeat None 64) 4 (Some wK)) 60 (Some bK))
          8 (Some wP)))
    (mkCastlingRights (mkSideRights true false) (mkSideRights false false)).

Definition pawnToA3 : Move := createMove "a2" "a3" (Some wP) None.

(** [s] with the selection of [sel]: only the selected square and its
    cached targets are replaced. *)
Definition withSelection (s : GameState.t) (sel : GameState.Selection)
  : GameState.t :=
  GameState.set_cachedLegalTargets
    (GameState.set_selectedSquare s (GameState.sel_selectedSquare sel))
    (GameState.legalTargets sel).

(** [promotionGame] with the pawn on a7 selected. *)
Definition pawnSelected : GameState.t :=
  GameState.set_selectedSquare (Game.state promotionGame) (Some "a7").

(** [pawnSelected] after the pawn has gone to a8 as a queen and the
    selection has been cleared. *)
Definition queenedBySelection : GameState.t :=
  withSelection
    (applyMoves pawnSelected [createPromotionMove "a7" "a8" (Some wP) Q None])
    (GameState.mkSelection true None []).

(** The score level 1 gives a move: the evaluation, for [color], of the
    board [applyMoveSearch] leaves on a copy of the state. *)
Definition scoreAfter (st : AI.SearchState) (color : Color) (m : Move)
  : option Z :=
  match AI.applyMoveSearch (AI.clone st) m (AI.activeColor st) with
  | Ok next => Some (Evaluator.evaluate (AI.board next) color)
  | Err _ => None
  end.

(** How many of the moves score more than [sc]. *)
Definition betterThan (st : AI.SearchState) (color : Color)
  (moves : list Move) (sc : Z) : nat :=
  List.length
    (filter (fun m => match scoreAfter st color m with
                      | Some x => x >? sc
                      | None => false
                      end) moves).

(** A list in descending order of its keys. *)
Fixpoint descending {A} (key : A -> Z) (l : list A) : Prop :=
  match l with
  | [] => True
  | x :: t => Forall (fun y => key y <= key x) t /\ descending key t
  end.

(** White to move with a queen to win on d5 and a pawn to win on b5,
    six legal moves in all. *)
Definition queenToWin : AI.SearchState :=
  AI.mkSearchState
    (setB (setB (setB (setB (setB (repeat None 64) 0 (Some wK)) 63 (Some bK))
                   26 (Some wP)) 35 (Some bQ)) 33 (Some bP))
    white
    (mkCastlingRights (mkSideRights false false) (mkSideRights false false))
    None 0 1.

(** White king a1 and pawn e4 against black king h8 and queen d5: the
    pawn can take the queen. *)
Definition pawnTakesQueen : AI.SearchState :=
  AI.mkSearchState
    (setB (setB (setB (setB (repeat None 64) 0 (Some wK)) 63 (Some bK))
             28 (Some wP)) 35 (Some bQ))
    white
    (mkCastlingRights (mkSideRights false false) (mkSideRights false false))
    None 0 1.

(** No character of the string is [c]. *)
Fixpoint lacks (c : ascii) (s : string) : Prop :=
  match s with
  | EmptyString => True
  | String x t => x <> c /\ lacks c t
  end.

(** The text of a board cell in [board.join(",")]. *)
Definition cellText (c : option Piece) : string :=
  match c with
  | Some p => pieceCode p
  | None => ""
  end.

(* ================================================================== *)
(** * Properties *)

Unset Implicit Arguments.

Lemma pieceScoreAt_opposite (board : Board) (color : Color) (i : Z) :
  Evaluator.pieceScoreAt board (oppositeColor color) i
  = - Evaluator.pieceScoreAt board color i.
Proof.
  unfold Evaluator.pieceScoreAt.
  destruct (getB board i) as [p|]; [|reflexivity].
  destruct (pcolor p), color; simpl; lia.
Qed.

Lemma evaluateLoop_opposite (board : Board) (color : Color) (n : nat) :
  forall i a,
    Evaluator.evaluateLoop board (oppositeColor color) i n (- a)
    = - Evaluator.evaluateLoop board color i n a.
Proof.
  induction n as [|n IH]; intros i a; simpl; [reflexivity|].
  rewrite pieceScoreAt_opposite.
  replace (- a + - Evaluator.pieceScoreAt board color i)
    with (- (a + Evaluator.pieceScoreAt board color i)) by lia.
  apply IH.
Qed.

(** C10: the static evaluation is antisymmetric in the requested
    perspective: evaluating for the opposite colour negates the score. *)
Theorem evaluate_antisymmetric (board : Board) (color : Color) :
  Evaluator.evaluate board color
  = - Evaluator.evaluate board (oppositeColor color).
Proof.
  unfold Evaluator.evaluate.
  pose proof (evaluateLoop_opposite board color 64 0 0) as H.
  change (- 0) with 0 in H.
  rewrite H. lia.
Qed.

(* ------------------------------------------------------------------ *)
(** ** Squares and indices *)

Lemma squareChecks_all :
  forallb (fun n => squareChecks (Z.of_nat n)) (seq 0 64) = true.
Proof. vm_compute. reflexivity. Qed.

Lemma squareChecks_onBoard (i : Z) : onBoard i -> squareChecks i = true.
Proof.
  intros Hi.
  pose proof squareChecks_all as H.
  rewrite forallb_forall in H.
  specialize (H (Z.to_nat i)).
  rewrite Z2Nat.id in H by (unfold onBoard in Hi; lia).
  apply H. apply in_seq. unfold onBoard in Hi. lia.
Qed.

Lemma algebraicToIndex_indexToAlgebraic (i : Z) :
  onBoard i -> algebraicToIndex (indexToAlgebraic i) = Ok i.
Proof.
  intros Hi. apply squareChecks_onBoard in Hi. unfold squareChecks in Hi.
  destruct (algebraicToIndex (indexToAlgebraic i)); try discriminate.
  destruct (AI.algebraicToIndexFast (indexToAlgebraic i)); try discriminate.
  destruct (AI.indexToAlgebraicFast i); try discriminate.
  repeat (apply andb_prop in Hi; destruct Hi as [Hi ?]).
  apply Z.eqb_eq in Hi. now subst.
Qed.

Lemma algebraicToIndexFast_indexToAlgebraic (i : Z) :
  onBoard i -> AI.algebraicToIndexFast (indexToAlgebraic i) = Ok i.
Proof.
  intros Hi. apply squareChecks_onBoard in Hi. unfold squareChecks in Hi.
  destruct (algebraicToIndex (indexToAlgebraic i)); try discriminate.
  destruct (AI.algebraicToIndexFast (indexToAlgebraic i)); try discriminate.
  destruct (AI.indexToAlgebraicFast i); try discriminate.
  repeat (apply andb_prop in Hi; destruct Hi as [Hi ?]).
  match goal with H : (_ =? i) = true |- Ok ?b = _ =>
    apply Z.eqb_eq in H; now rewrite H end.
Qed.

Lemma indexToAlgebraicFast_onBoard (i : Z) :
  onBoard i -> AI.indexToAlgebraicFast i = Ok (indexToAlgebraic i).
Proof.
  intros Hi. apply squareChecks_onBoard in Hi. unfold squareChecks in Hi.
  destruct (algebraicToIndex (indexToAlgebraic i)); try discriminate.
  destruct (AI.algebraicToIndexFast (indexToAlgebraic i)); try discriminate.
  destruct (AI.indexToAlgebraicFast i); try discriminate.
  repeat (apply andb_prop in Hi; destruct Hi as [Hi ?]).
  match goal with H : String.eqb _ _ = true |- _ =>
    apply String.eqb_eq in H; now rewrite H end.
Qed.

Lemma indexToAlgebraic_nonempty (i : Z) : indexToAlgebraic i <> "".
Proof.
  unfold indexToAlgebraic, indexToFR, fileName.
  destruct (Z.rem i 8 <? 0); [discriminate|].
  destruct (nth_error FILES (Z.to_nat (Z.rem i 8))); discriminate.
Qed.

Lemma squareAttackedBy_onBoard (st : RulesState) (i : Z) (c : Color) :
  onBoard i ->
  squareAttackedBy st (indexToAlgebraic i) c
  = Ok (squareAttackedAt (board st) i c).
Proof.
  intros Hi. unfold squareAttackedBy.
  rewrite algebraicToIndex_indexToAlgebraic by assumption. reflexivity.
Qed.

(* ------------------------------------------------------------------ *)
(** ** Pieces and the king search *)

Lemma Color_eqb_eq (a b : Color) : Color_eqb a b = true <-> a = b.
Proof. destruct a, b; simpl; split; congruence. Qed.

Lemma Color_eqb_refl (a : Color) : Color_eqb a a = true.
Proof. now destruct a. Qed.

Lemma PieceType_eqb_eq (a b : PieceType) : PieceType_eqb a b = true <-> a = b.
Proof. destruct a, b; simpl; split; congruence. Qed.

Lemma Piece_eqb_eq (a b : Piece) : Piece_eqb a b = true <-> a = b.
Proof.
  destruct a as [ca ta], b as [cb tb]. unfold Piece_eqb. simpl.
  rewrite andb_true_iff, Color_eqb_eq, PieceType_eqb_eq.
  split; [intros [-> ->]; reflexivity | intros H; inversion H; auto].
Qed.


Lemma findKingLoop_none (b : Board) (k : Piece) (n : nat) :
  forall i,
    findKingLoop b k i n = None <->
    (forall j, i <= j < i + Z.of_nat n -> getB b j <> Some k).
Proof.
  induction n as [|n IH]; intros i.
  - simpl. split; [intros _ j Hj; lia | reflexivity].
  - cbn [findKingLoop]. split.
    + intros H j Hj.
      destruct (getB b i) as [p|] eqn:Hp.
      * destruct (Piece_eqb p k) eqn:Hk; [discriminate|].
        destruct (Z.eq_dec j i) as [->|Hne].
        -- rewrite Hp. intros E. inversion E; subst.
           rewrite (proj2 (Piece_eqb_eq k k) eq_refl) in Hk. discriminate.
        -- apply (proj1 (IH (i + 1)) H). lia.
      * destruct (Z.eq_dec j i) as [->|Hne].
        -- rewrite Hp. discriminate.
        -- apply (proj1 (IH (i + 1)) H). lia.
    + intros H.
      destruct (getB b i) as [p|] eqn:Hp.
      * destruct (Piece_eqb p k) eqn:Hk.
        -- apply Piece_eqb_eq in Hk. subst p.
           exfalso. apply (H i); [lia | assumption].
        -- apply IH. intros j Hj. apply H. lia.
      * apply IH. intros j Hj. apply H. lia.
Qed.

Lemma findKingLoop_some (b : Board) (k : Piece) (n : nat) :
  forall i j,
    i <= j < i + Z.of_nat n ->
    getB b j = Some k ->
    (forall j', i <= j' < j -> getB b j' <> Some k) ->
    findKingLoop b k i n = Some (indexToAlgebraic j).
Proof.
  induction n as [|n IH]; intros i j Hj Hk Hfirst.
  - lia.
  - cbn [findKingLoop].
    destruct (Z.eq_dec j i) as [->|Hne].
    + rewrite Hk. rewrite (proj2 (Piece_eqb_eq k k) eq_refl). reflexivity.
    + assert (Hi : getB b i <> Some k) by (apply Hfirst; lia).
      destruct (getB b i) as [p|] eqn:Hp.
      * destruct (Piece_eqb p k) eqn:Hpk.
        -- apply Piece_eqb_eq in Hpk. subst. congruence.
        -- apply IH; [lia | assumption | intros; apply Hfirst; lia].
      * apply IH; [lia | assumption | intros; apply Hfirst; lia].
Qed.

Lemma findKingLoop_found (b : Board) (k : Piece) (n : nat) :
  forall i s,
    findKingLoop b k i n = Some s ->
    exists j, i <= j < i + Z.of_nat n /\ s = indexToAlgebraic j
              /\ getB b j = Some k.
Proof.
  induction n as [|n IH]; intros i s H; [discriminate|].
  cbn [findKingLoop] in H.
  destruct (getB b i) as [p|] eqn:Hp.
  - destruct (Piece_eqb p k) eqn:Hpk.
    + apply Piece_eqb_eq in Hpk. subst p. inversion H; subst.
      exists i. repeat split; try lia. assumption.
    + destruct (IH _ _ H) as (j & Hj & Hs & Hg).
      exists j. repeat split; try lia; assumption.
  - destruct (IH _ _ H) as (j & Hj & Hs & Hg).
    exists j. repeat split; try lia; assumption.
Qed.

Lemma findKingSquare_found (b : Board) (c : Color) (s : string) :
  findKingSquare b c = Some s ->
  exists j, onBoard j /\ s = indexToAlgebraic j /\ getB b j = Some (kingOf c).
Proof.
  unfold findKingSquare. intros H.
  apply findKingLoop_found in H. destruct H as (j & Hj & Hs & Hg).
  exists j. unfold onBoard. simpl in Hj.
  split; [lia|]. split; [assumption|]. destruct c; assumption.
Qed.

(* ------------------------------------------------------------------ *)
(** ** C9: check detection and a missing king *)

(** C9, as stated, fails: on a board without a white king [isInCheck]
    returns the ordinary answer [false]; nothing is raised. *)
Lemma isInCheck_without_king_returns_false :
  findKingSquare (board emptyRulesState) white = None
  /\ isInCheck emptyRulesState (Some white) = Ok false
  /\ ~ (exists e, isInCheck emptyRulesState (Some white) = Err e).
Proof.
  split; [reflexivity|]. split; [reflexivity|].
  intros [e H]. vm_compute in H. discriminate.
Qed.

(** C9, amended: with no king of the colour on the board [isInCheck]
    returns [false]; with a king it returns whether the first such king's
    square is attacked by the opposing colour. *)
Theorem isInCheck_by_king_presence (st : RulesState) (colorOverride : option Color) :
  let color := match colorOverride with
               | Some c => c
               | None => activeColor st
               end in
  ((forall j, onBoard j -> getB (board st) j <> Some (kingOf color)) ->
   isInCheck st colorOverride = Ok false)
  /\
  (forall i,
      onBoard i ->
      getB (board st) i = Some (kingOf color) ->
      (forall j, 0 <= j < i -> getB (board st) j <> Some (kingOf color)) ->
      isInCheck st colorOverride
      = Ok (squareAttackedAt (board st) i (oppositeColor color))).
Proof.
  intros color. split.
  - intros Hnone. unfold isInCheck. fold color.
    assert (H : findKingSquare (board st) color = None).
    { unfold findKingSquare. apply findKingLoop_none.
      intros j Hj. destruct color; apply Hnone; unfold onBoard; simpl in Hj; lia. }
    now rewrite H.
  - intros i Hi Hk Hfirst. unfold isInCheck. fold color.
    assert (H : findKingSquare (board st) color = Some (indexToAlgebraic i)).
    { unfold findKingSquare. apply findKingLoop_some.
      - unfold onBoard in Hi. simpl. lia.
      - destruct color; exact Hk.
      - intros j Hj. destruct color; apply Hfirst; lia. }
    rewrite H. apply squareAttackedBy_onBoard. assumption.
Qed.

Lemma isInCheck_by_king_presence_witness :
  isInCheck startingRules None
  = Ok (squareAttackedAt (board startingRules) 4 black).
Proof.
  apply (proj2 (isInCheck_by_king_presence startingRules None) 4).
  - unfold onBoard. lia.
  - vm_compute. reflexivity.
  - intros j Hj.
    assert (j = 0 \/ j = 1 \/ j = 2 \/ j = 3) as [->|[->|[->| ->]]] by lia;
      vm_compute; discriminate.
Defined.

(* ------------------------------------------------------------------ *)
(** ** C5: insufficient material *)

Lemma isInsufficientMaterial_board (s : GameState.t) :
  GameState.isInsufficientMaterial s = true <->
  (GameState.nonKingPieces (GameState.board s) = []
   \/ (exists p, GameState.nonKingPieces (GameState.board s) = [p]
                 /\ (ptype p = B \/ ptype p = N))
   \/ (exists a b, GameState.nonKingPieces (GameState.board s) = [a; b]
                   /\ ptype a = B /\ ptype b = B)).
Proof.
  unfold GameState.isInsufficientMaterial.
  destruct (GameState.nonKingPieces (GameState.board s)) as [|a [|b [|c l]]].
  - split; auto.
  - rewrite orb_true_iff, !PieceType_eqb_eq. split.
    + intros H. right. left. exists a. auto.
    + intros [H|[(p & E & H)|(x & y & E & _)]]; try discriminate.
      inversion E; subst; assumption.
  - rewrite andb_true_iff, !PieceType_eqb_eq. split.
    + intros H. right. right. exists a, b. tauto.
    + intros [H|[(p & E & _)|(x & y & E & H)]]; try discriminate.
      inversion E; subst; assumption.
  - split; [discriminate|].
    intros [H|[(p & E & _)|(x & y & E & _)]]; discriminate.
Qed.

(** C5: with both bishops on the same side (king and two bishops against
    a bare king) the script still reports insufficient material. *)
Theorem isInsufficientMaterial_same_side_bishops :
  GameState.nonKingPieces twoWhiteBishops = [wB; wB]
  /\ GameState.isInsufficientMaterial
       (GameState.set_board (GameState.constructor None) twoWhiteBishops)
     = true.
Proof. split; reflexivity. Qed.

(* ------------------------------------------------------------------ *)
(** ** C6: a finished game is frozen *)

(** C6: once the outcome is not [ongoing], [applyMove] returns the state
    unchanged, [handleSelection] makes no move and changes nothing, and
    [updateResult] keeps the result. *)
Theorem finished_game_is_immutable (s : GameState.t) (r : GameResult) :
  GameState.result s = Some r ->
  outcome r <> ongoing ->
  (forall move, GameState.applyMove s move = Ok s)
  /\ (forall square side,
         GameState.handleSelection s square side
         = Ok (s, GameState.mkSelection false None []))
  /\ GameState.updateResult s = Ok s.
Proof.
  intros Hr Ho.
  assert (Hover : GameState.isGameOver s = true).
  { unfold GameState.isGameOver. rewrite Hr.
    destruct (outcome r); simpl; congruence. }
  repeat split.
  - intros move. unfold GameState.applyMove. now rewrite Hover.
  - intros square side. unfold GameState.handleSelection. now rewrite Hover.
  - unfold GameState.updateResult. now rewrite Hover.
Qed.

Lemma finished_game_is_immutable_witness :
  (forall move, GameState.applyMove matedState move = Ok matedState)
  /\ (forall square side,
         GameState.handleSelection matedState square side
         = Ok (matedState, GameState.mkSelection false None []))
  /\ GameState.updateResult matedState = Ok matedState.
Proof.
  apply (@finished_game_is_immutable matedState
           (mkResult checkmate (Some black) (Some "Checkmate"))).
  - reflexivity.
  - simpl. discriminate.
Defined.

(* ------------------------------------------------------------------ *)
(** ** What [applyMove] changes *)

Lemma updateCastlingRights_inv (s s2 : GameState.t) (m : Move) (f t : Z)
  (mp : option Piece) (c : option Color) :
  GameState.updateCastlingRights s m f t mp c = Ok s2 ->
  s2 = GameState.set_castlingRights s (GameState.castlingRights s2).
Proof.
  unfold GameState.updateCastlingRights.
  destruct (GameState.optPiece_eqb mp wK), (GameState.optPiece_eqb mp bK);
    cbn; intros H; inversion H; reflexivity.
Qed.

Lemma toSimpleSAN_piece (s : GameState.t) (m : Move) (mp : option Piece)
  (cap : bool) (san : string) :
  GameState.toSimpleSAN s m mp cap = Ok san -> exists p, mp = Some p.
Proof.
  destruct mp as [p|]; [eauto | discriminate].
Qed.

Lemma applyMoveCore_inv (s s1 : GameState.t) (m : Move) :
  GameState.applyMoveCore s m = Ok s1 ->
  exists f t mp,
    algebraicToIndex (from m) = Ok f
    /\ algebraicToIndex (to m) = Ok t
    /\ getB (GameState.board s) f = Some mp
    /\ GameState.result s1 = GameState.result s
    /\ GameState.activeColor s1 = oppositeColor (pcolor mp)
    /\ GameState.fullmoveNumber s1
       = (if Color_eqb (pcolor mp) black
          then GameState.fullmoveNumber s + 1 else GameState.fullmoveNumber s)
    /\ (GameState.enPassantTarget s1 = None
        \/ exists e, GameState.enPassantTarget s1 = Some (indexToAlgebraic e))
    /\ repetitionRecorded (GameState.repetitionMap s) (GameState.repetitionMap s1).
Proof.
  unfold GameState.applyMoveCore. intros H.
  destruct (algebraicToIndex (from m)) as [f|] eqn:Hf; [|discriminate].
  destruct (algebraicToIndex (to m)) as [t|] eqn:Ht; [|discriminate].
  cbn [rbind] in H. cbv zeta in H.
  match type of H with
  | rbind ?c _ = _ => destruct c as [s2|] eqn:Hcr; [|discriminate]
  end.
  cbn [rbind] in H.
  match type of H with
  | rbind ?c _ = _ => destruct c as [san|] eqn:Hsan; [|discriminate]
  end.
  cbn [rbind] in H. inversion H; subst s1; clear H.
  destruct (toSimpleSAN_piece _ _ _ _ _ Hsan) as [mp Hmp].
  exists f, t, mp. rewrite Hmp in *.
  apply updateCastlingRights_inv in Hcr.
  rewrite Hcr. clear Hcr Hsan.
  unfold GameState.recordRepetitionKey, getColorOf, oppositeColorOf, isWhite,
    optColor_eqb.
  destruct (pcolor mp) eqn:Hcol;
    cbn -[indexToAlgebraic Z.div Z.rem Z.add Z.mul Z.abs Z.eqb mapSet mapGet
          GameState.buildRepetitionKey setB getB];
    repeat match goal with
           | |- context [if ?c then _ else _] => destruct c
           end;
    cbn -[indexToAlgebraic Z.div Z.rem Z.add Z.mul Z.abs Z.eqb mapSet mapGet
          GameState.buildRepetitionKey setB getB];
    (repeat split; try reflexivity; [eauto | eexists _, _; reflexivity]).
Qed.

Lemma updateStatusText_only_status (s : GameState.t) :
  GameState.updateStatusText s
  = GameState.set_statusText s (GameState.statusText (GameState.updateStatusText s)).
Proof.
  unfold GameState.updateStatusText.
  destruct s as [b ac pc cr ep hm fm mh [r|] lm rm ss cl stx lmt]; cbn;
    [destruct r as [[] w rs]; cbn | ]; reflexivity.
Qed.

Lemma isGameOver_result (s s1 : GameState.t) :
  GameState.result s1 = GameState.result s ->
  GameState.isGameOver s1 = GameState.isGameOver s.
Proof. unfold GameState.isGameOver. now intros ->. Qed.

(* ------------------------------------------------------------------ *)
(** ** C8: serialising and rebuilding a game state *)

Lemma mapSet_fresh (m : JsMap) (k : string) (v : Z) :
  ~ In k (map fst m) -> mapSet m k v = m ++ [(k, v)].
Proof.
  induction m as [|[k' v'] m IH]; intros Hfresh; simpl; [reflexivity|].
  simpl in Hfresh.
  destruct (String.eqb k' k) eqn:E.
  - apply String.eqb_eq in E. tauto.
  - rewrite IH by tauto. reflexivity.
Qed.

Lemma mapSet_keys (m : JsMap) (k : string) (v : Z) :
  forall x, In x (map fst (mapSet m k v)) <-> In x (map fst m) \/ x = k.
Proof.
  induction m as [|[k' v'] m IH]; intros x; simpl.
  - intuition.
  - destruct (String.eqb k' k) eqn:E; simpl.
    + apply String.eqb_eq in E. subst. intuition.
    + rewrite IH. intuition.
Qed.

Lemma mapSet_NoDup (m : JsMap) (k : string) (v : Z) :
  NoDup (map fst m) -> NoDup (map fst (mapSet m k v)).
Proof.
  induction m as [|[k' v'] m IH]; intros Hnd; simpl.
  - constructor; [simpl; tauto | constructor].
  - inversion Hnd; subst.
    destruct (String.eqb k' k) eqn:E; simpl.
    + constructor; assumption.
    + constructor; [|auto].
      rewrite mapSet_keys. intros [H|H]; [tauto|].
      subst. rewrite String.eqb_refl in E. discriminate.
Qed.

Lemma rebuild_map (pairs : list (string * Z)) :
  forall acc,
    NoDup (map fst (acc ++ pairs)) ->
    fold_left (fun m kv => mapSet m (fst kv) (snd kv)) pairs acc = acc ++ pairs.
Proof.
  induction pairs as [|[k v] pairs IH]; intros acc Hnd; simpl.
  - now rewrite app_nil_r.
  - assert (Hfresh : ~ In k (map fst acc)).
    { rewrite map_app in Hnd. simpl in Hnd.
      apply NoDup_remove_2 in Hnd. intros Hin. apply Hnd.
      apply in_or_app. now left. }
    rewrite (mapSet_fresh _ _ v Hfresh).
    rewrite IH; rewrite <- app_assoc; simpl; [reflexivity | assumption].
Qed.

(** C8: rebuilding a game state from its serialised form gives back the
    board, both colours, the castling rights, the en-passant target, both
    counters, the move history, the result, the last move and the
    repetition map.  The state is one the class produces: its full-move
    number is not 0, its en-passant target is not the empty string, and
    its repetition map has one entry per key. *)
Theorem serialize_constructor_roundtrip (s : GameState.t) :
  GameState.fullmoveNumber s <> 0 ->
  GameState.enPassantTarget s <> Some "" ->
  NoDup (map fst (GameState.repetitionMap s)) ->
  let s' := GameState.constructor (Some (GameState.serialize s)) in
  GameState.board s' = GameState.board s
  /\ GameState.activeColor s' = GameState.activeColor s
  /\ GameState.playerColor s' = GameState.playerColor s
  /\ GameState.castlingRights s' = GameState.castlingRights s
  /\ GameState.enPassantTarget s' = GameState.enPassantTarget s
  /\ GameState.halfmoveClock s' = GameState.halfmoveClock s
  /\ GameState.fullmoveNumber s' = GameState.fullmoveNumber s
  /\ GameState.moveHistory s' = GameState.moveHistory s
  /\ GameState.result s' = GameState.result s
  /\ GameState.lastMove s' = GameState.lastMove s
  /\ GameState.repetitionMap s' = GameState.repetitionMap s.
Proof.
  intros Hfm Hep Hnd. cbn.
  repeat split.
  - unfold truthyStr. destruct (GameState.enPassantTarget s) as [e|]; [|reflexivity].
    destruct (String.eqb e "") eqn:E; [|reflexivity].
    apply String.eqb_eq in E. subst. congruence.
  - unfold GameState.numOr.
    destruct (GameState.halfmoveClock s =? 0) eqn:E; [|reflexivity].
    apply Z.eqb_eq in E. now rewrite E.
  - unfold GameState.numOr.
    destruct (GameState.fullmoveNumber s =? 0) eqn:E; [|reflexivity].
    apply Z.eqb_eq in E. contradiction.
  - apply (rebuild_map (GameState.repetitionMap s) []). exact Hnd.
Qed.

Lemma serialize_constructor_roundtrip_witness :
  let s' := GameState.constructor (Some (GameState.serialize afterFoolsMate)) in
  GameState.board s' = GameState.board afterFoolsMate
  /\ GameState.activeColor s' = GameState.activeColor afterFoolsMate
  /\ GameState.playerColor s' = GameState.playerColor afterFoolsMate
  /\ GameState.castlingRights s' = GameState.castlingRights afterFoolsMate
  /\ GameState.enPassantTarget s' = GameState.enPassantTarget afterFoolsMate
  /\ GameState.halfmoveClock s' = GameState.halfmoveClock afterFoolsMate
  /\ GameState.fullmoveNumber s' = GameState.fullmoveNumber afterFoolsMate
  /\ GameState.moveHistory s' = GameState.moveHistory afterFoolsMate
  /\ GameState.result s' = GameState.result afterFoolsMate
  /\ GameState.lastMove s' = GameState.lastMove afterFoolsMate
  /\ GameState.repetitionMap s' = GameState.repetitionMap afterFoolsMate.
Proof.
  apply (serialize_constructor_roundtrip afterFoolsMate).
  - vm_compute. discriminate.
  - vm_compute. discriminate.
  - vm_compute.
    repeat (constructor; [simpl; intuition discriminate|]). constructor.
Defined.

Lemma updateResult_only_result (s s2 : GameState.t) :
  GameState.updateResult s = Ok s2 ->
  s2 = GameState.set_result s (GameState.result s2).
Proof.
  unfold GameState.updateResult.
  destruct (GameState.isGameOver s).
  - intros H. inversion H; subst. now destruct s2.
  - destruct (analyzePosition (GameState.asRulesState s)) as [a|]; [|discriminate].
    cbn [rbind].
    repeat match goal with
           | |- context [if ?c then _ else _] => destruct c
           end; intros H; inversion H; reflexivity.
Qed.

Lemma createStarting_produced (c : Color) (s : GameState.t) :
  GameState.createStarting c = Ok s -> producedByClass s.
Proof.
  unfold GameState.createStarting.
  destruct createStartingBoard as [b|]; [|discriminate].
  cbn [rbind]. intros H. inversion H; subst; clear H.
  rewrite updateStatusText_only_status.
  unfold producedByClass. cbn. repeat split; try lia; try discriminate.
  constructor; [simpl; tauto | constructor].
Qed.

Lemma applyMove_produced (s s' : GameState.t) (m : Move) :
  producedByClass s -> GameState.applyMove s m = Ok s' -> producedByClass s'.
Proof.
  intros (Hfm & Hep & Hnd) H. unfold GameState.applyMove in H.
  destruct (GameState.isGameOver s).
  { inversion H; subst. repeat split; assumption. }
  destruct (GameState.applyMoveCore s m) as [s1|] eqn:Hcore; [|discriminate].
  cbn [rbind] in H.
  destruct (GameState.updateResult s1) as [s2|] eqn:Hres; [|discriminate].
  cbn [rbind] in H. inversion H; subst s'; clear H.
  destruct (applyMoveCore_inv _ _ _ Hcore)
    as (f & t & mp & _ & _ & _ & _ & _ & Hfm1 & Hep1 & (key & n & Hrep)).
  rewrite updateStatusText_only_status.
  rewrite (updateResult_only_result _ _ Hres).
  unfold producedByClass. cbn. repeat split.
  - rewrite Hfm1. destruct (Color_eqb (pcolor mp) black); lia.
  - destruct Hep1 as [->|[e ->]]; [discriminate|].
    intros E. inversion E as [E']. now apply indexToAlgebraic_nonempty in E'.
  - rewrite Hrep. now apply mapSet_NoDup.
Qed.

Lemma rebuilt_map_NoDup (pairs : list (string * Z)) :
  forall acc,
    NoDup (map fst acc) ->
    NoDup (map fst (fold_left (fun m kv => mapSet m (fst kv) (snd kv)) pairs acc)).
Proof.
  induction pairs as [|kv pairs IH]; intros acc Hnd; simpl; [assumption|].
  apply IH. now apply mapSet_NoDup.
Qed.

Lemma constructor_roundtrippable (data : option GameState.Data) :
  let s := GameState.constructor data in
  GameState.fullmoveNumber s <> 0
  /\ GameState.enPassantTarget s <> Some ""
  /\ NoDup (map fst (GameState.repetitionMap s)).
Proof.
  destruct data as [d|]; cbn.
  - repeat split.
    + unfold GameState.numOr.
      destruct (GameState.data_fullmoveNumber d) as [n|]; [|lia].
      destruct (n =? 0) eqn:E; [lia|]. now apply Z.eqb_neq in E.
    + unfold truthyStr.
      destruct (GameState.data_enPassantTarget d) as [e|]; [|discriminate].
      destruct (String.eqb e "") eqn:E; cbn; [discriminate|].
      intros H. inversion H; subst. discriminate.
    + destruct (GameState.data_repetitionMap d) as [pairs|]; [|constructor].
      apply rebuilt_map_NoDup. constructor.
  - repeat split; try lia; try discriminate. constructor.
Qed.

(* ------------------------------------------------------------------ *)
(** ** The legality filter *)

Lemma filterLegal_kept (st : RulesState) (pseudo : list Move) :
  forall legal m,
    filterLegal st pseudo = Ok legal ->
    In m legal ->
    In m pseudo /\ leavesKingInCheck st m = Ok false.
Proof.
  induction pseudo as [|x pseudo IH]; intros legal m H Hin; simpl in H.
  - inversion H; subst. destruct Hin.
  - destruct (leavesKingInCheck st x) as [bad|] eqn:Hbad; [|discriminate].
    cbn [rbind] in H.
    destruct (filterLegal st pseudo) as [rest|] eqn:Hrest; [|discriminate].
    cbn [rbind] in H. inversion H; subst; clear H.
    destruct bad; cbn [negb] in Hin.
    + destruct (IH _ _ eq_refl Hin) as [? ?]. split; [now right | assumption].
    + destruct Hin as [->|Hin].
      * split; [now left | assumption].
      * destruct (IH _ _ eq_refl Hin) as [? ?]. split; [now right | assumption].
Qed.

Lemma generateLegalMoves_kept (st : RulesState) (legal : list Move) (m : Move) :
  generateLegalMoves st = Ok legal ->
  In m legal ->
  exists pseudo,
    generatePseudoLegalMoves st = Ok pseudo /\ In m pseudo
    /\ leavesKingInCheck st m = Ok false.
Proof.
  unfold generateLegalMoves. intros H Hin.
  destruct (generatePseudoLegalMoves st) as [pseudo|]; [|discriminate].
  cbn [rbind] in H. exists pseudo.
  destruct (filterLegal_kept _ _ _ _ H Hin). auto.
Qed.

Lemma leavesKingInCheck_indices (st : RulesState) (m : Move) (f t : Z) :
  algebraicToIndex (from m) = Ok f ->
  algebraicToIndex (to m) = Ok t ->
  leavesKingInCheck st m
  = match findKingSquare (scratchBoard (board st) m f t) (activeColor st) with
    | None => Ok true
    | Some kingSq =>
        squareAttackedBy
          (mkRulesState (scratchBoard (board st) m f t)
             (oppositeColor (activeColor st)) (castlingRights st)
             (enPassantTarget st))
          kingSq (oppositeColor (activeColor st))
    end.
Proof.
  intros Hf Ht. unfold leavesKingInCheck. rewrite Hf, Ht. reflexivity.
Qed.

Lemma leavesKingInCheck_ok (st : RulesState) (m : Move) (bad : bool) :
  leavesKingInCheck st m = Ok bad ->
  exists f t, algebraicToIndex (from m) = Ok f /\ algebraicToIndex (to m) = Ok t.
Proof.
  unfold leavesKingInCheck.
  destruct (algebraicToIndex (from m)) as [f|]; [|discriminate].
  destruct (algebraicToIndex (to m)) as [t|]; [|discriminate].
  intros _. eauto.
Qed.

(* ------------------------------------------------------------------ *)
(** ** C4: the time-out sentinel *)

(** C4, as stated, fails.  First: with the budget running out between the
    entry of [minimax] and the entry of [quiescence], [quiescence] returns
    the sentinel and [minimax] answers with the stand-pat score instead of
    passing the sentinel on.  Second: with the budget running out at the
    entry of the recursive [quiescence] call, the outer [quiescence]
    negates the sentinel into the score 0 and raises its value from the
    stand-pat score -895 to 0. *)
Lemma sentinel_not_propagated_counterexample :
  (let st := AI.ofGameState startingState in
   AI.quiescence lateClock 1 st NegInf PosInf white
     (Evaluator.evaluate (AI.board st) white) (Some 10) (Some 1)
     (AI.mkWorld 1 0)
   = Ok (None, AI.mkWorld 2 0)
   /\ AI.minimax lateClock 1 0 st NegInf PosInf white true 4 (Some 10) (Some 1)
        world0
      = Ok (Some (Fin (Evaluator.evaluate (AI.board st) white)), AI.mkWorld 2 0))
  /\
  (Evaluator.evaluate (AI.board queenDown) white = -895
   /\ AI.quiescence laterClock 2 queenDown NegInf PosInf white (-895)
        (Some 10) (Some 1) world0
      = Ok (Some (Fin 0), AI.mkWorld 3 0)).
Proof. vm_compute. repeat split. Qed.

Section SentinelHandling.
Variable clock : nat -> Z.
Variable random : nat -> nat.

Lemma bind_ok {A B} {c : AI.Search A} (k : A -> AI.Search B) {w w' : AI.World}
  {a : A} :
  c w = Ok (a, w') -> AI.bind c k w = k a w'.
Proof. unfold AI.bind. now intros ->. Qed.

Lemma bind_err {A B} {c : AI.Search A} (k : A -> AI.Search B) {w : AI.World}
  {e : exn} :
  c w = Err e -> AI.bind c k w = Err e.
Proof. unfold AI.bind. now intros ->. Qed.

Lemma lift_ok {A} {r : Res A} {a : A} (w : AI.World) :
  r = Ok a -> AI.lift r w = Ok (a, w).
Proof. unfold AI.lift. now intros ->. Qed.

Lemma minimax_entry_timeout fuel depth st alpha beta root isMax level timeout
  startTime w w' :
  AI.budgetExceeded clock timeout startTime w = Ok (true, w') ->
  AI.minimax clock fuel depth st alpha beta root isMax level timeout startTime w
  = Ok (None, w').
Proof.
  intros H. destruct depth; cbn [AI.minimax]; now rewrite (bind_ok _ H).
Qed.

Lemma quiescence_entry_timeout fuel st alpha beta root standPat timeout startTime
  w w' :
  AI.budgetExceeded clock timeout startTime w = Ok (true, w') ->
  AI.quiescence clock (S fuel) st alpha beta root standPat timeout startTime w
  = Ok (None, w').
Proof.
  intros H. cbn [AI.quiescence]. now rewrite (bind_ok _ H).
Qed.

(** C4, amended: [minimax] returns the sentinel [null] when it finds the
    budget exceeded at its entry or at the periodic check of its loops, and
    returns [null] as soon as a child [minimax] call returns [null],
    whatever [value], [alpha] and [beta] are; [quiescence] returns [null]
    when it finds the budget exceeded at its entry, while its periodic
    check returns the current value; [minimax] answers a [null] from
    [quiescence] with the stand-pat score; [searchRoot] stops at a [null],
    leaving the best move, the best score, alpha and beta as they were,
    and returns that best move when the budget is still exceeded after
    the loop. *)
Theorem timeout_sentinel_handling :
  (* minimax and quiescence: the check at entry *)
  (forall fuel depth st alpha beta root standPat isMax level timeout startTime
          w w',
      AI.budgetExceeded clock timeout startTime w = Ok (true, w') ->
      AI.minimax clock fuel depth st alpha beta root isMax level timeout
        startTime w = Ok (None, w')
      /\ AI.quiescence clock (S fuel) st alpha beta root standPat timeout
           startTime w
         = Ok (None, w'))
  /\
  (* the loops of minimax: the periodic check *)
  (forall rec st timeout startTime move rest i value alpha beta w w',
      AI.budgetExceededEvery clock 10 i timeout startTime w = Ok (true, w') ->
      AI.maxLoop clock rec st timeout startTime (move :: rest) i value alpha beta w
      = Ok (None, w')
      /\ AI.minLoop clock rec st timeout startTime (move :: rest) i value alpha
           beta w
         = Ok (None, w'))
  /\
  (* the loops of minimax: a child returns the sentinel *)
  (forall rec st timeout startTime move rest i value alpha beta w w1 next w2
          isMax,
      AI.budgetExceededEvery clock 10 i timeout startTime w = Ok (false, w1) ->
      AI.applyMoveSearch (AI.clone st) move (AI.activeColor st) = Ok next ->
      rec next alpha beta (negb isMax) w1 = Ok (None, w2) ->
      (if isMax
       then AI.maxLoop clock rec st timeout startTime (move :: rest) i value
              alpha beta w
       else AI.minLoop clock rec st timeout startTime (move :: rest) i value
              alpha beta w)
      = Ok (None, w2))
  /\
  (* the loop of quiescence: the periodic check *)
  (forall rec st root timeout startTime beta move rest i value alpha w w',
      AI.budgetExceededEvery clock 5 i timeout startTime w = Ok (true, w') ->
      AI.quiescenceLoop clock rec st root timeout startTime beta (move :: rest)
        i value alpha w
      = Ok (value, w'))
  /\
  (* minimax at depth 0, level 4 or 5: quiescence returns the sentinel *)
  (forall fuel st legalMoves alpha beta root level timeout startTime w w',
      legalMoves <> [] ->
      4 <= level ->
      AI.quiescence clock fuel st alpha beta root
        (Evaluator.evaluate (AI.board st) root) timeout startTime w
      = Ok (None, w') ->
      AI.minimaxLeaf clock fuel st 0 legalMoves alpha beta root level timeout
        startTime w
      = Ok (Some (Fin (Evaluator.evaluate (AI.board st) root)), w'))
  /\
  (* searchRoot: minimax returns the sentinel *)
  (forall fuel st depth color isMax level timeout startTime move rest acc w w1
          next w2,
      AI.budgetExceeded clock timeout startTime w = Ok (false, w1) ->
      AI.applyMoveSearch (AI.clone st) move (AI.activeColor st) = Ok next ->
      AI.minimax clock fuel (Nat.pred depth) next (AI.rootAlpha acc)
        (AI.rootBeta acc) color (negb isMax) level timeout startTime w1
      = Ok (None, w2) ->
      AI.rootLoop clock fuel st depth color isMax level timeout startTime
        (move :: rest) acc w
      = Ok (acc, w2))
  /\
  (* searchRoot: after the loop, with the budget exceeded *)
  (forall fuel st legalMoves depth color level timeout startTime acc w w1 w2,
      AI.rootLoop clock fuel st depth color
        (Color_eqb (AI.activeColor st) color) level timeout startTime
        (sortDesc AI.capturedValue legalMoves)
        (AI.mkRootAcc (hd_error (sortDesc AI.capturedValue legalMoves))
           (if Color_eqb (AI.activeColor st) color then NegInf else PosInf)
           NegInf PosInf) w
      = Ok (acc, w1) ->
      AI.budgetExceeded clock timeout startTime w1 = Ok (true, w2) ->
      AI.searchRoot clock random fuel st legalMoves depth color level timeout
        startTime w
      = Ok (AI.bestMove acc, w2)).
Proof.
  split; [|split; [|split; [|split; [|split; [|split]]]]].
  - intros. split.
    + now apply minimax_entry_timeout.
    + now apply quiescence_entry_timeout.
  - intros rec st timeout startTime move rest i value alpha beta w w' H.
    split; [cbn [AI.maxLoop] | cbn [AI.minLoop]];
      now rewrite (bind_ok _ H).
  - intros rec st timeout startTime move rest i value alpha beta w w1 next w2
      isMax Hb Hn Hr.
    destruct isMax; [cbn [AI.maxLoop] | cbn [AI.minLoop]];
      rewrite (bind_ok _ Hb); cbn iota;
      rewrite (bind_ok _ (lift_ok w1 Hn));
      cbn [negb] in Hr; now rewrite (bind_ok _ Hr).
  - intros rec st root timeout startTime beta move rest i value alpha w w' H.
    cbn [AI.quiescenceLoop]. now rewrite (bind_ok _ H).
  - intros fuel st legalMoves alpha beta root level timeout startTime w w'
      Hne Hlevel Hq.
    unfold AI.minimaxLeaf.
    destruct legalMoves as [|m l]; [congruence|].
    cbn [List.length Nat.eqb].
    assert (Hl : (level >=? 4) = true) by (apply Z.geb_le; lia).
    rewrite Hl. cbn [Z.of_nat Z.leb Z.compare andb].
    unfold AI.bind at 1. unfold AI.ret at 1.
    now rewrite (bind_ok _ Hq).
  - intros fuel st depth color isMax level timeout startTime move rest acc w w1
      next w2 Hb Hn Hm.
    cbn [AI.rootLoop]. rewrite (bind_ok _ Hb). cbn iota.
    rewrite (bind_ok _ (lift_ok w1 Hn)).
    now rewrite (bind_ok _ Hm).
  - intros fuel st legalMoves depth color level timeout startTime acc w w1 w2
      Hloop Hb.
    unfold AI.searchRoot.
    rewrite (bind_ok _ Hloop). now rewrite (bind_ok _ Hb).
Qed.

End SentinelHandling.

Lemma timeout_sentinel_handling_witness :
  let t := Some 10 in
  let s0 := Some 1 in
  let w1 := AI.mkWorld 1 0 in
  let w2 := AI.mkWorld 2 0 in
  (AI.minimax lateClock 1 0 startingSearch NegInf PosInf white true 4 t s0 w1
   = Ok (None, w2)
   /\ AI.quiescence lateClock 2 startingSearch NegInf PosInf white 0 t s0 w1
      = Ok (None, w2))
  /\ (AI.maxLoop lateClock noAnswer startingSearch t s0 [pawnToE4] 0 NegInf
        NegInf PosInf w1 = Ok (None, w2)
      /\ AI.minLoop lateClock noAnswer startingSearch t s0 [pawnToE4] 0 NegInf
           NegInf PosInf w1 = Ok (None, w2))
  /\ AI.maxLoop lateClock noAnswer startingSearch t s0 [pawnToE4] 0 NegInf
       NegInf PosInf world0 = Ok (None, w1)
  /\ AI.quiescenceLoop lateClock noAnswerQ startingSearch white t s0 PosInf
       [pawnToE4] 0 (Fin 0) NegInf w1 = Ok (Fin 0, w2)
  /\ AI.minimaxLeaf lateClock 1 startingSearch 0 [pawnToE4] NegInf PosInf white
       4 t s0 w1
     = Ok (Some (Fin (Evaluator.evaluate (AI.board startingSearch) white)), w2)
  /\ AI.rootLoop lateClock 1 startingSearch 1 white true 2 t s0 [pawnToE4]
       rootStart world0 = Ok (rootStart, w2)
  /\ AI.searchRoot lateClock (fun _ => O) 1 startingSearch startingLegal 1 white
       2 t s0 w1 = Ok (AI.bestMove rootStart, AI.mkWorld 3 0).
Proof.
  intros t s0 w1 w2.
  destruct (timeout_sentinel_handling lateClock (fun _ => O))
    as (H1 & H2 & H3 & H4 & H5 & H6 & H7).
  split; [|split; [|split; [|split; [|split; [|split]]]]].
  - apply (H1 1%nat 0%nat startingSearch NegInf PosInf white 0 true 4 t s0 w1 w2).
    vm_compute. reflexivity.
  - apply (H2 noAnswer startingSearch t s0 pawnToE4 [] 0 NegInf NegInf PosInf
             w1 w2).
    vm_compute. reflexivity.
  - apply (H3 noAnswer startingSearch t s0 pawnToE4 [] 0 NegInf NegInf PosInf
             world0 w1 afterE4Search w1 true);
      vm_compute; reflexivity.
  - apply (H4 noAnswerQ startingSearch white t s0 PosInf pawnToE4 [] 0 (Fin 0)
             NegInf w1 w2).
    vm_compute. reflexivity.
  - apply (H5 1%nat startingSearch [pawnToE4] NegInf PosInf white 4 t s0 w1 w2).
    + discriminate.
    + lia.
    + vm_compute. reflexivity.
  - apply (H6 1%nat startingSearch 1%nat white true 2 t s0 pawnToE4 []
             rootStart world0 w1 afterE4Search w2);
      vm_compute; reflexivity.
  - apply (H7 1%nat startingSearch startingLegal 1%nat white 2 t s0 rootStart
             w1 w2 (AI.mkWorld 3 0));
      vm_compute; reflexivity.
Defined.

(* ------------------------------------------------------------------ *)
(** ** Reading and writing the board *)

Lemma nth_setNth_same (b : Board) (n : nat) (v : option Piece) :
  nth n (setNth b n v) None = v.
Proof.
  revert b. induction n as [|n IH]; intros [|x b]; simpl; auto.
Qed.

Lemma nth_setNth_other (b : Board) (n k : nat) (v : option Piece) :
  n <> k -> nth k (setNth b n v) None = nth k b None.
Proof.
  revert b k. induction n as [|n IH]; intros [|x b] [|k] Hne; simpl;
    try congruence; try reflexivity.
  - now destruct k.
  - rewrite IH by congruence. now destruct k.
  - apply IH. congruence.
Qed.

Lemma getB_setB_same (b : Board) (i : Z) (v : option Piece) :
  0 <= i -> getB (setB b i v) i = v.
Proof.
  intros Hi. unfold getB, setB.
  destruct (i <? 0) eqn:E; [apply Z.ltb_lt in E; lia|].
  apply nth_setNth_same.
Qed.

Lemma getB_setB_other (b : Board) (i j : Z) (v : option Piece) :
  i <> j -> getB (setB b i v) j = getB b j.
Proof.
  intros Hne. unfold getB, setB.
  destruct (i <? 0) eqn:Ei; [reflexivity|].
  destruct (j <? 0) eqn:Ej; [reflexivity|].
  apply Z.ltb_ge in Ei, Ej.
  apply nth_setNth_other. intros E. apply Hne.
  apply Z2Nat.inj; assumption.
Qed.

Lemma pieceCount_setNth (b : Board) (n : nat) (v : option Piece) :
  (pieceCount (setNth b n v) + occupied (nth n b None)
   = pieceCount b + occupied v)%nat.
Proof.
  revert b. induction n as [|n IH]; intros [|x b]; simpl.
  - destruct v; simpl; lia.
  - destruct v, x; simpl; lia.
  - specialize (IH []). simpl in IH. destruct n; simpl in *; lia.
  - specialize (IH b). destruct x; simpl; lia.
Qed.

Lemma pieceCount_setB (b : Board) (i : Z) (v : option Piece) :
  0 <= i ->
  (pieceCount (setB b i v) + occupied (getB b i)
   = pieceCount b + occupied v)%nat.
Proof.
  intros Hi. unfold getB, setB.
  destruct (i <? 0) eqn:E; [apply Z.ltb_lt in E; lia|].
  apply pieceCount_setNth.
Qed.

Lemma pieceCount_setB_le (b : Board) (i : Z) (v : option Piece) :
  (pieceCount (setB b i v) <= pieceCount b + occupied v)%nat.
Proof.
  destruct (Z_lt_ge_dec i 0) as [Hneg|Hpos].
  - unfold setB. apply Z.ltb_lt in Hneg. rewrite Hneg. lia.
  - pose proof (pieceCount_setB b i v ltac:(lia)). lia.
Qed.

Lemma pieceCount_clear_le (b : Board) (i : Z) :
  (pieceCount (setB b i None) <= pieceCount b)%nat.
Proof. pose proof (pieceCount_setB_le b i None). simpl in *. lia. Qed.

(* ------------------------------------------------------------------ *)
(** ** The shape of generated moves *)

Lemma isSome_occupied {A} (c : option A) :
  isSome c = true -> exists x, c = Some x.
Proof. destruct c; [eauto | discriminate]. Qed.

Lemma movedBoard_count_le (b : Board) (m : Move) (mover : Color) (f t : Z) :
  0 <= f ->
  isSome (getB b f) = true ->
  (pieceCount (AI.movedBoard b m mover f t) <= pieceCount b)%nat.
Proof.
  intros Hf Hocc. unfold AI.movedBoard.
  destruct (isSome_occupied _ Hocc) as [p Hp].
  pose proof (pieceCount_setB b f None Hf) as H1. rewrite Hp in H1.
  cbn [occupied] in H1.
  remember (setB b f None) as b1 eqn:Eb1. clear Eb1.
  remember (if isEnPassant m then _ else b1) as b2 eqn:Eb2.
  assert (H2 : (pieceCount b2 <= pieceCount b1)%nat).
  { subst b2. destruct (isEnPassant m); [apply pieceCount_clear_le | lia]. }
  clear Eb2.
  remember (if isCastleKingSide m || isCastleQueenSide m then _ else b2)
    as b3 eqn:Eb3.
  assert (H3 : (pieceCount b3 <= pieceCount b2)%nat).
  { subst b3. destruct (isCastleKingSide m || isCastleQueenSide m); [|lia].
    assert (Hrook : forall rf rt, 0 <= rf -> rf <> rt ->
              (pieceCount (setB (setB b2 rt (getB b2 rf)) rf None)
               <= pieceCount b2)%nat).
    { intros rf rt Hrf Hne.
      pose proof (pieceCount_setB_le b2 rt (getB b2 rf)) as Ha.
      pose proof (pieceCount_setB (setB b2 rt (getB b2 rf)) rf None Hrf) as Hb.
      rewrite getB_setB_other in Hb by congruence. cbn [occupied] in Hb. lia. }
    destruct (isCastleKingSide m); destruct mover; apply Hrook;
      vm_compute; discriminate. }
  clear Eb3.
  destruct (promotion m) as [promo|].
  - pose proof (pieceCount_setB_le b3 t (Some (mkPiece mover promo))) as H4.
    cbn [occupied] in H4. lia.
  - rewrite Hp.
    pose proof (pieceCount_setB_le b3 t (Some p)) as H4.
    cbn [occupied] in H4. lia.
Qed.

Lemma movedBoard_capture_lt (b : Board) (m : Move) (mover : Color) (f t : Z) :
  onBoard f -> onBoard t ->
  isSome (getB b f) = true ->
  f <> t ->
  isCastleKingSide m = false -> isCastleQueenSide m = false ->
  ((isEnPassant m = false /\ isSome (getB b t) = true)
   \/ (isEnPassant m = true /\ getB b t = None
       /\ 0 <= captureCell mover t
       /\ captureCell mover t <> f
       /\ isSome (getB b (captureCell mover t)) = true)) ->
  (pieceCount (AI.movedBoard b m mover f t) < pieceCount b)%nat.
Proof.
  intros Hf Ht Hocc Hne Hk Hq Hshape. unfold AI.movedBoard.
  rewrite Hk, Hq. cbn [orb].
  destruct (isSome_occupied _ Hocc) as [p Hp].
  assert (Hf0 : 0 <= f) by (unfold onBoard in Hf; lia).
  assert (Ht0 : 0 <= t) by (unfold onBoard in Ht; lia).
  pose proof (pieceCount_setB b f None Hf0) as H1. rewrite Hp in H1.
  cbn [occupied] in H1.
  assert (Hb1 : forall j, f <> j -> getB (setB b f None) j = getB b j)
    by (intros; now apply getB_setB_other).
  remember (setB b f None) as b1 eqn:Eb1. clear Eb1.
  assert (Hplace : forall b2 v,
             (pieceCount (setB b2 t v) + occupied (getB b2 t)
              = pieceCount b2 + occupied v)%nat)
    by (intros; now apply pieceCount_setB).
  destruct Hshape as [[Hep Htocc]|(Hep & Hempty & Hc0 & Hcf & Hcocc)];
    rewrite Hep.
  - destruct (isSome_occupied _ Htocc) as [q Hq'].
    assert (Hb1t : getB b1 t = Some q) by (rewrite Hb1 by assumption; exact Hq').
    destruct (promotion m) as [promo|].
    + pose proof (Hplace b1 (Some (mkPiece mover promo))) as H4.
      rewrite Hb1t in H4. cbn [occupied] in H4. lia.
    + rewrite Hp.
      pose proof (Hplace b1 (Some p)) as H4.
      rewrite Hb1t in H4. cbn [occupied] in H4. lia.
  - destruct (isSome_occupied _ Hcocc) as [q Hq'].
    unfold captureCell in Hc0, Hcf, Hq'.
    remember ((t / 8 + match mover with white => -1 | black => 1 end) * 8
              + Z.rem t 8) as c eqn:Ec. clear Ec.
    pose proof (pieceCount_setB b1 c None Hc0) as H2.
    rewrite Hb1 in H2 by congruence.
    rewrite Hq' in H2. cbn [occupied] in H2.
    remember (setB b1 c None) as b2 eqn:Eb2. clear Eb2.
    destruct (promotion m) as [promo|].
    + pose proof (pieceCount_setB_le b2 t (Some (mkPiece mover promo))) as H4.
      cbn [occupied] in H4. lia.
    + rewrite Hp.
      pose proof (pieceCount_setB_le b2 t (Some p)) as H4.
      cbn [occupied] in H4. lia.
Qed.

Lemma onBoard_file_rank (f : Z) :
  onBoard f -> 0 <= Z.rem f 8 <= 7 /\ 0 <= f / 8 <= 7.
Proof.
  unfold onBoard. intros Hf.
  rewrite Z.rem_mod_nonneg by lia.
  pose proof (Z.mod_pos_bound f 8 ltac:(lia)).
  pose proof (Z.div_pos f 8 ltac:(lia) ltac:(lia)).
  assert (f / 8 < 8) by (apply Z.div_lt_upper_bound; lia).
  lia.
Qed.

Lemma cell_onBoard (r c : Z) : 0 <= r <= 7 -> 0 <= c <= 7 -> onBoard (r * 8 + c).
Proof. unfold onBoard. lia. Qed.

Lemma cell_file_rank (r c : Z) :
  0 <= r -> 0 <= c <= 7 -> (r * 8 + c) / 8 = r /\ Z.rem (r * 8 + c) 8 = c.
Proof.
  intros Hr Hc. split.
  - rewrite Z.add_comm, Z.div_add by lia. rewrite Z.div_small by lia. lia.
  - rewrite Z.rem_mod_nonneg by lia.
    rewrite Z.add_comm, Z.mod_add by lia. apply Z.mod_small. lia.
Qed.

Lemma offBoard_false (x y : Z) :
  (x <? 0) || (x >? 7) || (y <? 0) || (y >? 7) = false ->
  0 <= x <= 7 /\ 0 <= y <= 7.
Proof.
  rewrite !orb_false_iff, !Z.ltb_ge, !Z.gtb_ltb, !Z.ltb_ge. lia.
Qed.

Lemma offBoard1_false (x : Z) : (x <? 0) || (x >? 7) = false -> 0 <= x <= 7.
Proof. rewrite !orb_false_iff, !Z.ltb_ge, !Z.gtb_ltb, !Z.ltb_ge. lia. Qed.

Lemma Forall_flat_map {A B} (P : B -> Prop) (g : A -> list B) (l : list A) :
  (forall x, In x l -> Forall P (g x)) -> Forall P (flat_map g l).
Proof.
  induction l as [|a l IH]; intros H; simpl; [constructor|].
  apply Forall_app. split; [apply H; now left | apply IH; intros; apply H; now right].
Qed.

(** A move onto the cell [t] that captures what stands there, if anything
    does, and that only when it is of the other colour. *)
Lemma generated_plain (b : Board) (mover : Color) (f t : Z) (p : Piece)
  (pc : option Piece) (promo : option PieceType) :
  onBoard f -> onBoard t ->
  getB b f = Some p ->
  (isSome (getB b t) = true ->
   optColor_eqb (getColorOf (getB b t)) (pcolor p) = false) ->
  Generated b mover
    (mkMove (indexToAlgebraic f) (indexToAlgebraic t) pc (getB b t) promo
       false false false).
Proof.
  intros Hf Ht Hp Hcol. exists f, t. cbn.
  split; [exact Hf|]. split; [exact Ht|]. split; [reflexivity|].
  split; [reflexivity|]. split; [now rewrite Hp|].
  intros Hcap.
  assert (Hocc : isSome (getB b t) = true)
    by (destruct (getB b t); [reflexivity | congruence]).
  split.
  - intros E. subst t. specialize (Hcol Hocc). rewrite Hp in Hcol. cbn in Hcol.
    rewrite Color_eqb_refl in Hcol. discriminate.
  - split; [reflexivity|]. split; [reflexivity|]. left. now split.
Qed.

Lemma generated_quiet (b : Board) (mover : Color) (f t : Z) (p : Piece)
  (pc : option Piece) (promo : option PieceType) (ep ks qs : bool) :
  onBoard f -> onBoard t ->
  getB b f = Some p ->
  Generated b mover
    (mkMove (indexToAlgebraic f) (indexToAlgebraic t) pc None promo ep ks qs).
Proof.
  intros Hf Ht Hp. exists f, t. cbn.
  split; [exact Hf|]. split; [exact Ht|]. split; [reflexivity|].
  split; [reflexivity|]. split; [now rewrite Hp|].
  intros Hcap. congruence.
Qed.

Lemma jumpStep_generated (b : Board) (mover : Color) (f : Z) (p : Piece)
  (file rank : Z) (d : Z * Z) :
  onBoard f ->
  getB b f = Some p ->
  Forall (Generated b mover)
    (jumpStep b f (indexToAlgebraic f) (pcolor p) file rank d).
Proof.
  intros Hf Hp. unfold jumpStep. destruct d as [df dr].
  destruct ((file + df <? 0) || (file + df >? 7) || (rank + dr <? 0)
            || (rank + dr >? 7)) eqn:Hoff; [constructor|].
  apply offBoard_false in Hoff. destruct Hoff as [Hnf Hnr].
  match goal with
  | |- context [if ?c then _ else _] => destruct c eqn:Hc
  end; [|constructor].
  constructor; [|constructor].
  unfold createMove.
  apply generated_plain with (p := p); try assumption.
  - now apply cell_onBoard.
  - intros Hocc. rewrite Hocc in Hc. cbn in Hc.
    now apply negb_true_iff in Hc.
Qed.

Lemma slideRay_generated (b : Board) (mover : Color) (f : Z) (p : Piece)
  (df dr : Z) (n : nat) :
  onBoard f ->
  getB b f = Some p ->
  forall file rank,
    Forall (Generated b mover)
      (slideRay b f (indexToAlgebraic f) (pcolor p) df dr file rank n).
Proof.
  intros Hf Hp. induction n as [|n IH]; intros file rank; cbn [slideRay];
    [constructor|].
  destruct ((file + df <? 0) || (file + df >? 7) || (rank + dr <? 0)
            || (rank + dr >? 7)) eqn:Hoff; [constructor|].
  apply offBoard_false in Hoff. destruct Hoff as [Hnf Hnr].
  assert (Hto : onBoard ((rank + dr) * 8 + (file + df)))
    by now apply cell_onBoard.
  destruct (getB b ((rank + dr) * 8 + (file + df))) as [q|] eqn:Hq;
    cbn [isSome negb].
  - destruct (negb (optColor_eqb (getColorOf (Some q)) (pcolor p))) eqn:Hc;
      [|constructor].
    constructor; [|constructor].
    unfold createMove. rewrite <- Hq.
    apply generated_plain with (p := p); try assumption.
    intros _. rewrite Hq. now apply negb_true_iff in Hc.
  - constructor; [|apply IH].
    unfold createMove. now apply generated_quiet with (p := p).
Qed.

Lemma generateSlidingMoves_generated (b : Board) (mover : Color) (f : Z)
  (p : Piece) (dirs : list (Z * Z)) :
  onBoard f ->
  getB b f = Some p ->
  Forall (Generated b mover)
    (generateSlidingMoves b f (indexToAlgebraic f) (pcolor p) dirs).
Proof.
  intros Hf Hp. unfold generateSlidingMoves.
  apply Forall_flat_map. intros [df dr] _.
  destruct (indexToFR f) as [file rank].
  now apply slideRay_generated.
Qed.

Lemma optColor_opposite (c : option Piece) (color : Color) :
  optColor_eqb (getColorOf c) (oppositeColor color) = true ->
  optColor_eqb (getColorOf c) color = false.
Proof.
  destruct c as [q|]; cbn; [|reflexivity].
  destruct (pcolor q), color; cbn; congruence.
Qed.

Lemma addPawnAdvance_generated (b : Board) (mover : Color) (f t : Z) (p : Piece)
  (color : Color) (promotionRank lastRank : Z) :
  onBoard f -> onBoard t ->
  getB b f = Some p ->
  Forall (Generated b mover)
    (addPawnAdvance (indexToAlgebraic f) f t color promotionRank lastRank).
Proof.
  intros Hf Ht Hp. unfold addPawnAdvance.
  destruct (indexToFR f) as [file rank].
  destruct (rank =? promotionRank).
  - unfold PROMOTIONS, createPromotionMove. cbn [map].
    repeat (constructor; [now apply generated_quiet with (p := p)|]).
    constructor.
  - constructor; [|constructor].
    unfold createMove. now apply generated_quiet with (p := p).
Qed.

Lemma addPawnCapture_generated (b : Board) (mover : Color) (f t : Z) (p : Piece)
  (color : Color) (promotionRank lastRank : Z) :
  onBoard f -> onBoard t ->
  getB b f = Some p ->
  optColor_eqb (getColorOf (getB b t)) (pcolor p) = false ->
  Forall (Generated b mover)
    (addPawnCapture (indexToAlgebraic f) f t color (getB b t) promotionRank
       lastRank).
Proof.
  intros Hf Ht Hp Hcol. unfold addPawnCapture.
  destruct (indexToFR f) as [file rank].
  destruct (rank =? promotionRank).
  - unfold PROMOTIONS, createPromotionMove. cbn [map].
    repeat (constructor; [now apply generated_plain with (p := p)|]).
    constructor.
  - constructor; [|constructor].
    unfold createMove. now apply generated_plain with (p := p).
Qed.

Lemma pawnCaptureStep_generated (b : Board) (f : Z) (p : Piece) (epIndex : Z)
  (promotionRank lastRank cf : Z) :
  onBoard f ->
  getB b f = Some p ->
  Forall (Generated b (pcolor p))
    (pawnCaptureStep b f (indexToAlgebraic f) (f / 8) (pcolor p)
       (oppositeColor (pcolor p)) epIndex (pawnDir (pcolor p)) promotionRank
       lastRank cf).
Proof.
  intros Hf Hp. unfold pawnCaptureStep.
  destruct ((cf <? 0) || (cf >? 7)) eqn:Hcf; [constructor|].
  apply offBoard1_false in Hcf.
  destruct ((f / 8 + pawnDir (pcolor p) <? 0) || (f / 8 + pawnDir (pcolor p) >? 7))
    eqn:Hr; [constructor|].
  apply offBoard1_false in Hr.
  cbv zeta.
  set (t := (f / 8 + pawnDir (pcolor p)) * 8 + cf).
  assert (Ht : onBoard t) by (unfold t; now apply cell_onBoard).
  apply Forall_app. split.
  - destruct (isSome (getB b t) && optColor_eqb (getColorOf (getB b t))
                                     (oppositeColor (pcolor p))) eqn:Hc;
      [|constructor].
    apply andb_prop in Hc. destruct Hc as [_ Hc].
    apply addPawnCapture_generated with (p := p); try assumption.
    now apply optColor_opposite.
  - destruct ((epIndex =? t) && negb (isSome (getB b t))) eqn:Hep; [|constructor].
    apply andb_prop in Hep. destruct Hep as [_ Hempty].
    apply negb_true_iff in Hempty.
    destruct (isSome (getB b (f / 8 * 8 + cf))
              && optColor_eqb (getColorOf (getB b (f / 8 * 8 + cf)))
                   (oppositeColor (pcolor p))) eqn:Hc; [|constructor].
    apply andb_prop in Hc. destruct Hc as [Hocc Hc].
    constructor; [|constructor].
    pose proof (onBoard_file_rank f Hf) as [_ Hrank].
    assert (Hcell : captureCell (pcolor p) t = f / 8 * 8 + cf).
    { unfold captureCell, t.
      destruct (cell_file_rank (f / 8 + pawnDir (pcolor p)) cf) as [-> ->];
        try lia.
      unfold pawnDir. destruct (pcolor p); lia. }
    exists f, t. cbn.
    split; [exact Hf|]. split; [exact Ht|]. split; [reflexivity|].
    split; [reflexivity|]. split; [now rewrite Hp|].
    intros _.
    assert (Hne : f / 8 * 8 + cf <> f).
    { intros E. rewrite E, Hp in Hc. cbn in Hc.
      destruct (pcolor p); discriminate. }
    split.
    + intros E. rewrite <- E, Hp in Hempty. discriminate.
    + split; [reflexivity|]. split; [reflexivity|]. right.
      rewrite Hcell.
      split; [reflexivity|].
      split; [destruct (getB b t); [discriminate | reflexivity]|].
      split; [lia|]. split; assumption.
Qed.

Lemma generatePawnMoves_generated (st : RulesState) (f : Z) (p : Piece)
  (epIndex : Z) :
  onBoard f ->
  getB (board st) f = Some p ->
  Forall (Generated (board st) (pcolor p))
    (generatePawnMoves st f (indexToAlgebraic f) (Z.rem f 8) (f / 8) (pcolor p)
       (oppositeColor (pcolor p)) epIndex).
Proof.
  intros Hf Hp. unfold generatePawnMoves.
  pose proof (onBoard_file_rank f Hf) as [Hfile Hrank].
  fold (pawnDir (pcolor p)).
  apply Forall_app. split.
  - destruct ((f / 8 + pawnDir (pcolor p) >=? 0)
              && (f / 8 + pawnDir (pcolor p) <=? 7)) eqn:Hone; [|constructor].
    apply andb_prop in Hone. destruct Hone as [H0 H7].
    apply Z.geb_le in H0. apply Z.leb_le in H7.
    destruct (negb (isSome (getB (board st)
                              ((f / 8 + pawnDir (pcolor p)) * 8 + Z.rem f 8))));
      [|constructor].
    apply Forall_app. split.
    + apply addPawnAdvance_generated with (p := p); try assumption.
      apply cell_onBoard; lia.
    + destruct (f / 8 =? match pcolor p with white => 1 | black => 6 end)
        eqn:Hstart; [|constructor].
      apply Z.eqb_eq in Hstart.
      destruct (negb (isSome (getB (board st)
                                ((f / 8 + 2 * pawnDir (pcolor p)) * 8
                                 + Z.rem f 8)))); [|constructor].
      constructor; [|constructor].
      unfold createMove. apply generated_quiet with (p := p); try assumption.
      apply cell_onBoard; [|lia].
      unfold pawnDir. destruct (pcolor p); lia.
  - apply Forall_flat_map. intros cf _.
    now apply pawnCaptureStep_generated.
Qed.

Lemma generateCastlingMoves_generated (st : RulesState) (mover : Color) (f : Z)
  (p : Piece) (color : Color) (cr : CastlingRights) :
  onBoard f ->
  getB (board st) f = Some p ->
  exists l,
    generateCastlingMoves st f (indexToAlgebraic f) color cr = Ok l
    /\ Forall (Generated (board st) mover) l.
Proof.
  intros Hf Hp. unfold generateCastlingMoves.
  assert (Hsq : forall k, 0 <= k <= 7 ->
            onBoard (0 * 8 + k) /\ onBoard (7 * 8 + k))
    by (intros k Hk; unfold onBoard; lia).
  destruct (negb (f =? match color with white => 0 | black => 7 end * 8 + 4));
    [exists []; split; [reflexivity | constructor]|].
  rewrite squareAttackedBy_onBoard by assumption. cbn [rbind].
  destruct (squareAttackedAt (board st) f (oppositeColor color));
    [exists []; split; [reflexivity | constructor]|].
  destruct color;
    repeat (first
      [ rewrite squareAttackedBy_onBoard by (apply Hsq; lia)
      | progress cbn [rbind negb]
      | match goal with
        | |- context [if ?c then _ else _] => destruct c
        end ]);
    (eexists; split; [reflexivity|]);
    cbn [app]; unfold createCastleMove;
    repeat (constructor;
            [apply generated_quiet with (p := p);
             [assumption | apply Hsq; lia | assumption]|]);
    constructor.
Qed.

Lemma movesFrom_generated (st : RulesState) (epIndex f : Z) :
  onBoard f ->
  exists l,
    movesFrom st (oppositeColor (activeColor st)) epIndex f = Ok l
    /\ Forall (Generated (board st) (activeColor st)) l.
Proof.
  intros Hf. unfold movesFrom.
  destruct (getB (board st) f) as [p|] eqn:Hp;
    [|exists []; split; [reflexivity | constructor]].
  destruct (Color_eqb (pcolor p) (activeColor st)) eqn:Hc; cbn [negb];
    [|exists []; split; [reflexivity | constructor]].
  apply Color_eqb_eq in Hc. rewrite <- Hc.
  unfold indexToFR.
  destruct (ptype p).
  - eexists. split; [reflexivity|]. now apply generatePawnMoves_generated.
  - eexists. split; [reflexivity|]. unfold generateKnightMoves, indexToFR.
    apply Forall_flat_map. intros d _. now apply jumpStep_generated.
  - eexists. split; [reflexivity|]. now apply generateSlidingMoves_generated.
  - eexists. split; [reflexivity|]. now apply generateSlidingMoves_generated.
  - eexists. split; [reflexivity|]. now apply generateSlidingMoves_generated.
  - destruct (generateCastlingMoves_generated st (pcolor p) f p (pcolor p)
                (castlingRights st) Hf Hp) as (castles & -> & Hcastles).
    cbn [rbind]. eexists. split; [reflexivity|].
    apply Forall_app. split; [|assumption].
    unfold generateKingMoves, indexToFR.
    apply Forall_flat_map. intros d _. now apply jumpStep_generated.
Qed.

Lemma pseudoLoop_generated (st : RulesState) (epIndex : Z) (n : nat) :
  forall i,
    0 <= i -> i + Z.of_nat n <= 64 ->
    exists l,
      pseudoLoop st (oppositeColor (activeColor st)) epIndex i n = Ok l
      /\ Forall (Generated (board st) (activeColor st)) l.
Proof.
  induction n as [|n IH]; intros i Hi Hn; cbn [pseudoLoop].
  - exists []. split; [reflexivity | constructor].
  - destruct (movesFrom_generated st epIndex i) as (here & -> & Hhere);
      [unfold onBoard; lia|].
    destruct (IH (i + 1)) as (rest & -> & Hrest); [lia | lia |].
    cbn [rbind]. eexists. split; [reflexivity|].
    apply Forall_app. now split.
Qed.

Lemma generatePseudoLegalMoves_generated (st : RulesState) :
  epReadable (enPassantTarget st) ->
  exists l,
    generatePseudoLegalMoves st = Ok l
    /\ Forall (Generated (board st) (activeColor st)) l.
Proof.
  intros Hep. unfold generatePseudoLegalMoves.
  assert (He : exists e, match enPassantTarget st with
                         | Some sq => algebraicToIndex sq
                         | None => Ok (-1)
                         end = Ok e).
  { destruct (enPassantTarget st); [exact Hep | eauto]. }
  destruct He as [e ->]. cbn [rbind].
  apply pseudoLoop_generated; simpl; lia.
Qed.

Lemma generatePseudoLegalMoves_readable (st : RulesState) (l : list Move) :
  generatePseudoLegalMoves st = Ok l -> epReadable (enPassantTarget st).
Proof.
  unfold generatePseudoLegalMoves, epReadable.
  destruct (enPassantTarget st) as [sq|]; [|trivial].
  destruct (algebraicToIndex sq) as [e|]; [eauto | discriminate].
Qed.

Lemma leavesKingInCheck_total (st : RulesState) (mover : Color) (m : Move) :
  Generated (board st) mover m -> exists bad, leavesKingInCheck st m = Ok bad.
Proof.
  intros (f & t & Hf & Ht & Hfrom & Hto & _).
  rewrite (leavesKingInCheck_indices st m f t).
  - destruct (findKingSquare (scratchBoard (board st) m f t) (activeColor st))
      as [kingSq|] eqn:Hking; [|eauto].
    destruct (findKingSquare_found _ _ _ Hking) as (j & Hj & -> & _).
    rewrite squareAttackedBy_onBoard by assumption. eauto.
  - rewrite Hfrom. now apply algebraicToIndex_indexToAlgebraic.
  - rewrite Hto. now apply algebraicToIndex_indexToAlgebraic.
Qed.

Lemma filterLegal_total (st : RulesState) (mover : Color) (pseudo : list Move) :
  Forall (Generated (board st) mover) pseudo ->
  exists legal,
    filterLegal st pseudo = Ok legal
    /\ Forall (Generated (board st) mover) legal.
Proof.
  induction 1 as [|m pseudo Hm Hrest IH]; cbn [filterLegal].
  - exists []. split; [reflexivity | constructor].
  - destruct (leavesKingInCheck_total st mover m Hm) as [bad ->].
    destruct IH as (legal & -> & Hlegal). cbn [rbind].
    eexists. split; [reflexivity|].
    destruct bad; cbn [negb]; [assumption | now constructor].
Qed.

(** With a readable en-passant target the legal moves are produced, and
    each has the shape of a generated move. *)
Lemma generateLegalMoves_total (st : RulesState) :
  epReadable (enPassantTarget st) ->
  exists legal,
    generateLegalMoves st = Ok legal
    /\ Forall (Generated (board st) (activeColor st)) legal.
Proof.
  intros Hep. unfold generateLegalMoves.
  destruct (generatePseudoLegalMoves_generated st Hep) as (pseudo & -> & Hps).
  cbn [rbind]. now apply filterLegal_total.
Qed.

Lemma generateLegalMoves_generated (st : RulesState) (legal : list Move) :
  generateLegalMoves st = Ok legal ->
  Forall (Generated (board st) (activeColor st)) legal.
Proof.
  intros H.
  assert (Hep : epReadable (enPassantTarget st)).
  { unfold generateLegalMoves in H.
    destruct (generatePseudoLegalMoves st) as [pseudo|] eqn:Hps; [|discriminate].
    now apply generatePseudoLegalMoves_readable in Hps. }
  destruct (generateLegalMoves_total st Hep) as (legal' & H' & Hgen).
  congruence.
Qed.

(* ------------------------------------------------------------------ *)
(** ** Moves applied during the search *)

Lemma epReadable_onBoard (e : Z) :
  onBoard e -> epReadable (Some (indexToAlgebraic e)).
Proof.
  intros He. exists e. now apply algebraicToIndex_indexToAlgebraic.
Qed.

Lemma updateCastlingRightsSearch_onBoard (st : AI.SearchState) (m : Move)
  (f t : Z) (mp : option Piece) :
  onBoard f -> onBoard t ->
  exists cr,
    AI.updateCastlingRightsSearch st m f t mp
    = Ok (AI.mkSearchState (AI.board st) (AI.activeColor st) cr
            (AI.enPassantTarget st) (AI.halfmoveClock st) (AI.fullmoveNumber st)).
Proof.
  intros Hf Ht. unfold AI.updateCastlingRightsSearch.
  rewrite !indexToAlgebraicFast_onBoard by assumption. cbn [rbind].
  destruct (GameState.optPiece_eqb mp wK), (GameState.optPiece_eqb mp bK);
    eexists; reflexivity.
Qed.

Lemma applyMoveSearch_generated (st : AI.SearchState) (m : Move) :
  Generated (AI.board st) (AI.activeColor st) m ->
  exists st',
    AI.applyMoveSearch (AI.clone st) m (AI.activeColor st) = Ok st'
    /\ epReadable (AI.enPassantTarget st')
    /\ (pieceCount (AI.board st') <= pieceCount (AI.board st))%nat
    /\ (captured m <> None ->
        (pieceCount (AI.board st') < pieceCount (AI.board st))%nat).
Proof.
  intros (f & t & Hf & Ht & Hfrom & Hto & Hocc & Hcap).
  unfold AI.applyMoveSearch.
  cbn [AI.clone AI.board AI.activeColor AI.castlingRights AI.enPassantTarget
       AI.halfmoveClock AI.fullmoveNumber].
  unfold cloneBoard.
  rewrite Hfrom, Hto.
  rewrite !algebraicToIndexFast_indexToAlgebraic by assumption.
  cbn [rbind].
  pose proof (onBoard_file_rank f Hf) as [_ Hfr].
  pose proof (onBoard_file_rank t Ht) as [Htf Htr].
  assert (Hcount : (pieceCount (AI.movedBoard (AI.board st) m (AI.activeColor st) f t)
                    <= pieceCount (AI.board st))%nat).
  { apply movedBoard_count_le; [unfold onBoard in Hf; lia | assumption]. }
  assert (Hless : captured m <> None ->
            (pieceCount (AI.movedBoard (AI.board st) m (AI.activeColor st) f t)
             < pieceCount (AI.board st))%nat).
  { intros Hc. destruct (Hcap Hc) as (Hne & Hk & Hq & Hshape).
    now apply movedBoard_capture_lt. }
  remember (AI.movedBoard (AI.board st) m (AI.activeColor st) f t) as b' eqn:Eb.
  clear Eb.
  match goal with
  | |- context [rbind ?epc _] =>
      assert (Hepc : exists ep, epc = Ok ep /\ epReadable ep)
  end.
  { destruct (match getB (AI.board st) f with
              | Some mp => PieceType_eqb (ptype mp) P
              | None => false
              end); [|exists None; split; [reflexivity | exact I]].
    destruct (Z.abs (t / 8 - f / 8) =? 2) eqn:Htwo;
      [|exists None; split; [reflexivity | exact I]].
    apply Z.eqb_eq in Htwo.
    assert (Hmid : onBoard ((f / 8 + t / 8) / 2 * 8 + Z.rem t 8)).
    { apply cell_onBoard; [|assumption].
      assert (0 <= (f / 8 + t / 8) / 2) by (apply Z.div_pos; lia).
      assert ((f / 8 + t / 8) / 2 < 8) by (apply Z.div_lt_upper_bound; lia).
      lia. }
    rewrite indexToAlgebraicFast_onBoard by assumption. cbn [rbind].
    eexists. split; [reflexivity|]. now apply epReadable_onBoard. }
  destruct Hepc as (ep & -> & Hep). cbn [rbind].
  match goal with
  | |- context [AI.updateCastlingRightsSearch ?s ?mv ?a ?b ?c] =>
      destruct (updateCastlingRightsSearch_onBoard s mv a b c Hf Ht) as [cr ->]
  end.
  cbn [rbind AI.board AI.activeColor AI.castlingRights AI.enPassantTarget
       AI.halfmoveClock AI.fullmoveNumber].
  eexists. split; [reflexivity|].
  cbn [AI.board AI.enPassantTarget]. auto.
Qed.

(* ------------------------------------------------------------------ *)
(** ** The search returns *)

Lemma Returns_ret {A} (a : A) (P : A -> Prop) : P a -> Returns (AI.ret a) P.
Proof. intros H w. exists a, w. now split. Qed.

Lemma Returns_bind {A B} (c : AI.Search A) (k : A -> AI.Search B)
  (P : A -> Prop) (Q : B -> Prop) :
  Returns c P -> (forall a, P a -> Returns (k a) Q) -> Returns (AI.bind c k) Q.
Proof.
  intros Hc Hk w. destruct (Hc w) as (a & w1 & Hcw & Ha).
  destruct (Hk a Ha w1) as (b & w2 & Hkw & Hb).
  exists b, w2. split; [|assumption].
  now rewrite (bind_ok _ Hcw).
Qed.

Lemma Returns_lift {A} (r : Res A) (a : A) (P : A -> Prop) :
  r = Ok a -> P a -> Returns (AI.lift r) P.
Proof. intros -> Ha w. exists a, w. now split. Qed.

Lemma Returns_weaken {A} (c : AI.Search A) (P Q : A -> Prop) :
  Returns c P -> (forall a, P a -> Q a) -> Returns c Q.
Proof.
  intros Hc HPQ w. destruct (Hc w) as (a & w' & H & Ha). exists a, w'. auto.
Qed.

Lemma insertDesc_In {A} (key : A -> Z) (x y : A) (l : list A) :
  In y (insertDesc key x l) <-> y = x \/ In y l.
Proof.
  induction l as [|a l IH]; simpl; [intuition|].
  destruct (key a >? key x); simpl; rewrite ?IH; intuition.
Qed.

Lemma sortDesc_In {A} (key : A -> Z) (x : A) (l : list A) :
  In x (sortDesc key l) <-> In x l.
Proof.
  induction l as [|a l IH]; simpl; [tauto|].
  rewrite insertDesc_In, IH. intuition.
Qed.

Lemma sortDesc_Forall {A} (key : A -> Z) (P : A -> Prop) (l : list A) :
  Forall P l -> Forall P (sortDesc key l).
Proof.
  rewrite !Forall_forall. intros H x Hx. apply H. now apply sortDesc_In in Hx.
Qed.

Lemma insertDesc_length {A} (key : A -> Z) (x : A) (l : list A) :
  List.length (insertDesc key x l) = S (List.length l).
Proof.
  induction l as [|a l IH]; simpl; [reflexivity|].
  destruct (key a >? key x); simpl; [now rewrite IH | reflexivity].
Qed.

Lemma sortDesc_length {A} (key : A -> Z) (l : list A) :
  List.length (sortDesc key l) = List.length l.
Proof.
  induction l as [|a l IH]; simpl; [reflexivity|].
  now rewrite insertDesc_length, IH.
Qed.

Lemma searchable_next (fuel : nat) (st next : AI.SearchState) (m : Move) :
  searchable fuel st ->
  Generated (AI.board st) (AI.activeColor st) m ->
  AI.applyMoveSearch (AI.clone st) m (AI.activeColor st) = Ok next ->
  searchable fuel next
  /\ (captured m <> None -> searchable (Nat.pred fuel) next).
Proof.
  intros [_ Hcount] Hm Hnext.
  destruct (applyMoveSearch_generated st m Hm) as (next' & Hnext' & Hep & Hle & Hlt).
  assert (next' = next) by congruence. subst next'.
  split; [split; [assumption | lia]|].
  intros Hc. specialize (Hlt Hc). split; [assumption | lia].
Qed.

Lemma firstn_incl {A} (n : nat) (l : list A) (x : A) :
  In x (firstn n l) -> In x l.
Proof.
  revert l. induction n as [|n IH]; intros [|a l]; simpl; try tauto.
  intros [->|H]; [now left | right; now apply IH].
Qed.

Lemma isInCheck_returns (st : RulesState) (ov : option Color) :
  exists b, isInCheck st ov = Ok b.
Proof.
  unfold isInCheck.
  destruct (findKingSquare (board st) _) as [k|] eqn:Hk; [|eauto].
  destruct (findKingSquare_found _ _ _ Hk) as (j & Hj & -> & _).
  rewrite squareAttackedBy_onBoard by assumption. eauto.
Qed.

Lemma legalMoves_returns (st : AI.SearchState) :
  epReadable (AI.enPassantTarget st) ->
  Returns (AI.lift (generateLegalMoves (AI.asRules st)))
    (Forall (Generated (AI.board st) (AI.activeColor st))).
Proof.
  intros Hep.
  destruct (generateLegalMoves_total (AI.asRules st) Hep) as (legal & H & Hgen).
  now apply Returns_lift with (a := legal).
Qed.

Section SearchReturns.
Variable clock : nat -> Z.

Lemma now_returns : Returns (AI.now clock) anything.
Proof. intros w. eexists _, _. split; [reflexivity | exact I]. Qed.

Lemma budgetExceeded_returns (timeout startTime : option Z) :
  Returns (AI.budgetExceeded clock timeout startTime) anything.
Proof.
  unfold AI.budgetExceeded.
  destruct timeout as [t|], startTime as [s0|];
    try (apply Returns_ret; exact I).
  destruct (AI.truthyNum (Some t) && AI.truthyNum (Some s0));
    [|apply Returns_ret; exact I].
  eapply Returns_bind; [apply now_returns|].
  intros n _. apply Returns_ret. exact I.
Qed.

Lemma budgetExceededEvery_returns (k i : Z) (timeout startTime : option Z) :
  Returns (AI.budgetExceededEvery clock k i timeout startTime) anything.
Proof.
  unfold AI.budgetExceededEvery.
  destruct (Z.rem i k =? 0);
    [apply budgetExceeded_returns | apply Returns_ret; exact I].
Qed.

Lemma quiescenceLoop_returns
  (rec : AI.SearchState -> Num -> Num -> Z -> AI.Search (option Num))
  (st : AI.SearchState) (root : Color) (timeout startTime : option Z)
  (beta : Num) (limited : list Move) :
  (forall m next,
      In m limited ->
      AI.applyMoveSearch (AI.clone st) m (AI.activeColor st) = Ok next ->
      forall a b sp, Returns (rec next a b sp) anything) ->
  Forall (Generated (AI.board st) (AI.activeColor st)) limited ->
  forall i value alpha,
    Returns (AI.quiescenceLoop clock rec st root timeout startTime beta limited
               i value alpha) anything.
Proof.
  induction limited as [|m limited IH]; intros Hrec Hgen i value alpha;
    cbn [AI.quiescenceLoop].
  - apply Returns_ret. exact I.
  - inversion Hgen as [|? ? Hm Hrest]; subst.
    eapply Returns_bind; [apply budgetExceededEvery_returns|].
    intros stop _. destruct stop; [apply Returns_ret; exact I|].
    destruct (applyMoveSearch_generated st m Hm) as (next & Hnext & _).
    eapply Returns_bind;
      [apply (Returns_lift _ next (fun x => x = next) Hnext eq_refl)|].
    intros next' ->.
    eapply Returns_bind; [apply (Hrec m next (or_introl eq_refl) Hnext)|].
    intros r _. cbv beta iota.
    match goal with
    | |- context [if ?c then AI.ret _ else _] => destruct c
    end; [apply Returns_ret; exact I|].
    apply IH; [|assumption].
    intros m' next' Hin. apply Hrec. now right.
Qed.

Lemma quiescence_returns (fuel : nat) :
  forall st alpha beta root standPat timeout startTime,
    searchable fuel st ->
    Returns (AI.quiescence clock fuel st alpha beta root standPat timeout
               startTime) anything.
Proof.
  induction fuel as [|fuel IH];
    intros st alpha beta root standPat timeout startTime Hst.
  - destruct Hst as [_ H]. lia.
  - cbn [AI.quiescence].
    eapply Returns_bind; [apply budgetExceeded_returns|].
    intros stop _. destruct stop; [apply Returns_ret; exact I|].
    match goal with
    | |- context [if ?c then AI.ret _ else _] => destruct c
    end; [apply Returns_ret; exact I|].
    eapply Returns_bind; [apply legalMoves_returns; apply Hst|].
    intros allMoves Hall.
    eapply Returns_bind; [|intros v _; apply Returns_ret; exact I].
    assert (Hlim : forall m,
               In m (firstn 16 (filter (fun m => isSome (captured m)) allMoves)) ->
               Generated (AI.board st) (AI.activeColor st) m
               /\ captured m <> None).
    { intros m Hin. apply firstn_incl in Hin. apply filter_In in Hin.
      destruct Hin as [Hin Hc]. rewrite Forall_forall in Hall.
      split; [now apply Hall|]. intros E. rewrite E in Hc. discriminate. }
    apply quiescenceLoop_returns.
    + intros m next Hin Hnext a b sp. apply IH.
      destruct (Hlim m Hin) as [Hm Hc].
      destruct (searchable_next _ _ _ _ Hst Hm Hnext) as [_ Hpred].
      exact (Hpred Hc).
    + apply Forall_forall. intros m Hin. now apply Hlim.
Qed.

Section MinimaxLoopsReturn.
Variable rec : AI.SearchState -> Num -> Num -> bool -> AI.Search (option Num).
Variable st : AI.SearchState.
Variables timeout startTime : option Z.
Hypothesis rec_returns :
  forall m next,
    Generated (AI.board st) (AI.activeColor st) m ->
    AI.applyMoveSearch (AI.clone st) m (AI.activeColor st) = Ok next ->
    forall a b isMax, Returns (rec next a b isMax) anything.

Lemma maxLoop_returns (ordered : list Move) :
  Forall (Generated (AI.board st) (AI.activeColor st)) ordered ->
  forall i value alpha beta,
    Returns (AI.maxLoop clock rec st timeout startTime ordered i value alpha beta)
      anything.
Proof.
  induction 1 as [|m ordered Hm Hrest IH]; intros i value alpha beta;
    cbn [AI.maxLoop].
  - apply Returns_ret. exact I.
  - eapply Returns_bind; [apply budgetExceededEvery_returns|].
    intros stop _. destruct stop; [apply Returns_ret; exact I|].
    destruct (applyMoveSearch_generated st m Hm) as (next & Hnext & _).
    eapply Returns_bind;
      [apply (Returns_lift _ next (fun x => x = next) Hnext eq_refl)|].
    intros next' ->.
    eapply Returns_bind; [apply (rec_returns m next Hm Hnext)|].
    intros [child|] _; [|apply Returns_ret; exact I].
    cbv zeta.
    match goal with
    | |- context [if ?c then AI.ret _ else _] => destruct c
    end; [apply Returns_ret; exact I | apply IH].
Qed.

Lemma minLoop_returns (ordered : list Move) :
  Forall (Generated (AI.board st) (AI.activeColor st)) ordered ->
  forall i value alpha beta,
    Returns (AI.minLoop clock rec st timeout startTime ordered i value alpha beta)
      anything.
Proof.
  induction 1 as [|m ordered Hm Hrest IH]; intros i value alpha beta;
    cbn [AI.minLoop].
  - apply Returns_ret. exact I.
  - eapply Returns_bind; [apply budgetExceededEvery_returns|].
    intros stop _. destruct stop; [apply Returns_ret; exact I|].
    destruct (applyMoveSearch_generated st m Hm) as (next & Hnext & _).
    eapply Returns_bind;
      [apply (Returns_lift _ next (fun x => x = next) Hnext eq_refl)|].
    intros next' ->.
    eapply Returns_bind; [apply (rec_returns m next Hm Hnext)|].
    intros [child|] _; [|apply Returns_ret; exact I].
    cbv zeta.
    match goal with
    | |- context [if ?c then AI.ret _ else _] => destruct c
    end; [apply Returns_ret; exact I | apply IH].
Qed.

End MinimaxLoopsReturn.

Lemma minimaxLeaf_returns (fuel : nat) (st : AI.SearchState) (depth : nat)
  (legalMoves : list Move) (alpha beta : Num) (root : Color) (level : Z)
  (timeout startTime : option Z) :
  searchable fuel st ->
  Returns (AI.minimaxLeaf clock fuel st depth legalMoves alpha beta root level
             timeout startTime) anything.
Proof.
  intros Hst. unfold AI.minimaxLeaf.
  eapply Returns_bind with (P := anything).
  - destruct (List.length legalMoves =? 0)%nat; [|apply Returns_ret; exact I].
    destruct (isInCheck_returns (AI.asRules st) None) as [inCheck Hc].
    eapply Returns_bind; [apply (Returns_lift _ inCheck anything Hc I)|].
    intros b _. destruct b; apply Returns_ret; exact I.
  - intros baseScore _.
    destruct ((Z.of_nat depth <=? 0) && (level >=? 4));
      [|apply Returns_ret; exact I].
    eapply Returns_bind; [now apply quiescence_returns|].
    intros [q|] _; apply Returns_ret; exact I.
Qed.

Lemma minimax_returns (fuel depth : nat) :
  forall st alpha beta root isMax level timeout startTime,
    searchable fuel st ->
    Returns (AI.minimax clock fuel depth st alpha beta root isMax level timeout
               startTime) anything.
Proof.
  induction depth as [|depth IH];
    intros st alpha beta root isMax level timeout startTime Hst;
    cbn [AI.minimax].
  - eapply Returns_bind; [apply budgetExceeded_returns|].
    intros stop _. destruct stop; [apply Returns_ret; exact I|].
    eapply Returns_bind; [apply legalMoves_returns; apply Hst|].
    intros legalMoves _. now apply minimaxLeaf_returns.
  - eapply Returns_bind; [apply budgetExceeded_returns|].
    intros stop _. destruct stop; [apply Returns_ret; exact I|].
    eapply Returns_bind; [apply legalMoves_returns; apply Hst|].
    intros legalMoves Hall.
    destruct (List.length legalMoves =? 0)%nat;
      [now apply minimaxLeaf_returns|].
    cbv zeta.
    assert (Hrec : forall m next,
               Generated (AI.board st) (AI.activeColor st) m ->
               AI.applyMoveSearch (AI.clone st) m (AI.activeColor st) = Ok next ->
               forall a b isMax',
                 Returns (AI.minimax clock fuel depth next a b root isMax' level
                            timeout startTime) anything).
    { intros m next Hm Hnext a b isMax'. apply IH.
      now destruct (searchable_next _ _ _ _ Hst Hm Hnext). }
    destruct isMax;
      [apply maxLoop_returns | apply minLoop_returns];
      try exact Hrec; now apply sortDesc_Forall.
Qed.

End SearchReturns.

Section RootLoopsReturn.
Variable clock : nat -> Z.

Lemma rootLoop_returns (fuel : nat) (st : AI.SearchState) (depth : nat)
  (color : Color) (isMax : bool) (level : Z) (timeout startTime : option Z)
  (ordered : list Move) :
  searchable fuel st ->
  Forall (Generated (AI.board st) (AI.activeColor st)) ordered ->
  forall acc,
    Returns (AI.rootLoop clock fuel st depth color isMax level timeout startTime
               ordered acc)
      (fun acc' => AI.bestMove acc' = AI.bestMove acc
                   \/ exists m, In m ordered /\ AI.bestMove acc' = Some m).
Proof.
  intros Hst. induction 1 as [|m ordered Hm Hrest IH]; intros acc;
    cbn [AI.rootLoop].
  - apply Returns_ret. now left.
  - eapply Returns_bind; [apply budgetExceeded_returns|].
    intros stop _. destruct stop; [apply Returns_ret; now left|].
    destruct (applyMoveSearch_generated st m Hm) as (next & Hnext & _).
    eapply Returns_bind;
      [apply (Returns_lift _ next (fun x => x = next) Hnext eq_refl)|].
    intros next' ->.
    eapply Returns_bind.
    { apply minimax_returns.
      now destruct (searchable_next _ _ _ _ Hst Hm Hnext). }
    intros [score|] _; [|apply Returns_ret; now left].
    cbv zeta.
    match goal with
    | |- Returns (if num_leb (AI.rootBeta ?a) _ then _ else _) _ =>
        assert (Hacc : AI.bestMove a = AI.bestMove acc
                       \/ AI.bestMove a = Some m);
        [|destruct (num_leb (AI.rootBeta a) (AI.rootAlpha a));
          [apply Returns_ret
          |eapply Returns_weaken; [apply (IH a)|]]]
    end.
    + destruct isMax; cbn [AI.bestMove];
        match goal with
        | |- context [if ?c then Some m else _] => destruct c
        end; auto.
    + destruct Hacc as [->| ->]; [now left|].
      right. exists m. split; [now left | reflexivity].
    + intros acc' [H'|(m' & Hin & H')].
      * rewrite H'. destruct Hacc as [->| ->]; [now left|].
        right. exists m. split; [now left | reflexivity].
      * right. exists m'. split; [now right | assumption].
Qed.

Lemma candidateLoop_returns (st : AI.SearchState) (color : Color) (band : Z)
  (bestScore : Num) (timeout startTime : option Z) (ordered : list Move) :
  Forall (Generated (AI.board st) (AI.activeColor st)) ordered ->
  forall candidates,
    Returns (AI.candidateLoop clock st color band bestScore timeout startTime
               ordered candidates)
      (fun cs => forall m, In m cs -> In m candidates \/ In m ordered).
Proof.
  induction 1 as [|x ordered Hx Hrest IH]; intros candidates;
    cbn [AI.candidateLoop].
  - apply Returns_ret. auto.
  - eapply Returns_bind; [apply budgetExceeded_returns|].
    intros stop _. destruct stop; [apply Returns_ret; auto|].
    destruct (applyMoveSearch_generated st x Hx) as (next & Hnext & _).
    eapply Returns_bind;
      [apply (Returns_lift _ next (fun y => y = next) Hnext eq_refl)|].
    intros next' ->. cbv zeta.
    eapply Returns_weaken; [apply IH|].
    intros cs Hcs m Hm. destruct (Hcs m Hm) as [Hc|Ho]; [|right; now right].
    match type of Hc with
    | In m (if ?c then _ else _) => destruct c
    end; [|now left].
    apply in_app_or in Hc. destruct Hc as [Hc|[->|[]]];
      [now left | right; now left].
Qed.

End RootLoopsReturn.

Section RootReturns.
Variable clock : nat -> Z.
Variable random : nat -> nat.

Lemma randomBelow_returns (len : nat) :
  (0 < len)%nat -> Returns (AI.randomBelow random len) (fun k => (k < len)%nat).
Proof.
  intros Hlen w. unfold AI.randomBelow. eexists _, _.
  split; [reflexivity|].
  destruct len; [lia|]. apply Nat.mod_upper_bound. lia.
Qed.

Lemma searchRoot_returns (fuel : nat) (st : AI.SearchState)
  (legalMoves : list Move) (depth : nat) (color : Color) (level : Z)
  (timeout startTime : option Z) :
  searchable fuel st ->
  legalMoves <> [] ->
  Forall (Generated (AI.board st) (AI.activeColor st)) legalMoves ->
  Returns (AI.searchRoot clock random fuel st legalMoves depth color level
             timeout startTime)
    (fun r => exists m, r = Some m /\ In m legalMoves).
Proof.
  intros Hst Hne Hgen. unfold AI.searchRoot.
  assert (Hord : Forall (Generated (AI.board st) (AI.activeColor st))
                   (sortDesc AI.capturedValue legalMoves))
    by now apply sortDesc_Forall.
  assert (Hin : forall m, In m (sortDesc AI.capturedValue legalMoves) ->
                          In m legalMoves)
    by (intros m; apply sortDesc_In).
  remember (sortDesc AI.capturedValue legalMoves) as ordered eqn:Eord.
  assert (Hhd : exists m0, hd_error ordered = Some m0 /\ In m0 ordered).
  { destruct ordered as [|m0 rest].
    - exfalso. apply Hne.
      apply (f_equal (@List.length Move)) in Eord.
      rewrite sortDesc_length in Eord. now destruct legalMoves.
    - exists m0. split; [reflexivity | now left]. }
  destruct Hhd as (m0 & Hhd & Hm0). rewrite Hhd. clear Eord.
  eapply Returns_bind; [apply rootLoop_returns; assumption|].
  cbn [AI.bestMove]. intros acc Hacc.
  assert (Hbest : exists m, AI.bestMove acc = Some m /\ In m legalMoves).
  { destruct Hacc as [H|(m & Hm & H)]; rewrite H; eauto. }
  eapply Returns_bind; [apply budgetExceeded_returns|].
  intros stop _.
  destruct (negb stop); [|now apply Returns_ret].
  destruct (AI.jitterBand level) as [band|]; [|now apply Returns_ret].
  destruct (1 <? List.length ordered)%nat; [|now apply Returns_ret].
  eapply Returns_bind; [apply candidateLoop_returns; assumption|].
  intros candidates Hcand.
  destruct (0 <? List.length candidates)%nat eqn:Hlen; [|now apply Returns_ret].
  apply Nat.ltb_lt in Hlen.
  eapply Returns_bind; [apply randomBelow_returns; exact Hlen|].
  intros k Hk. apply Returns_ret.
  destruct (nth_error candidates k) as [m|] eqn:Hnth.
  - exists m. split; [reflexivity|].
    apply nth_error_In in Hnth.
    destruct (Hcand m Hnth) as [[]|Ho]. now apply Hin.
  - apply nth_error_None in Hnth. cbv beta in Hk. lia.
Qed.

Lemma deepeningLoop_returns (fuel : nat) (st : AI.SearchState)
  (legalMoves : list Move) (color : Color) (level : Z) (timeout startTime : Z)
  (remaining : nat) :
  searchable fuel st ->
  legalMoves <> [] ->
  Forall (Generated (AI.board st) (AI.activeColor st)) legalMoves ->
  forall currentDepth bestMove,
    (exists m, bestMove = Some m /\ In m legalMoves) ->
    Returns (AI.deepeningLoop clock random fuel st legalMoves color level timeout
               startTime remaining currentDepth bestMove)
      (fun r => exists m, r = Some m /\ In m legalMoves).
Proof.
  intros Hst Hne Hgen.
  induction remaining as [|remaining IH]; intros currentDepth bestMove Hbest;
    cbn [AI.deepeningLoop].
  - now apply Returns_ret.
  - eapply Returns_bind; [apply now_returns|].
    intros n _. destruct (n - startTime >=? timeout); [now apply Returns_ret|].
    eapply Returns_bind; [now apply searchRoot_returns|].
    intros move (m & -> & Hm). cbv zeta iota.
    eapply Returns_bind; [apply now_returns|].
    intros n' _.
    destruct (n' - startTime >=? timeout); [apply Returns_ret; eauto|].
    apply IH. eauto.
Qed.

Lemma scoreMoves_returns (st : AI.SearchState) (color : Color)
  (moves : list Move) :
  Forall (Generated (AI.board st) (AI.activeColor st)) moves ->
  exists scored,
    AI.scoreMoves st color moves = Ok scored /\ map fst scored = moves.
Proof.
  induction 1 as [|m moves Hm Hrest IH]; cbn [AI.scoreMoves].
  - exists []. now split.
  - destruct (applyMoveSearch_generated st m Hm) as (next & -> & _).
    destruct IH as (scored & -> & Hmap). cbn [rbind].
    eexists. split; [reflexivity|]. cbn. now rewrite Hmap.
Qed.

Lemma pickLevel1Move_returns (st : AI.SearchState) (moves : list Move)
  (color : Color) :
  moves <> [] ->
  Forall (Generated (AI.board st) (AI.activeColor st)) moves ->
  Returns (AI.pickLevel1Move random st moves color) (fun m => In m moves).
Proof.
  intros Hne Hgen. unfold AI.pickLevel1Move.
  destruct (scoreMoves_returns st color moves Hgen) as (scored & Hsc & Hmap).
  eapply Returns_bind;
    [apply (Returns_lift _ scored (fun x => x = scored) Hsc eq_refl)|].
  intros scored' ->. cbv zeta.
  set (sorted := sortDesc (fun ms : Move * Z => snd ms) scored).
  set (keepCount := Nat.max 1 (2 * List.length sorted / 5)).
  assert (Hlen : (0 < List.length (firstn keepCount sorted))%nat).
  { assert (Hsl : List.length sorted = List.length moves)
      by (unfold sorted; rewrite sortDesc_length, <- Hmap, length_map;
          reflexivity).
    rewrite length_firstn. unfold keepCount. rewrite Hsl.
    destruct moves as [|m0 rest]; [congruence|]. cbn [List.length].
    remember (2 * S (List.length rest) / 5)%nat as q eqn:Eq. clear Eq. lia. }
  eapply Returns_bind; [apply randomBelow_returns; exact Hlen|].
  intros k Hk.
  destruct (nth_error (firstn keepCount sorted) k) as [ms|] eqn:Hnth.
  - apply Returns_ret.
    apply nth_error_In, firstn_incl in Hnth.
    apply sortDesc_In in Hnth.
    rewrite <- Hmap. now apply in_map.
  - apply nth_error_None in Hnth. cbv beta in Hk. lia.
Qed.

End RootReturns.

(* ------------------------------------------------------------------ *)
(** ** C1: the move the search returns *)

Lemma asRules_ofGameState (g : GameState.t) :
  AI.asRules (AI.ofGameState g) = GameState.asRulesState g.
Proof. reflexivity. Qed.

Lemma generateLegalMoves_readable (st : RulesState) (legal : list Move) :
  generateLegalMoves st = Ok legal -> epReadable (enPassantTarget st).
Proof.
  unfold generateLegalMoves. intros H.
  destruct (generatePseudoLegalMoves st) as [pseudo|] eqn:Hps; [|discriminate].
  now apply generatePseudoLegalMoves_readable in Hps.
Qed.

Section FindBestMove.
Variable clock : nat -> Z.
Variable random : nat -> nat.

Lemma progressiveDeepeningSearch_returns (fuel : nat) (st : AI.SearchState)
  (legalMoves : list Move) (maxDepth : nat) (color : Color) (level : Z)
  (timeout : option Z) :
  searchable fuel st ->
  legalMoves <> [] ->
  Forall (Generated (AI.board st) (AI.activeColor st)) legalMoves ->
  Returns (AI.progressiveDeepeningSearch clock random fuel st legalMoves maxDepth
             color level timeout)
    (fun r => exists m, r = Some m /\ In m legalMoves).
Proof.
  intros Hst Hne Hgen. unfold AI.progressiveDeepeningSearch.
  eapply Returns_bind; [apply now_returns|].
  intros startTime _.
  apply deepeningLoop_returns; try assumption.
  destruct legalMoves as [|m rest]; [congruence|].
  exists m. split; [reflexivity | now left].
Qed.

(** C1: whatever the level, the time budget, the clock and the random
    source, [findBestMove] returns; it returns a member of the legal moves
    of the position when there is one, and [null] when there is none.  The
    bound [fuel] of the embedding exceeds the number of pieces on the
    board. *)
Theorem findBestMove_returns_legal_move (fuel : nat) (gameState : GameState.t)
  (level : Z) (forColor : Color) (timeout : option Z) (legal : list Move)
  (w : AI.World) :
  generateLegalMoves (GameState.asRulesState gameState) = Ok legal ->
  (pieceCount (GameState.board gameState) < fuel)%nat ->
  exists r w',
    AI.findBestMove clock random fuel gameState level forColor timeout w
    = Ok (r, w')
    /\ (legal = [] -> r = None)
    /\ (legal <> [] -> exists m, r = Some m /\ In m legal).
Proof.
  intros Hlegal Hfuel.
  assert (Hst : searchable fuel (AI.ofGameState gameState)).
  { split; [|exact Hfuel].
    exact (generateLegalMoves_readable _ _ Hlegal). }
  assert (Hgen : Forall (Generated (AI.board (AI.ofGameState gameState))
                           (AI.activeColor (AI.ofGameState gameState))) legal).
  { exact (generateLegalMoves_generated _ _ Hlegal). }
  unfold AI.findBestMove. cbv zeta.
  rewrite asRules_ofGameState.
  rewrite (bind_ok _ (lift_ok w Hlegal)).
  destruct legal as [|m0 rest].
  - cbn [List.length Nat.eqb]. exists None, w.
    split; [reflexivity|]. split; [reflexivity | congruence].
  - cbn [List.length Nat.eqb].
    assert (Hne : m0 :: rest <> []) by discriminate.
    match goal with
    | |- exists r w', ?c w = _ /\ _ =>
        assert (Hret : Returns c
                         (fun r => exists m, r = Some m /\ In m (m0 :: rest)))
    end.
    { destruct (Z.max 1 (Z.min 5 (if level =? 0 then 1 else level)) =? 1).
      - eapply Returns_bind; [now apply pickLevel1Move_returns|].
        intros m Hm. apply Returns_ret. eauto.
      - destruct (Z.max 1 (Z.min 5 (if level =? 0 then 1 else level)) >=? 2).
        + now apply progressiveDeepeningSearch_returns.
        + now apply searchRoot_returns. }
    destruct (Hret w) as (r & w' & Hrun & Hr).
    exists r, w'. split; [exact Hrun|]. split; [congruence | auto].
Qed.

End FindBestMove.

Lemma findBestMove_returns_legal_move_witness :
  exists r w',
    AI.findBestMove lateClock (fun _ => O) 33 startingState 3 white (Some 1)
      world0
    = Ok (r, w')
    /\ (startingLegal = [] -> r = None)
    /\ (startingLegal <> [] -> exists m, r = Some m /\ In m startingLegal).
Proof.
  apply (findBestMove_returns_legal_move lateClock (fun _ => O) 33 startingState
           3 white (Some 1) startingLegal world0).
  - vm_compute. reflexivity.
  - vm_compute. apply le_n.
Defined.

(* ------------------------------------------------------------------ *)
(** ** [applyMove] returns on legal moves *)

Lemma analyzePosition_returns (st : RulesState) :
  epReadable (enPassantTarget st) -> exists a, analyzePosition st = Ok a.
Proof.
  intros Hep. unfold analyzePosition.
  destruct (generateLegalMoves_total st Hep) as (legal & -> & _).
  destruct (isInCheck_returns st None) as [c ->].
  cbn [rbind]. eauto.
Qed.

Lemma updateCastlingRights_returns (s : GameState.t) (m : Move) (f t : Z)
  (mp : option Piece) (c : option Color) :
  exists cr,
    GameState.updateCastlingRights s m f t mp c
    = Ok (GameState.set_castlingRights s cr).
Proof.
  unfold GameState.updateCastlingRights.
  destruct (GameState.optPiece_eqb mp wK), (GameState.optPiece_eqb mp bK);
    cbn; eexists; reflexivity.
Qed.

Lemma toSimpleSAN_returns (s : GameState.t) (m : Move) (mp : Piece) (cap : bool)
  (f t : Z) :
  algebraicToIndex (from m) = Ok f ->
  algebraicToIndex (to m) = Ok t ->
  epReadable (GameState.enPassantTarget s) ->
  exists san, GameState.toSimpleSAN s m (Some mp) cap = Ok san.
Proof.
  intros Hf Ht Hep. unfold GameState.toSimpleSAN, GameState.applyMoveInternalForSAN.
  rewrite Hf, Ht. cbn [rbind].
  match goal with
  | |- context [analyzePosition ?st] =>
      destruct (analyzePosition_returns st) as [a ->]; [exact Hep|]
  end.
  cbn [rbind]. eauto.
Qed.

Lemma applyMoveCore_returns (s : GameState.t) (m : Move) (f t : Z) (mp : Piece) :
  onBoard f -> onBoard t ->
  from m = indexToAlgebraic f ->
  to m = indexToAlgebraic t ->
  getB (GameState.board s) f = Some mp ->
  exists s1,
    GameState.applyMoveCore s m = Ok s1
    /\ epReadable (GameState.enPassantTarget s1).
Proof.
  intros Hf Ht Hfrom Hto Hmp.
  assert (Hfi : algebraicToIndex (from m) = Ok f)
    by (rewrite Hfrom; now apply algebraicToIndex_indexToAlgebraic).
  assert (Hti : algebraicToIndex (to m) = Ok t)
    by (rewrite Hto; now apply algebraicToIndex_indexToAlgebraic).
  unfold GameState.applyMoveCore. rewrite Hfi, Hti. cbn [rbind]. cbv zeta.
  rewrite Hmp.
  pose proof (onBoard_file_rank f Hf) as [_ Hfr].
  pose proof (onBoard_file_rank t Ht) as [Htf Htr].
  match goal with
  | |- context [GameState.updateCastlingRights ?S0 _ _ _ _ _] =>
      assert (Hep0 : epReadable (GameState.enPassantTarget S0));
      [|remember S0 as s0 eqn:Es0; clear Es0]
  end.
  { destruct (PieceType_eqb (ptype mp) P); [|exact I].
    unfold GameState.indexFR.
    destruct (Z.abs (t / 8 - f / 8) =? 2) eqn:Htwo; [|exact I].
    apply Z.eqb_eq in Htwo.
    cbn [GameState.enPassantTarget GameState.set_enPassantTarget].
    apply epReadable_onBoard. apply cell_onBoard; [|assumption].
    assert (0 <= (f / 8 + t / 8) / 2) by (apply Z.div_pos; lia).
    assert ((f / 8 + t / 8) / 2 < 8) by (apply Z.div_lt_upper_bound; lia).
    lia. }
  destruct (updateCastlingRights_returns s0 m f t (Some mp) (getColorOf (Some mp)))
    as [cr ->].
  cbn [rbind].
  match goal with
  | |- context [GameState.toSimpleSAN ?S1 _ _ ?cap] =>
      destruct (toSimpleSAN_returns S1 m mp cap f t Hfi Hti) as [san ->]
  end.
  { destruct (optColor_eqb (getColorOf (Some mp)) black); exact Hep0. }
  cbn [rbind]. eexists. split; [reflexivity|].
  unfold GameState.recordRepetitionKey.
  destruct (optColor_eqb (getColorOf (Some mp)) black); exact Hep0.
Qed.

Lemma applyMove_returns (s : GameState.t) (legal : list Move) (m : Move) :
  generateLegalMoves (GameState.asRulesState s) = Ok legal ->
  In m legal ->
  exists s', GameState.applyMove s m = Ok s'.
Proof.
  intros Hlegal Hin. unfold GameState.applyMove.
  destruct (GameState.isGameOver s) eqn:Hover; [eauto|].
  pose proof (generateLegalMoves_generated _ _ Hlegal) as Hgen.
  rewrite Forall_forall in Hgen.
  destruct (Hgen m Hin) as (f & t & Hf & Ht & Hfrom & Hto & Hocc & _).
  destruct (isSome_occupied _ Hocc) as [mp Hmp].
  destruct (applyMoveCore_returns s m f t mp Hf Ht Hfrom Hto Hmp)
    as (s1 & Hcore & Hep).
  rewrite Hcore. cbn [rbind].
  destruct (applyMoveCore_inv _ _ _ Hcore) as (_ & _ & _ & _ & _ & _ & Hr & _).
  unfold GameState.updateResult.
  rewrite (isGameOver_result _ _ Hr), Hover.
  destruct (analyzePosition_returns (GameState.asRulesState s1) Hep) as [a ->].
  cbn [rbind].
  repeat match goal with
         | |- context [if ?c then _ else _] => destruct c
         end; cbn [rbind]; eauto.
Qed.

(* ------------------------------------------------------------------ *)
(** ** C3: the result after a move *)



(* ------------------------------------------------------------------ *)
(** ** C7: move requests *)

Lemma matchesRequest_agrees (req : Game.MoveRequest) (m : Move) :
  Game.matchesRequest req m = true <-> agrees req m.
Proof.
  unfold Game.matchesRequest, agrees, requestedPromotion, Game.promotionIs.
  rewrite !andb_true_iff, !String.eqb_eq, orb_true_iff, negb_true_iff.
  split.
  - intros [[Hf Ht] Hp]. repeat split; try assumption.
    intros p Hreq.
    destruct (truthyStr (Game.req_promotion req)); [|discriminate].
    destruct Hp as [Hp|Hp]; [discriminate|].
    rewrite Hreq in Hp. cbn in Hp.
    destruct (promotion m) as [ty|]; [|discriminate].
    apply String.eqb_eq in Hp. cbn. now rewrite Hp.
  - intros (Hf & Ht & Hp). repeat split; try assumption.
    destruct (truthyStr (Game.req_promotion req)) eqn:E; [right|now left].
    destruct (Game.req_promotion req) as [p|]; [|discriminate].
    specialize (Hp p eq_refl). cbn.
    destruct (promotion m) as [ty|]; [|discriminate].
    cbn in Hp. inversion Hp. apply String.eqb_refl.
Qed.

Lemma find_first {A} (f : A -> bool) (l : list A) (x : A) :
  find f l = Some x ->
  f x = true /\ exists l1 l2, l = l1 ++ x :: l2 /\ forall y, In y l1 -> f y = false.
Proof.
  induction l as [|a l IH]; [discriminate|]. simpl.
  destruct (f a) eqn:E.
  - intros H. inversion H; subst. split; [assumption|].
    exists [], l. split; [reflexivity | intros y []].
  - intros H. destruct (IH H) as (Hx & l1 & l2 & -> & Hl1).
    split; [assumption|]. exists (a :: l1), l2. split; [reflexivity|].
    intros y [->|Hy]; auto.
Qed.

(** C7, as stated, fails in both directions.  A request a7-a8 that names
    no promotion piece has no exact match among the legal moves, all of
    them promotions, and is accepted as the queen promotion; a request
    e2-e4 that names a promotion piece has an exact match, the plain pawn
    move, and is rejected. *)
Lemma handlePlayerMove_exact_match_counterexample :
  (let req := Game.mkRequest "a7" "a8" None in
   forallb (fun m => negb (exactMatchb req m)) (legalOf promotionGame) = true
   /\ accepted (Game.handlePlayerMove promotionGame req)
      = Some (createPromotionMove "a7" "a8" (Some wP) Q None))
  /\
  (let g := Game.mk startingState 3 in
   let req := Game.mkRequest "e2" "e4" (Some "Q") in
   existsb (exactMatchb req) (legalOf g) = true
   /\ Game.handlePlayerMove g req = Ok (g, Game.Failure "Illegal move")).
Proof. vm_compute. repeat split. Qed.

(** C7, amended: while the game is ongoing and it is the player's turn,
    [handlePlayerMove] re-derives the legal moves and serves the request
    with the first legal move that has the same from and to squares and,
    when the request names a promotion piece, that promotion piece; when
    no legal move does, it answers with an error and the game is
    unchanged. *)
Theorem handlePlayerMove_first_agreeing_move
  (g : Game.t) (req : Game.MoveRequest) (legal : list Move) :
  Game.isGameOver g = false ->
  Game.getCurrentTurn g = Game.getPlayerColor g ->
  generateLegalMoves (GameState.asRulesState (Game.state g)) = Ok legal ->
  ((forall m, In m legal -> ~ agrees req m) ->
   Game.handlePlayerMove g req = Ok (g, Game.Failure "Illegal move"))
  /\
  (forall m, In m legal -> agrees req m ->
     exists validMove before after s',
       legal = before ++ validMove :: after
       /\ agrees req validMove
       /\ (forall x, In x before -> ~ agrees req x)
       /\ GameState.applyMove (Game.state g) validMove = Ok s'
       /\ Game.handlePlayerMove g req
          = Ok (Game.notify (Game.mk s' (Game.difficulty g)),
                Game.Success validMove)).
Proof.
  intros Hover Hturn Hlegal.
  unfold Game.handlePlayerMove. rewrite Hover, Hturn, Color_eqb_refl, Hlegal.
  cbn [negb rbind]. split.
  - intros Hnone.
    destruct (find (Game.matchesRequest req) legal) as [v|] eqn:Hfind;
      [|reflexivity].
    apply find_some in Hfind. destruct Hfind as [Hin Hm].
    apply matchesRequest_agrees in Hm. now apply Hnone in Hin.
  - intros m Hin Hag.
    destruct (find (Game.matchesRequest req) legal) as [v|] eqn:Hfind.
    + destruct (find_first _ _ _ Hfind) as (Hv & l1 & l2 & Hsplit & Hl1).
      assert (Hvin : In v legal) by (apply find_some in Hfind; tauto).
      destruct (applyMove_returns _ _ _ Hlegal Hvin) as [s' Hs'].
      exists v, l1, l2, s'.
      split; [exact Hsplit|].
      split; [now apply matchesRequest_agrees|].
      split.
      * intros x Hx Hagx. apply matchesRequest_agrees in Hagx.
        rewrite (Hl1 x Hx) in Hagx. discriminate.
      * split; [exact Hs'|]. now rewrite Hs'.
    + apply matchesRequest_agrees in Hag.
      rewrite (find_none _ _ Hfind m Hin) in Hag. discriminate.
Qed.

Lemma handlePlayerMove_first_agreeing_move_witness :
  let g := promotionGame in
  let req := Game.mkRequest "a7" "a8" None in
  ((forall m, In m (legalOf g) -> ~ agrees req m) ->
   Game.handlePlayerMove g req = Ok (g, Game.Failure "Illegal move"))
  /\
  (forall m, In m (legalOf g) -> agrees req m ->
     exists validMove before after s',
       legalOf g = before ++ validMove :: after
       /\ agrees req validMove
       /\ (forall x, In x before -> ~ agrees req x)
       /\ GameState.applyMove (Game.state g) validMove = Ok s'
       /\ Game.handlePlayerMove g req
          = Ok (Game.notify (Game.mk s' (Game.difficulty g)),
                Game.Success validMove)).
Proof.
  intros g req.
  apply (handlePlayerMove_first_agreeing_move g req (legalOf g));
    vm_compute; reflexivity.
Defined.

(* ------------------------------------------------------------------ *)
(** ** The bounded loops lose nothing *)

Lemma offBoard_true (x y : Z) :
  offBoard x y -> (x <? 0) || (x >? 7) || (y <? 0) || (y >? 7) = true.
Proof.
  unfold offBoard. intros H.
  rewrite !orb_true_iff, !Z.ltb_lt, !Z.gtb_ltb, !Z.ltb_lt. lia.
Qed.

(** A ray that is off the board after [n + 1] steps generates the same
    moves whatever bound above [n] the loop is given. *)
Lemma slideRay_more_fuel (b : Board) (fromIndex : Z) (fromSq : string)
  (color : Color) (df dr : Z) (n : nat) :
  forall file rank k,
    offBoard (file + Z.of_nat (S n) * df) (rank + Z.of_nat (S n) * dr) ->
    slideRay b fromIndex fromSq color df dr file rank (S n + k)
    = slideRay b fromIndex fromSq color df dr file rank (S n).
Proof.
  induction n as [|n IH]; intros file rank k Hoff.
  - cbn [Nat.add slideRay].
    replace (file + Z.of_nat 1 * df) with (file + df) in Hoff by lia.
    replace (rank + Z.of_nat 1 * dr) with (rank + dr) in Hoff by lia.
    now rewrite (offBoard_true _ _ Hoff).
  - change (S (S n) + k)%nat with (S (S n + k)).
    cbn [slideRay].
    destruct ((file + df <? 0) || (file + df >? 7) || (rank + dr <? 0)
              || (rank + dr >? 7)); [reflexivity|].
    destruct (negb (isSome (getB b ((rank + dr) * 8 + (file + df)))));
      [|reflexivity].
    f_equal. apply IH.
    replace (file + df + Z.of_nat (S n) * df)
      with (file + Z.of_nat (S (S n)) * df) by lia.
    replace (rank + dr + Z.of_nat (S n) * dr)
      with (rank + Z.of_nat (S (S n)) * dr) by lia.
    exact Hoff.
Qed.

(** From a board cell, along any of the eight directions, eight
    iterations are all the [while (true)] loop can make. *)
Lemma slideRay_bound_enough (b : Board) (fromIndex : Z) (fromSq : string)
  (color : Color) (d : Z * Z) (file rank : Z) (k : nat) :
  In d QUEEN_DIRS ->
  0 <= file <= 7 -> 0 <= rank <= 7 ->
  slideRay b fromIndex fromSq color (fst d) (snd d) file rank (8 + k)
  = slideRay b fromIndex fromSq color (fst d) (snd d) file rank 8.
Proof.
  intros Hd Hfile Hrank.
  apply (slideRay_more_fuel b fromIndex fromSq color (fst d) (snd d) 7).
  unfold offBoard.
  repeat (destruct Hd as [<-|Hd]; [cbn [fst snd]; lia|]). destruct Hd.
Qed.

(** The attack walk: with the target on the board, a walk that is off the
    board after [n] more steps gives the same answer whatever bound above
    [n] it is given. *)
Lemma rayReaches_more_fuel (b : Board) (stepF stepR tf tr : Z) (n : nat) :
  0 <= tf <= 7 -> 0 <= tr <= 7 ->
  forall f r k,
    offBoard (f + Z.of_nat n * stepF) (r + Z.of_nat n * stepR) ->
    rayReaches b stepF stepR tf tr f r (S n + k)
    = rayReaches b stepF stepR tf tr f r (S n).
Proof.
  intros Htf Htr. induction n as [|n IH]; intros f r k Hoff.
  - cbn [Nat.add rayReaches].
    replace (f + Z.of_nat 0 * stepF) with f in Hoff by lia.
    replace (r + Z.of_nat 0 * stepR) with r in Hoff by lia.
    assert (Hne : (f =? tf) && (r =? tr) = false).
    { apply andb_false_iff. unfold offBoard in Hoff.
      rewrite !Z.eqb_neq. lia. }
    rewrite Hne. cbn [negb]. now rewrite (offBoard_true _ _ Hoff).
  - change (S (S n) + k)%nat with (S (S n + k)).
    cbn [rayReaches].
    destruct (negb ((f =? tf) && (r =? tr))); [|reflexivity].
    destruct ((f <? 0) || (f >? 7) || (r <? 0) || (r >? 7)); [reflexivity|].
    destruct (isSome (getB b (r * 8 + f))); [reflexivity|].
    apply IH.
    replace (f + stepF + Z.of_nat n * stepF)
      with (f + Z.of_nat (S n) * stepF) by lia.
    replace (r + stepR + Z.of_nat n * stepR)
      with (r + Z.of_nat (S n) * stepR) by lia.
    exact Hoff.
Qed.

(** From a board cell, with unit steps that are not both 0 and the target
    on the board, eight iterations are all the walk can make. *)
Lemma rayReaches_bound_enough (b : Board) (stepF stepR tf tr file rank : Z)
  (k : nat) :
  0 <= tf <= 7 -> 0 <= tr <= 7 ->
  0 <= file <= 7 -> 0 <= rank <= 7 ->
  -1 <= stepF <= 1 -> -1 <= stepR <= 1 ->
  stepF <> 0 \/ stepR <> 0 ->
  rayReaches b stepF stepR tf tr (file + stepF) (rank + stepR) (8 + k)
  = rayReaches b stepF stepR tf tr (file + stepF) (rank + stepR) 8.
Proof.
  intros Htf Htr Hfile Hrank HsF HsR Hstep.
  apply (rayReaches_more_fuel b stepF stepR tf tr 7 Htf Htr).
  unfold offBoard. lia.
Qed.

Lemma bind_inv {A B} (c : AI.Search A) (k : A -> AI.Search B) (w : AI.World)
  (x : B * AI.World) :
  AI.bind c k w = Ok x -> exists a w', c w = Ok (a, w') /\ k a w' = Ok x.
Proof.
  unfold AI.bind. destruct (c w) as [[a w']|]; [eauto | discriminate].
Qed.

Section MoreFuel.
Variable clock : nat -> Z.

Lemma quiescenceLoop_more
  (rec rec' : AI.SearchState -> Num -> Num -> Z -> AI.Search (option Num))
  (st : AI.SearchState) (root : Color) (timeout startTime : option Z)
  (beta : Num) :
  (forall next a b sp w x, rec next a b sp w = Ok x -> rec' next a b sp w = Ok x) ->
  forall limited i value alpha w x,
    AI.quiescenceLoop clock rec st root timeout startTime beta limited i value
      alpha w = Ok x ->
    AI.quiescenceLoop clock rec' st root timeout startTime beta limited i value
      alpha w = Ok x.
Proof.
  intros Hrec. induction limited as [|m limited IH]; intros i value alpha w x H;
    cbn [AI.quiescenceLoop] in *; [exact H|].
  apply bind_inv in H. destruct H as (stop & w1 & Hc & H).
  rewrite (bind_ok _ Hc). destruct stop; [exact H|].
  apply bind_inv in H. destruct H as (next & w2 & Hn & H).
  rewrite (bind_ok _ Hn).
  apply bind_inv in H. destruct H as (r & w3 & Hr & H).
  rewrite (bind_ok _ (Hrec _ _ _ _ _ _ Hr)).
  cbv beta iota in *.
  match goal with
  | |- context [if ?c then AI.ret _ else _] => destruct c
  end; [exact H | now apply IH].
Qed.

(** A call of [quiescence] that returns within its bound returns the same
    with a larger bound. *)
Lemma quiescence_more_fuel (fuel : nat) :
  forall st alpha beta root standPat timeout startTime w x,
    AI.quiescence clock fuel st alpha beta root standPat timeout startTime w
    = Ok x ->
    AI.quiescence clock (S fuel) st alpha beta root standPat timeout startTime w
    = Ok x.
Proof.
  induction fuel as [|fuel IH];
    intros st alpha beta root standPat timeout startTime w x H.
  - discriminate.
  - remember (S fuel) as fuel1 eqn:E. cbn [AI.quiescence]. subst fuel1.
    cbn [AI.quiescence] in H.
    apply bind_inv in H. destruct H as (stop & w1 & Hc & H).
    rewrite (bind_ok _ Hc). destruct stop; [exact H|].
    match goal with
    | |- context [if ?c then AI.ret _ else _] => destruct c
    end; [exact H|].
    apply bind_inv in H. destruct H as (allMoves & w2 & Hl & H).
    rewrite (bind_ok _ Hl).
    apply bind_inv in H. destruct H as (v & w3 & Hv & H).
    apply (quiescenceLoop_more _
             (fun next a b sp =>
                AI.quiescence clock (S fuel) next a b root sp timeout startTime))
      in Hv; [|intros next a b sp w' x'; apply IH].
    now rewrite (bind_ok _ Hv).
Qed.

Lemma minimaxLeaf_more_fuel (fuel : nat) (st : AI.SearchState) (depth : nat)
  (legalMoves : list Move) (alpha beta : Num) (root : Color) (level : Z)
  (timeout startTime : option Z) (w : AI.World) (x : option Num * AI.World) :
  AI.minimaxLeaf clock fuel st depth legalMoves alpha beta root level timeout
    startTime w = Ok x ->
  AI.minimaxLeaf clock (S fuel) st depth legalMoves alpha beta root level timeout
    startTime w = Ok x.
Proof.
  unfold AI.minimaxLeaf. intros H.
  apply bind_inv in H. destruct H as (baseScore & w1 & Hb & H).
  rewrite (bind_ok _ Hb).
  destruct ((Z.of_nat depth <=? 0) && (level >=? 4)); [|exact H].
  apply bind_inv in H. destruct H as (q & w2 & Hq & H).
  now rewrite (bind_ok _ (quiescence_more_fuel _ _ _ _ _ _ _ _ _ _ Hq)).
Qed.

Lemma maxLoop_more
  (rec rec' : AI.SearchState -> Num -> Num -> bool -> AI.Search (option Num))
  (st : AI.SearchState) (timeout startTime : option Z) :
  (forall next a b isMax w x,
      rec next a b isMax w = Ok x -> rec' next a b isMax w = Ok x) ->
  forall ordered i value alpha beta w x,
    AI.maxLoop clock rec st timeout startTime ordered i value alpha beta w = Ok x ->
    AI.maxLoop clock rec' st timeout startTime ordered i value alpha beta w = Ok x.
Proof.
  intros Hrec. induction ordered as [|m ordered IH];
    intros i value alpha beta w x H; cbn [AI.maxLoop] in *; [exact H|].
  apply bind_inv in H. destruct H as (stop & w1 & Hc & H).
  rewrite (bind_ok _ Hc). destruct stop; [exact H|].
  apply bind_inv in H. destruct H as (next & w2 & Hn & H).
  rewrite (bind_ok _ Hn).
  apply bind_inv in H. destruct H as (child & w3 & Hr & H).
  rewrite (bind_ok _ (Hrec _ _ _ _ _ _ Hr)).
  destruct child as [child|]; [|exact H]. cbv zeta in *.
  match goal with
  | |- context [if ?c then AI.ret _ else _] => destruct c
  end; [exact H | now apply IH].
Qed.

Lemma minLoop_more
  (rec rec' : AI.SearchState -> Num -> Num -> bool -> AI.Search (option Num))
  (st : AI.SearchState) (timeout startTime : option Z) :
  (forall next a b isMax w x,
      rec next a b isMax w = Ok x -> rec' next a b isMax w = Ok x) ->
  forall ordered i value alpha beta w x,
    AI.minLoop clock rec st timeout startTime ordered i value alpha beta w = Ok x ->
    AI.minLoop clock rec' st timeout startTime ordered i value alpha beta w = Ok x.
Proof.
  intros Hrec. induction ordered as [|m ordered IH];
    intros i value alpha beta w x H; cbn [AI.minLoop] in *; [exact H|].
  apply bind_inv in H. destruct H as (stop & w1 & Hc & H).
  rewrite (bind_ok _ Hc). destruct stop; [exact H|].
  apply bind_inv in H. destruct H as (next & w2 & Hn & H).
  rewrite (bind_ok _ Hn).
  apply bind_inv in H. destruct H as (child & w3 & Hr & H).
  rewrite (bind_ok _ (Hrec _ _ _ _ _ _ Hr)).
  destruct child as [child|]; [|exact H]. cbv zeta in *.
  match goal with
  | |- context [if ?c then AI.ret _ else _] => destruct c
  end; [exact H | now apply IH].
Qed.

(** A call of [minimax] that returns within the bound given to
    [quiescence] returns the same with a larger bound. *)
Lemma minimax_more_fuel (fuel depth : nat) :
  forall st alpha beta root isMax level timeout startTime w x,
    AI.minimax clock fuel depth st alpha beta root isMax level timeout startTime
      w = Ok x ->
    AI.minimax clock (S fuel) depth st alpha beta root isMax level timeout
      startTime w = Ok x.
Proof.
  induction depth as [|depth IH];
    intros st alpha beta root isMax level timeout startTime w x H;
    cbn [AI.minimax] in *.
  - apply bind_inv in H. destruct H as (stop & w1 & Hc & H).
    rewrite (bind_ok _ Hc). destruct stop; [exact H|].
    apply bind_inv in H. destruct H as (legalMoves & w2 & Hl & H).
    rewrite (bind_ok _ Hl). now apply minimaxLeaf_more_fuel.
  - apply bind_inv in H. destruct H as (stop & w1 & Hc & H).
    rewrite (bind_ok _ Hc). destruct stop; [exact H|].
    apply bind_inv in H. destruct H as (legalMoves & w2 & Hl & H).
    rewrite (bind_ok _ Hl).
    destruct (List.length legalMoves =? 0)%nat;
      [now apply minimaxLeaf_more_fuel|].
    cbv zeta in *.
    destruct isMax;
      [eapply maxLoop_more | eapply minLoop_more]; try exact H;
      intros next a b isMax' w' x'; apply IH.
Qed.

End MoreFuel.

(* ------------------------------------------------------------------ *)
(** ** Board.js: squares, indices and the board map *)

Lemma fileChar_of_index (c : ascii) (f : Z) :
  indexOfFrom FILES c 0 = f -> 0 <= f ->
  fileName f = String c "" /\ 0 <= f <= 7.
Proof.
  destruct c as [[] [] [] [] [] [] [] []]; cbn; intros <- H; try lia;
    split; (reflexivity || lia).
Qed.

Lemma rankChar_of_number (c : ascii) (n : Z) :
  NumberOfChar c = Some n -> 0 <= n - 1 <= 7 ->
  Z_to_string (n - 1 + 1) = String c "".
Proof.
  destruct c as [[] [] [] [] [] [] [] []]; cbn; intros H Hn;
    try discriminate; injection H as <-; try lia; reflexivity.
Qed.

Lemma algebraicToIndex_ok (sq : string) (i : Z) :
  algebraicToIndex sq = Ok i -> onBoard i /\ sq = indexToAlgebraic i.
Proof.
  unfold algebraicToIndex.
  destruct sq as [|c0 [|c1 [|c2 rest]]]; try discriminate.
  remember (indexOfFrom FILES c0 0) as file eqn:Efile. symmetry in Efile.
  destruct (NumberOfChar c1) as [n|] eqn:Hn;
    [|destruct (file <? 0); discriminate].
  destruct ((file <? 0) || (n - 1 <? 0) || (n - 1 >? 7)) eqn:Hbad;
    [discriminate|].
  rewrite !orb_false_iff, !Z.ltb_ge, Z.gtb_ltb, Z.ltb_ge in Hbad.
  destruct Hbad as [[Hf Hr0] Hr7].
  intros H. injection H as <-.
  destruct (fileChar_of_index c0 file Efile Hf) as [Hname Hfile].
  pose proof (rankChar_of_number c1 n Hn ltac:(lia)) as Hrank.
  unfold frToIndex. split; [apply cell_onBoard; lia|].
  unfold indexToAlgebraic, indexToFR.
  destruct (cell_file_rank (n - 1) file) as [-> ->]; try lia.
  rewrite Hname, Hrank. reflexivity.
Qed.

(** X1: The two converters of Board.js are inverse to each other: a string
    converts to the index [i] exactly when [i] is a board cell and the
    string is the name of [i]. *)
Theorem algebraicToIndex_inverse (sq : string) (i : Z) :
  algebraicToIndex sq = Ok i <-> onBoard i /\ sq = indexToAlgebraic i.
Proof.
  split.
  - apply algebraicToIndex_ok.
  - intros [Hi ->]. now apply algebraicToIndex_indexToAlgebraic.
Qed.

Lemma In_FILES_index (c : ascii) :
  In c FILES <-> 0 <= indexOfFrom FILES c 0.
Proof.
  split.
  - intros H. cbn in H.
    repeat (destruct H as [<-|H]; [cbn; lia|]). contradiction.
  - destruct c as [[] [] [] [] [] [] [] []]; cbn; intros H; try lia;
      repeat (first [left; reflexivity | right]).
Qed.

(** X2: What [algebraicToIndex] does with a string that names no square: it
    throws [Invalid square: sq], except for a file letter followed by a
    character that [Number] reads as NaN, for which it throws nothing and
    returns NaN. *)
Theorem algebraicToIndex_failure (sq : string) :
  (algebraicToIndex sq = Err NaNIndex <->
   exists f c, sq = String f (String c "") /\ In f FILES
               /\ NumberOfChar c = None)
  /\ (forall e, algebraicToIndex sq = Err e ->
                e = InvalidSquare sq \/ e = NaNIndex).
Proof.
  split.
  - split.
    + unfold algebraicToIndex.
      destruct sq as [|c0 [|c1 [|c2 rest]]]; try discriminate.
      destruct (NumberOfChar c1) as [n|] eqn:Hn.
      * destruct ((indexOfFrom FILES c0 0 <? 0) || (n - 1 <? 0) || (n - 1 >? 7));
          discriminate.
      * destruct (indexOfFrom FILES c0 0 <? 0) eqn:Hf; [discriminate|].
        intros _. exists c0, c1. split; [reflexivity|]. split; [|exact Hn].
        apply In_FILES_index. now apply Z.ltb_ge in Hf.
    + intros (f & c & -> & Hf & Hc). unfold algebraicToIndex. rewrite Hc.
      apply In_FILES_index in Hf.
      apply Z.ltb_ge in Hf. now rewrite Hf.
  - intros e. unfold algebraicToIndex.
    destruct sq as [|c0 [|c1 [|c2 rest]]];
      try (intros H; injection H as <-; now left).
    destruct (NumberOfChar c1) as [n|].
    + destruct ((indexOfFrom FILES c0 0 <? 0) || (n - 1 <? 0) || (n - 1 >? 7));
        [|discriminate].
      intros H; injection H as <-; now left.
    + destruct (indexOfFrom FILES c0 0 <? 0);
        intros H; injection H as <-; [now left | now right].
Qed.

(** X3: [frToIndex] and [indexToFR] are inverse on the files 0..7 and the
    ranks and indices from 0 upwards. *)
Theorem frToIndex_indexToFR (file rank index : Z) :
  0 <= file <= 7 -> 0 <= rank -> 0 <= index ->
  indexToFR (frToIndex file rank) = (file, rank)
  /\ frToIndex (fst (indexToFR index)) (snd (indexToFR index)) = index.
Proof.
  intros Hf Hr Hi. unfold indexToFR, frToIndex. cbn [fst snd]. split.
  - destruct (cell_file_rank rank file Hr Hf) as [-> ->]. reflexivity.
  - rewrite Z.rem_mod_nonneg by lia.
    pose proof (Z.div_mod index 8 ltac:(lia)). lia.
Qed.

Lemma frToIndex_indexToFR_witness :
  indexToFR (frToIndex 4 3) = (4, 3)
  /\ frToIndex (fst (indexToFR 28)) (snd (indexToFR 28)) = 28.
Proof. apply (frToIndex_indexToFR 4 3 28); lia. Defined.

Lemma indexToAlgebraic_injective (i j : Z) :
  onBoard i -> onBoard j -> indexToAlgebraic i = indexToAlgebraic j -> i = j.
Proof.
  intros Hi Hj E.
  pose proof (algebraicToIndex_indexToAlgebraic i Hi) as H1.
  pose proof (algebraicToIndex_indexToAlgebraic j Hj) as H2.
  rewrite E in H1. congruence.
Qed.

Lemma objGet_objSet_same {V} (o : JsObject V) (k : string) (v : V) :
  objGet (objSet o k v) k = Some v.
Proof.
  induction o as [|[k' v'] o IH]; cbn.
  - now rewrite String.eqb_refl.
  - destruct (String.eqb k' k) eqn:E; cbn; rewrite E; [reflexivity | exact IH].
Qed.

Lemma objGet_objSet_other {V} (o : JsObject V) (k k' : string) (v : V) :
  k <> k' -> objGet (objSet o k v) k' = objGet o k'.
Proof.
  intros Hne. induction o as [|[k0 v0] o IH]; cbn.
  - apply String.eqb_neq in Hne. now rewrite Hne.
  - destruct (String.eqb k0 k) eqn:E; cbn.
    + apply String.eqb_eq in E. subst k0.
      apply String.eqb_neq in Hne. now rewrite Hne.
    + destruct (String.eqb k0 k'); [reflexivity | exact IH].
Qed.

Lemma objSet_keys_fresh {V} (o : JsObject V) (k : string) (v : V) :
  ~ In k (map fst o) -> map fst (objSet o k v) = map fst o ++ [k].
Proof.
  induction o as [|[k' v'] o IH]; cbn; intros Hn; [reflexivity|].
  destruct (String.eqb k' k) eqn:E.
  - apply String.eqb_eq in E. tauto.
  - cbn. f_equal. apply IH. tauto.
Qed.

Lemma boardToMapLoop_spec (board : Board) (n : nat) :
  forall i m,
    0 <= i -> i + Z.of_nat n <= 64 ->
    map fst m
    = map (fun k => indexToAlgebraic (Z.of_nat k)) (seq 0 (Z.to_nat i)) ->
    (forall j, 0 <= j < i ->
               objGet m (indexToAlgebraic j) = Some (getB board j)) ->
    map fst (boardToMapLoop board i n m)
    = map (fun k => indexToAlgebraic (Z.of_nat k))
          (seq 0 (Z.to_nat (i + Z.of_nat n)))
    /\ (forall j, 0 <= j < i + Z.of_nat n ->
                  objGet (boardToMapLoop board i n m) (indexToAlgebraic j)
                  = Some (getB board j)).
Proof.
  induction n as [|n IH]; intros i m Hi Hn Hkeys Hget; cbn [boardToMapLoop].
  - rewrite Z.add_0_r. split; [exact Hkeys|].
    intros j Hj. apply Hget. lia.
  - assert (Hfresh : ~ In (indexToAlgebraic i) (map fst m)).
    { rewrite Hkeys. intros Hin. apply in_map_iff in Hin.
      destruct Hin as (k & Hk & Hin). apply in_seq in Hin.
      apply indexToAlgebraic_injective in Hk; unfold onBoard; lia. }
    replace (i + Z.of_nat (S n)) with (i + 1 + Z.of_nat n) by lia.
    apply IH; [lia | lia | |].
    + rewrite objSet_keys_fresh by assumption.
      rewrite Hkeys.
      replace (Z.to_nat (i + 1)) with (S (Z.to_nat i)) by lia.
      rewrite seq_S, map_app. cbn [map Nat.add].
      now rewrite Z2Nat.id by lia.
    + intros j Hj. destruct (Z.eq_dec j i) as [->|Hne].
      * apply objGet_objSet_same.
      * rewrite objGet_objSet_other; [apply Hget; lia|].
        intros E. apply indexToAlgebraic_injective in E; unfold onBoard; lia.
Qed.

(** X4: The board map handed to the interface has one entry per square, named
    a1, b1, ... h8 in this order, and the entry of a square is the content
    of its cell. *)
Theorem getBoard_lookup (g : Game.t) (i : Z) :
  onBoard i ->
  objGet (Game.getBoard g) (indexToAlgebraic i)
  = Some (getB (GameState.board (Game.state g)) i)
  /\ map fst (Game.getBoard g)
     = map (fun k => indexToAlgebraic (Z.of_nat k)) (seq 0 64).
Proof.
  intros Hi.
  unfold Game.getBoard, GameState.getBoardMap, boardToMap.
  destruct (boardToMapLoop_spec (GameState.board (Game.state g)) 64 0 [])
    as [Hkeys Hget]; [lia | simpl; lia | reflexivity | intros j Hj; lia |].
  split; [apply Hget; unfold onBoard in Hi; simpl; lia | exact Hkeys].
Qed.

Lemma getBoard_lookup_witness :
  objGet (Game.getBoard (Game.mk startingState 3)) (indexToAlgebraic 4)
  = Some (getB (GameState.board (Game.state (Game.mk startingState 3))) 4)
  /\ map fst (Game.getBoard (Game.mk startingState 3))
     = map (fun k => indexToAlgebraic (Z.of_nat k)) (seq 0 64).
Proof. apply (getBoard_lookup (Game.mk startingState 3) 4). unfold onBoard. lia. Defined.

(* ------------------------------------------------------------------ *)
(** ** Evaluator.js: the evaluation of the mirrored position *)

Lemma evaluateLoop_sum (b : Board) (c : Color) (n : nat) :
  forall i a,
    Evaluator.evaluateLoop b c i n a
    = a + fold_right Z.add 0
            (map (fun k => Evaluator.pieceScoreAt b c (i + Z.of_nat k)) (seq 0 n)).
Proof.
  induction n as [|n IH]; intros i a; cbn [Evaluator.evaluateLoop].
  - cbn. lia.
  - rewrite IH. cbn [seq map fold_right]. rewrite <- seq_shift, map_map.
    rewrite Z.add_0_r.
    replace (map (fun k => Evaluator.pieceScoreAt b c (i + Z.of_nat (S k))) (seq 0 n))
      with (map (fun k => Evaluator.pieceScoreAt b c (i + 1 + Z.of_nat k)) (seq 0 n)).
    + lia.
    + apply map_ext. intros k. f_equal. lia.
Qed.

Lemma pstIndex_black_onBoard (k : Z) :
  onBoard k ->
  onBoard (Evaluator.pstIndex k black)
  /\ Evaluator.pstIndex (Evaluator.pstIndex k black) black = k.
Proof.
  intros Hk. unfold Evaluator.pstIndex.
  pose proof (onBoard_file_rank k Hk) as [Hfile Hrank].
  split; [apply cell_onBoard; lia|].
  destruct (cell_file_rank (7 - k / 8) (Z.rem k 8)) as [-> ->]; try lia.
  rewrite Z.rem_mod_nonneg in * by (unfold onBoard in Hk; lia).
  pose proof (Z.div_mod k 8 ltac:(lia)). lia.
Qed.

Lemma getB_mirrorBoard (b : Board) (k : Z) :
  onBoard k ->
  getB (mirrorBoard b) k = flipPiece (getB b (Evaluator.pstIndex k black)).
Proof.
  intros Hk. unfold getB at 1, mirrorBoard.
  assert (E : (k <? 0) = false) by (apply Z.ltb_ge; unfold onBoard in Hk; lia).
  rewrite E.
  set (g := fun j : nat => flipPiece (getB b (Evaluator.pstIndex (Z.of_nat j) black))).
  rewrite (nth_indep _ None (g O))
    by (rewrite length_map, length_seq; unfold onBoard in Hk; lia).
  rewrite map_nth, seq_nth by (unfold onBoard in Hk; lia).
  unfold g. cbn [Nat.add]. rewrite Z2Nat.id by (unfold onBoard in Hk; lia).
  reflexivity.
Qed.

Lemma pieceScoreAt_mirror (b : Board) (c : Color) (k : Z) :
  onBoard k ->
  Evaluator.pieceScoreAt (mirrorBoard b) (oppositeColor c) k
  = Evaluator.pieceScoreAt b c (Evaluator.pstIndex k black).
Proof.
  intros Hk. unfold Evaluator.pieceScoreAt.
  rewrite getB_mirrorBoard by assumption.
  destruct (getB b (Evaluator.pstIndex k black)) as [p|]; [|reflexivity].
  cbn [flipPiece option_map pcolor ptype].
  destruct (pstIndex_black_onBoard k Hk) as [_ Hinv].
  destruct (pcolor p), c; cbn [oppositeColor Color_eqb];
    try rewrite Hinv; reflexivity.
Qed.

Lemma mirrored_sum (f : Z -> Z) :
  fold_right Z.add 0
    (map (fun k => f (Evaluator.pstIndex (0 + Z.of_nat k) black)) (seq 0 64))
  = fold_right Z.add 0 (map (fun k => f (0 + Z.of_nat k)) (seq 0 64)).
Proof. cbn. lia. Qed.

(** X5: The evaluation does not favour a side: the position seen from the
    other side (ranks reversed, colours exchanged) gets, for the other
    colour, the score the position gets for the colour. *)
Theorem evaluate_mirror (b : Board) (c : Color) :
  Evaluator.evaluate (mirrorBoard b) (oppositeColor c) = Evaluator.evaluate b c.
Proof.
  unfold Evaluator.evaluate. rewrite !evaluateLoop_sum.
  rewrite <- (mirrored_sum (Evaluator.pieceScoreAt b c)).
  f_equal. f_equal. apply map_ext_in. intros k Hk. apply in_seq in Hk.
  apply pieceScoreAt_mirror. unfold onBoard. lia.
Qed.

(* ------------------------------------------------------------------ *)
(** ** AI.js: the fast converters *)

(** X6: On the squares of the board the converters of the search agree with
    the converters of Board.js. *)
Theorem fast_converters_agree (sq : string) (i : Z) :
  algebraicToIndex sq = Ok i ->
  AI.algebraicToIndexFast sq = Ok i /\ AI.indexToAlgebraicFast i = Ok sq.
Proof.
  intros H. apply algebraicToIndex_ok in H. destruct H as [Hi ->].
  split.
  - now apply algebraicToIndexFast_indexToAlgebraic.
  - now apply indexToAlgebraicFast_onBoard.
Qed.

Lemma fast_converters_agree_witness :
  AI.algebraicToIndexFast "e4" = Ok 28 /\ AI.indexToAlgebraicFast 28 = Ok "e4".
Proof. apply (fast_converters_agree "e4" 28). reflexivity. Defined.

(* ------------------------------------------------------------------ *)
(** ** Rules.js: what a generated move says about the position *)

Lemma color_not_eqb (a b : Color) :
  Color_eqb a b = false -> a = oppositeColor b.
Proof. destruct a, b; cbn; congruence. Qed.

Lemma oppositeColor_neq (c : Color) : oppositeColor c <> c.
Proof. destruct c; discriminate. Qed.

Lemma Piece_eta (p : Piece) : mkPiece (pcolor p) (ptype p) = p.
Proof. now destruct p. Qed.

Lemma Ok_inj {A} (a b : A) : Ok a = Ok b -> a = b.
Proof. congruence. Qed.

Ltac ok_subst :=
  let H := fresh in intros H; apply Ok_inj in H; subst.

Ltac move_fields :=
  cbn [from to piece captured promotion isEnPassant isCastleKingSide
       isCastleQueenSide].

Lemma wf_ordinary (st : RulesState) (f t : Z) (p : Piece)
  (promo : option PieceType) :
  onBoard f -> onBoard t ->
  getB (board st) f = Some p -> pcolor p = activeColor st ->
  (forall q, getB (board st) t = Some q ->
             pcolor q = oppositeColor (activeColor st)) ->
  (promo <> None <-> ptype p = P /\ t / 8 = lastRank (activeColor st)) ->
  (forall ty, promo = Some ty -> In ty PROMOTIONS) ->
  (ptype p = P ->
   t / 8 = f / 8 + pawnDir (activeColor st)
   \/ t = f + 16 * pawnDir (activeColor st)) ->
  WellFormed st
    (mkMove (indexToAlgebraic f) (indexToAlgebraic t) (Some p)
       (getB (board st) t) promo false false false).
Proof.
  intros Hf Ht Hp Hc Henemy Hpromo Hkind Hpawn. exists f, t, p. move_fields.
  split; [exact Hf|]. split; [exact Ht|].
  split.
  { intros E. subst t. specialize (Henemy p Hp). rewrite Hc in Henemy.
    symmetry in Henemy. now apply oppositeColor_neq in Henemy. }
  split; [reflexivity|]. split; [reflexivity|].
  split; [exact Hp|]. split; [exact Hc|]. split; [reflexivity|].
  left. repeat (split; [reflexivity|]). split; [exact Henemy|].
  split; [exact Hpromo|]. split; [exact Hkind | exact Hpawn].
Qed.

Lemma not_a_pawn (p : Piece) (f t : Z) (c : Color) :
  ptype p <> P ->
  ptype p = P -> t / 8 = f / 8 + pawnDir c \/ t = f + 16 * pawnDir c.
Proof. tauto. Qed.

Lemma no_promotion_piece (ty : PieceType) :
  @None PieceType = Some ty -> In ty PROMOTIONS.
Proof. discriminate. Qed.

Lemma no_promotion (p : Piece) (t : Z) (c : Color) :
  ptype p <> P ->
  (@None PieceType <> None <-> ptype p = P /\ t / 8 = lastRank c).
Proof. intros H. split; [congruence | tauto]. Qed.

Lemma target_enemy (b : Board) (t : Z) (mover : Color) :
  negb (isSome (getB b t)) || negb (optColor_eqb (getColorOf (getB b t)) mover)
  = true ->
  forall q, getB b t = Some q -> pcolor q = oppositeColor mover.
Proof.
  intros H q Hq. rewrite Hq in H. cbn in H.
  apply negb_true_iff in H. now apply color_not_eqb.
Qed.

Lemma jumpStep_wf (st : RulesState) (f : Z) (p : Piece) (file rank : Z)
  (d : Z * Z) :
  onBoard f ->
  getB (board st) f = Some p -> pcolor p = activeColor st ->
  ptype p <> P ->
  Forall (WellFormed st)
    (jumpStep (board st) f (indexToAlgebraic f) (pcolor p) file rank d).
Proof.
  intros Hf Hp Hc Hty. unfold jumpStep. destruct d as [df dr].
  destruct ((file + df <? 0) || (file + df >? 7) || (rank + dr <? 0)
            || (rank + dr >? 7)) eqn:Hoff; [constructor|].
  apply offBoard_false in Hoff. destruct Hoff as [Hnf Hnr].
  match goal with
  | |- context [if ?c then _ else _] => destruct c eqn:Hcond
  end; [|constructor].
  constructor; [|constructor].
  unfold createMove. rewrite Hp.
  apply wf_ordinary; try assumption.
  - now apply cell_onBoard.
  - rewrite <- Hc. now apply target_enemy.
  - now apply no_promotion.
  - apply no_promotion_piece.
  - now apply not_a_pawn.
Qed.

Lemma slideRay_wf (st : RulesState) (f : Z) (p : Piece) (df dr : Z) (n : nat) :
  onBoard f ->
  getB (board st) f = Some p -> pcolor p = activeColor st ->
  ptype p <> P ->
  forall file rank,
    Forall (WellFormed st)
      (slideRay (board st) f (indexToAlgebraic f) (pcolor p) df dr file rank n).
Proof.
  intros Hf Hp Hc Hty. induction n as [|n IH]; intros file rank;
    cbn [slideRay]; [constructor|].
  destruct ((file + df <? 0) || (file + df >? 7) || (rank + dr <? 0)
            || (rank + dr >? 7)) eqn:Hoff; [constructor|].
  apply offBoard_false in Hoff. destruct Hoff as [Hnf Hnr].
  assert (Hto : onBoard ((rank + dr) * 8 + (file + df)))
    by now apply cell_onBoard.
  destruct (getB (board st) ((rank + dr) * 8 + (file + df))) as [q|] eqn:Hq;
    cbn [isSome negb].
  - destruct (negb (optColor_eqb (getColorOf (Some q)) (pcolor p))) eqn:Hcond;
      [|constructor].
    constructor; [|constructor].
    unfold createMove. rewrite Hp, <- Hq.
    apply wf_ordinary; try assumption.
    + intros q' Hq'. rewrite Hq in Hq'. injection Hq' as <-.
      cbn in Hcond. apply negb_true_iff in Hcond. rewrite <- Hc.
      now apply color_not_eqb.
    + now apply no_promotion.
    + apply no_promotion_piece.
    + now apply not_a_pawn.
  - constructor; [|apply IH].
    unfold createMove. rewrite Hp, <- Hq.
    apply wf_ordinary; try assumption.
    + intros q' Hq'. congruence.
    + now apply no_promotion.
    + apply no_promotion_piece.
    + now apply not_a_pawn.
Qed.

Lemma generateSlidingMoves_wf (st : RulesState) (f : Z) (p : Piece)
  (dirs : list (Z * Z)) :
  onBoard f ->
  getB (board st) f = Some p -> pcolor p = activeColor st ->
  ptype p <> P ->
  Forall (WellFormed st)
    (generateSlidingMoves (board st) f (indexToAlgebraic f) (pcolor p) dirs).
Proof.
  intros Hf Hp Hc Hty. unfold generateSlidingMoves.
  apply Forall_flat_map. intros [df dr] _.
  destruct (indexToFR f) as [file rank].
  now apply slideRay_wf.
Qed.

(** The promotion rank in [generatePawnMoves] is the rank before the last. *)
Lemma promotion_rank (c : Color) (rank : Z) :
  (rank =? match c with white => 6 | black => 1 end) = true <->
  rank + pawnDir c = lastRank c.
Proof. rewrite Z.eqb_eq. unfold pawnDir, lastRank. destruct c; lia. Qed.

Lemma pawn_promotions_wf (st : RulesState) (f t : Z) (p : Piece) :
  onBoard f -> onBoard t ->
  getB (board st) f = Some p -> pcolor p = activeColor st -> ptype p = P ->
  t / 8 = f / 8 + pawnDir (pcolor p) ->
  (forall q, getB (board st) t = Some q ->
             pcolor q = oppositeColor (activeColor st)) ->
  Forall (WellFormed st)
    (if f / 8 =? match pcolor p with white => 6 | black => 1 end
     then map (fun promo =>
                 createPromotionMove (indexToAlgebraic f) (indexToAlgebraic t)
                   (pawnCode (pcolor p)) promo (getB (board st) t))
              PROMOTIONS
     else [createMove (indexToAlgebraic f) (indexToAlgebraic t)
             (pawnCode (pcolor p)) (getB (board st) t)]).
Proof.
  intros Hf Ht Hp Hc Hty Hrank Henemy.
  assert (Hcode : pawnCode (pcolor p) = Some p).
  { clear - Hty. destruct p as [c ty]. cbn in Hty. subst ty.
    now destruct c. }
  rewrite Hcode.
  destruct (f / 8 =? match pcolor p with white => 6 | black => 1 end) eqn:Hpr.
  - apply promotion_rank in Hpr.
    unfold PROMOTIONS, createPromotionMove. cbn [map].
    repeat (constructor;
            [apply wf_ordinary; try assumption;
             [split; [intros _; split; [assumption | rewrite <- Hc; lia]
                     | discriminate]
             |intros ty Hty'; injection Hty' as <-; cbn; tauto
             |intros _; left; rewrite <- Hc; assumption]|]).
    constructor.
  - constructor; [|constructor].
    unfold createMove. apply wf_ordinary; try assumption;
      [|apply no_promotion_piece|intros _; left; rewrite <- Hc; assumption].
    split; [congruence|]. intros [_ Hlast].
    assert (Hpr' : (f / 8 =? match pcolor p with white => 6 | black => 1 end)
                   = true)
      by (apply promotion_rank; rewrite <- Hc in Hlast; lia).
    congruence.
Qed.

Lemma addPawnAdvance_wf (st : RulesState) (f t : Z) (p : Piece) (lr : Z) :
  onBoard f -> onBoard t ->
  getB (board st) f = Some p -> pcolor p = activeColor st -> ptype p = P ->
  t / 8 = f / 8 + pawnDir (pcolor p) ->
  getB (board st) t = None ->
  Forall (WellFormed st)
    (addPawnAdvance (indexToAlgebraic f) f t (pcolor p)
       (match pcolor p with white => 6 | black => 1 end) lr).
Proof.
  intros Hf Ht Hp Hc Hty Hrank Hempty. unfold addPawnAdvance, indexToFR.
  rewrite <- Hempty.
  apply pawn_promotions_wf; try assumption.
  intros q Hq. congruence.
Qed.

Lemma addPawnCapture_wf (st : RulesState) (f t : Z) (p : Piece) (lr : Z) :
  onBoard f -> onBoard t ->
  getB (board st) f = Some p -> pcolor p = activeColor st -> ptype p = P ->
  t / 8 = f / 8 + pawnDir (pcolor p) ->
  (forall q, getB (board st) t = Some q ->
             pcolor q = oppositeColor (activeColor st)) ->
  Forall (WellFormed st)
    (addPawnCapture (indexToAlgebraic f) f t (pcolor p) (getB (board st) t)
       (match pcolor p with white => 6 | black => 1 end) lr).
Proof.
  intros Hf Ht Hp Hc Hty Hrank Henemy. unfold addPawnCapture, indexToFR.
  now apply pawn_promotions_wf.
Qed.

Lemma pawnCaptureStep_wf (st : RulesState) (f : Z) (p : Piece) (epIndex : Z)
  (lr cf : Z) :
  onBoard f ->
  getB (board st) f = Some p -> pcolor p = activeColor st -> ptype p = P ->
  epIndexOf st epIndex ->
  Forall (WellFormed st)
    (pawnCaptureStep (board st) f (indexToAlgebraic f) (f / 8) (pcolor p)
       (oppositeColor (activeColor st)) epIndex (pawnDir (pcolor p))
       (match pcolor p with white => 6 | black => 1 end) lr cf).
Proof.
  intros Hf Hp Hc Hty Hep. unfold pawnCaptureStep.
  destruct ((cf <? 0) || (cf >? 7)) eqn:Hcf; [constructor|].
  apply offBoard1_false in Hcf.
  destruct ((f / 8 + pawnDir (pcolor p) <? 0) || (f / 8 + pawnDir (pcolor p) >? 7))
    eqn:Hr; [constructor|].
  apply offBoard1_false in Hr.
  cbv zeta.
  set (t := (f / 8 + pawnDir (pcolor p)) * 8 + cf).
  assert (Ht : onBoard t) by (unfold t; now apply cell_onBoard).
  destruct (cell_file_rank (f / 8 + pawnDir (pcolor p)) cf) as [Htr Htf];
    try lia.
  fold t in Htr, Htf.
  pose proof (onBoard_file_rank f Hf) as [_ Hrank].
  apply Forall_app. split.
  - destruct (isSome (getB (board st) t)
              && optColor_eqb (getColorOf (getB (board st) t))
                   (oppositeColor (activeColor st))) eqn:Hcond;
      [|constructor].
    apply andb_prop in Hcond. destruct Hcond as [_ Hcond].
    apply addPawnCapture_wf; try assumption.
    intros q Hq. rewrite Hq in Hcond. cbn in Hcond.
    now apply Color_eqb_eq in Hcond.
  - destruct ((epIndex =? t) && negb (isSome (getB (board st) t))) eqn:Hept;
      [|constructor].
    apply andb_prop in Hept. destruct Hept as [Heq Hempty].
    apply Z.eqb_eq in Heq. apply negb_true_iff in Hempty.
    destruct (getB (board st) (f / 8 * 8 + cf)) as [q|] eqn:Hq;
      [|constructor].
    cbn [isSome andb getColorOf optColor_eqb].
    destruct (Color_eqb (pcolor q) (oppositeColor (activeColor st))) eqn:Hcol;
      [|constructor].
    apply Color_eqb_eq in Hcol.
    constructor; [|constructor].
    assert (Hcell : captureCell (activeColor st) t = f / 8 * 8 + cf).
    { unfold captureCell. rewrite Htr, Htf. rewrite <- Hc.
      unfold pawnDir. destruct (pcolor p); lia. }
    assert (Hnone : getB (board st) t = None)
      by (destruct (getB (board st) t); [discriminate | reflexivity]).
    exists f, t, p. move_fields. rewrite Hcell.
    split; [exact Hf|]. split; [exact Ht|].
    split; [intros E; rewrite <- E, Hp in Hnone; discriminate|].
    split; [reflexivity|]. split; [reflexivity|].
    split; [exact Hp|]. split; [exact Hc|]. split; [exact Hp|].
    right. left.
    repeat (split; [reflexivity|]).
    split; [exact Hty|]. split; [exact Hnone|].
    split.
    { unfold epIndexOf in Hep.
      destruct (enPassantTarget st) as [sq|]; [|unfold onBoard in Ht; lia].
      rewrite Heq in Hep. apply algebraicToIndex_ok in Hep.
      destruct Hep as [_ ->]. reflexivity. }
    split; [apply cell_onBoard; lia|].
    split.
    { intros E. rewrite E, Hp in Hq. injection Hq as <-.
      rewrite Hc in Hcol. symmetry in Hcol.
      now apply oppositeColor_neq in Hcol. }
    split; [now rewrite Htf|].
    exists q. split; [reflexivity|]. split; [exact Hq | exact Hcol].
Qed.

Lemma generatePawnMoves_wf (st : RulesState) (f : Z) (p : Piece) (epIndex : Z) :
  onBoard f ->
  getB (board st) f = Some p -> pcolor p = activeColor st -> ptype p = P ->
  epIndexOf st epIndex ->
  Forall (WellFormed st)
    (generatePawnMoves st f (indexToAlgebraic f) (Z.rem f 8) (f / 8) (pcolor p)
       (oppositeColor (activeColor st)) epIndex).
Proof.
  intros Hf Hp Hc Hty Hep. unfold generatePawnMoves.
  pose proof (onBoard_file_rank f Hf) as [Hfile Hrank].
  fold (pawnDir (pcolor p)).
  apply Forall_app. split.
  - destruct ((f / 8 + pawnDir (pcolor p) >=? 0)
              && (f / 8 + pawnDir (pcolor p) <=? 7)) eqn:Hone; [|constructor].
    apply andb_prop in Hone. destruct Hone as [H0 H7].
    apply Z.geb_le in H0. apply Z.leb_le in H7.
    destruct (getB (board st) ((f / 8 + pawnDir (pcolor p)) * 8 + Z.rem f 8))
      eqn:Hone; cbn [isSome negb]; [constructor|].
    destruct (cell_file_rank (f / 8 + pawnDir (pcolor p)) (Z.rem f 8))
      as [Htr Htf]; try lia.
    apply Forall_app. split.
    + apply addPawnAdvance_wf; try assumption.
      apply cell_onBoard; lia.
    + destruct (f / 8 =? match pcolor p with white => 1 | black => 6 end)
        eqn:Hstart; [|constructor].
      apply Z.eqb_eq in Hstart.
      destruct (getB (board st) ((f / 8 + 2 * pawnDir (pcolor p)) * 8 + Z.rem f 8))
        eqn:Htwo; cbn [isSome negb]; [constructor|].
      constructor; [|constructor].
      unfold createMove. rewrite Hp, <- Htwo.
      assert (Hr2 : 0 <= f / 8 + 2 * pawnDir (pcolor p) <= 7)
        by (unfold pawnDir; destruct (pcolor p); lia).
      destruct (cell_file_rank (f / 8 + 2 * pawnDir (pcolor p)) (Z.rem f 8))
        as [Htr2 Htf2]; try lia.
      apply wf_ordinary; try assumption.
      * apply cell_onBoard; lia.
      * intros q Hq. congruence.
      * split; [congruence|]. intros [_ Hlast]. rewrite Htr2 in Hlast.
        rewrite <- Hc in Hlast. unfold pawnDir, lastRank in *.
        destruct (pcolor p); lia.
      * apply no_promotion_piece.
      * intros _. right. rewrite <- Hc.
        rewrite Z.rem_mod_nonneg in * by (unfold onBoard in Hf; lia).
        pose proof (Z.div_mod f 8 ltac:(lia)). lia.
  - apply Forall_flat_map. intros cf _.
    now apply pawnCaptureStep_wf.
Qed.

Lemma generateCastlingMoves_wf (st : RulesState) (f : Z) (p : Piece)
  (l : list Move) :
  onBoard f ->
  getB (board st) f = Some p -> pcolor p = activeColor st -> ptype p = K ->
  generateCastlingMoves st f (indexToAlgebraic f) (pcolor p) (castlingRights st)
  = Ok l ->
  Forall (WellFormed st) l.
Proof.
  intros Hf Hp Hc Hty. unfold generateCastlingMoves. cbv zeta.
  fold (homeRank (pcolor p)). rewrite Hc.
  set (home := homeRank (activeColor st)).
  set (enemy := oppositeColor (activeColor st)).
  destruct (f =? home * 8 + 4) eqn:Hhome; cbn [negb];
    [|ok_subst; constructor].
  apply Z.eqb_eq in Hhome.
  rewrite squareAttackedBy_onBoard by assumption. cbn [rbind].
  destruct (squareAttackedAt (board st) f enemy) eqn:Hatt;
    [ok_subst; constructor|].
  assert (Hsq : forall k, 0 <= k <= 7 -> onBoard (home * 8 + k)).
  { intros k Hk. apply cell_onBoard; [|exact Hk].
    unfold home, homeRank. destruct (activeColor st); lia. }
  assert (Hne : forall k, k <> 4 -> f <> home * 8 + k) by (intros k Hk; lia).
  match goal with
  | |- rbind ?KS _ = Ok l -> _ =>
      assert (HKS : exists ksl, KS = Ok ksl /\ Forall (WellFormed st) ksl)
  end.
  { destruct (kingSide (rightsOf (castlingRights st) (activeColor st))) eqn:Hr;
      [|exists []; split; [reflexivity | constructor]].
    destruct (getB (board st) (home * 8 + 5)) eqn:H5; cbn [isSome negb andb];
      [exists []; split; [reflexivity | constructor]|].
    destruct (getB (board st) (home * 8 + 6)) eqn:H6; cbn [isSome negb andb];
      [exists []; split; [reflexivity | constructor]|].
    rewrite squareAttackedBy_onBoard by (apply Hsq; lia). cbn [rbind].
    destruct (squareAttackedAt (board st) (home * 8 + 5) enemy) eqn:A5;
      cbn [negb]; [exists []; split; [reflexivity | constructor]|].
    rewrite squareAttackedBy_onBoard by (apply Hsq; lia). cbn [rbind].
    destruct (squareAttackedAt (board st) (home * 8 + 6) enemy) eqn:A6;
      cbn [negb]; [exists []; split; [reflexivity | constructor]|].
    eexists. split; [reflexivity|]. constructor; [|constructor].
    rewrite Hp. unfold createCastleMove.
    exists f, (home * 8 + 6), p. move_fields. cbn [negb].
    split; [exact Hf|]. split; [apply Hsq; lia|]. split; [apply Hne; lia|].
    split; [reflexivity|]. split; [reflexivity|].
    split; [exact Hp|]. split; [exact Hc|]. split; [reflexivity|].
    right. right.
    repeat (split; [reflexivity|]). split; [exact Hty|].
    split; [exact Hhome|]. split; [exact Hatt|].
    left. repeat (split; [reflexivity|]).
    split; [exact Hr|]. split; [exact H5|]. split; [exact H6|].
    split; [exact A5 | exact A6]. }
  match goal with
  | |- rbind _ (fun ks => rbind ?QS _) = Ok l -> _ =>
      assert (HQS : exists qsl, QS = Ok qsl /\ Forall (WellFormed st) qsl)
  end.
  { destruct (queenSide (rightsOf (castlingRights st) (activeColor st))) eqn:Hr;
      [|exists []; split; [reflexivity | constructor]].
    destruct (getB (board st) (home * 8 + 3)) eqn:H3; cbn [isSome negb andb];
      [exists []; split; [reflexivity | constructor]|].
    destruct (getB (board st) (home * 8 + 2)) eqn:H2; cbn [isSome negb andb];
      [exists []; split; [reflexivity | constructor]|].
    destruct (getB (board st) (home * 8 + 1)) eqn:H1; cbn [isSome negb andb];
      [exists []; split; [reflexivity | constructor]|].
    rewrite squareAttackedBy_onBoard by (apply Hsq; lia). cbn [rbind].
    destruct (squareAttackedAt (board st) (home * 8 + 3) enemy) eqn:A3;
      cbn [negb]; [exists []; split; [reflexivity | constructor]|].
    rewrite squareAttackedBy_onBoard by (apply Hsq; lia). cbn [rbind].
    destruct (squareAttackedAt (board st) (home * 8 + 2) enemy) eqn:A2;
      cbn [negb]; [exists []; split; [reflexivity | constructor]|].
    eexists. split; [reflexivity|]. constructor; [|constructor].
    rewrite Hp. unfold createCastleMove.
    exists f, (home * 8 + 2), p. move_fields. cbn [negb].
    split; [exact Hf|]. split; [apply Hsq; lia|]. split; [apply Hne; lia|].
    split; [reflexivity|]. split; [reflexivity|].
    split; [exact Hp|]. split; [exact Hc|]. split; [reflexivity|].
    right. right.
    repeat (split; [reflexivity|]). split; [exact Hty|].
    split; [exact Hhome|]. split; [exact Hatt|].
    right. repeat (split; [reflexivity|]).
    split; [exact Hr|]. split; [exact H3|]. split; [exact H2|].
    split; [exact H1|]. split; [exact A3 | exact A2]. }
  destruct HKS as (ksl & -> & Hks). destruct HQS as (qsl & -> & Hqs).
  cbn [rbind]. ok_subst.
  apply Forall_app. now split.
Qed.

Lemma movesFrom_wf (st : RulesState) (epIndex f : Z) (l : list Move) :
  onBoard f -> epIndexOf st epIndex ->
  movesFrom st (oppositeColor (activeColor st)) epIndex f = Ok l ->
  Forall (WellFormed st) l.
Proof.
  intros Hf Hep. unfold movesFrom.
  destruct (getB (board st) f) as [p|] eqn:Hp;
    [|ok_subst; constructor].
  destruct (Color_eqb (pcolor p) (activeColor st)) eqn:Hc; cbn [negb];
    [|ok_subst; constructor].
  apply Color_eqb_eq in Hc.
  unfold indexToFR.
  destruct (ptype p) eqn:Hty.
  - ok_subst. now apply generatePawnMoves_wf.
  - ok_subst. unfold generateKnightMoves, indexToFR.
    apply Forall_flat_map. intros d _. apply jumpStep_wf; try assumption.
    congruence.
  - ok_subst.
    apply generateSlidingMoves_wf; try assumption. congruence.
  - ok_subst.
    apply generateSlidingMoves_wf; try assumption. congruence.
  - ok_subst.
    apply generateSlidingMoves_wf; try assumption. congruence.
  - destruct (generateCastlingMoves st f (indexToAlgebraic f) (pcolor p)
                (castlingRights st)) as [castles|] eqn:Hcastles;
      [|discriminate].
    cbn [rbind]. ok_subst.
    apply Forall_app. split.
    + unfold generateKingMoves, indexToFR.
      apply Forall_flat_map. intros d _. apply jumpStep_wf; try assumption.
      congruence.
    + now apply (generateCastlingMoves_wf st f p castles).
Qed.

Lemma pseudoLoop_wf (st : RulesState) (epIndex : Z) (n : nat) :
  forall i l,
    0 <= i -> i + Z.of_nat n <= 64 -> epIndexOf st epIndex ->
    pseudoLoop st (oppositeColor (activeColor st)) epIndex i n = Ok l ->
    Forall (WellFormed st) l.
Proof.
  induction n as [|n IH]; intros i l Hi Hn Hep; cbn [pseudoLoop].
  - ok_subst; constructor.
  - destruct (movesFrom st (oppositeColor (activeColor st)) epIndex i)
      as [here|] eqn:Hhere; [|discriminate].
    cbn [rbind].
    destruct (pseudoLoop st (oppositeColor (activeColor st)) epIndex (i + 1) n)
      as [rest|] eqn:Hrest; [|discriminate].
    cbn [rbind]. ok_subst.
    apply Forall_app. split.
    + apply (movesFrom_wf st epIndex i); [unfold onBoard; lia | assumption..].
    + apply (IH (i + 1)); [lia | lia | assumption..].
Qed.

Lemma generatePseudoLegalMoves_wf (st : RulesState) (l : list Move) :
  generatePseudoLegalMoves st = Ok l -> Forall (WellFormed st) l.
Proof.
  unfold generatePseudoLegalMoves.
  destruct (match enPassantTarget st with
            | Some sq => algebraicToIndex sq
            | None => Ok (-1)
            end) as [e|] eqn:He; [|discriminate].
  cbn [rbind]. apply pseudoLoop_wf; [lia | simpl; lia |].
  unfold epIndexOf. destruct (enPassantTarget st); congruence.
Qed.

(** Every legal move tells the truth about the position it was generated
    in. *)
Lemma generateLegalMoves_wf (st : RulesState) (legal : list Move) :
  generateLegalMoves st = Ok legal -> Forall (WellFormed st) legal.
Proof.
  intros H. apply Forall_forall. intros m Hm.
  destruct (generateLegalMoves_kept st legal m H Hm) as (pseudo & Hps & Hin & _).
  apply generatePseudoLegalMoves_wf in Hps.
  rewrite Forall_forall in Hps. now apply Hps.
Qed.

(* ------------------------------------------------------------------ *)
(** ** The placement a legal move leaves *)

Lemma findKingLoop_first (b : Board) (k : Piece) (n : nat) :
  forall i s,
    findKingLoop b k i n = Some s ->
    exists j, i <= j < i + Z.of_nat n /\ s = indexToAlgebraic j
              /\ getB b j = Some k
              /\ (forall j', i <= j' < j -> getB b j' <> Some k).
Proof.
  induction n as [|n IH]; intros i s H; [discriminate|].
  cbn [findKingLoop] in H.
  assert (Hstep : getB b i <> Some k ->
                  findKingLoop b k (i + 1) n = Some s ->
                  exists j, i <= j < i + Z.of_nat (S n) /\ s = indexToAlgebraic j
                            /\ getB b j = Some k
                            /\ (forall j', i <= j' < j -> getB b j' <> Some k)).
  { intros Hi Hrest. destruct (IH _ _ Hrest) as (j & Hj & Hs & Hg & Hfirst).
    exists j. split; [lia|]. split; [assumption|]. split; [assumption|].
    intros j' Hj'. destruct (Z.eq_dec j' i) as [->|Hne]; [exact Hi|].
    apply Hfirst. lia. }
  destruct (getB b i) as [p|] eqn:Hp.
  - destruct (Piece_eqb p k) eqn:Hpk.
    + apply Piece_eqb_eq in Hpk. subst p. injection H as <-.
      exists i. split; [lia|]. split; [reflexivity|]. split; [assumption|].
      intros j' Hj'. lia.
    + apply Hstep; [|assumption]. intros E. injection E as ->.
      rewrite (proj2 (Piece_eqb_eq k k) eq_refl) in Hpk. discriminate.
  - apply Hstep; [discriminate | assumption].
Qed.

(** The attack test reads the cells of the board and nothing else. *)
Section SameCells.
Variables b1 b2 : Board.
Hypothesis Hsame : forall j, onBoard j -> getB b1 j = getB b2 j.

Lemma rayReaches_same (stepF stepR tf tr : Z) (n : nat) :
  forall f r,
    rayReaches b1 stepF stepR tf tr f r n = rayReaches b2 stepF stepR tf tr f r n.
Proof.
  induction n as [|n IH]; intros f r; cbn [rayReaches]; [reflexivity|].
  destruct (negb ((f =? tf) && (r =? tr))); [|reflexivity].
  destruct ((f <? 0) || (f >? 7) || (r <? 0) || (r >? 7)) eqn:Hoff;
    [reflexivity|].
  apply offBoard_false in Hoff. destruct Hoff as [Hf Hr].
  rewrite Hsame by now apply cell_onBoard.
  now rewrite IH.
Qed.

Lemma attacksFrom_same (c : Color) (type : PieceType) (file rank tf tr : Z) :
  attacksFrom b1 c type file rank tf tr = attacksFrom b2 c type file rank tf tr.
Proof.
  assert (Hray : forall stepF stepR f r,
             rayReaches b1 stepF stepR tf tr f r 8
             = rayReaches b2 stepF stepR tf tr f r 8)
    by (intros; apply rayReaches_same).
  unfold attacksFrom.
  destruct type;
    [ reflexivity | reflexivity | | | | reflexivity ];
    match goal with
    | |- context [let '(_, _) := ?e in _] => destruct e as [stepF stepR]
    end;
    now rewrite Hray.
Qed.

Lemma squareAttackedLoop_same (c : Color) (tf tr : Z) (n : nat) :
  forall i,
    0 <= i -> i + Z.of_nat n <= 64 ->
    squareAttackedLoop b1 c tf tr i n = squareAttackedLoop b2 c tf tr i n.
Proof.
  induction n as [|n IH]; intros i Hi Hn; cbn [squareAttackedLoop];
    [reflexivity|].
  rewrite Hsame by (unfold onBoard; lia).
  rewrite IH by lia.
  destruct (getB b2 i) as [p|]; [|reflexivity].
  destruct (optColor_eqb (getColorOf (Some p)) c); [|reflexivity].
  destruct (indexToFR i) as [file rank].
  now rewrite attacksFrom_same.
Qed.

Lemma squareAttackedAt_same (k : Z) (c : Color) :
  squareAttackedAt b1 k c = squareAttackedAt b2 k c.
Proof.
  unfold squareAttackedAt. destruct (indexToFR k) as [tf tr].
  apply squareAttackedLoop_same; simpl; lia.
Qed.

End SameCells.

Lemma own_color (p : Piece) :
  (if optColor_eqb (getColorOf (Some p)) white then white else black) = pcolor p.
Proof. cbn. now destruct (pcolor p). Qed.

Ltac cells :=
  repeat first
    [ rewrite getB_setB_same by lia
    | rewrite getB_setB_other by lia ].

(** On the moves of the generators the scratch copy of
    [leavesKingInCheck] is the placement the specification describes. *)
Lemma scratchBoard_cells (st : RulesState) (m : Move) :
  WellFormed st m ->
  exists f t,
    algebraicToIndex (from m) = Ok f
    /\ algebraicToIndex (to m) = Ok t
    /\ forall j,
         getB (scratchBoard (board st) m f t) j
         = cellAfter (board st) (activeColor st) m f t j.
Proof.
  intros (f & t & p & Hf & Ht & Hne & Hfrom & Hto & Hp & Hc & Hpiece & Hkind).
  exists f, t.
  split; [rewrite Hfrom; now apply algebraicToIndex_indexToAlgebraic|].
  split; [rewrite Hto; now apply algebraicToIndex_indexToAlgebraic|].
  intros j. unfold scratchBoard, cellAfter. rewrite Hpiece, own_color.
  assert (H0f : 0 <= f) by (unfold onBoard in Hf; lia).
  assert (H0t : 0 <= t) by (unfold onBoard in Ht; lia).
  destruct Hkind as [Hord | [Hep | Hcastle]].
  - destruct Hord as (-> & -> & -> & _).
    cbn [orb andb]. rewrite Hc.
    destruct (Z.eqb_spec j f) as [->|Hjf];
      [destruct (promotion m); now cells|].
    destruct (Z.eqb_spec j t) as [->|Hjt];
      [destruct (promotion m); cells; congruence|].
    destruct (promotion m); now cells.
  - destruct Hep as (-> & -> & -> & -> & _ & Hempty & _ & Hcap & Hcapf & _
                      & q & _ & Hq & _).
    cbn [orb andb]. unfold indexToFR. cbn [optColor_eqb getColorOf].
    assert (Hcell : (t / 8 + (if Color_eqb (pcolor p) white then -1 else 1)) * 8
                    + Z.rem t 8 = captureCell (activeColor st) t).
    { unfold captureCell. rewrite <- Hc. now destruct (pcolor p). }
    rewrite Hcell.
    assert (Hcapt : captureCell (activeColor st) t <> t) by congruence.
    assert (H0c : 0 <= captureCell (activeColor st) t)
      by (unfold onBoard in Hcap; lia).
    destruct (Z.eqb_spec j f) as [->|Hjf]; [now cells|].
    destruct (Z.eqb_spec j t) as [->|Hjt]; [cells; congruence|].
    destruct (Z.eqb_spec j (captureCell (activeColor st) t)) as [->|Hjc];
      now cells.
  - destruct Hcastle as (-> & _ & -> & _ & Hhome & _ & Hside).
    set (home := homeRank (activeColor st)) in *.
    assert (Hrank : (if Color_eqb (activeColor st) white then 0 else 7) = home)
      by (unfold home, homeRank; now destruct (activeColor st)).
    assert (H0h : 0 <= home)
      by (unfold home, homeRank; destruct (activeColor st); lia).
    cbn [optColor_eqb getColorOf andb]. rewrite Hc, Hrank.
    destruct Hside as [(-> & -> & -> & _) | (-> & -> & -> & _)];
      cbn [orb andb].
    + destruct (Z.eqb_spec j f) as [->|Hjf]; [now cells|].
      destruct (Z.eqb_spec j (home * 8 + 6)) as [->|Hjt]; [cells; congruence|].
      destruct (Z.eqb_spec j (home * 8 + 7)) as [->|Hj7]; [now cells|].
      destruct (Z.eqb_spec j (home * 8 + 5)) as [->|Hj5]; now cells.
    + destruct (Z.eqb_spec j f) as [->|Hjf]; [now cells|].
      destruct (Z.eqb_spec j (home * 8 + 2)) as [->|Hjt]; [cells; congruence|].
      destruct (Z.eqb_spec j (home * 8 + 0)) as [->|Hj0]; [now cells|].
      destruct (Z.eqb_spec j (home * 8 + 3)) as [->|Hj3]; now cells.
Qed.

(* ------------------------------------------------------------------ *)
(** ** C2: legal moves keep the mover's king safe *)

Lemma findKingSquare_first (b : Board) (c : Color) (s : string) :
  findKingSquare b c = Some s ->
  exists j, onBoard j /\ s = indexToAlgebraic j /\ getB b j = Some (kingOf c)
            /\ (forall j', 0 <= j' < j -> getB b j' <> Some (kingOf c)).
Proof.
  unfold findKingSquare. intros H.
  apply findKingLoop_first in H. destruct H as (j & Hj & Hs & Hg & Hfirst).
  exists j. unfold onBoard. simpl in Hj.
  split; [lia|]. split; [assumption|].
  destruct c; split; assumption.
Qed.

Lemma leavesKingInCheck_false (st : RulesState) (m : Move) (f t : Z) :
  algebraicToIndex (from m) = Ok f ->
  algebraicToIndex (to m) = Ok t ->
  leavesKingInCheck st m = Ok false ->
  exists k,
    onBoard k
    /\ getB (scratchBoard (board st) m f t) k = Some (kingOf (activeColor st))
    /\ (forall j, 0 <= j < k ->
                  getB (scratchBoard (board st) m f t) j
                  <> Some (kingOf (activeColor st)))
    /\ squareAttackedAt (scratchBoard (board st) m f t) k
         (oppositeColor (activeColor st)) = false.
Proof.
  intros Hf Ht Hsafe.
  rewrite (leavesKingInCheck_indices st m f t Hf Ht) in Hsafe.
  remember (scratchBoard (board st) m f t) as b' eqn:Hb'.
  destruct (findKingSquare b' (activeColor st)) as [kingSq|] eqn:Hking;
    [|discriminate].
  destruct (findKingSquare_first _ _ _ Hking) as (k & Hon & -> & Hget & Hfirst).
  rewrite squareAttackedBy_onBoard in Hsafe by assumption.
  exists k.
  split; [exact Hon|]. split; [exact Hget|]. split; [exact Hfirst|].
  injection Hsafe as Hatt. exact Hatt.
Qed.

Lemma king_safe_same_cells (b' after : Board) (mover : Color) (k : Z) :
  (forall j, onBoard j -> getB after j = getB b' j) ->
  onBoard k ->
  getB b' k = Some (kingOf mover) ->
  (forall j, 0 <= j < k -> getB b' j <> Some (kingOf mover)) ->
  squareAttackedAt b' k (oppositeColor mover) = false ->
  exists kingIndex,
    onBoard kingIndex
    /\ getB after kingIndex = Some (kingOf mover)
    /\ (forall j, 0 <= j < kingIndex -> getB after j <> Some (kingOf mover))
    /\ squareAttackedAt after kingIndex (oppositeColor mover) = false.
Proof.
  intros Hsame Hon Hget Hfirst Hatt. exists k.
  split; [exact Hon|].
  split; [rewrite Hsame by assumption; exact Hget|].
  split.
  - intros j Hj. rewrite Hsame by (unfold onBoard in *; lia).
    apply Hfirst. lia.
  - rewrite (squareAttackedAt_same after b' Hsame). exact Hatt.
Qed.

(** C2: every move [generateLegalMoves] returns leaves the mover's king
    unattacked on the placement the move produces.  The scratch copy that
    [leavesKingInCheck] builds is that placement: origin cleared, target
    holding the moving piece or the promotion piece, en-passant pawn
    removed, castling rook relocated, every other cell unchanged.  On any
    board with these cells a king of the side to move stands on the
    board, and the first cell that holds one is not attacked by the
    opposing colour. *)
Theorem legal_moves_keep_king_safe (st : RulesState) (legal : list Move) (m : Move) :
  generateLegalMoves st = Ok legal ->
  In m legal ->
  exists fromIndex toIndex,
    algebraicToIndex (from m) = Ok fromIndex
    /\ algebraicToIndex (to m) = Ok toIndex
    /\ (forall j,
          getB (scratchBoard (board st) m fromIndex toIndex) j
          = cellAfter (board st) (activeColor st) m fromIndex toIndex j)
    /\ (forall after,
          (forall j, onBoard j ->
             getB after j
             = cellAfter (board st) (activeColor st) m fromIndex toIndex j) ->
          exists kingIndex,
            onBoard kingIndex
            /\ getB after kingIndex = Some (kingOf (activeColor st))
            /\ (forall j, 0 <= j < kingIndex ->
                          getB after j <> Some (kingOf (activeColor st)))
            /\ squareAttackedAt after kingIndex (oppositeColor (activeColor st))
               = false).
Proof.
  intros Hlegal Hin.
  pose proof (generateLegalMoves_wf st legal Hlegal) as Hwf.
  rewrite Forall_forall in Hwf. specialize (Hwf m Hin).
  destruct (scratchBoard_cells st m Hwf) as (f & t & Hf & Ht & Hcells).
  destruct (generateLegalMoves_kept _ _ _ Hlegal Hin) as (pseudo & _ & _ & Hsafe).
  destruct (leavesKingInCheck_false st m f t Hf Ht Hsafe)
    as (k & Hon & Hget & Hfirst & Hatt).
  exists f, t.
  split; [exact Hf|]. split; [exact Ht|]. split; [exact Hcells|].
  intros after Hafter.
  apply (king_safe_same_cells (scratchBoard (board st) m f t) after
           (activeColor st) k); try assumption.
  intros j Hj. rewrite Hafter, Hcells by assumption. reflexivity.
Qed.

Lemma legal_moves_keep_king_safe_witness :
  exists fromIndex toIndex,
    algebraicToIndex (from enPassantCapture) = Ok fromIndex
    /\ algebraicToIndex (to enPassantCapture) = Ok toIndex
    /\ (forall j,
          getB (scratchBoard (board enPassantPosition) enPassantCapture
                  fromIndex toIndex) j
          = cellAfter (board enPassantPosition) (activeColor enPassantPosition)
              enPassantCapture fromIndex toIndex j)
    /\ (forall after,
          (forall j, onBoard j ->
             getB after j
             = cellAfter (board enPassantPosition)
                 (activeColor enPassantPosition) enPassantCapture
                 fromIndex toIndex j) ->
          exists kingIndex,
            onBoard kingIndex
            /\ getB after kingIndex
               = Some (kingOf (activeColor enPassantPosition))
            /\ (forall j, 0 <= j < kingIndex ->
                          getB after j
                          <> Some (kingOf (activeColor enPassantPosition)))
            /\ squareAttackedAt after kingIndex
                 (oppositeColor (activeColor enPassantPosition))
               = false).
Proof.
  apply (legal_moves_keep_king_safe enPassantPosition enPassantLegal
           enPassantCapture).
  - vm_compute. reflexivity.
  - vm_compute. repeat (first [left; reflexivity | right]).
Defined.

(** The filter at work on the placements the specification names.  The
    capture en passant that would take both pawns off the rank between
    the king and a rook is generated and discarded; the moves of a knight
    that shields its king are generated and discarded. *)
Example exposing_moves_are_discarded :
  (exists pseudo legal,
      generatePseudoLegalMoves enPassantPin = Ok pseudo
      /\ generateLegalMoves enPassantPin = Ok legal
      /\ existsb isEnPassant pseudo = true
      /\ existsb isEnPassant legal = false)
  /\ (exists pseudo legal,
         generatePseudoLegalMoves pinnedKnight = Ok pseudo
         /\ generateLegalMoves pinnedKnight = Ok legal
         /\ List.length (filter (fun m => String.eqb (from m) "e2") pseudo)
            = 6%nat
         /\ filter (fun m => String.eqb (from m) "e2") legal = []).
Proof.
  split; eexists; eexists;
    (split; [vm_compute; reflexivity|]);
    (split; [vm_compute; reflexivity|]);
    split; vm_compute; reflexivity.
Qed.

(* ------------------------------------------------------------------ *)
(** ** Rules.js: what the legal moves say *)

Lemma legal_wellFormed (st : RulesState) (legal : list Move) (m : Move) :
  generateLegalMoves st = Ok legal -> In m legal -> WellFormed st m.
Proof.
  intros H Hin. pose proof (generateLegalMoves_wf st legal H) as Hwf.
  rewrite Forall_forall in Hwf. now apply Hwf.
Qed.

(** X7: A legal move starts on a square that holds a piece of the side to
    move and names that piece.  It never lands on a piece of its own side:
    a piece on the target square is of the other side and is the piece
    recorded as captured.  Whatever a move records as captured is a piece
    of the other side. *)
Theorem legal_move_reads_the_board (st : RulesState) (legal : list Move)
  (m : Move) :
  generateLegalMoves st = Ok legal ->
  In m legal ->
  exists f t p,
    algebraicToIndex (from m) = Ok f
    /\ algebraicToIndex (to m) = Ok t
    /\ f <> t
    /\ getB (board st) f = Some p
    /\ pcolor p = activeColor st
    /\ piece m = Some p
    /\ (forall q, getB (board st) t = Some q ->
                  pcolor q = oppositeColor (activeColor st)
                  /\ captured m = Some q)
    /\ (forall q, captured m = Some q ->
                  pcolor q = oppositeColor (activeColor st)).
Proof.
  intros Hlegal Hin.
  destruct (legal_wellFormed st legal m Hlegal Hin)
    as (f & t & p & Hf & Ht & Hne & Hfrom & Hto & Hp & Hc & Hpiece & Hkind).
  exists f, t, p.
  split; [rewrite Hfrom; now apply algebraicToIndex_indexToAlgebraic|].
  split; [rewrite Hto; now apply algebraicToIndex_indexToAlgebraic|].
  split; [exact Hne|]. split; [exact Hp|]. split; [exact Hc|].
  split; [exact Hpiece|].
  destruct Hkind as [Hord | [Hep | Hcastle]].
  - destruct Hord as (_ & _ & _ & Hcap & Henemy & _).
    split.
    + intros q Hq. split; [now apply Henemy | congruence].
    + intros q Hq. apply Henemy. congruence.
  - destruct Hep as (_ & _ & _ & _ & _ & Hempty & _ & _ & _ & _
                      & q & Hcap & _ & Hcol).
    split.
    + intros q' Hq'. congruence.
    + intros q' Hq'. congruence.
  - destruct Hcastle as (_ & Hcap & _ & _ & _ & _ & Hside).
    split.
    + intros q Hq.
      destruct Hside as [(_ & _ & -> & _ & _ & H6 & _)
                        | (_ & _ & -> & _ & _ & H2 & _)]; congruence.
    + intros q Hq. congruence.
Qed.

Lemma legal_move_reads_the_board_witness :
  exists f t p,
    algebraicToIndex (from pawnToE4) = Ok f
    /\ algebraicToIndex (to pawnToE4) = Ok t
    /\ f <> t
    /\ getB (board startingRules) f = Some p
    /\ pcolor p = activeColor startingRules
    /\ piece pawnToE4 = Some p
    /\ (forall q, getB (board startingRules) t = Some q ->
                  pcolor q = oppositeColor (activeColor startingRules)
                  /\ captured pawnToE4 = Some q)
    /\ (forall q, captured pawnToE4 = Some q ->
                  pcolor q = oppositeColor (activeColor startingRules)).
Proof.
  apply (legal_move_reads_the_board startingRules startingLegal pawnToE4).
  - vm_compute. reflexivity.
  - vm_compute. repeat (first [left; reflexivity | right]).
Defined.

(** X8: A legal move that is not an en-passant capture carries a promotion
    piece exactly when it takes a pawn to the last rank, and the piece is
    a queen, a rook, a bishop or a knight. *)
Theorem legal_promotion_conditions (st : RulesState) (legal : list Move)
  (m : Move) :
  generateLegalMoves st = Ok legal ->
  In m legal ->
  isEnPassant m = false ->
  exists f t p,
    algebraicToIndex (from m) = Ok f
    /\ algebraicToIndex (to m) = Ok t
    /\ getB (board st) f = Some p
    /\ (promotion m <> None <->
        ptype p = P /\ t / 8 = lastRank (activeColor st))
    /\ (forall promo, promotion m = Some promo ->
                      promo = Q \/ promo = R \/ promo = B \/ promo = N).
Proof.
  intros Hlegal Hin Hnoep.
  destruct (legal_wellFormed st legal m Hlegal Hin)
    as (f & t & p & Hf & Ht & Hne & Hfrom & Hto & Hp & Hc & Hpiece & Hkind).
  exists f, t, p.
  split; [rewrite Hfrom; now apply algebraicToIndex_indexToAlgebraic|].
  split; [rewrite Hto; now apply algebraicToIndex_indexToAlgebraic|].
  split; [exact Hp|].
  destruct Hkind as [Hord | [Hep | Hcastle]].
  - destruct Hord as (_ & _ & _ & _ & _ & Hpromo & Hpiece' & _).
    split; [exact Hpromo|].
    intros promo Hpr. specialize (Hpiece' promo Hpr). cbn in Hpiece'.
    intuition congruence.
  - destruct Hep as (Hep & _). congruence.
  - destruct Hcastle as (_ & _ & Hnone & Hking & _).
    split.
    + split; [congruence|]. intros [Hpawn _]. congruence.
    + intros promo Hpr. congruence.
Qed.

Lemma legal_promotion_conditions_witness :
  exists f t p,
    algebraicToIndex (from rookPromotion) = Ok f
    /\ algebraicToIndex (to rookPromotion) = Ok t
    /\ getB (board (GameState.asRulesState (Game.state promotionGame))) f
       = Some p
    /\ (promotion rookPromotion <> None <->
        ptype p = P
        /\ t / 8
           = lastRank
               (activeColor (GameState.asRulesState (Game.state promotionGame))))
    /\ (forall promo, promotion rookPromotion = Some promo ->
                      promo = Q \/ promo = R \/ promo = B \/ promo = N).
Proof.
  apply (legal_promotion_conditions
           (GameState.asRulesState (Game.state promotionGame))
           (legalOf promotionGame) rookPromotion).
  - vm_compute. reflexivity.
  - vm_compute. repeat (first [left; reflexivity | right]).
  - reflexivity.
Defined.

(** X9: A legal castle starts from the e-file of the mover's home rank, where
    the mover's king stands and is not attacked.  On the king's side it
    leads to the g-file, the right to castle there is held, the f- and
    g-cells are empty and neither is attacked; on the queen's side it
    leads to the c-file, the right is held, the d-, c- and b-cells are
    empty and neither the d- nor the c-cell is attacked. *)
Theorem legal_castle_conditions (st : RulesState) (legal : list Move) (m : Move) :
  generateLegalMoves st = Ok legal ->
  In m legal ->
  isCastleKingSide m = true \/ isCastleQueenSide m = true ->
  let b := board st in
  let mover := activeColor st in
  let enemy := oppositeColor mover in
  let home := homeRank mover in
  from m = indexToAlgebraic (home * 8 + 4)
  /\ getB b (home * 8 + 4) = Some (kingOf mover)
  /\ squareAttackedAt b (home * 8 + 4) enemy = false
  /\ captured m = None
  /\ ((isCastleKingSide m = true /\ isCastleQueenSide m = false
       /\ to m = indexToAlgebraic (home * 8 + 6)
       /\ kingSide (rightsOf (castlingRights st) mover) = true
       /\ getB b (home * 8 + 5) = None
       /\ getB b (home * 8 + 6) = None
       /\ squareAttackedAt b (home * 8 + 5) enemy = false
       /\ squareAttackedAt b (home * 8 + 6) enemy = false)
      \/
      (isCastleKingSide m = false /\ isCastleQueenSide m = true
       /\ to m = indexToAlgebraic (home * 8 + 2)
       /\ queenSide (rightsOf (castlingRights st) mover) = true
       /\ getB b (home * 8 + 3) = None
       /\ getB b (home * 8 + 2) = None
       /\ getB b (home * 8 + 1) = None
       /\ squareAttackedAt b (home * 8 + 3) enemy = false
       /\ squareAttackedAt b (home * 8 + 2) enemy = false)).
Proof.
  intros Hlegal Hin Hflag. cbv zeta.
  destruct (legal_wellFormed st legal m Hlegal Hin)
    as (f & t & p & Hf & Ht & Hne & Hfrom & Hto & Hp & Hc & Hpiece & Hkind).
  destruct Hkind as [Hord | [Hep | Hcastle]].
  - destruct Hord as (_ & Hk & Hq & _). destruct Hflag; congruence.
  - destruct Hep as (_ & Hk & Hq & _). destruct Hflag; congruence.
  - destruct Hcastle as (_ & Hcap & _ & Hking & Hhome & Hatt & Hside).
    subst f.
    assert (Hp' : p = kingOf (activeColor st)).
    { destruct p as [c ty]. cbn in Hc, Hking. subst c ty.
      unfold kingOf, wK, bK. now destruct (activeColor st). }
    subst p.
    split; [exact Hfrom|]. split; [exact Hp|]. split; [exact Hatt|].
    split; [exact Hcap|].
    destruct Hside as [(Hk & Hq & -> & Hrest) | (Hk & Hq & -> & Hrest)].
    + left. split; [exact Hk|]. split; [exact Hq|]. split; [exact Hto|].
      exact Hrest.
    + right. split; [exact Hk|]. split; [exact Hq|]. split; [exact Hto|].
      exact Hrest.
Qed.

Lemma legal_castle_conditions_witness :
  let b := board castlePosition in
  let mover := activeColor castlePosition in
  let enemy := oppositeColor mover in
  let home := homeRank mover in
  from castleKingSide = indexToAlgebraic (home * 8 + 4)
  /\ getB b (home * 8 + 4) = Some (kingOf mover)
  /\ squareAttackedAt b (home * 8 + 4) enemy = false
  /\ captured castleKingSide = None
  /\ ((isCastleKingSide castleKingSide = true
       /\ isCastleQueenSide castleKingSide = false
       /\ to castleKingSide = indexToAlgebraic (home * 8 + 6)
       /\ kingSide (rightsOf (castlingRights castlePosition) mover) = true
       /\ getB b (home * 8 + 5) = None
       /\ getB b (home * 8 + 6) = None
       /\ squareAttackedAt b (home * 8 + 5) enemy = false
       /\ squareAttackedAt b (home * 8 + 6) enemy = false)
      \/
      (isCastleKingSide castleKingSide = false
       /\ isCastleQueenSide castleKingSide = true
       /\ to castleKingSide = indexToAlgebraic (home * 8 + 2)
       /\ queenSide (rightsOf (castlingRights castlePosition) mover) = true
       /\ getB b (home * 8 + 3) = None
       /\ getB b (home * 8 + 2) = None
       /\ getB b (home * 8 + 1) = None
       /\ squareAttackedAt b (home * 8 + 3) enemy = false
       /\ squareAttackedAt b (home * 8 + 2) enemy = false)).
Proof.
  apply (legal_castle_conditions castlePosition (legalMovesOf castlePosition)
           castleKingSide).
  - vm_compute. reflexivity.
  - vm_compute. repeat (first [left; reflexivity | right]).
  - left. reflexivity.
Defined.

(** X10: A legal en-passant capture is a move of a pawn of the side to move
    onto the en-passant target of the position, which is empty; the piece
    it records as captured is the piece of the other side that stands on
    the pawn's rank and the target's file. *)
Theorem legal_en_passant_conditions (st : RulesState) (legal : list Move)
  (m : Move) :
  generateLegalMoves st = Ok legal ->
  In m legal ->
  isEnPassant m = true ->
  exists f t p q,
    algebraicToIndex (from m) = Ok f
    /\ algebraicToIndex (to m) = Ok t
    /\ getB (board st) f = Some p
    /\ p = mkPiece (activeColor st) P
    /\ enPassantTarget st = Some (to m)
    /\ getB (board st) t = None
    /\ captured m = Some q
    /\ getB (board st) (f / 8 * 8 + Z.rem t 8) = Some q
    /\ pcolor q = oppositeColor (activeColor st)
    /\ promotion m = None.
Proof.
  intros Hlegal Hin Hflag.
  destruct (legal_wellFormed st legal m Hlegal Hin)
    as (f & t & p & Hf & Ht & Hne & Hfrom & Hto & Hp & Hc & Hpiece & Hkind).
  destruct Hkind as [Hord | [Hep | Hcastle]].
  - destruct Hord as (Hno & _). congruence.
  - destruct Hep as (_ & _ & _ & Hpromo & Hpawn & Hempty & Htarget & _ & _
                      & Hcell & q & Hcap & Hq & Hcol).
    exists f, t, p, q.
    split; [rewrite Hfrom; now apply algebraicToIndex_indexToAlgebraic|].
    split; [rewrite Hto; now apply algebraicToIndex_indexToAlgebraic|].
    split; [exact Hp|].
    split; [destruct p as [c ty]; cbn in Hc, Hpawn; now subst|].
    split; [now rewrite Hto|]. split; [exact Hempty|]. split; [exact Hcap|].
    split; [now rewrite <- Hcell|]. split; [exact Hcol | exact Hpromo].
  - destruct Hcastle as (Hno & _). congruence.
Qed.

Lemma legal_en_passant_conditions_witness :
  exists f t p q,
    algebraicToIndex (from enPassantCapture) = Ok f
    /\ algebraicToIndex (to enPassantCapture) = Ok t
    /\ getB (board enPassantPosition) f = Some p
    /\ p = mkPiece (activeColor enPassantPosition) P
    /\ enPassantTarget enPassantPosition = Some (to enPassantCapture)
    /\ getB (board enPassantPosition) t = None
    /\ captured enPassantCapture = Some q
    /\ getB (board enPassantPosition) (f / 8 * 8 + Z.rem t 8) = Some q
    /\ pcolor q = oppositeColor (activeColor enPassantPosition)
    /\ promotion enPassantCapture = None.
Proof.
  apply (legal_en_passant_conditions enPassantPosition enPassantLegal
           enPassantCapture).
  - vm_compute. reflexivity.
  - vm_compute. repeat (first [left; reflexivity | right]).
  - reflexivity.
Defined.

Lemma filterLegal_keeps (st : RulesState) (pseudo : list Move) :
  forall legal m,
    filterLegal st pseudo = Ok legal ->
    In m pseudo ->
    leavesKingInCheck st m = Ok false ->
    In m legal.
Proof.
  induction pseudo as [|x pseudo IH]; intros legal m H Hin Hsafe;
    [destruct Hin|].
  cbn [filterLegal] in H.
  destruct (leavesKingInCheck st x) as [bad|] eqn:Hbad; [|discriminate].
  cbn [rbind] in H.
  destruct (filterLegal st pseudo) as [rest|] eqn:Hrest; [|discriminate].
  cbn [rbind] in H. apply Ok_inj in H. subst legal.
  destruct Hin as [->|Hin].
  - rewrite Hsafe in Hbad. apply Ok_inj in Hbad. subst bad. now left.
  - specialize (IH rest m eq_refl Hin Hsafe).
    destruct bad; cbn [negb]; [assumption | now right].
Qed.

Lemma findKingSquare_some (b : Board) (c : Color) (k : Z) :
  onBoard k ->
  getB b k = Some (kingOf c) ->
  (forall j, 0 <= j < k -> getB b j <> Some (kingOf c)) ->
  findKingSquare b c = Some (indexToAlgebraic k).
Proof.
  intros Hk Hget Hfirst. unfold findKingSquare.
  apply findKingLoop_some.
  - unfold onBoard in Hk. simpl. lia.
  - destruct c; exact Hget.
  - destruct c; exact Hfirst.
Qed.

Lemma leavesKingInCheck_safe (st : RulesState) (m : Move) (f t k : Z) :
  algebraicToIndex (from m) = Ok f ->
  algebraicToIndex (to m) = Ok t ->
  onBoard k ->
  getB (scratchBoard (board st) m f t) k = Some (kingOf (activeColor st)) ->
  (forall j, 0 <= j < k ->
             getB (scratchBoard (board st) m f t) j
             <> Some (kingOf (activeColor st))) ->
  squareAttackedAt (scratchBoard (board st) m f t) k
    (oppositeColor (activeColor st)) = false ->
  leavesKingInCheck st m = Ok false.
Proof.
  intros Hf Ht Hk Hget Hfirst Hatt.
  rewrite (leavesKingInCheck_indices st m f t Hf Ht).
  rewrite (findKingSquare_some _ _ k Hk Hget Hfirst).
  rewrite squareAttackedBy_onBoard by assumption.
  cbn [board]. now rewrite Hatt.
Qed.

(** X11: The filter is exact: of the pseudo-legal moves, the legal ones are
    those whose placement (origin cleared, target filled, en-passant pawn
    removed, castling rook relocated) holds a king of the side to move
    whose first cell is not attacked by the other side. *)
Theorem legal_moves_are_the_safe_moves (st : RulesState)
  (pseudo legal : list Move) (m : Move) :
  generatePseudoLegalMoves st = Ok pseudo ->
  generateLegalMoves st = Ok legal ->
  In m pseudo ->
  exists f t,
    algebraicToIndex (from m) = Ok f
    /\ algebraicToIndex (to m) = Ok t
    /\ (In m legal <->
        exists after k,
          (forall j, onBoard j ->
             getB after j = cellAfter (board st) (activeColor st) m f t j)
          /\ onBoard k
          /\ getB after k = Some (kingOf (activeColor st))
          /\ (forall j, 0 <= j < k ->
                        getB after j <> Some (kingOf (activeColor st)))
          /\ squareAttackedAt after k (oppositeColor (activeColor st)) = false).
Proof.
  intros Hps Hlegal Hin.
  pose proof (generatePseudoLegalMoves_wf st pseudo Hps) as Hwf.
  rewrite Forall_forall in Hwf. specialize (Hwf m Hin).
  destruct (scratchBoard_cells st m Hwf) as (f & t & Hf & Ht & Hcells).
  exists f, t. split; [exact Hf|]. split; [exact Ht|].
  split.
  - intros Hm.
    destruct (generateLegalMoves_kept _ _ _ Hlegal Hm) as (_ & _ & _ & Hsafe).
    destruct (leavesKingInCheck_false st m f t Hf Ht Hsafe)
      as (k & Hon & Hget & Hfirst & Hatt).
    exists (scratchBoard (board st) m f t), k.
    split; [intros j _; apply Hcells|].
    split; [exact Hon|]. split; [exact Hget|]. split; [exact Hfirst|].
    exact Hatt.
  - intros (after & k & Hafter & Hon & Hget & Hfirst & Hatt).
    assert (Hsame : forall j, onBoard j ->
              getB (scratchBoard (board st) m f t) j = getB after j)
      by (intros j Hj; rewrite Hafter, Hcells by assumption; reflexivity).
    assert (Hsafe : leavesKingInCheck st m = Ok false).
    { apply (leavesKingInCheck_safe st m f t k Hf Ht Hon).
      - rewrite Hsame by assumption. exact Hget.
      - intros j Hj. rewrite Hsame by (unfold onBoard in *; lia).
        now apply Hfirst.
      - rewrite (squareAttackedAt_same _ after Hsame). exact Hatt. }
    unfold generateLegalMoves in Hlegal. rewrite Hps in Hlegal.
    cbn [rbind] in Hlegal.
    now apply (filterLegal_keeps st pseudo legal m).
Qed.

Lemma legal_moves_are_the_safe_moves_witness :
  exists f t,
    algebraicToIndex (from pinnedCapture) = Ok f
    /\ algebraicToIndex (to pinnedCapture) = Ok t
    /\ (In pinnedCapture (legalMovesOf enPassantPin) <->
        exists after k,
          (forall j, onBoard j ->
             getB after j
             = cellAfter (board enPassantPin) (activeColor enPassantPin)
                 pinnedCapture f t j)
          /\ onBoard k
          /\ getB after k = Some (kingOf (activeColor enPassantPin))
          /\ (forall j, 0 <= j < k ->
                        getB after j
                        <> Some (kingOf (activeColor enPassantPin)))
          /\ squareAttackedAt after k
               (oppositeColor (activeColor enPassantPin)) = false).
Proof.
  apply (legal_moves_are_the_safe_moves enPassantPin
           (pseudoMovesOf enPassantPin) (legalMovesOf enPassantPin)
           pinnedCapture).
  - vm_compute. reflexivity.
  - vm_compute. reflexivity.
  - vm_compute. repeat (first [left; reflexivity | right]).
Defined.

(* ------------------------------------------------------------------ *)
(** ** GameState.js: what [applyMove] changes *)

Lemma updateCastlingRights_spec (s : GameState.t) (m : Move) (f t : Z)
  (mp : option Piece) (c : option Color) :
  GameState.updateCastlingRights s m f t mp c
  = Ok (GameState.set_castlingRights s
          (let cr := GameState.castlingRights s in
           let b := GameState.board s in
           mkCastlingRights
             (mkSideRights
                (keepsRight (kingSide (whiteRights cr)) mp m wK "h1"
                 && GameState.optPiece_eqb (getB b 7) wR)
                (keepsRight (queenSide (whiteRights cr)) mp m wK "a1"
                 && GameState.optPiece_eqb (getB b 0) wR))
             (mkSideRights
                (keepsRight (kingSide (blackRights cr)) mp m bK "h8"
                 && GameState.optPiece_eqb (getB b 63) bR)
                (keepsRight (queenSide (blackRights cr)) mp m bK "a8"
                 && GameState.optPiece_eqb (getB b 56) bR)))).
Proof.
  unfold GameState.updateCastlingRights.
  change (algebraicToIndex "h1") with (@Ok Z 7).
  change (algebraicToIndex "a1") with (@Ok Z 0).
  change (algebraicToIndex "h8") with (@Ok Z 63).
  change (algebraicToIndex "a8") with (@Ok Z 56).
  cbn [rbind]. cbv zeta. unfold keepsRight.
  destruct (GameState.optPiece_eqb mp wK), (GameState.optPiece_eqb mp bK);
    cbv iota beta; do 2 f_equal; f_equal; f_equal;
    repeat match goal with
           | |- context [if negb ?c then _ else _] => destruct c; cbn [negb]
           | |- context [if ?a || ?b then _ else _] => destruct a; cbn [orb]
           | |- context [if ?c then _ else _] => destruct c
           end;
    cbn [negb andb orb]; rewrite ?andb_true_r, ?andb_false_r; reflexivity.
Qed.

Lemma buildRepetitionKey_record (s : GameState.t) :
  GameState.buildRepetitionKey (GameState.recordRepetitionKey s)
  = GameState.buildRepetitionKey s.
Proof. reflexivity. Qed.

Lemma recordRepetitionKey_map (s : GameState.t) :
  GameState.repetitionMap (GameState.recordRepetitionKey s)
  = mapSet (GameState.repetitionMap s) (GameState.buildRepetitionKey s)
      (GameState.numOr
         (mapGet (GameState.repetitionMap s) (GameState.buildRepetitionKey s)) 0
       + 1).
Proof. reflexivity. Qed.

(** The state [applyMove] has built when it records the position, field
    by field. *)
Lemma applyMoveCore_fields (s s1 : GameState.t) (m : Move) (f t : Z) (mp : Piece) :
  algebraicToIndex (from m) = Ok f ->
  algebraicToIndex (to m) = Ok t ->
  getB (GameState.board s) f = Some mp ->
  GameState.applyMoveCore s m = Ok s1 ->
  GameState.board s1
  = GameState.placeMoved
      (GameState.relocateRook
         (GameState.removePassedPawn (setB (GameState.board s) f None) m
            (Some (pcolor mp)) t)
         m (Some (pcolor mp)))
      m (Some (pcolor mp)) t (Some mp)
  /\ GameState.activeColor s1 = oppositeColor (pcolor mp)
  /\ GameState.playerColor s1 = GameState.playerColor s
  /\ GameState.castlingRights s1
     = (let cr := GameState.castlingRights s in
        let b := GameState.board s1 in
        mkCastlingRights
          (mkSideRights
             (keepsRight (kingSide (whiteRights cr)) (Some mp) m wK "h1"
              && GameState.optPiece_eqb (getB b 7) wR)
             (keepsRight (queenSide (whiteRights cr)) (Some mp) m wK "a1"
              && GameState.optPiece_eqb (getB b 0) wR))
          (mkSideRights
             (keepsRight (kingSide (blackRights cr)) (Some mp) m bK "h8"
              && GameState.optPiece_eqb (getB b 63) bR)
             (keepsRight (queenSide (blackRights cr)) (Some mp) m bK "a8"
              && GameState.optPiece_eqb (getB b 56) bR)))
  /\ GameState.enPassantTarget s1
     = (if isDoubleStep mp f t
        then Some (indexToAlgebraic ((f / 8 + t / 8) / 2 * 8 + Z.rem t 8))
        else None)
  /\ GameState.halfmoveClock s1
     = (if restartsCount mp m then 0 else GameState.halfmoveClock s + 1)
  /\ GameState.fullmoveNumber s1
     = (if Color_eqb (pcolor mp) black
        then GameState.fullmoveNumber s + 1 else GameState.fullmoveNumber s)
  /\ (exists san, GameState.moveHistory s1 = GameState.moveHistory s ++ [san])
  /\ GameState.result s1 = GameState.result s
  /\ GameState.lastMove s1 = Some (from m, to m)
  /\ GameState.repetitionMap s1
     = mapSet (GameState.repetitionMap s) (GameState.buildRepetitionKey s1)
         (GameState.numOr
            (mapGet (GameState.repetitionMap s) (GameState.buildRepetitionKey s1))
            0 + 1)
  /\ GameState.selectedSquare s1 = GameState.selectedSquare s
  /\ GameState.cachedLegalTargets s1 = GameState.cachedLegalTargets s.
Proof.
  intros Hf Ht Hmp. unfold GameState.applyMoveCore.
  rewrite Hf, Ht. cbn [rbind]. cbv zeta. rewrite Hmp.
  match goal with
  | |- rbind (GameState.updateCastlingRights ?S0 _ _ _ _ _) _ = _ -> _ =>
      remember S0 as s0 eqn:Es0
  end.
  rewrite updateCastlingRights_spec. cbn [rbind].
  match goal with
  | |- rbind ?c _ = _ -> _ => destruct c as [san|]; [|discriminate]
  end.
  cbn [rbind]. intros H. apply Ok_inj in H. subst s1.
  rewrite buildRepetitionKey_record, recordRepetitionKey_map.
  assert (Hs0 :
    GameState.board s0
    = GameState.placeMoved
        (GameState.relocateRook
           (GameState.removePassedPawn (setB (GameState.board s) f None) m
              (Some (pcolor mp)) t)
           m (Some (pcolor mp)))
        m (Some (pcolor mp)) t (Some mp)
    /\ GameState.playerColor s0 = GameState.playerColor s
    /\ GameState.castlingRights s0 = GameState.castlingRights s
    /\ GameState.enPassantTarget s0
       = (if isDoubleStep mp f t
          then Some (indexToAlgebraic ((f / 8 + t / 8) / 2 * 8 + Z.rem t 8))
          else None)
    /\ GameState.halfmoveClock s0
       = (if restartsCount mp m then 0 else GameState.halfmoveClock s + 1)
    /\ GameState.fullmoveNumber s0 = GameState.fullmoveNumber s
    /\ GameState.moveHistory s0 = GameState.moveHistory s
    /\ GameState.result s0 = GameState.result s
    /\ GameState.repetitionMap s0 = GameState.repetitionMap s
    /\ GameState.selectedSquare s0 = GameState.selectedSquare s
    /\ GameState.cachedLegalTargets s0 = GameState.cachedLegalTargets s).
  { subst s0.
    unfold isDoubleStep, restartsCount, GameState.indexFR, getColorOf.
    destruct (PieceType_eqb (ptype mp) P);
      destruct (isSome (captured m) || isEnPassant m);
      destruct (Z.abs (t / 8 - f / 8) =? 2);
      cbn [orb andb
           GameState.board GameState.activeColor GameState.playerColor
           GameState.castlingRights GameState.enPassantTarget
           GameState.halfmoveClock GameState.fullmoveNumber
           GameState.moveHistory GameState.result GameState.lastMove
           GameState.repetitionMap GameState.selectedSquare
           GameState.cachedLegalTargets
           GameState.set_board GameState.set_enPassantTarget
           GameState.set_halfmoveClock];
      repeat (split; [reflexivity|]); reflexivity. }
  clear Es0.
  destruct Hs0 as (Hb & Hpc & Hcr & Hep & Hhm & Hfm & Hmh & Hres & Hrm & Hsel
                   & Hct).
  unfold getColorOf, oppositeColorOf, isWhite, optColor_eqb.
  destruct (pcolor mp);
    cbn [Color_eqb oppositeColor
         GameState.board GameState.activeColor GameState.playerColor
         GameState.castlingRights GameState.enPassantTarget
         GameState.halfmoveClock GameState.fullmoveNumber
         GameState.moveHistory GameState.result GameState.lastMove
         GameState.repetitionMap GameState.selectedSquare
         GameState.cachedLegalTargets
         GameState.set_activeColor GameState.set_castlingRights
         GameState.set_fullmoveNumber GameState.set_moveHistory
         GameState.set_lastMove GameState.set_repetitionMap
         GameState.set_lastMoveText GameState.recordRepetitionKey];
    rewrite ?Hb, ?Hpc, ?Hcr, ?Hep, ?Hhm, ?Hfm, ?Hmh, ?Hres, ?Hrm, ?Hsel, ?Hct;
    (split; [reflexivity|]); (split; [reflexivity|]);
    (split; [reflexivity|]); (split; [reflexivity|]);
    (split; [reflexivity|]); (split; [reflexivity|]);
    (split; [reflexivity|]); (split; [eexists; reflexivity|]);
    (split; [reflexivity|]); (split; [reflexivity|]);
    (split; [reflexivity|]); split; reflexivity.
Qed.

Lemma applyMove_core (s s' : GameState.t) (m : Move) :
  GameState.isGameOver s = false ->
  GameState.applyMove s m = Ok s' ->
  exists s1 r txt,
    GameState.applyMoveCore s m = Ok s1
    /\ s' = GameState.set_statusText (GameState.set_result s1 r) txt.
Proof.
  intros Hover H. unfold GameState.applyMove in H. rewrite Hover in H.
  destruct (GameState.applyMoveCore s m) as [s1|] eqn:Hcore; [|discriminate].
  cbn [rbind] in H.
  destruct (GameState.updateResult s1) as [s2|] eqn:Hres; [|discriminate].
  cbn [rbind] in H. apply Ok_inj in H. subst s'.
  exists s1, (GameState.result s2),
    (GameState.statusText (GameState.updateStatusText s2)).
  split; [reflexivity|].
  rewrite updateStatusText_only_status.
  now rewrite (updateResult_only_result _ _ Hres) at 1.
Qed.

Lemma legal_move_indices (s : GameState.t) (legal : list Move) (m : Move) :
  generateLegalMoves (GameState.asRulesState s) = Ok legal ->
  In m legal ->
  WellFormed (GameState.asRulesState s) m
  /\ exists f t mp,
       onBoard f /\ onBoard t
       /\ from m = indexToAlgebraic f /\ to m = indexToAlgebraic t
       /\ algebraicToIndex (from m) = Ok f
       /\ algebraicToIndex (to m) = Ok t
       /\ getB (GameState.board s) f = Some mp
       /\ pcolor mp = GameState.activeColor s
       /\ piece m = Some mp.
Proof.
  intros Hlegal Hin.
  pose proof (legal_wellFormed _ _ _ Hlegal Hin) as Hwf.
  split; [exact Hwf|].
  destruct Hwf as (f & t & p & Hf & Ht & _ & Hfrom & Hto & Hp & Hc & Hpiece & _).
  exists f, t, p.
  split; [exact Hf|]. split; [exact Ht|].
  split; [exact Hfrom|]. split; [exact Hto|].
  split; [rewrite Hfrom; now apply algebraicToIndex_indexToAlgebraic|].
  split; [rewrite Hto; now apply algebraicToIndex_indexToAlgebraic|].
  split; [exact Hp|]. split; [exact Hc | exact Hpiece].
Qed.

(** X12: On a game that is not finished a legal move is applied, and the
    bookkeeping follows the rules: the turn passes to the other side, the
    move number goes up after Black's move, the fifty-move count restarts
    on a pawn move or a capture and goes up by one otherwise, the move is
    remembered as the last move, the history gains one entry, and the
    moves of the new position can be generated. *)
Theorem applyMove_bookkeeping (s : GameState.t) (legal : list Move) (m : Move) :
  GameState.isGameOver s = false ->
  generateLegalMoves (GameState.asRulesState s) = Ok legal ->
  In m legal ->
  exists s' mp san legal',
    GameState.applyMove s m = Ok s'
    /\ piece m = Some mp
    /\ GameState.activeColor s' = oppositeColor (GameState.activeColor s)
    /\ GameState.playerColor s' = GameState.playerColor s
    /\ GameState.fullmoveNumber s'
       = (if Color_eqb (GameState.activeColor s) black
          then GameState.fullmoveNumber s + 1 else GameState.fullmoveNumber s)
    /\ GameState.halfmoveClock s'
       = (if restartsCount mp m then 0 else GameState.halfmoveClock s + 1)
    /\ GameState.lastMove s' = Some (from m, to m)
    /\ GameState.moveHistory s' = GameState.moveHistory s ++ [san]
    /\ generateLegalMoves (GameState.asRulesState s') = Ok legal'.
Proof.
  intros Hover Hlegal Hin.
  destruct (applyMove_returns s legal m Hlegal Hin) as [s' Happ].
  destruct (legal_move_indices s legal m Hlegal Hin)
    as (_ & f & t & mp & Hf & Ht & Hfrom & Hto & Hfi & Hti & Hmp & Hc & Hpiece).
  destruct (applyMove_core s s' m Hover Happ) as (s1 & r & txt & Hcore & ->).
  destruct (applyMoveCore_returns s m f t mp Hf Ht Hfrom Hto Hmp)
    as (s1' & Hcore' & Hep).
  rewrite Hcore in Hcore'. apply Ok_inj in Hcore'. subst s1'.
  destruct (applyMoveCore_fields s s1 m f t mp Hfi Hti Hmp Hcore)
    as (_ & Hac & Hpc & _ & _ & Hhm & Hfm & (san & Hmh) & _ & Hlm & _).
  destruct (generateLegalMoves_total
              (GameState.asRulesState
                 (GameState.set_statusText (GameState.set_result s1 r) txt)))
    as (legal' & Hlegal' & _); [exact Hep|].
  exists (GameState.set_statusText (GameState.set_result s1 r) txt), mp, san,
    legal'.
  split; [exact Happ|]. split; [exact Hpiece|].
  cbn [GameState.activeColor GameState.playerColor GameState.fullmoveNumber
       GameState.halfmoveClock GameState.lastMove GameState.moveHistory
       GameState.set_statusText GameState.set_result].
  rewrite <- Hc.
  split; [exact Hac|]. split; [exact Hpc|]. split; [exact Hfm|].
  split; [exact Hhm|]. split; [exact Hlm|]. split; [exact Hmh|].
  exact Hlegal'.
Qed.

Lemma applyMove_bookkeeping_witness :
  exists s' mp san legal',
    GameState.applyMove startingState pawnToE4 = Ok s'
    /\ piece pawnToE4 = Some mp
    /\ GameState.activeColor s'
       = oppositeColor (GameState.activeColor startingState)
    /\ GameState.playerColor s' = GameState.playerColor startingState
    /\ GameState.fullmoveNumber s'
       = (if Color_eqb (GameState.activeColor startingState) black
          then GameState.fullmoveNumber startingState + 1
          else GameState.fullmoveNumber startingState)
    /\ GameState.halfmoveClock s'
       = (if restartsCount mp pawnToE4 then 0
          else GameState.halfmoveClock startingState + 1)
    /\ GameState.lastMove s' = Some (from pawnToE4, to pawnToE4)
    /\ GameState.moveHistory s' = GameState.moveHistory startingState ++ [san]
    /\ generateLegalMoves (GameState.asRulesState s') = Ok legal'.
Proof.
  apply (applyMove_bookkeeping startingState startingLegal pawnToE4).
  - reflexivity.
  - vm_compute. reflexivity.
  - vm_compute. repeat (first [left; reflexivity | right]).
Defined.

Lemma double_step_legal (st : RulesState) (m : Move) (f t : Z) (p : Piece) :
  onBoard f -> onBoard t ->
  from m = indexToAlgebraic f -> to m = indexToAlgebraic t ->
  getB (board st) f = Some p ->
  WellFormed st m ->
  isDoubleStep p f t
  = PieceType_eqb (ptype p) P && (t =? f + 16 * pawnDir (activeColor st))
  /\ (t = f + 16 * pawnDir (activeColor st) ->
      (f / 8 + t / 8) / 2 * 8 + Z.rem t 8 = f + 8 * pawnDir (activeColor st)).
Proof.
  intros Hf Ht Hfrom Hto Hp
    (f' & t' & p' & Hf' & Ht' & _ & Hfrom' & Hto' & Hp' & _ & _ & Hkind).
  assert (f' = f)
    by (apply indexToAlgebraic_injective; [assumption.. | congruence]).
  subst f'.
  assert (t' = t)
    by (apply indexToAlgebraic_injective; [assumption.. | congruence]).
  subst t'.
  assert (p' = p) by congruence. subst p'.
  pose proof (onBoard_file_rank f Hf) as [Hff Hfr].
  pose proof (onBoard_file_rank t Ht) as [Htf Htr].
  assert (Hdir : pawnDir (activeColor st) = 1 \/ pawnDir (activeColor st) = -1)
    by (unfold pawnDir; destruct (activeColor st); lia).
  assert (Hdf : f = 8 * (f / 8) + Z.rem f 8).
  { rewrite Z.rem_mod_nonneg by (unfold onBoard in Hf; lia).
    apply Z.div_mod. lia. }
  assert (Hdt : t = 8 * (t / 8) + Z.rem t 8).
  { rewrite Z.rem_mod_nonneg by (unfold onBoard in Ht; lia).
    apply Z.div_mod. lia. }
  assert (Hmid : forall a, (a + (a + 2)) / 2 = a + 1
                           /\ (a + (a + -2)) / 2 = a + -1).
  { intros a. split.
    - replace (a + (a + 2)) with (0 + (a + 1) * 2) by lia.
      now rewrite Z.div_add by lia.
    - replace (a + (a + -2)) with (0 + (a + -1) * 2) by lia.
      now rewrite Z.div_add by lia. }
  split.
  - unfold isDoubleStep.
    destruct (PieceType_eqb (ptype p) P) eqn:Hpawn; [|reflexivity].
    apply PieceType_eqb_eq in Hpawn. cbn [andb].
    destruct Hkind as [Hord | [Hep | Hcastle]].
    + destruct Hord as (_ & _ & _ & _ & _ & _ & _ & Hgeo).
      destruct (Hgeo Hpawn) as [Hone | Htwo].
      * replace (Z.abs (t / 8 - f / 8) =? 2) with false
          by (symmetry; apply Z.eqb_neq; lia).
        symmetry. apply Z.eqb_neq. intros E. lia.
      * replace (Z.abs (t / 8 - f / 8) =? 2) with true
          by (symmetry; apply Z.eqb_eq; lia).
        symmetry. now apply Z.eqb_eq.
    + destruct Hep as (_ & _ & _ & _ & _ & _ & _ & _ & _ & Hcell & _).
      unfold captureCell in Hcell.
      assert (Hone : t / 8 = f / 8 + pawnDir (activeColor st))
        by (unfold pawnDir in *; destruct (activeColor st); lia).
      replace (Z.abs (t / 8 - f / 8) =? 2) with false
        by (symmetry; apply Z.eqb_neq; lia).
      symmetry. apply Z.eqb_neq. intros E. lia.
    + destruct Hcastle as (_ & _ & _ & Hking & _). congruence.
  - intros E.
    assert (Ht8 : t / 8 = f / 8 + 2 * pawnDir (activeColor st)) by lia.
    assert (Htr8 : Z.rem t 8 = Z.rem f 8) by lia.
    rewrite Ht8, Htr8.
    destruct Hdir as [-> | ->].
    + replace (f / 8 + (f / 8 + 2 * 1)) with (f / 8 + (f / 8 + 2)) by lia.
      rewrite (proj1 (Hmid (f / 8))). lia.
    + replace (f / 8 + (f / 8 + 2 * -1)) with (f / 8 + (f / 8 + -2)) by lia.
      rewrite (proj2 (Hmid (f / 8))). lia.
Qed.

(** X13: After a legal move the en-passant target is set exactly when a pawn
    has advanced two ranks, and it is then the square the pawn has passed
    over. *)
Theorem applyMove_en_passant_target (s : GameState.t) (legal : list Move)
  (m : Move) :
  GameState.isGameOver s = false ->
  generateLegalMoves (GameState.asRulesState s) = Ok legal ->
  In m legal ->
  exists s' f t mp,
    GameState.applyMove s m = Ok s'
    /\ algebraicToIndex (from m) = Ok f
    /\ algebraicToIndex (to m) = Ok t
    /\ piece m = Some mp
    /\ GameState.enPassantTarget s'
       = (if PieceType_eqb (ptype mp) P
             && (t =? f + 16 * pawnDir (GameState.activeColor s))
          then Some (indexToAlgebraic (f + 8 * pawnDir (GameState.activeColor s)))
          else None).
Proof.
  intros Hover Hlegal Hin.
  destruct (applyMove_returns s legal m Hlegal Hin) as [s' Happ].
  destruct (legal_move_indices s legal m Hlegal Hin)
    as (Hwf & f & t & mp & Hf & Ht & Hfrom & Hto & Hfi & Hti & Hmp & Hc & Hpiece).
  destruct (applyMove_core s s' m Hover Happ) as (s1 & r & txt & Hcore & ->).
  destruct (applyMoveCore_fields s s1 m f t mp Hfi Hti Hmp Hcore)
    as (_ & _ & _ & _ & Hep & _).
  destruct (double_step_legal (GameState.asRulesState s) m f t mp Hf Ht Hfrom
              Hto Hmp Hwf) as [Hdouble Hmid].
  cbn [activeColor GameState.asRulesState] in Hdouble, Hmid.
  exists (GameState.set_statusText (GameState.set_result s1 r) txt), f, t, mp.
  split; [exact Happ|]. split; [exact Hfi|]. split; [exact Hti|].
  split; [exact Hpiece|].
  cbn [GameState.enPassantTarget GameState.set_statusText GameState.set_result].
  rewrite Hep, Hdouble.
  destruct (PieceType_eqb (ptype mp) P); [|reflexivity]. cbn [andb].
  destruct (t =? f + 16 * pawnDir (GameState.activeColor s)) eqn:E;
    [|reflexivity].
  apply Z.eqb_eq in E. now rewrite (Hmid E).
Qed.

Lemma applyMove_en_passant_target_witness :
  exists s' f t mp,
    GameState.applyMove startingState pawnToE4 = Ok s'
    /\ algebraicToIndex (from pawnToE4) = Ok f
    /\ algebraicToIndex (to pawnToE4) = Ok t
    /\ piece pawnToE4 = Some mp
    /\ GameState.enPassantTarget s'
       = (if PieceType_eqb (ptype mp) P
             && (t =? f + 16 * pawnDir (GameState.activeColor startingState))
          then Some (indexToAlgebraic
                       (f + 8 * pawnDir (GameState.activeColor startingState)))
          else None).
Proof.
  apply (applyMove_en_passant_target startingState startingLegal pawnToE4).
  - reflexivity.
  - vm_compute. reflexivity.
  - vm_compute. repeat (first [left; reflexivity | right]).
Defined.

(** X14: A castling right is never regained.  After a move a right is held
    exactly when it was held before, the piece that moved is not the king
    of that side, the move neither started nor ended on the corner of the
    right, and a rook of that side stands on the corner. *)
Theorem applyMove_castling_rights (s s' : GameState.t) (m : Move) :
  GameState.isGameOver s = false ->
  GameState.applyMove s m = Ok s' ->
  exists f mp,
    algebraicToIndex (from m) = Ok f
    /\ getB (GameState.board s) f = Some mp
    /\ (let cr := GameState.castlingRights s in
        let cr' := GameState.castlingRights s' in
        let b' := GameState.board s' in
        kingSide (whiteRights cr')
        = keepsRight (kingSide (whiteRights cr)) (Some mp) m wK "h1"
          && GameState.optPiece_eqb (getB b' 7) wR
        /\ queenSide (whiteRights cr')
           = keepsRight (queenSide (whiteRights cr)) (Some mp) m wK "a1"
             && GameState.optPiece_eqb (getB b' 0) wR
        /\ kingSide (blackRights cr')
           = keepsRight (kingSide (blackRights cr)) (Some mp) m bK "h8"
             && GameState.optPiece_eqb (getB b' 63) bR
        /\ queenSide (blackRights cr')
           = keepsRight (queenSide (blackRights cr)) (Some mp) m bK "a8"
             && GameState.optPiece_eqb (getB b' 56) bR
        /\ (forall color,
              (kingSide (rightsOf cr' color) = true ->
               kingSide (rightsOf cr color) = true)
              /\ (queenSide (rightsOf cr' color) = true ->
                  queenSide (rightsOf cr color) = true))).
Proof.
  intros Hover Happ.
  destruct (applyMove_core s s' m Hover Happ) as (s1 & r & txt & Hcore & ->).
  destruct (applyMoveCore_inv _ _ _ Hcore) as (f & t & mp & Hfi & Hti & Hmp & _).
  destruct (applyMoveCore_fields s s1 m f t mp Hfi Hti Hmp Hcore)
    as (_ & _ & _ & Hcr & _).
  exists f, mp. split; [exact Hfi|]. split; [exact Hmp|].
  cbv zeta.
  cbn [GameState.castlingRights GameState.board GameState.set_statusText
       GameState.set_result].
  rewrite Hcr. cbv zeta. cbn [whiteRights blackRights kingSide queenSide].
  repeat (split; [reflexivity|]).
  intros color. unfold keepsRight.
  destruct color; cbn [rightsOf whiteRights blackRights kingSide queenSide];
    split; intros H;
    repeat (apply andb_prop in H; destruct H as [H _]); exact H.
Qed.

Lemma applyMove_castling_rights_witness :
  exists f mp,
    algebraicToIndex (from pawnToE4) = Ok f
    /\ getB (GameState.board startingState) f = Some mp
    /\ (let cr := GameState.castlingRights startingState in
        let cr' := GameState.castlingRights (applyMoves startingState [pawnToE4]) in
        let b' := GameState.board (applyMoves startingState [pawnToE4]) in
        kingSide (whiteRights cr')
        = keepsRight (kingSide (whiteRights cr)) (Some mp) pawnToE4 wK "h1"
          && GameState.optPiece_eqb (getB b' 7) wR
        /\ queenSide (whiteRights cr')
           = keepsRight (queenSide (whiteRights cr)) (Some mp) pawnToE4 wK "a1"
             && GameState.optPiece_eqb (getB b' 0) wR
        /\ kingSide (blackRights cr')
           = keepsRight (kingSide (blackRights cr)) (Some mp) pawnToE4 bK "h8"
             && GameState.optPiece_eqb (getB b' 63) bR
        /\ queenSide (blackRights cr')
           = keepsRight (queenSide (blackRights cr)) (Some mp) pawnToE4 bK "a8"
             && GameState.optPiece_eqb (getB b' 56) bR
        /\ (forall color,
              (kingSide (rightsOf cr' color) = true ->
               kingSide (rightsOf cr color) = true)
              /\ (queenSide (rightsOf cr' color) = true ->
                  queenSide (rightsOf cr color) = true))).
Proof.
  apply (applyMove_castling_rights startingState
           (applyMoves startingState [pawnToE4]) pawnToE4).
  - reflexivity.
  - vm_compute. reflexivity.
Defined.


(* ------------------------------------------------------------------ *)
(** ** The game and the search make the same move *)

(** [applyMove] and [applyMoveSearch] write the same cells when the
    piece that moves has the colour of the mover. *)
Lemma placeMoved_movedBoard (b : Board) (m : Move) (f t : Z) (mp : Piece) :
  getB b f = Some mp ->
  GameState.placeMoved
    (GameState.relocateRook
       (GameState.removePassedPawn (setB b f None) m (Some (pcolor mp)) t)
       m (Some (pcolor mp)))
    m (Some (pcolor mp)) t (Some mp)
  = AI.movedBoard b m (pcolor mp) f t.
Proof.
  intros Hmp.
  unfold GameState.placeMoved, GameState.relocateRook,
    GameState.removePassedPawn, AI.movedBoard, GameState.indexFR.
  rewrite Hmp. cbn [isWhite].
  destruct (pcolor mp); cbn [Color_eqb];
    destruct (isEnPassant m), (isCastleKingSide m), (isCastleQueenSide m),
      (promotion m); reflexivity.
Qed.

(** On the moves of the generators [applyMoveSearch] makes the placement
    the specification describes. *)
Lemma movedBoard_cells (st : RulesState) (m : Move) :
  WellFormed st m ->
  exists f t,
    algebraicToIndex (from m) = Ok f
    /\ algebraicToIndex (to m) = Ok t
    /\ forall j,
         getB (AI.movedBoard (board st) m (activeColor st) f t) j
         = cellAfter (board st) (activeColor st) m f t j.
Proof.
  intros (f & t & p & Hf & Ht & Hne & Hfrom & Hto & Hp & Hc & Hpiece & Hkind).
  exists f, t.
  split; [rewrite Hfrom; now apply algebraicToIndex_indexToAlgebraic|].
  split; [rewrite Hto; now apply algebraicToIndex_indexToAlgebraic|].
  intros j. unfold AI.movedBoard, cellAfter.
  assert (H0f : 0 <= f) by (unfold onBoard in Hf; lia).
  assert (H0t : 0 <= t) by (unfold onBoard in Ht; lia).
  destruct Hkind as [Hord | [Hep | Hcastle]].
  - destruct Hord as (-> & -> & -> & _).
    cbn [orb andb].
    destruct (Z.eqb_spec j f) as [->|Hjf];
      [destruct (promotion m); now cells|].
    destruct (Z.eqb_spec j t) as [->|Hjt];
      [destruct (promotion m); cells; congruence|].
    destruct (promotion m); now cells.
  - destruct Hep as (-> & -> & -> & -> & _ & Hempty & _ & Hcap & Hcapf & _
                      & q & _ & Hq & _).
    cbn [orb andb].
    assert (Hcell : (t / 8 + match activeColor st with
                             | white => -1 | black => 1 end) * 8
                    + Z.rem t 8 = captureCell (activeColor st) t)
      by reflexivity.
    rewrite Hcell.
    assert (Hcapt : captureCell (activeColor st) t <> t) by congruence.
    assert (H0c : 0 <= captureCell (activeColor st) t)
      by (unfold onBoard in Hcap; lia).
    destruct (Z.eqb_spec j f) as [->|Hjf]; [now cells|].
    destruct (Z.eqb_spec j t) as [->|Hjt]; [cells; congruence|].
    destruct (Z.eqb_spec j (captureCell (activeColor st) t)) as [->|Hjc];
      now cells.
  - destruct Hcastle as (-> & _ & -> & _ & Hhome & _ & Hside).
    set (home := homeRank (activeColor st)) in *.
    assert (Hrank : match activeColor st with white => 0 | black => 7 end
                    = home)
      by (unfold home, homeRank; now destruct (activeColor st)).
    assert (H0h : 0 <= home)
      by (unfold home, homeRank; destruct (activeColor st); lia).
    cbn [andb]. rewrite Hrank.
    destruct Hside as [(-> & -> & -> & _) | (-> & -> & -> & _)];
      cbn [orb andb].
    + destruct (Z.eqb_spec j f) as [->|Hjf]; [now cells|].
      destruct (Z.eqb_spec j (home * 8 + 6)) as [->|Hjt]; [cells; congruence|].
      destruct (Z.eqb_spec j (home * 8 + 7)) as [->|Hj7]; [now cells|].
      destruct (Z.eqb_spec j (home * 8 + 5)) as [->|Hj5]; now cells.
    + destruct (Z.eqb_spec j f) as [->|Hjf]; [now cells|].
      destruct (Z.eqb_spec j (home * 8 + 2)) as [->|Hjt]; [cells; congruence|].
      destruct (Z.eqb_spec j (home * 8 + 0)) as [->|Hj0]; [now cells|].
      destruct (Z.eqb_spec j (home * 8 + 3)) as [->|Hj3]; now cells.
Qed.

Lemma if_false_else (c x : bool) : (if c then false else x) = x && negb c.
Proof. now destruct c, x. Qed.

(** The castling rights [updateCastlingRightsSearch] leaves. *)
Lemma updateCastlingRightsSearch_spec (st : AI.SearchState) (m : Move)
  (f t : Z) (mp : Piece) :
  onBoard f -> onBoard t ->
  from m = indexToAlgebraic f -> to m = indexToAlgebraic t ->
  AI.updateCastlingRightsSearch st m f t (Some mp)
  = Ok (AI.mkSearchState (AI.board st) (AI.activeColor st)
          (let cr := AI.castlingRights st in
           mkCastlingRights
             (mkSideRights
                (keepsRight (kingSide (whiteRights cr)) (Some mp) m wK "h1")
                (keepsRight (queenSide (whiteRights cr)) (Some mp) m wK "a1"))
             (mkSideRights
                (keepsRight (kingSide (blackRights cr)) (Some mp) m bK "h8")
                (keepsRight (queenSide (blackRights cr)) (Some mp) m bK "a8")))
          (AI.enPassantTarget st) (AI.halfmoveClock st) (AI.fullmoveNumber st)).
Proof.
  intros Hf Ht Hfrom Hto. unfold AI.updateCastlingRightsSearch.
  rewrite !indexToAlgebraicFast_onBoard by assumption. cbn [rbind].
  rewrite <- Hfrom, <- Hto. unfold keepsRight.
  unfold wK, bK.
  destruct mp as [[] []];
    cbn [GameState.optPiece_eqb Piece_eqb Color_eqb PieceType_eqb pcolor ptype
         andb negb];
    rewrite !if_false_else, ?andb_true_r, ?andb_false_r;
    reflexivity.
Qed.

(** The state [applyMoveSearch] leaves, member by member. *)
Lemma applyMoveSearch_fields (st : AI.SearchState) (m : Move) (mover : Color)
  (f t : Z) (mp : Piece) :
  onBoard f -> onBoard t ->
  from m = indexToAlgebraic f -> to m = indexToAlgebraic t ->
  getB (AI.board st) f = Some mp ->
  AI.applyMoveSearch st m mover
  = Ok (AI.mkSearchState
          (AI.movedBoard (AI.board st) m mover f t)
          (oppositeColor mover)
          (let cr := AI.castlingRights st in
           mkCastlingRights
             (mkSideRights
                (keepsRight (kingSide (whiteRights cr)) (Some mp) m wK "h1")
                (keepsRight (queenSide (whiteRights cr)) (Some mp) m wK "a1"))
             (mkSideRights
                (keepsRight (kingSide (blackRights cr)) (Some mp) m bK "h8")
                (keepsRight (queenSide (blackRights cr)) (Some mp) m bK "a8")))
          (if isDoubleStep mp f t
           then Some (indexToAlgebraic ((f / 8 + t / 8) / 2 * 8 + Z.rem t 8))
           else None)
          (if restartsCount mp m then 0 else AI.halfmoveClock st + 1)
          (if Color_eqb mover black then AI.fullmoveNumber st + 1
           else AI.fullmoveNumber st)).
Proof.
  intros Hf Ht Hfrom Hto Hmp. unfold AI.applyMoveSearch.
  rewrite Hfrom, Hto.
  rewrite !algebraicToIndexFast_indexToAlgebraic by assumption.
  cbn [rbind]. rewrite Hmp.
  pose proof (onBoard_file_rank f Hf) as [_ Hfr].
  pose proof (onBoard_file_rank t Ht) as [Htf Htr].
  remember (AI.movedBoard (AI.board st) m mover f t) as b' eqn:Eb. clear Eb.
  unfold isDoubleStep, restartsCount.
  destruct (PieceType_eqb (ptype mp) P); cbn [andb orb].
  - destruct (Z.abs (t / 8 - f / 8) =? 2) eqn:Htwo.
    + apply Z.eqb_eq in Htwo.
      assert (Hmid : onBoard ((f / 8 + t / 8) / 2 * 8 + Z.rem t 8)).
      { apply cell_onBoard; [|assumption].
        assert (0 <= (f / 8 + t / 8) / 2) by (apply Z.div_pos; lia).
        assert ((f / 8 + t / 8) / 2 < 8) by (apply Z.div_lt_upper_bound; lia).
        lia. }
      rewrite indexToAlgebraicFast_onBoard by assumption. cbn [rbind].
      rewrite (updateCastlingRightsSearch_spec _ m f t mp Hf Ht Hfrom Hto).
      reflexivity.
    + cbn [rbind].
      rewrite (updateCastlingRightsSearch_spec _ m f t mp Hf Ht Hfrom Hto).
      reflexivity.
  - cbn [rbind].
    rewrite (updateCastlingRightsSearch_spec _ m f t mp Hf Ht Hfrom Hto).
    reflexivity.
Qed.

(** The indices of a generated move are the ones its squares name. *)
Lemma wellFormed_indices (st : RulesState) (m : Move) (f t : Z) :
  WellFormed st m ->
  algebraicToIndex (from m) = Ok f ->
  algebraicToIndex (to m) = Ok t ->
  exists p,
    onBoard f /\ onBoard t /\ f <> t
    /\ from m = indexToAlgebraic f /\ to m = indexToAlgebraic t
    /\ getB (board st) f = Some p /\ pcolor p = activeColor st
    /\ piece m = Some p.
Proof.
  intros (f' & t' & p & Hf & Ht & Hne & Hfrom & Hto & Hp & Hc & Hpiece & _)
    Hfi Hti.
  rewrite Hfrom, algebraicToIndex_indexToAlgebraic in Hfi by assumption.
  rewrite Hto, algebraicToIndex_indexToAlgebraic in Hti by assumption.
  apply Ok_inj in Hfi, Hti. subst f' t'.
  exists p. repeat (split; [assumption|]). assumption.
Qed.

(** A rook on its corner stays there through a generated move that
    neither starts nor ends on the corner and is not made by the king of
    the rook's side. *)
Lemma corner_rook_stays (st : RulesState) (m : Move) (f t c : Z)
  (corner : string) (r k : Piece) :
  In (c, corner, r, k)
     [(7, "h1", wR, wK); (0, "a1", wR, wK);
      (63, "h8", bR, bK); (56, "a8", bR, bK)] ->
  WellFormed st m ->
  algebraicToIndex (from m) = Ok f ->
  algebraicToIndex (to m) = Ok t ->
  getB (board st) c = Some r ->
  String.eqb (from m) corner = false ->
  String.eqb (to m) corner = false ->
  piece m <> Some k ->
  cellAfter (board st) (activeColor st) m f t c = Some r.
Proof.
  intros Hin Hwf Hfi Hti Hr Hfc Htc Hk.
  assert (Hcorner : corner = indexToAlgebraic c /\ onBoard c).
  { unfold onBoard.
    destruct Hin as [E|[E|[E|[E|[]]]]]; inversion E; subst;
      (split; [reflexivity | lia]). }
  destruct Hcorner as [Hcorner Hc].
  assert (Hnf : f <> c).
  { intros ->. destruct (wellFormed_indices st m c t Hwf Hfi Hti)
      as (_ & _ & _ & _ & Hfrom & _).
    rewrite Hfrom, <- Hcorner, String.eqb_refl in Hfc. discriminate. }
  assert (Hnt : t <> c).
  { intros ->. destruct (wellFormed_indices st m f c Hwf Hfi Hti)
      as (_ & _ & _ & _ & _ & Hto & _).
    rewrite Hto, <- Hcorner, String.eqb_refl in Htc. discriminate. }
  destruct Hwf
    as (f' & t' & p & Hf & Ht & Hne & Hfrom & Hto & Hp & Hcol & Hpiece & Hkind).
  rewrite Hfrom, algebraicToIndex_indexToAlgebraic in Hfi by assumption.
  rewrite Hto, algebraicToIndex_indexToAlgebraic in Hti by assumption.
  apply Ok_inj in Hfi, Hti. subst f' t'.
  unfold cellAfter.
  destruct (Z.eqb_spec c f) as [E|_]; [congruence|].
  destruct (Z.eqb_spec c t) as [E|_]; [congruence|].
  destruct Hkind as [Hord | [Hep | Hcastle]].
  - destruct Hord as (-> & -> & -> & _). exact Hr.
  - destruct Hep as (-> & -> & -> & _ & _ & _ & _ & _ & _ & _
                      & q & _ & Hq & Hqc).
    cbn [andb].
    destruct (Z.eqb_spec c (captureCell (activeColor st) t)) as [E|_];
      [|exact Hr].
    exfalso. rewrite <- E, Hr in Hq. injection Hq as <-.
    pose proof (onBoard_file_rank t Ht) as [Htf Htr].
    unfold captureCell in E.
    destruct Hin as [E'|[E'|[E'|[E'|[]]]]]; inversion E'; subst;
      destruct (activeColor st); cbn in Hqc; try discriminate; lia.
  - destruct Hcastle as (-> & _ & _ & Hty & _ & _ & Hside).
    assert (Hpk : p = kingOf (activeColor st)).
    { destruct p as [pc pt]. cbn in Hcol, Hty. subst.
      now destruct (activeColor st). }
    assert (Hmover : activeColor st = oppositeColor (pcolor r)).
    { destruct Hin as [E'|[E'|[E'|[E'|[]]]]]; inversion E'; subst;
        destruct (activeColor st); try reflexivity;
        exfalso; apply Hk; rewrite Hpiece; reflexivity. }
    rewrite Hmover.
    destruct Hside as [(-> & -> & _) | (-> & -> & _)];
      destruct Hin as [E'|[E'|[E'|[E'|[]]]]]; inversion E'; subst;
      exact Hr.
Qed.

(** A castling right that survives the move still has its rook. *)
Lemma kept_right_has_rook (st : RulesState) (m : Move) (f t c : Z)
  (corner : string) (r k mp : Piece) (flag : bool) (b' : Board) :
  In (c, corner, r, k)
     [(7, "h1", wR, wK); (0, "a1", wR, wK);
      (63, "h8", bR, bK); (56, "a8", bR, bK)] ->
  WellFormed st m ->
  algebraicToIndex (from m) = Ok f ->
  algebraicToIndex (to m) = Ok t ->
  piece m = Some mp ->
  (flag = true -> getB (board st) c = Some r) ->
  getB b' c = cellAfter (board st) (activeColor st) m f t c ->
  keepsRight flag (Some mp) m k corner && GameState.optPiece_eqb (getB b' c) r
  = keepsRight flag (Some mp) m k corner.
Proof.
  intros Hin Hwf Hfi Hti Hpiece Hrook Hcell.
  destruct (keepsRight flag (Some mp) m k corner) eqn:E; [|reflexivity].
  cbn [andb]. unfold keepsRight in E.
  apply andb_prop in E. destruct E as [E Hsq].
  apply andb_prop in E. destruct E as [Hflag Hking].
  apply negb_true_iff in Hsq, Hking.
  apply orb_false_iff in Hsq. destruct Hsq as [Hfc Htc].
  rewrite Hcell.
  rewrite (corner_rook_stays st m f t c corner r k Hin Hwf Hfi Hti
             (Hrook Hflag) Hfc Htc).
  - cbn [GameState.optPiece_eqb]. now apply Piece_eqb_eq.
  - rewrite Hpiece. intros E. injection E as ->.
    cbn [GameState.optPiece_eqb] in Hking.
    assert (Piece_eqb k k = true) by now apply Piece_eqb_eq.
    congruence.
Qed.

(** What [applyMove] leaves after a legal move of a game that is not
    finished, with the board in the form [applyMoveSearch] computes. *)
Lemma applyMove_legal_fields (s : GameState.t) (legal : list Move) (m : Move) :
  GameState.isGameOver s = false ->
  generateLegalMoves (GameState.asRulesState s) = Ok legal ->
  In m legal ->
  exists s' f t mp,
    GameState.applyMove s m = Ok s'
    /\ WellFormed (GameState.asRulesState s) m
    /\ onBoard f /\ onBoard t
    /\ from m = indexToAlgebraic f /\ to m = indexToAlgebraic t
    /\ algebraicToIndex (from m) = Ok f
    /\ algebraicToIndex (to m) = Ok t
    /\ getB (GameState.board s) f = Some mp
    /\ pcolor mp = GameState.activeColor s
    /\ piece m = Some mp
    /\ GameState.board s'
       = AI.movedBoard (GameState.board s) m (GameState.activeColor s) f t
    /\ GameState.activeColor s' = oppositeColor (GameState.activeColor s)
    /\ GameState.castlingRights s'
       = (let cr := GameState.castlingRights s in
          let b := GameState.board s' in
          mkCastlingRights
            (mkSideRights
               (keepsRight (kingSide (whiteRights cr)) (Some mp) m wK "h1"
                && GameState.optPiece_eqb (getB b 7) wR)
               (keepsRight (queenSide (whiteRights cr)) (Some mp) m wK "a1"
                && GameState.optPiece_eqb (getB b 0) wR))
            (mkSideRights
               (keepsRight (kingSide (blackRights cr)) (Some mp) m bK "h8"
                && GameState.optPiece_eqb (getB b 63) bR)
               (keepsRight (queenSide (blackRights cr)) (Some mp) m bK "a8"
                && GameState.optPiece_eqb (getB b 56) bR)))
    /\ GameState.enPassantTarget s'
       = (if isDoubleStep mp f t
          then Some (indexToAlgebraic ((f / 8 + t / 8) / 2 * 8 + Z.rem t 8))
          else None)
    /\ GameState.halfmoveClock s'
       = (if restartsCount mp m then 0 else GameState.halfmoveClock s + 1)
    /\ GameState.fullmoveNumber s'
       = (if Color_eqb (GameState.activeColor s) black
          then GameState.fullmoveNumber s + 1 else GameState.fullmoveNumber s).
Proof.
  intros Hover Hlegal Hin.
  destruct (applyMove_returns s legal m Hlegal Hin) as [s' Happ].
  destruct (legal_move_indices s legal m Hlegal Hin)
    as (Hwf & f & t & mp & Hf & Ht & Hfrom & Hto & Hfi & Hti & Hmp & Hc
        & Hpiece).
  destruct (applyMove_core s s' m Hover Happ) as (s1 & r & txt & Hcore & ->).
  destruct (applyMoveCore_fields s s1 m f t mp Hfi Hti Hmp Hcore)
    as (Hb & Hac & _ & Hcr & Hep & Hhm & Hfm & _).
  exists (GameState.set_statusText (GameState.set_result s1 r) txt), f, t, mp.
  cbn [GameState.board GameState.activeColor GameState.castlingRights
       GameState.enPassantTarget GameState.halfmoveClock
       GameState.fullmoveNumber GameState.set_statusText GameState.set_result].
  rewrite placeMoved_movedBoard in Hb by exact Hmp.
  rewrite Hc in Hb, Hac, Hfm.
  repeat (split; [assumption|]). assumption.
Qed.

(** X15: [applyMove] makes the placement the legality filter checked: after a
    legal move of a game that is not finished the origin is empty, an
    en-passant capture has removed the pawn beside the origin, a
    promotion has put the chosen piece on the target, a castle has moved
    the rook next to the king, and every other cell is as before; this is
    cell by cell the scratch board of [leavesKingInCheck]. *)
Theorem applyMove_makes_the_placement (s : GameState.t) (legal : list Move)
  (m : Move) :
  GameState.isGameOver s = false ->
  generateLegalMoves (GameState.asRulesState s) = Ok legal ->
  In m legal ->
  exists s' f t,
    GameState.applyMove s m = Ok s'
    /\ algebraicToIndex (from m) = Ok f
    /\ algebraicToIndex (to m) = Ok t
    /\ (forall j,
          getB (GameState.board s') j
          = cellAfter (GameState.board s) (GameState.activeColor s) m f t j)
    /\ (forall j,
          getB (GameState.board s') j
          = getB (scratchBoard (GameState.board s) m f t) j).
Proof.
  intros Hover Hlegal Hin.
  destruct (applyMove_legal_fields s legal m Hover Hlegal Hin)
    as (s' & f & t & mp & Happ & Hwf & _ & _ & _ & _ & Hfi & Hti & _ & _ & _
        & Hb & _).
  exists s', f, t.
  split; [exact Happ|]. split; [exact Hfi|]. split; [exact Hti|].
  destruct (movedBoard_cells _ m Hwf) as (f1 & t1 & Hf1 & Ht1 & Hcells).
  destruct (scratchBoard_cells _ m Hwf) as (f2 & t2 & Hf2 & Ht2 & Hscratch).
  rewrite Hfi in Hf1, Hf2. rewrite Hti in Ht1, Ht2.
  apply Ok_inj in Hf1, Hf2, Ht1, Ht2. subst f1 f2 t1 t2.
  cbn [board activeColor GameState.asRulesState] in Hcells, Hscratch.
  rewrite Hb.
  split; [exact Hcells|].
  intros j. now rewrite Hcells, Hscratch.
Qed.

Lemma applyMove_makes_the_placement_witness :
  exists s' f t,
    GameState.applyMove (Game.state promotionGame) rookPromotion = Ok s'
    /\ algebraicToIndex (from rookPromotion) = Ok f
    /\ algebraicToIndex (to rookPromotion) = Ok t
    /\ (forall j,
          getB (GameState.board s') j
          = cellAfter (GameState.board (Game.state promotionGame))
              (GameState.activeColor (Game.state promotionGame))
              rookPromotion f t j)
    /\ (forall j,
          getB (GameState.board s') j
          = getB (scratchBoard (GameState.board (Game.state promotionGame))
                    rookPromotion f t) j).
Proof.
  apply (applyMove_makes_the_placement (Game.state promotionGame)
           (legalOf promotionGame) rookPromotion).
  - reflexivity.
  - vm_compute. reflexivity.
  - vm_compute. repeat (first [left; reflexivity | right]).
Defined.

(** After [applyMove] every castling right that is left has its rook on
    its corner, whatever the state before. *)
Lemma masked_rights_have_rooks (b : Board) (k1 k2 k3 k4 : bool) :
  RightsHaveRooks b
    (mkCastlingRights
       (mkSideRights (k1 && GameState.optPiece_eqb (getB b 7) wR)
                     (k2 && GameState.optPiece_eqb (getB b 0) wR))
       (mkSideRights (k3 && GameState.optPiece_eqb (getB b 63) bR)
                     (k4 && GameState.optPiece_eqb (getB b 56) bR))).
Proof.
  unfold RightsHaveRooks.
  cbn [kingSide queenSide whiteRights blackRights].
  repeat split; intros H; apply andb_prop in H; destruct H as [_ H];
    match type of H with
    | GameState.optPiece_eqb ?c _ = true =>
        destruct c as [q|]; [|discriminate];
        cbn [GameState.optPiece_eqb] in H; apply Piece_eqb_eq in H;
        now subst q
    end.
Qed.

(** X16: The search plays the game's move: when every castling right of the
    game has its rook on its corner, [applyMoveSearch] on the search copy
    of the game leaves the search copy of the game [applyMove] leaves,
    and the castling rights of that game have their rooks again. *)
Theorem applyMoveSearch_follows_applyMove (s : GameState.t)
  (legal : list Move) (m : Move) :
  GameState.isGameOver s = false ->
  generateLegalMoves (GameState.asRulesState s) = Ok legal ->
  In m legal ->
  RightsHaveRooks (GameState.board s) (GameState.castlingRights s) ->
  exists s',
    GameState.applyMove s m = Ok s'
    /\ AI.applyMoveSearch (AI.ofGameState s) m (GameState.activeColor s)
       = Ok (AI.ofGameState s')
    /\ RightsHaveRooks (GameState.board s') (GameState.castlingRights s').
Proof.
  intros Hover Hlegal Hin (Hwk & Hwq & Hbk & Hbq).
  destruct (applyMove_legal_fields s legal m Hover Hlegal Hin)
    as (s' & f & t & mp & Happ & Hwf & Hf & Ht & Hfrom & Hto & Hfi & Hti
        & Hmp & Hc & Hpiece & Hb & Hac & Hcr & Hep & Hhm & Hfm).
  exists s'. split; [exact Happ|].
  split.
  - rewrite (applyMoveSearch_fields (AI.ofGameState s) m
               (GameState.activeColor s) f t mp Hf Ht Hfrom Hto)
      by exact Hmp.
    unfold AI.ofGameState, cloneBoard.
    cbn [AI.board AI.castlingRights AI.halfmoveClock AI.fullmoveNumber].
    rewrite Hac, Hep, Hhm, Hfm, Hcr. cbv zeta.
    destruct (movedBoard_cells _ m Hwf) as (f1 & t1 & Hf1 & Ht1 & Hcells).
    rewrite Hfi in Hf1. rewrite Hti in Ht1.
    apply Ok_inj in Hf1, Ht1. subst f1 t1.
    cbn [board activeColor GameState.asRulesState] in Hcells.
    rewrite <- Hb in Hcells.
    rewrite (kept_right_has_rook (GameState.asRulesState s) m f t 7 "h1" wR wK
               mp _ (GameState.board s'));
      [|simpl; tauto|assumption|assumption|assumption|assumption|assumption
       |apply Hcells].
    rewrite (kept_right_has_rook (GameState.asRulesState s) m f t 0 "a1" wR wK
               mp _ (GameState.board s'));
      [|simpl; tauto|assumption|assumption|assumption|assumption|assumption
       |apply Hcells].
    rewrite (kept_right_has_rook (GameState.asRulesState s) m f t 63 "h8" bR bK
               mp _ (GameState.board s'));
      [|simpl; tauto|assumption|assumption|assumption|assumption|assumption
       |apply Hcells].
    rewrite (kept_right_has_rook (GameState.asRulesState s) m f t 56 "a8" bR bK
               mp _ (GameState.board s'));
      [|simpl; tauto|assumption|assumption|assumption|assumption|assumption
       |apply Hcells].
    rewrite Hb. reflexivity.
  - rewrite Hcr. apply masked_rights_have_rooks.
Qed.

Lemma applyMoveSearch_follows_applyMove_witness :
  exists s',
    GameState.applyMove startingState pawnToE4 = Ok s'
    /\ AI.applyMoveSearch (AI.ofGameState startingState) pawnToE4
         (GameState.activeColor startingState)
       = Ok (AI.ofGameState s')
    /\ RightsHaveRooks (GameState.board s') (GameState.castlingRights s').
Proof.
  apply (applyMoveSearch_follows_applyMove startingState startingLegal pawnToE4).
  - reflexivity.
  - vm_compute. reflexivity.
  - vm_compute. repeat (first [left; reflexivity | right]).
  - vm_compute. repeat split; reflexivity.
Defined.

(** Without the rook the two part: in [rightWithoutRook] the game drops
    the right to castle that has no rook, the search keeps it. *)
Example search_keeps_right_without_rook :
  In pawnToA3 (legalMovesOf (GameState.asRulesState rightWithoutRook))
  /\ exists s' ss,
       GameState.applyMove rightWithoutRook pawnToA3 = Ok s'
       /\ AI.applyMoveSearch (AI.ofGameState rightWithoutRook) pawnToA3 white
          = Ok ss
       /\ kingSide (whiteRights (GameState.castlingRights s')) = false
       /\ kingSide (whiteRights (AI.castlingRights ss)) = true.
Proof.
  split; [vm_compute; repeat (first [left; reflexivity | right])|].
  eexists. eexists.
  split; [vm_compute; reflexivity|].
  split; [vm_compute; reflexivity|].
  split; reflexivity.
Qed.


(* ------------------------------------------------------------------ *)
(** ** The level of play *)


(* ------------------------------------------------------------------ *)
(** ** Clicks on the board *)

Lemma withSelection_same (s : GameState.t) :
  s = withSelection s
        (GameState.mkSelection false (GameState.selectedSquare s)
           (GameState.cachedLegalTargets s)).
Proof. now destruct s. Qed.

Lemma find_some_In {A} (f : A -> bool) (l : list A) (x : A) :
  find f l = Some x -> In x l /\ f x = true.
Proof. apply find_some. Qed.

(** X18: On a game that is not finished a click either plays a move or only
    changes the selection.  It plays a move only for the side to move,
    with a square selected before: the move is a legal move from the
    selected square to the clicked one, the state is the one [applyMove]
    leaves with the selection cleared, and the reply reports no
    selection.  Otherwise the state differs from the one before in the
    selection only, which is the one the reply reports. *)
Theorem handleSelection_moves_or_selects (s s' : GameState.t)
  (square : string) (side : Color) (sel : GameState.Selection) :
  GameState.isGameOver s = false ->
  GameState.handleSelection s square side = Ok (s', sel) ->
  (GameState.moved sel = true
   /\ side = GameState.activeColor s
   /\ sel = GameState.mkSelection true None []
   /\ exists legal m s1,
        generateLegalMoves (GameState.asRulesState s) = Ok legal
        /\ In m legal
        /\ GameState.selectedSquare s = Some (from m)
        /\ to m = square
        /\ GameState.applyMove s m = Ok s1
        /\ s' = withSelection s1 sel)
  \/ (GameState.moved sel = false /\ s' = withSelection s sel).
Proof.
  intros Hover H. unfold GameState.handleSelection in H. rewrite Hover in H.
  destruct (Color_eqb side (GameState.activeColor s)) eqn:Hside;
    cbn [negb] in H.
  2:{ apply Ok_inj in H. injection H as <- <-. right.
      split; [reflexivity | apply withSelection_same]. }
  apply Color_eqb_eq in Hside.
  destruct (GameState.getPiece s square) as [piece|] eqn:Hpiece;
    [|discriminate].
  cbn [rbind] in H.
  destruct (isSome piece && optColor_eqb (getColorOf piece) side).
  - change (GameState.asRulesState
              (GameState.set_selectedSquare s (Some square)))
      with (GameState.asRulesState s) in H.
    destruct (generateLegalMoves (GameState.asRulesState s)) as [legal|];
      [|discriminate].
    cbn [rbind] in H. apply Ok_inj in H. injection H as <- <-.
    right. split; reflexivity.
  - destruct (truthyStr (GameState.selectedSquare s)) eqn:Htruthy.
    2:{ apply Ok_inj in H. injection H as <- <-. right.
        split; [reflexivity | apply withSelection_same]. }
    destruct (GameState.selectedSquare s) as [from_|] eqn:Hsel;
      [|discriminate].
    cbn [GameState.orElse] in H.
    destruct (generateLegalMoves (GameState.asRulesState s)) as [legal|]
      eqn:Hlegal; [|discriminate].
    cbn [rbind] in H.
    destruct (find _ legal) as [m|] eqn:Hfind.
    + destruct (GameState.applyMove s m) as [s1|] eqn:Happ; [|discriminate].
      cbn [rbind] in H. apply Ok_inj in H. injection H as <- <-.
      apply find_some_In in Hfind. destruct Hfind as [Hin Hmatch].
      apply andb_prop in Hmatch. destruct Hmatch as [Hf Ht].
      apply String.eqb_eq in Hf, Ht.
      left. split; [reflexivity|]. split; [exact Hside|].
      split; [reflexivity|].
      exists legal, m, s1.
      split; [reflexivity|]. split; [exact Hin|].
      split; [now rewrite Hf|]. split; [exact Ht|].
      split; [exact Happ | reflexivity].
    + apply Ok_inj in H. injection H as <- <-. right.
      split; reflexivity.
Qed.

Lemma handleSelection_moves_or_selects_witness :
  (GameState.moved (GameState.mkSelection true None []) = true
   /\ white = GameState.activeColor pawnSelected
   /\ GameState.mkSelection true None [] = GameState.mkSelection true None []
   /\ exists legal m s1,
        generateLegalMoves (GameState.asRulesState pawnSelected) = Ok legal
        /\ In m legal
        /\ GameState.selectedSquare pawnSelected = Some (from m)
        /\ to m = "a8"
        /\ GameState.applyMove pawnSelected m = Ok s1
        /\ queenedBySelection
           = withSelection s1 (GameState.mkSelection true None []))
  \/ (GameState.moved (GameState.mkSelection true None []) = false
      /\ queenedBySelection
         = withSelection pawnSelected (GameState.mkSelection true None [])).
Proof.
  apply (handleSelection_moves_or_selects pawnSelected queenedBySelection
           "a8" white (GameState.mkSelection true None [])).
  - reflexivity.
  - vm_compute. reflexivity.
Defined.


(* ------------------------------------------------------------------ *)
(** ** Counting positions *)

Lemma mapGet_mapSet_same (m : JsMap) (k : string) (v : Z) :
  mapGet (mapSet m k v) k = Some v.
Proof.
  induction m as [|[k' v'] m IH]; simpl.
  - now rewrite String.eqb_refl.
  - destruct (String.eqb k' k) eqn:E; simpl; rewrite E; [reflexivity | exact IH].
Qed.

Lemma mapGet_mapSet_other (m : JsMap) (k k' : string) (v : Z) :
  k <> k' -> mapGet (mapSet m k v) k' = mapGet m k'.
Proof.
  intros Hne. induction m as [|[k0 v0] m IH]; simpl.
  - apply String.eqb_neq in Hne. now rewrite Hne.
  - destruct (String.eqb k0 k) eqn:E; simpl.
    + apply String.eqb_eq in E. subst k0.
      apply String.eqb_neq in Hne. now rewrite Hne.
    + now rewrite IH.
Qed.

(** X19: A move applied to a game that is not finished counts the position it
    leaves once more: the count under the key of the new position is one
    more than before, starting from 0 for a position not seen yet, the
    counts under all other keys are as before, and no key is lost. *)
Theorem applyMove_counts_the_position (s s' : GameState.t) (m : Move) :
  GameState.isGameOver s = false ->
  GameState.applyMove s m = Ok s' ->
  let key := GameState.buildRepetitionKey s' in
  mapGet (GameState.repetitionMap s') key
  = Some (GameState.numOr (mapGet (GameState.repetitionMap s) key) 0 + 1)
  /\ (forall k, k <> key ->
                mapGet (GameState.repetitionMap s') k
                = mapGet (GameState.repetitionMap s) k)
  /\ (forall k, In k (map fst (GameState.repetitionMap s')) <->
                In k (map fst (GameState.repetitionMap s)) \/ k = key).
Proof.
  intros Hover Happ.
  destruct (applyMove_core s s' m Hover Happ) as (s1 & r & txt & Hcore & ->).
  destruct (applyMoveCore_inv _ _ _ Hcore) as (f & t & mp & Hfi & Hti & Hmp & _).
  destruct (applyMoveCore_fields s s1 m f t mp Hfi Hti Hmp Hcore)
    as (_ & _ & _ & _ & _ & _ & _ & _ & _ & _ & Hrep & _).
  cbv zeta.
  change (GameState.buildRepetitionKey
            (GameState.set_statusText (GameState.set_result s1 r) txt))
    with (GameState.buildRepetitionKey s1).
  cbn [GameState.repetitionMap GameState.set_statusText GameState.set_result].
  rewrite Hrep.
  split; [apply mapGet_mapSet_same|].
  split; [intros k Hk; apply mapGet_mapSet_other; congruence|].
  intros k. apply mapSet_keys.
Qed.

Lemma applyMove_counts_the_position_witness :
  let key :=
    GameState.buildRepetitionKey (applyMoves startingState [pawnToE4]) in
  mapGet (GameState.repetitionMap (applyMoves startingState [pawnToE4])) key
  = Some (GameState.numOr (mapGet (GameState.repetitionMap startingState) key) 0
          + 1)
  /\ (forall k, k <> key ->
                mapGet (GameState.repetitionMap
                          (applyMoves startingState [pawnToE4])) k
                = mapGet (GameState.repetitionMap startingState) k)
  /\ (forall k, In k (map fst (GameState.repetitionMap
                                 (applyMoves startingState [pawnToE4]))) <->
                In k (map fst (GameState.repetitionMap startingState))
                \/ k = key).
Proof.
  apply (applyMove_counts_the_position startingState
           (applyMoves startingState [pawnToE4]) pawnToE4).
  - reflexivity.
  - vm_compute. reflexivity.
Defined.


(* ------------------------------------------------------------------ *)
(** ** Level 1 *)

Lemma insertDesc_descending {A} (key : A -> Z) (x : A) (l : list A) :
  descending key l -> descending key (insertDesc key x l).
Proof.
  induction l as [|y t IH]; intros Hd; simpl.
  - split; [constructor | exact I].
  - destruct Hd as [Hall Hd].
    destruct (key y >? key x) eqn:E.
    + split; [|now apply IH].
      apply Forall_forall. intros z Hz.
      apply insertDesc_In in Hz. destruct Hz as [->|Hz].
      * apply Z.gtb_lt in E. lia.
      * rewrite Forall_forall in Hall. now apply Hall.
    + split; [|split; assumption].
      assert (Hyx : key y <= key x).
      { destruct (Z.gtb_spec (key y) (key x)); [discriminate | lia]. }
      constructor; [exact Hyx|].
      eapply Forall_impl; [|exact Hall]. cbv beta. intros z Hz. lia.
Qed.

Lemma sortDesc_descending {A} (key : A -> Z) (l : list A) :
  descending key (sortDesc key l).
Proof.
  induction l as [|x t IH]; simpl; [exact I|].
  now apply insertDesc_descending.
Qed.

Lemma insertDesc_count {A} (key : A -> Z) (p : A -> bool) (x : A) (l : list A) :
  List.length (filter p (insertDesc key x l))
  = List.length (filter p (x :: l)).
Proof.
  induction l as [|y t IH]; [reflexivity|].
  simpl. destruct (key y >? key x); [|reflexivity].
  simpl. simpl in IH. destruct (p y), (p x); simpl in *; lia.
Qed.

Lemma sortDesc_count {A} (key : A -> Z) (p : A -> bool) (l : list A) :
  List.length (filter p (sortDesc key l)) = List.length (filter p l).
Proof.
  induction l as [|x t IH]; [reflexivity|].
  simpl sortDesc. rewrite insertDesc_count. simpl.
  destruct (p x); simpl; now rewrite IH.
Qed.

Lemma filter_above_none {A} (key : A -> Z) (c : Z) (l : list A) :
  Forall (fun y => key y <= c) l -> filter (fun y => key y >? c) l = [].
Proof.
  induction 1 as [|z t Hz _ IH]; [reflexivity|].
  simpl. destruct (Z.gtb_spec (key z) c); [lia | exact IH].
Qed.

(** In a descending list fewer than [k + 1] entries have a larger key
    than the entry at index [k]. *)
Lemma descending_rank {A} (key : A -> Z) (l : list A) (k : nat) (x : A) :
  descending key l ->
  nth_error l k = Some x ->
  (List.length (filter (fun y => key y >? key x) l) <= k)%nat.
Proof.
  revert k. induction l as [|y t IH]; intros k Hd Hn.
  - destruct k; discriminate.
  - destruct Hd as [Hall Hd]. destruct k as [|k].
    + injection Hn as ->. simpl.
      assert (E : (key x >? key x) = false).
      { destruct (Z.gtb_spec (key x) (key x)); [lia | reflexivity]. }
      rewrite E. now rewrite (filter_above_none key (key x) t Hall).
    + simpl in Hn. specialize (IH k Hd Hn). simpl.
      destruct (key y >? key x); simpl; lia.
Qed.

Lemma nth_error_firstn_some {A} (n k : nat) (l : list A) (x : A) :
  nth_error (firstn n l) k = Some x ->
  nth_error l k = Some x /\ (k < n)%nat.
Proof.
  revert k l. induction n as [|n IH]; intros k l H.
  - destruct k; discriminate.
  - destruct l as [|y t]; [destruct k; discriminate|].
    destruct k as [|k]; simpl in *.
    + split; [exact H | lia].
    + destruct (IH _ _ H). split; [assumption | lia].
Qed.

(** [scoreMoves] pairs each move with its score. *)
Lemma scoreMoves_scores (st : AI.SearchState) (color : Color)
  (moves : list Move) (scored : list (Move * Z)) :
  AI.scoreMoves st color moves = Ok scored ->
  map fst scored = moves
  /\ Forall (fun ms => scoreAfter st color (fst ms) = Some (snd ms)) scored.
Proof.
  revert scored. induction moves as [|m rest IH]; intros scored H.
  - apply Ok_inj in H. subst. split; [reflexivity | constructor].
  - simpl in H.
    destruct (AI.applyMoveSearch (AI.clone st) m (AI.activeColor st))
      as [next|] eqn:Hnext; [|discriminate].
    cbn [rbind] in H.
    destruct (AI.scoreMoves st color rest) as [sc|]; [|discriminate].
    cbn [rbind] in H. apply Ok_inj in H. subst scored.
    destruct (IH sc eq_refl) as [Hmap Hall].
    split; [simpl; now rewrite Hmap|].
    constructor; [|exact Hall].
    cbn [fst snd]. unfold scoreAfter. now rewrite Hnext.
Qed.

Lemma scored_count (st : AI.SearchState) (color : Color)
  (scored : list (Move * Z)) (sc : Z) :
  Forall (fun ms => scoreAfter st color (fst ms) = Some (snd ms)) scored ->
  List.length (filter (fun ms : Move * Z => snd ms >? sc) scored)
  = betterThan st color (map fst scored) sc.
Proof.
  unfold betterThan. induction 1 as [|ms rest Hms _ IH]; [reflexivity|].
  simpl. rewrite Hms. destruct (snd ms >? sc); simpl; now rewrite IH.
Qed.

Lemma pickLevel1Move_top_returns (random : nat -> nat)
  (st : AI.SearchState) (moves : list Move) (color : Color) :
  generateLegalMoves (AI.asRules st) = Ok moves ->
  moves <> [] ->
  Returns (AI.pickLevel1Move random st moves color)
    (fun m =>
       In m moves
       /\ exists sc,
            scoreAfter st color m = Some sc
            /\ (betterThan st color moves sc
                < Nat.max 1 (2 * List.length moves / 5))%nat).
Proof.
  intros Hlegal Hne.
  pose proof (generateLegalMoves_generated _ _ Hlegal) as Hgen.
  cbn [board activeColor AI.asRules] in Hgen.
  unfold AI.pickLevel1Move.
  destruct (scoreMoves_returns st color moves Hgen) as (scored & Hsc & Hmap).
  destruct (scoreMoves_scores st color moves scored Hsc) as [_ Hall].
  eapply Returns_bind;
    [apply (Returns_lift _ scored (fun x => x = scored) Hsc eq_refl)|].
  intros scored' ->. cbv zeta.
  set (key := fun ms : Move * Z => snd ms).
  set (sorted := sortDesc key scored).
  assert (Hsl : List.length sorted = List.length moves)
    by (unfold sorted; rewrite sortDesc_length, <- Hmap, length_map;
        reflexivity).
  rewrite Hsl.
  set (keepCount := Nat.max 1 (2 * List.length moves / 5)).
  assert (Hlen : (0 < List.length (firstn keepCount sorted))%nat).
  { rewrite length_firstn. unfold keepCount. rewrite Hsl.
    destruct moves as [|m0 rest]; [congruence|]. cbn [List.length].
    remember (2 * S (List.length rest) / 5)%nat as q eqn:Eq. clear Eq. lia. }
  eapply Returns_bind; [apply randomBelow_returns; exact Hlen|].
  intros k Hk.
  destruct (nth_error (firstn keepCount sorted) k) as [ms|] eqn:Hnth.
  - apply Returns_ret.
    apply nth_error_firstn_some in Hnth. destruct Hnth as [Hnth Hkn].
    assert (Hin : In ms scored).
    { apply nth_error_In in Hnth. now apply sortDesc_In in Hnth. }
    split; [rewrite <- Hmap; now apply in_map|].
    exists (snd ms).
    split; [rewrite Forall_forall in Hall; now apply Hall|].
    pose proof (descending_rank key sorted k ms
                  (sortDesc_descending key scored) Hnth) as Hrank.
    unfold sorted in Hrank. rewrite sortDesc_count in Hrank.
    unfold key in Hrank.
    rewrite (scored_count st color scored (snd ms) Hall), Hmap in Hrank.
    lia.
  - apply nth_error_None in Hnth. cbv beta in Hk. lia.
Qed.

(** X20: Level 1 plays from the top: of the legal moves it is given,
    [pickLevel1Move] returns one whose score, the evaluation of the board
    after the move, is exceeded by the scores of fewer moves than the two
    fifths of the list it keeps (one move for a list of fewer than
    five); it draws one random number and does not read the clock. *)
Theorem pickLevel1Move_plays_from_the_top (random : nat -> nat)
  (st : AI.SearchState) (moves : list Move) (color : Color) (w : AI.World) :
  generateLegalMoves (AI.asRules st) = Ok moves ->
  moves <> [] ->
  exists m sc,
    AI.pickLevel1Move random st moves color w
    = Ok (m, AI.mkWorld (AI.clockReads w) (S (AI.randomDraws w)))
    /\ In m moves
    /\ scoreAfter st color m = Some sc
    /\ (betterThan st color moves sc
        < Nat.max 1 (2 * List.length moves / 5))%nat.
Proof.
  intros Hlegal Hne.
  destruct (pickLevel1Move_top_returns random st moves color Hlegal Hne w)
    as (m & w' & Hrun & Hin & sc & Hsc & Htop).
  exists m, sc.
  split; [|now repeat split].
  rewrite Hrun. f_equal. f_equal.
  unfold AI.pickLevel1Move, AI.bind, AI.lift, AI.randomBelow, AI.ret in Hrun.
  destruct (AI.scoreMoves st color moves) as [scored|]; [|discriminate].
  cbv zeta in Hrun.
  destruct (nth_error _ _) in Hrun; [|discriminate].
  now injection Hrun as _ <-.
Qed.

Lemma pickLevel1Move_plays_from_the_top_witness :
  exists m sc,
    AI.pickLevel1Move (fun _ => O) queenToWin
      (legalMovesOf (AI.asRules queenToWin)) white world0
    = Ok (m, AI.mkWorld (AI.clockReads world0) (S (AI.randomDraws world0)))
    /\ In m (legalMovesOf (AI.asRules queenToWin))
    /\ scoreAfter queenToWin white m = Some sc
    /\ (betterThan queenToWin white
          (legalMovesOf (AI.asRules queenToWin)) sc
        < Nat.max 1
            (2 * List.length (legalMovesOf (AI.asRules queenToWin)) / 5))%nat.
Proof.
  apply (pickLevel1Move_plays_from_the_top (fun _ => O) queenToWin
           (legalMovesOf (AI.asRules queenToWin)) white world0).
  - vm_compute. reflexivity.
  - vm_compute. discriminate.
Defined.


(* ------------------------------------------------------------------ *)
(** ** The side that moved is not in check *)

(** X21: After a legal move of a game that is not finished the side that
    moved has a king on the board and is not in check: [isInCheck] for
    that side on the position [applyMove] leaves finds the king and
    answers no. *)
Theorem applyMove_leaves_mover_safe (s : GameState.t) (legal : list Move)
  (m : Move) :
  GameState.isGameOver s = false ->
  generateLegalMoves (GameState.asRulesState s) = Ok legal ->
  In m legal ->
  exists s' kingIndex,
    GameState.applyMove s m = Ok s'
    /\ onBoard kingIndex
    /\ findKingSquare (GameState.board s') (GameState.activeColor s)
       = Some (indexToAlgebraic kingIndex)
    /\ isInCheck (GameState.asRulesState s') (Some (GameState.activeColor s))
       = Ok false.
Proof.
  intros Hover Hlegal Hin.
  destruct (applyMove_legal_fields s legal m Hover Hlegal Hin)
    as (s' & f & t & mp & Happ & Hwf & _ & _ & _ & _ & Hfi & Hti & _ & _ & _
        & Hb & _).
  destruct (movedBoard_cells _ m Hwf) as (f1 & t1 & Hf1 & Ht1 & Hcells).
  destruct (scratchBoard_cells _ m Hwf) as (f2 & t2 & Hf2 & Ht2 & Hscratch).
  rewrite Hfi in Hf1, Hf2. rewrite Hti in Ht1, Ht2.
  apply Ok_inj in Hf1, Hf2, Ht1, Ht2. subst f1 f2 t1 t2.
  cbn [board activeColor GameState.asRulesState] in Hcells, Hscratch.
  rewrite <- Hb in Hcells.
  destruct (generateLegalMoves_kept _ _ _ Hlegal Hin) as (pseudo & _ & _ & Hsafe).
  destruct (leavesKingInCheck_false _ m f t Hfi Hti Hsafe)
    as (k & Hon & Hget & Hfirst & Hatt).
  cbn [board activeColor GameState.asRulesState] in Hget, Hfirst, Hatt.
  destruct (king_safe_same_cells
              (scratchBoard (GameState.board s) m f t) (GameState.board s')
              (GameState.activeColor s) k)
    as (k' & Hon' & Hget' & Hfirst' & Hatt'); try assumption.
  { intros j _. now rewrite Hcells, Hscratch. }
  pose proof (findKingSquare_some _ _ _ Hon' Hget' Hfirst') as Hking.
  exists s', k'.
  split; [exact Happ|]. split; [exact Hon'|]. split; [exact Hking|].
  unfold isInCheck. cbn [board GameState.asRulesState].
  rewrite Hking, squareAttackedBy_onBoard by assumption.
  unfold GameState.asRulesState. cbn [board]. now rewrite Hatt'.
Qed.

Lemma applyMove_leaves_mover_safe_witness :
  exists s' kingIndex,
    GameState.applyMove startingState pawnToE4 = Ok s'
    /\ onBoard kingIndex
    /\ findKingSquare (GameState.board s') (GameState.activeColor startingState)
       = Some (indexToAlgebraic kingIndex)
    /\ isInCheck (GameState.asRulesState s')
         (Some (GameState.activeColor startingState))
       = Ok false.
Proof.
  apply (applyMove_leaves_mover_safe startingState startingLegal pawnToE4).
  - reflexivity.
  - vm_compute. reflexivity.
  - vm_compute. repeat (first [left; reflexivity | right]).
Defined.


(* ------------------------------------------------------------------ *)
(** ** Quiescence never goes below the stand-pat score *)

Lemma num_leb_refl (a : Num) : num_leb a a = true.
Proof.
  unfold num_leb. destruct a; cbn; try reflexivity.
  now rewrite Z.ltb_irrefl.
Qed.

Lemma num_leb_trans (a b c : Num) :
  num_leb a b = true -> num_leb b c = true -> num_leb a c = true.
Proof.
  unfold num_leb.
  destruct a, b, c; cbn; try reflexivity; try discriminate.
  rewrite !negb_true_iff, !Z.ltb_ge. lia.
Qed.

Lemma num_leb_raised (value score : Num) :
  num_leb value (if num_gtb score value then score else value) = true.
Proof.
  unfold num_gtb, num_leb.
  destruct (num_ltb value score) eqn:E; [|unfold num_leb in *; destruct value; cbn; try reflexivity; now rewrite Z.ltb_irrefl].
  destruct value, score; cbn in *; try reflexivity; try discriminate.
  apply Z.ltb_lt in E. rewrite negb_true_iff, Z.ltb_ge. lia.
Qed.

Section StandPat.
Variable clock : nat -> Z.

Lemma quiescenceLoop_at_least
  (rec : AI.SearchState -> Num -> Num -> Z -> AI.Search (option Num))
  (st : AI.SearchState) (root : Color) (timeout startTime : option Z)
  (beta : Num) (limited : list Move) :
  (forall m next,
      In m limited ->
      AI.applyMoveSearch (AI.clone st) m (AI.activeColor st) = Ok next ->
      forall a b sp, Returns (rec next a b sp) anything) ->
  Forall (Generated (AI.board st) (AI.activeColor st)) limited ->
  forall i value alpha,
    Returns (AI.quiescenceLoop clock rec st root timeout startTime beta limited
               i value alpha)
      (fun v => num_leb value v = true).
Proof.
  induction limited as [|m limited IH]; intros Hrec Hgen i value alpha;
    cbn [AI.quiescenceLoop].
  - apply Returns_ret. apply num_leb_refl.
  - inversion Hgen as [|? ? Hm Hrest]; subst.
    eapply Returns_bind; [apply budgetExceededEvery_returns|].
    intros stop _. destruct stop; [apply Returns_ret; apply num_leb_refl|].
    destruct (applyMoveSearch_generated st m Hm) as (next & Hnext & _).
    eapply Returns_bind;
      [apply (Returns_lift _ next (fun x => x = next) Hnext eq_refl)|].
    intros next' ->.
    eapply Returns_bind; [apply (Hrec m next (or_introl eq_refl) Hnext)|].
    intros r _. cbv beta iota zeta.
    set (score := match r with None => Fin 0 | Some x => num_neg x end).
    pose proof (num_leb_raised value score) as Hup.
    destruct (num_geb _ beta); [apply Returns_ret; exact Hup|].
    eapply Returns_weaken.
    + apply IH; [|assumption].
      intros m' next' Hin. apply Hrec. now right.
    + cbv beta. intros v Hv. exact (num_leb_trans _ _ _ Hup Hv).
Qed.

(** X22: With fuel for the captures that are left, [quiescence] returns.  It
    returns the sentinel exactly when the time budget is exceeded as it
    is entered, and a score it returns is never below the stand-pat score
    it was given. *)
Theorem quiescence_at_least_stand_pat (fuel : nat) (st : AI.SearchState)
  (alpha beta : Num) (root : Color) (standPat : Z)
  (timeout startTime : option Z) (w : AI.World) :
  searchable fuel st ->
  exists r w',
    AI.quiescence clock fuel st alpha beta root standPat timeout startTime w
    = Ok (r, w')
    /\ (r = None <->
        exists w1, AI.budgetExceeded clock timeout startTime w = Ok (true, w1))
    /\ (forall v, r = Some v -> num_leb (Fin standPat) v = true).
Proof.
  intros Hst.
  destruct fuel as [|fuel]; [destruct Hst as [_ H]; lia|].
  cbn [AI.quiescence].
  destruct (budgetExceeded_returns clock timeout startTime w)
    as (stop & w1 & Hstop & _).
  rewrite (bind_ok _ Hstop).
  destruct stop.
  - exists None, w1. split; [reflexivity|].
    split; [split; [intros _; now exists w1 | reflexivity]|].
    intros v E. discriminate.
  - assert (Hrest :
      Returns
        (if num_gtb (Fin standPat) alpha && num_geb (Fin standPat) beta
         then AI.ret (Some (if num_gtb (Fin standPat) alpha
                            then Fin standPat else alpha))
         else
           AI.bind (AI.lift (generateLegalMoves (AI.asRules st)))
             (fun allMoves =>
                AI.bind
                  (AI.quiescenceLoop clock
                     (fun next a b sp =>
                        AI.quiescence clock fuel next a b root sp timeout
                          startTime)
                     st root timeout startTime beta
                     (firstn 16
                        (filter (fun m => isSome (captured m)) allMoves))
                     0 (Fin standPat)
                     (if num_gtb (Fin standPat) alpha
                      then Fin standPat else alpha))
                  (fun v => AI.ret (Some v))))
        (fun r => exists v, r = Some v /\ num_leb (Fin standPat) v = true)).
    { destruct (num_gtb (Fin standPat) alpha) eqn:Hgt; cbn [andb].
      - destruct (num_geb (Fin standPat) beta).
        + apply Returns_ret. eexists. split; [reflexivity|].
          apply num_leb_refl.
        + eapply Returns_bind; [apply legalMoves_returns; apply Hst|].
          intros allMoves Hall.
          eapply Returns_bind;
            [|intros v Hv; apply Returns_ret; exists v; split;
              [reflexivity | exact Hv]].
          apply quiescenceLoop_at_least.
          * intros m next Hin Hnext a b sp.
            apply firstn_incl in Hin. apply filter_In in Hin.
            destruct Hin as [Hin Hc]. rewrite Forall_forall in Hall.
            apply quiescence_returns.
            destruct (searchable_next _ _ _ _ Hst (Hall m Hin) Hnext)
              as [_ Hpred].
            apply Hpred. intros E. rewrite E in Hc. discriminate.
          * apply Forall_forall. intros m Hin.
            apply firstn_incl in Hin. apply filter_In in Hin.
            rewrite Forall_forall in Hall. now apply Hall.
      - eapply Returns_bind; [apply legalMoves_returns; apply Hst|].
        intros allMoves Hall.
        eapply Returns_bind;
          [|intros v Hv; apply Returns_ret; exists v; split;
            [reflexivity | exact Hv]].
        apply quiescenceLoop_at_least.
        * intros m next Hin Hnext a b sp.
          apply firstn_incl in Hin. apply filter_In in Hin.
          destruct Hin as [Hin Hc]. rewrite Forall_forall in Hall.
          apply quiescence_returns.
          destruct (searchable_next _ _ _ _ Hst (Hall m Hin) Hnext)
            as [_ Hpred].
          apply Hpred. intros E. rewrite E in Hc. discriminate.
        * apply Forall_forall. intros m Hin.
          apply firstn_incl in Hin. apply filter_In in Hin.
          rewrite Forall_forall in Hall. now apply Hall. }
    destruct (Hrest w1) as (r & w' & Hrun & v & -> & Hv).
    exists (Some v), w'.
    split; [exact Hrun|].
    split.
    + split; [discriminate|]. intros (w2 & E). rewrite Hstop in E.
      discriminate.
    + intros v' E. injection E as <-. exact Hv.
Qed.

End StandPat.

Lemma quiescence_at_least_stand_pat_witness :
  exists r w',
    AI.quiescence lateClock 5 pawnTakesQueen NegInf PosInf white
      (Evaluator.evaluate (AI.board pawnTakesQueen) white) None None world0
    = Ok (r, w')
    /\ (r = None <->
        exists w1, AI.budgetExceeded lateClock None None world0 = Ok (true, w1))
    /\ (forall v, r = Some v ->
                  num_leb
                    (Fin (Evaluator.evaluate (AI.board pawnTakesQueen) white)) v
                  = true).
Proof.
  apply (quiescence_at_least_stand_pat lateClock 5 pawnTakesQueen NegInf PosInf
           white (Evaluator.evaluate (AI.board pawnTakesQueen) white) None None
           world0).
  split; [exact I | vm_compute; apply le_n].
Defined.


(* ------------------------------------------------------------------ *)
(** ** The repetition key names the position *)

Lemma lacks_append (c : ascii) (a b : string) :
  lacks c a -> lacks c b -> lacks c (a ++ b).
Proof.
  induction a as [|x a IH]; intros Ha Hb; [exact Hb|].
  destruct Ha as [Hx Ha]. split; [exact Hx | now apply IH].
Qed.

(** Two texts without the separator, each followed by the separator and
    a rest, are equal only part by part. *)
Lemma append_split (c : ascii) (s1 s2 r1 r2 : string) :
  lacks c s1 -> lacks c s2 ->
  (s1 ++ String c r1 = s2 ++ String c r2)%string ->
  s1 = s2 /\ r1 = r2.
Proof.
  revert s2. induction s1 as [|x s1 IH]; intros s2 H1 H2 E.
  - destruct s2 as [|y s2]; cbn in E.
    + injection E as ->. now split.
    + injection E as <- _. destruct H2 as [Hy _]. congruence.
  - destruct H1 as [Hx H1]. destruct s2 as [|y s2]; cbn in E.
    + injection E as -> _. congruence.
    + injection E as -> E. destruct H2 as [_ H2].
      destruct (IH s2 H1 H2 E) as [-> ->]. now split.
Qed.

Lemma sep_cons (c : ascii) (x : string) :
  (String c EmptyString ++ x)%string = String c x.
Proof. reflexivity. Qed.

Lemma cellText_lacks (c : option Piece) :
  lacks "," (cellText c) /\ lacks "|" (cellText c).
Proof.
  destruct c as [[[] []]|]; cbn; repeat split; discriminate.
Qed.

Lemma cellText_inj (a b : option Piece) : cellText a = cellText b -> a = b.
Proof.
  destruct a as [[[] []]|], b as [[[] []]|]; cbn; intros E;
    first [reflexivity | discriminate].
Qed.

Lemma joinWith_lacks (c : ascii) (sep : string) (l : list string) :
  lacks c sep -> Forall (lacks c) l -> lacks c (joinWith sep l).
Proof.
  intros Hsep. induction 1 as [|x t Hx Ht IH]; [exact I|].
  destruct t as [|y t]; [exact Hx|].
  change (joinWith sep (x :: y :: t))
    with (x ++ sep ++ joinWith sep (y :: t))%string.
  apply lacks_append; [exact Hx|]. now apply lacks_append.
Qed.

Lemma joinWith_comma_inj (l1 l2 : list string) :
  Forall (lacks ",") l1 -> Forall (lacks ",") l2 ->
  List.length l1 = List.length l2 ->
  joinWith "," l1 = joinWith "," l2 ->
  l1 = l2.
Proof.
  revert l2. induction l1 as [|x t1 IH]; intros l2 H1 H2 Hlen E.
  - destruct l2; [reflexivity | discriminate].
  - destruct l2 as [|y t2]; [discriminate|].
    inversion H1 as [|? ? Hx Ht1]; subst.
    inversion H2 as [|? ? Hy Ht2]; subst.
    injection Hlen as Hlen.
    destruct t1 as [|a t1], t2 as [|b t2]; try discriminate.
    + cbn in E. now subst.
    + change (joinWith "," (x :: a :: t1))
        with (x ++ String "," (joinWith "," (a :: t1)))%string in E.
      change (joinWith "," (y :: b :: t2))
        with (y ++ String "," (joinWith "," (b :: t2)))%string in E.
      destruct (append_split _ _ _ _ _ Hx Hy E) as [-> E'].
      f_equal. now apply IH.
Qed.

Lemma boardPart_inj (b1 b2 : Board) :
  List.length b1 = List.length b2 ->
  joinWith "," (map cellText b1) = joinWith "," (map cellText b2) ->
  b1 = b2.
Proof.
  intros Hlen E.
  apply joinWith_comma_inj in E.
  - revert b2 Hlen E. induction b1 as [|c b1 IH]; intros [|d b2] Hlen E;
      try discriminate; [reflexivity|].
    cbn in E. injection E as Hc E. injection Hlen as Hlen.
    apply cellText_inj in Hc. subst. f_equal. now apply IH.
  - apply Forall_forall. intros x Hx. apply in_map_iff in Hx.
    destruct Hx as (c & <- & _). apply cellText_lacks.
  - apply Forall_forall. intros x Hx. apply in_map_iff in Hx.
    destruct Hx as (c & <- & _). apply cellText_lacks.
  - now rewrite !length_map.
Qed.

Lemma epPart_inj (e1 e2 : option string) :
  epReadable e1 -> epReadable e2 ->
  (if truthyStr e1 then GameState.orElse e1 "-" else "-")
  = (if truthyStr e2 then GameState.orElse e2 "-" else "-") ->
  e1 = e2.
Proof.
  assert (Hsq : forall sq, epReadable (Some sq) ->
            (if truthyStr (Some sq)
             then GameState.orElse (Some sq) "-" else "-") = sq
            /\ sq <> "-").
  { intros sq (e & He). split.
    - cbn. destruct (String.eqb_spec sq ""); [|reflexivity].
      subst. discriminate.
    - intros ->. discriminate. }
  intros H1 H2 E.
  destruct e1 as [s1|], e2 as [s2|].
  - destruct (Hsq s1 H1) as [E1 _], (Hsq s2 H2) as [E2 _]. congruence.
  - destruct (Hsq s1 H1) as [E1 N1]. rewrite E1 in E. cbn in E. congruence.
  - destruct (Hsq s2 H2) as [E2 N2]. rewrite E2 in E. cbn in E. congruence.
  - reflexivity.
Qed.

(** X23: The key under which [recordRepetitionKey] counts a position names
    the position: two states with boards of one length and en-passant
    targets that are squares have the same key exactly when they have the
    same board, side to move, castling rights and en-passant target. *)
Theorem buildRepetitionKey_names_the_position (s1 s2 : GameState.t) :
  List.length (GameState.board s1) = List.length (GameState.board s2) ->
  epReadable (GameState.enPassantTarget s1) ->
  epReadable (GameState.enPassantTarget s2) ->
  (GameState.buildRepetitionKey s1 = GameState.buildRepetitionKey s2
   <-> GameState.asRulesState s1 = GameState.asRulesState s2).
Proof.
  intros Hlen He1 He2. split.
  - unfold GameState.buildRepetitionKey. cbv zeta.
    fold cellText.
    set (bp1 := joinWith "," (map cellText (GameState.board s1))).
    set (bp2 := joinWith "," (map cellText (GameState.board s2))).
    set (cr1 := GameState.castlingRights s1).
    set (cr2 := GameState.castlingRights s2).
    intros E.
    assert (Hbar : forall b, lacks "|" (joinWith "," (map cellText b))).
    { intros b. apply joinWith_lacks; [cbn; split; [discriminate | exact I]|].
      apply Forall_forall. intros x Hx. apply in_map_iff in Hx.
      destruct Hx as (c & <- & _). apply cellText_lacks. }
    rewrite !(sep_cons "|") in E.
    apply append_split in E; [|apply Hbar|apply Hbar].
    destruct E as [Hb E].
    apply append_split in E;
      [|destruct (GameState.activeColor s1); cbn; repeat split; discriminate
       |destruct (GameState.activeColor s2); cbn; repeat split; discriminate].
    destruct E as [Hc E].
    apply append_split in E;
      [|destruct (kingSide (whiteRights cr1)), (queenSide (whiteRights cr1)),
          (kingSide (blackRights cr1)), (queenSide (blackRights cr1));
        cbn; repeat split; discriminate
       |destruct (kingSide (whiteRights cr2)), (queenSide (whiteRights cr2)),
          (kingSide (blackRights cr2)), (queenSide (blackRights cr2));
        cbn; repeat split; discriminate].
    destruct E as [Hr Hep].
    apply boardPart_inj in Hb; [|exact Hlen].
    apply epPart_inj in Hep; [|assumption|assumption].
    assert (Hcol : GameState.activeColor s1 = GameState.activeColor s2)
      by (destruct (GameState.activeColor s1), (GameState.activeColor s2);
          first [reflexivity | discriminate]).
    assert (Hcr : cr1 = cr2).
    { destruct cr1 as [[a1 b1] [c1 d1]], cr2 as [[a2 b2] [c2 d2]].
      cbn in Hr.
      destruct a1, b1, c1, d1, a2, b2, c2, d2;
        first [reflexivity | discriminate]. }
    unfold GameState.asRulesState. fold cr1 cr2. congruence.
  - unfold GameState.asRulesState. intros E. injection E as Hb Hc Hr Hep.
    unfold GameState.buildRepetitionKey. now rewrite Hb, Hc, Hr, Hep.
Qed.

Lemma buildRepetitionKey_names_the_position_witness :
  GameState.buildRepetitionKey startingState
  = GameState.buildRepetitionKey
      (GameState.set_moveHistory startingState ["e4"])
  <-> GameState.asRulesState startingState
      = GameState.asRulesState (GameState.set_moveHistory startingState ["e4"]).
Proof.
  apply (buildRepetitionKey_names_the_position startingState
           (GameState.set_moveHistory startingState ["e4"])).
  - vm_compute. reflexivity.
  - vm_compute. exact I.
  - vm_compute. exact I.
Defined.


(* ------------------------------------------------------------------ *)
(** ** Rooks under the castling rights, throughout a game *)

Lemma applyMove_rights_have_rooks (s s' : GameState.t) (m : Move) :
  RightsHaveRooks (GameState.board s) (GameState.castlingRights s) ->
  GameState.applyMove s m = Ok s' ->
  RightsHaveRooks (GameState.board s') (GameState.castlingRights s').
Proof.
  intros Hinv Happ.
  destruct (GameState.isGameOver s) eqn:Hover.
  - unfold GameState.applyMove in Happ. rewrite Hover in Happ.
    apply Ok_inj in Happ. now subst s'.
  - destruct (applyMove_core s s' m Hover Happ) as (s1 & r & txt & Hcore & ->).
    destruct (applyMoveCore_inv _ _ _ Hcore)
      as (f & t & mp & Hfi & Hti & Hmp & _).
    destruct (applyMoveCore_fields s s1 m f t mp Hfi Hti Hmp Hcore)
      as (_ & _ & _ & Hcr & _).
    cbn [GameState.board GameState.castlingRights GameState.set_statusText
         GameState.set_result].
    rewrite Hcr. apply masked_rights_have_rooks.
Qed.

(** X24: Throughout a game played from the starting position, whatever moves
    are handed to [applyMove], every castling right that is held has its
    rook on its corner. *)
Theorem played_game_keeps_rooks_under_rights (playerColor : Color)
  (s0 : GameState.t) (moves : list Move) :
  GameState.createStarting playerColor = Ok s0 ->
  RightsHaveRooks (GameState.board (applyMoves s0 moves))
    (GameState.castlingRights (applyMoves s0 moves)).
Proof.
  intros Hstart.
  assert (H0 : RightsHaveRooks (GameState.board s0)
                 (GameState.castlingRights s0)).
  { destruct playerColor; vm_compute in Hstart; apply Ok_inj in Hstart;
      subst s0; vm_compute; repeat split; reflexivity. }
  clear Hstart. revert s0 H0.
  induction moves as [|m rest IH]; intros s Hs; cbn [applyMoves];
    [exact Hs|].
  destruct (GameState.applyMove s m) as [s'|] eqn:Happ; [|exact Hs].
  apply IH. exact (applyMove_rights_have_rooks s s' m Hs Happ).
Qed.

Lemma played_game_keeps_rooks_under_rights_witness :
  RightsHaveRooks
    (GameState.board (applyMoves startingState [pawnToE4]))
    (GameState.castlingRights (applyMoves startingState [pawnToE4])).
Proof.
  apply (played_game_keeps_rooks_under_rights white startingState [pawnToE4]).
  vm_compute. reflexivity.
Defined.
